(* ===== verification/_CoqProject ===== *)
-Q . S2P
Prelude.v
Bytes.v
Data.v
Ext.v
GoStrings.v
Instances.v
GoJson.v
Glob.v
Keys.v
EntityCodec.v
System.v
Staging.v
BitmapIndex.v
Ops.v
Revert.v
Store.v
StoreQuery.v
Chain.v
Wire.v
WireProofs.v
Language.v
Grammar.v
GrammarProofs.v
Meaning.v
Normalize.v
NormalizeProofs.v
GrammarTrees.v
Effects.v
Spec.v
Repr.v
OpsProofs.v
CommitProofs.v
BlockProofs.v
Atomicity.v
RevertProofs.v
ReorgProofs.v
IdProofs.v
HistoryProofs.v
Ingest.v
Session.v
SessionProofs.v
QueryProofs.v
ScanProofs.v
Evaluate.v
EvaluateProofs.v
QueryLeaves.v
StoreIndex.v
Server.v
Version.v
GoFlag.v
Daemon.v
Process.v
ServerProofs.v
SessionReads.v
Stepwise.v
Race.v
RaceEval.v
CodecTheorems.v
GrammarTheorems.v
QueryTheorems.v
ServerTheorems.v
StoreTheorems.v
HistoryTheorems.v
SessionTheorems.v
DaemonTheorems.v
WireTheorems.v
Demo.v
StoreWitnesses.v
HistoryWitnesses.v
WireWitnesses.v
DaemonWitnesses.v
GrammarWitnesses.v
QueryWitnesses.v
ServerWitnesses.v
SessionWitnesses.v
Findings.v
