(* ===== verification/Prelude.v ===== *)
(** * arkiv-storage-service: a verified model

    The service keeps the entities of an Arkiv chain next to a bitmap index over
    their annotations.  A chain node pushes blocks of entity operations to it
    over JSON-RPC and undoes them when the chain reorganises; clients query it.
    This library models the Go code under src/ function by function and proves
    what its parts promise to one another and to their users.

    ** The program

    A request of the chain node ([commitChain], [revert], [reorg]) is decoded
    (src/types, src/chain) and handed to the store (src/store).  The store opens
    the account trie at its head root, applies the operations of a block to a
    cache of dirty entities and dirty bitmaps over a staging database, and
    commits: entities become the code of their accounts; every bitmap becomes a
    content-addressed blob whose hash sits in a storage slot of the system
    account, so that the state root covers the index; then one atomic batch
    writes blobs, trie nodes, index pointers and the head record to PebbleDB.  A
    revert returns to the root of the ancestor and repopulates the mutable
    entries from its trie.  A query (src/query) is parsed, normalised to
    disjunctive normal form, evaluated bitmap by bitmap through the interface
    [StoreQuerier], and its IDs are fetched page by page through [Backend].  The
    daemon (src/cmd) reads flags and configuration and wires these together.

    ** The files

    Foundations:
    - [Prelude]: Go's outcomes ([result]: a value, an error, or a panic), its
      monad, lists and their automation.  [Bytes]: byte strings, fixed arrays,
      big-endian integers, [uint64] arithmetic with its wrap-around.  [GoStrings],
      [GoJson], [GoFlag]: what the source uses of Go's [strings]/[bytes],
      [encoding/json] and [flag].
    - [Data]: the structs of src/types/types.go and of src/store/entity.go.
    - [Ext]: the third-party code as classes of operations with classes of laws
      ([EthCommon], [Crypto], [Roaring], [Rlp], [KeyValue], [EthDB], [StateLib],
      [GoRuntime], bundled as [Env] and [EnvOk]).  [Instances]: an executable
      environment that satisfies them all, on which the witnesses compute; it
      shows that the laws are consistent and models no library.

    The store, one file per source file:
    - [Keys] (keys.go): the key space, the head record, sortable numbers.
    - [EntityCodec] (entity.go, the annotation part of ops.go).
    - [System] (system.go): counter, annotation slots, ID slots.
    - [Staging] (staging.go): [StagingDB], a nil-able buffer over the database,
      and [CacheStore], the state threaded through a block.
    - [BitmapIndex] (bitmap.go), [Ops] (ops.go and [CacheStore.Commit] and
      [Discard] of staging.go), [Revert] (revert.go).
    - [Store] (store.go): the [Store] record is the Go struct less its mutex and
      handles: the database, the head root, hash and number.  [ProcessBlock],
      [RevertBlocks], [Reorg] take a store to an outcome and the store they
      leave, on errors too.
    - [StoreQuery] (query.go), with the pattern matcher of query.go in [Glob].

    Around the store:
    - [Chain] (src/chain/server.go): the three ingest handlers.  [Wire] (types.go,
      src/chain/types.go): the JSON codecs of their requests.
    - [Language] (language.go, types.go): the parse tree; [Grammar]: the lexer's
      rules and the grammar that the struct tags state.  [Normalize] (normalize.go), [Evaluate]
      (evaluate.go, with the class [StoreQuerier] and the store's instance),
      [Server] (server.go, with the class [Backend] and the store's instance).
    - [Version] (src/version), [Daemon] (main.go, up to the two servers),
      [Process] (the rest of main.go: the life of the process, with the requests
      of [Chain] cut into their critical sections).

    Specification and representation:
    - [Effects]: the entities that the operations promise, field by field, and
      that [Ops] builds them.
    - [Spec]: the abstract store, a finite map from addresses to entities with
      their IDs and the number of IDs given out; the six operations as partial
      functions on it ([None]: must fail), blocks, runs of blocks, and the inputs
      the promise is about.
    - [Meaning]: what a query says of an entity ([satisfies]), by recursion on
      the parse tree and with its own account of negation, hexadecimal literals,
      comparisons and the attributes an entity has; it uses no definition of the
      normaliser and the evaluator.  A negation turns [=], [in] and [~] into their
      complements and [<] into [>=]: of an entity without the attribute the first
      three hold negated, the last does not.
    - [Repr]: how tries and PebbleDB represent an abstract state.  [trie_repr] is
      the part that a root carries, true of every historical root
      ([snapshot], [root_repr]); [pebble_repr] is the mutable part of the head;
      [head_repr] is the invariant of a store at rest, [cs_repr] that of a block
      in progress.
    - [Session]: the abstract service, a chain of blocks with their states and
      the set of IDs that are cached; [session] is any sequence of opening an
      empty database, commits, reverts, failures and restarts.

    Proofs and theorems: [OpsProofs], [CommitProofs], [BlockProofs],
    [Atomicity], [RevertProofs], [ReorgProofs], [IdProofs], [HistoryProofs],
    [SessionProofs] and [Ingest] for the ingest path; [GrammarProofs],
    [GrammarTrees], [NormalizeProofs], [QueryProofs], [ScanProofs],
    [EvaluateProofs], [QueryLeaves], [StoreIndex], [ServerProofs], [SessionReads],
    [Race] and [RaceEval] for the read path; [Stepwise] for reverts beyond what is
    cached; [WireProofs] for the codecs.  The
    files [...Theorems] state the properties, [...Witnesses] apply them at the run
    of [Demo], two blocks on an empty database, and [Findings] holds a run that a
    comment of the source rules out.

    ** What is shown

    - Ingest ([StoreTheorems]).  Each operation, each block and each
      [commitChain] implements its abstract counterpart, whose entities are those
      of [Effects]: it fails exactly when
      an operation must fail or the environment does, and otherwise leaves a
      store that represents the next abstract state.  A block that fails changes
      nothing, whatever the environment does.  Every earlier block still reads
      its own state.
    - Undoing ([StoreTheorems], [HistoryTheorems]).  A revert restores root,
      entities, IDs and index of the ancestor; any run of linked blocks can be
      undone in one call; a reorg ends in the state of the new blocks run from
      the ancestor.
    - The service as a whole ([SessionTheorems]).  After any session the store
      serves its chain: the head, the state of every block, what a restart would
      load, and which IDs resolve.  Queries at any block of the chain answer from
      the state of that block.  [commitChain] and [reorg] keep the store serving
      a chain, whatever their outcome.  A session remembers the IDs that a revert
      drops although an older block still has them ([covered], [abs_undo]); they
      are what such queries leave out, and what undoing blocks in two calls
      instead of one loses ([stepwise_revert_loses_ids]).
    - Progress ([HistoryTheorems]).  With an environment that answers,
      [commitChain] answers, and what it stored can be read.
    - Restarts and shutdown ([Ingest], [Process], [DaemonTheorems]).  Under any
      interleaving of the critical sections of ingest requests, and wherever the
      process is stopped, what is in memory is what opening the database would
      load.  A shutdown finishes every request that was read; once the chain
      server has stopped the store is final.
    - Reads ([QueryTheorems], [Glob]).  Point reads, the $all bitmap, numeric,
      string, prefix and pattern scans are exact; [globMatch] decides the
      declarative pattern language.
    - The query language ([GrammarTheorems]).  The grammar of the tags gives a
      sequence of tokens at most one tree, unless a token quotes a closing
      parenthesis; the trees it gives are exactly the well-formed ones; each of
      them can be written as tokens and read back.
    - Queries ([QueryTheorems]).  Normalisation terminates, does not panic on
      the trees it is given by the grammar (a number compared with an
      address-valued variable apart) and its normal form means what [Meaning]
      says of the query, under every interpretation of the atomic comparisons;
      evaluation is correct against any index that keeps the promises of
      [IndexOk]; the store keeps them ([StoreIndex]); so a query selects exactly
      the live entities that satisfy it.
    - The server ([ServerTheorems]).  A page holds the newest matches below the
      cursor; following cursors collects every match once; a page of an earlier
      block does not change when blocks are committed; a query that races
      commits, in its evaluation and in its fetches, answers from the states of
      its moments, is right about what does not change, and loses no ID.  The
      attributes of a response are those of the entity that the flags keep, and
      the index lists every one of them.
    - Codecs ([CodecTheorems], [WireTheorems]): round trips, orderings, bounds,
      the typing of decoded requests.

    ** Hypotheses

    - The laws of [Ext], which state documented behaviour of the libraries.
      Failing calls are in the model: [kv_Write], [state_Commit],
      [rlp_EncodeToBytes] and the others return [result], and no law says that
      they succeed (writes to the in-memory buffer apart).  Iterators report an
      error at their end; the scans of the read path ignore it as the source
      does, so their theorems assume there is none.
    - [CollisionFree]: Keccak-256 is injective on a set of strings, [hashed],
      that contains the names and bitmaps a run hashes.  It is a predicate and not
      injectivity outright, which would be false; the conditions [tracked],
      [tracked_id] and [block_hashed] say which strings a theorem needs.
    - [block_valid]: what the service relies on its peer for.  A new entity has a
      key that is not live, is not a system address, and its attribute names hold
      no zero byte and are not $expiration or $owner.
    - Parameters without laws: the participle parser [ParseString],
      [filepath_Join], [yaml_Decode].  Parameters with round-trip laws: [HexJson]
      (text forms of hashes, addresses, bytes and quantities) and [Hexutil]
      (cursors).

    ** Recursion

    The source's loops are structural here except five.  [Paren_Normalize] takes
    fuel because it recurses into an inverted copy of its argument;
    [normalize_fuel], twice the depth of the tree plus two, is proved enough.
    [globMatch] recurses on a shorter pattern and gets the length plus one.
    [fetchPage] gets the number of IDs, and every round consumes one.
    [utf8_coerce] gets the length of the string, and every step consumes a byte.
    [follow], a client and not part of the source, answers with any fuel above
    the number of entities.

    ** Concurrency

    [ProcessBlock], [RevertBlocks] and [Reorg] hold the write lock throughout, so
    each is one step; [commitChain] takes it once per block, and [Ingest] makes
    every block a step of its own.  Queries hold no lock between two backend
    calls.  [Race] gives every fetch its own, later store.  [RaceEval] also gives
    every index read of the evaluation its own store: the evaluation is written
    once more with sets of outcomes, and equals the one of [Evaluate] when the
    store stands still.  Only commits race there, and at the head; a query that
    races a revert is not covered.

    ** Not modelled

    - The engine that participle builds from the lexer's rules and the struct
      tags: its code is not in the repository, so [ParseString] is a parameter.
      Modelled are the text each rule matches ([token_ok]; letters beyond ASCII
      are taken for any bytes above 127), and the grammar of the tags as a
      relation between tokens and trees.  A parser of it accepts some of the
      pairs; which of them depends on its lookahead.  The literals of the tags
      match a token by its text, whatever its type, as the library documents.
    - The text of JSON: the library's.  [Wire] and [GoJson] work on trees, with
      repeated members, unknown members, nulls, case-insensitive names and lossy
      strings.  Elements that a decoded slice keeps beyond its new length are
      not visible to the source and not in the model.
    - HTTP, the registration of the RPC services and logging.  [Process] has of
      the HTTP servers what the standard library documents: connections that are
      accepted, kept and closed, and a [Shutdown] that waits for those in use.
      [NewMemory] is [New] on an empty database.
    - Encoding of responses: a response holds the projected entities, not their
      text.

    ** What modelling showed

    Reverting in two calls loses the IDs of entities that reverting in one call
    keeps ([SessionTheorems]); a comparison of $owner, $creator or $key with a
    number panics; pattern and string scans skip empty values, so they disagree
    with [globMatch]; 8-byte string values pass for numbers in numeric scans;
    range and pattern queries at an earlier block read the index of the head;
    responses leave out two of the built-in attributes that the index has;
    [reorg] and [commitChain] are not atomic across their blocks; an operation
    decoded over another can have two pointers set ([Findings]).  The manifest lists the
    places. *)
From Stdlib Require Export Strings.Byte NArith Lia.
From stdpp Require Export base gmap sets list strings numbers sorting.

(** ** Outcomes

    A Go function returning [(T, error)] yields [Ok], [Err]; a run-time panic
    (nil dereference, slice out of range) is the third outcome. *)
Inductive error :=
  | Errorf (msg : string)
  | Wrapf (msg : string) (cause : error).

Inductive result (A : Type) :=
  | Ok (a : A)
  | Err (e : error)
  | Panic.
Arguments Ok {_} _.
Arguments Err {_} _.
Arguments Panic {_}.

#[global] Instance result_ret : MRet result := λ _ a, Ok a.
#[global] Instance result_bind : MBind result := λ _ _ k m,
  match m with Ok a => k a | Err e => Err e | Panic => Panic end.
#[global] Instance result_fmap : FMap result := λ _ _ f m,
  match m with Ok a => Ok (f a) | Err e => Err e | Panic => Panic end.

(** [if err != nil { return fmt.Errorf(msg + ": %w", err) }] *)
Definition wrap {A} (msg : string) (m : result A) : result A :=
  match m with Err e => Err (Wrapf msg e) | _ => m end.

(** [v, _ := f()]: the error is dropped and [v] is the zero value on error. *)
Definition ignore_err {A} (zero : A) (m : result A) : result A :=
  match m with Err _ => Ok zero | _ => m end.

(** The value of a successful outcome, for stating properties. *)
Definition ok_val {A} (m : result A) : option A :=
  match m with Ok a => Some a | _ => None end.

Lemma bind_Ok {A B} (m : result A) (k : A → result B) b :
  m ≫= k = Ok b ↔ ∃ a, m = Ok a ∧ k a = Ok b.
Proof. destruct m; cbn; split; first [by eauto | by intros (?&?&?); simplify_eq | congruence]. Qed.

(** ** Automation

    [bind_step] and [wrap_step] reduce the monad around an outcome that is known;
    [run_Ok H] takes a successful run apart, step by step; [lengths] computes the
    length of a concatenation of fixed-width fields. *)
Ltac bind_step := cbn [mbind result_bind].
Ltac wrap_step := cbn [wrap mbind result_bind].
Ltac run_Ok H :=
  repeat lazymatch type of H with
  | mbind _ _ = Ok _ => let x := fresh "x" in let Hx := fresh "Hx" in apply bind_Ok in H as (x & Hx & H)
  | Ok _ = Ok _ => injection H as <-
  end.

Create Rewrite HintDb lengths.
#[export] Hint Rewrite @length_app @length_replicate : lengths.
Ltac lengths := autorewrite with lengths; first [done | lia].

Lemma wrap_Ok {A} msg (m : result A) a : wrap msg m = Ok a ↔ m = Ok a.
Proof. destruct m; cbn; split; first [by eauto | by intros (?&?&?); simplify_eq | congruence]. Qed.

Lemma ok_val_Some {A} (m : result A) a : ok_val m = Some a ↔ m = Ok a.
Proof. destruct m; cbn; split; first [by eauto | by intros (?&?&?); simplify_eq | congruence]. Qed.

(** Iteration with early return on error:
    [for _, x := range l { if err := f(x); err != nil { return err } }]. *)
Fixpoint foldM {A S} (f : S → A → result S) (s : S) (l : list A) : result S :=
  match l with
  | [] => Ok s
  | x :: l => s' ← f s x; foldM f s' l
  end.

(** Element-wise, left to right, stopping at the first failure. *)
Fixpoint mapM_result {A B} (f : A → result B) (l : list A) : result (list B) :=
  match l with
  | [] => Ok []
  | x :: l => y ← f x; ys ← mapM_result f l; Ok (y :: ys)
  end.

Lemma mapM_result_Ok {A B} (f : A → result B) l : (∀ x, x ∈ l → ∃ y, f x = Ok y) →
  ∃ ys, mapM_result f l = Ok ys ∧ Forall2 (λ x y, f x = Ok y) l ys.
Proof.
  induction l as [|x l IH]; intros Hf; cbn; [by exists []|].
  destruct (Hf x) as [y Hy]; [set_solver|]. destruct IH as (ys & Hys & HF); [set_solver|].
  rewrite Hy, Hys. cbn. exists (y :: ys). by split; [|constructor].
Qed.

Lemma foldM_app {A S} (f : S → A → result S) s l1 l2 :
  foldM f s (l1 ++ l2) = (s' ← foldM f s l1; foldM f s' l2).
Proof. revert s. induction l1 as [|x l1 IH]; intros s; cbn; [done|]. by destruct (f s x); cbn. Qed.

(** Invariant rule for [foldM]: a relation between the elements already
    consumed and the state, kept by every successful step. *)
Lemma foldM_inv {A S} (P : list A → S → Prop) (f : S → A → result S) s l s' :
  P [] s →
  (∀ done x rest st st', l = done ++ x :: rest → P done st → f st x = Ok st' → P (done ++ [x]) st') →
  foldM f s l = Ok s' → P l s'.
Proof.
  intros H0 Hstep. assert (∀ done rest st, l = done ++ rest → P done st →
    foldM f st rest = Ok s' → P l s') as Hgo; [|by eapply (Hgo [])].
  intros done rest. revert done. induction rest as [|x rest IH]; intros done st -> HP; cbn.
  - intros [= <-]. by rewrite app_nil_r.
  - intros (st' & Hf & Hrest)%bind_Ok.
    eapply (IH (done ++ [x])); [by rewrite <-app_assoc| |done]. by eapply Hstep.
Qed.

(** A fold whose every step succeeds, under an invariant, succeeds. *)
Lemma foldM_total {A S} (P : list A → S → Prop) (f : S → A → result S) s l :
  P [] s →
  (∀ done x rest st, l = done ++ x :: rest → P done st →
     ∃ st', f st x = Ok st' ∧ P (done ++ [x]) st') →
  ∃ s', foldM f s l = Ok s' ∧ P l s'.
Proof.
  intros H0 Hstep. assert (∀ done rest st, l = done ++ rest → P done st →
    ∃ s', foldM f st rest = Ok s' ∧ P l s') as Hgo; [|by eapply (Hgo [])].
  intros done rest. revert done. induction rest as [|x rest IH]; intros done st -> HP; cbn.
  - eexists. split; [done|]. by rewrite app_nil_r.
  - destruct (Hstep done x rest st eq_refl HP) as (st' & -> & HP'). cbn.
    apply (IH (done ++ [x])); [by rewrite <-app_assoc|done].
Qed.

(** Every outcome of a fold: the invariant on success, a step that failed with
    its reason on error, never a panic. *)
Lemma foldM_outcome {A S} (P : list A → S → Prop) (Q : Prop) (f : S → A → result S) s l :
  P [] s →
  (∀ done x rest st, l = done ++ x :: rest → P done st →
     match f st x with Ok st' => P (done ++ [x]) st' | Err _ => Q | Panic => False end) →
  match foldM f s l with Ok s' => P l s' | Err _ => Q | Panic => False end.
Proof.
  intros H0 Hstep. assert (∀ done rest st, l = done ++ rest → P done st →
    match foldM f st rest with Ok s' => P l s' | Err _ => Q | Panic => False end) as Hgo; [|by apply (Hgo [])].
  intros done rest. revert done. induction rest as [|x rest IH]; intros done st -> HP; cbn.
  - by rewrite app_nil_r.
  - specialize (Hstep done x rest st eq_refl HP). destruct (f st x) as [st'| |]; cbn; [|done..].
    apply (IH (done ++ [x])); [by rewrite <-app_assoc|done].
Qed.

Lemma foldM_map {A B S} (f : S → B → result S) (h : A → B) s l :
  foldM (λ s x, f s (h x)) s l = foldM f s (map h l).
Proof. revert s. induction l as [|x l IH]; intros s; cbn; [done|]. destruct (f s (h x)); cbn; auto. Qed.

Lemma foldM_concat {A S} (f : S → A → result S) s (ls : list (list A)) :
  foldM (λ s l, foldM f s l) s ls = foldM f s (concat ls).
Proof.
  revert s. induction ls as [|l ls IH]; intros s; cbn; [done|].
  rewrite foldM_app. destruct (foldM f s l); cbn; auto.
Qed.

Lemma foldM_ext {A S} (f g : S → A → result S) s l : (∀ s x, f s x = g s x) → foldM f s l = foldM g s l.
Proof. intros H. revert s. induction l as [|x l IH]; intros s; cbn; [done|]. rewrite H. destruct (g s x); cbn; auto. Qed.

(** The counterpart of an element under [Forall2]. *)
Lemma Forall2_in_r {A B} (R : A → B → Prop) xs ys y : Forall2 R xs ys → y ∈ ys → ∃ x, x ∈ xs ∧ R x y.
Proof.
  induction 1 as [|x' y' xs ys Hxy HF IH]; intros Hy; [by apply elem_of_nil in Hy|].
  apply elem_of_cons in Hy as [->|Hy].
  - exists x'. split; [|done]. apply elem_of_cons. by left.
  - destruct (IH Hy) as (x & Hx & ?). exists x. split; [|done]. apply elem_of_cons. by right.
Qed.
