(* ===== verification/Bytes.v ===== *)
(** Bytes, big-endian integers, the lexicographic order of byte strings, and
    fixed-size byte arrays: what the source uses of Go's [byte], [string],
    [[]byte], [[n]byte], of [bytes]/[strings] comparison, and of
    [encoding/binary]. *)
From Stdlib Require Strings.String.
From S2P Require Export Prelude.

(** ** Bytes *)

(** Go's [byte], and [[]byte] and [string] values, which are byte sequences. *)
Abbreviation byte := Init.Byte.byte.
Abbreviation bytes := (list byte).

#[global] Instance byte_eq_decision : EqDecision byte := Byte.byte_eq_dec.

(** The numeric value of a byte, and the conversion [byte(n)], which keeps the
    low eight bits. *)
Definition byte_val (b : byte) : N := Byte.to_N b.
Definition byte_of (n : N) : byte := default x00 (Byte.of_N (n mod 256)).

Lemma byte_val_lt b : (byte_val b < 256)%N.
Proof. pose proof (Byte.to_N_bounded b). unfold byte_val. lia. Qed.

Lemma byte_val_of n : byte_val (byte_of n) = (n mod 256)%N.
Proof.
  unfold byte_val, byte_of. destruct (Byte.of_N (n mod 256)) eqn:E; simpl.
  - by apply Byte.to_of_N.
  - apply Byte.of_N_None_iff in E. pose proof (N.mod_lt n 256). lia.
Qed.

Lemma byte_of_val b : byte_of (byte_val b) = b.
Proof.
  unfold byte_of. rewrite N.mod_small by apply byte_val_lt.
  unfold byte_val. by rewrite Byte.of_to_N.
Qed.

#[global] Instance byte_val_inj : Inj (=) (=) byte_val.
Proof. intros a b H. by rewrite <-(byte_of_val a), H, byte_of_val. Qed.

#[global] Program Instance byte_countable : Countable byte :=
  inj_countable' byte_val byte_of _.
Next Obligation. apply byte_of_val. Qed.

(** A Go string literal as a byte sequence. *)
Definition str (s : string) : bytes := String.list_byte_of_string s.
Arguments str _ : simpl never.

(** ** uint64 *)

Definition MaxUint64 : N := 2 ^ 64 - 1.
(** Conversion to, and wrap-around of, [uint64]. *)
Definition u64 (n : N) : N := n mod 2 ^ 64.
(** The values of the type. *)
Definition is_u64 (n : N) : Prop := (n < 2 ^ 64)%N.

Lemma u64_id n : is_u64 n → u64 n = n.
Proof. intros. by apply N.mod_small. Qed.
Lemma u64_bound n : is_u64 (u64 n).
Proof. by apply N.mod_lt. Qed.

(** ** Big-endian integers *)

(** The [k] low base-256 digits of [v], most significant first. *)
Fixpoint be_encode (k : nat) (v : N) : bytes :=
  match k with
  | O => []
  | S k => be_encode k (v / 256) ++ [byte_of v]
  end.

Definition be_decode (b : bytes) : N :=
  foldl (λ acc c, acc * 256 + byte_val c)%N 0%N b.

Lemma be_encode_length k v : length (be_encode k v) = k.
Proof. revert v. induction k as [|k IH]; intros v; simpl; [done|]. rewrite length_app, IH. simpl. lia. Qed.

Lemma be_decode_snoc b c : be_decode (b ++ [c]) = (be_decode b * 256 + byte_val c)%N.
Proof. unfold be_decode. by rewrite foldl_app. Qed.

Lemma be_decode_lt b : (be_decode b < 256 ^ N.of_nat (length b))%N.
Proof.
  induction b as [|c b IH] using rev_ind; [done|].
  rewrite be_decode_snoc, length_app, Nat.add_1_r, Nat2N.inj_succ, N.pow_succ_r by lia.
  pose proof (byte_val_lt c). nia.
Qed.

Lemma be_decode_encode k v : be_decode (be_encode k v) = (v mod 256 ^ N.of_nat k)%N.
Proof.
  revert v. induction k as [|k IH]; intros v; [by rewrite N.mod_1_r|].
  simpl be_encode. rewrite be_decode_snoc, IH, byte_val_of.
  rewrite Nat2N.inj_succ, N.pow_succ_r by lia.
  rewrite N.Div0.mod_mul_r. lia.
Qed.

Lemma be_encode_decode b : be_encode (length b) (be_decode b) = b.
Proof.
  induction b as [|c b IH] using rev_ind; [done|].
  rewrite length_app, Nat.add_1_r, be_decode_snoc. simpl.
  pose proof (byte_val_lt c).
  replace ((be_decode b * 256 + byte_val c) / 256)%N with (be_decode b).
  2:{ apply (N.div_unique _ _ _ (byte_val c)); lia. }
  rewrite IH. f_equal. f_equal. apply byte_val_inj. rewrite byte_val_of.
  symmetry. apply (N.mod_unique _ _ (be_decode b)); lia.
Qed.

(** [binary.BigEndian.PutUint64] into a fresh 8-byte array, and
    [binary.BigEndian.Uint64], which panics on a slice shorter than 8 bytes. *)
Definition PutUint64 (v : N) : bytes := be_encode 8 v.
Definition Uint64 (b : bytes) : result N :=
  if (length b <? 8)%nat then Panic else Ok (be_decode (take 8 b)).

Lemma PutUint64_length v : length (PutUint64 v) = 8%nat.
Proof. apply be_encode_length. Qed.

Lemma be_decode_PutUint64 v : is_u64 v → be_decode (PutUint64 v) = v.
Proof.
  intros Hv. unfold PutUint64. rewrite be_decode_encode. apply N.mod_small.
  unfold is_u64 in Hv. by change (256 ^ N.of_nat 8)%N with (2 ^ 64)%N.
Qed.

Lemma Uint64_app b rest : length b = 8%nat → Uint64 (b ++ rest) = Ok (be_decode b).
Proof.
  intros Hb. unfold Uint64. rewrite length_app, Hb.
  destruct (Nat.ltb_spec (8 + length rest) 8); [lia|]. by rewrite take_app_length'.
Qed.

Lemma Uint64_PutUint64 v rest : is_u64 v → Uint64 (PutUint64 v ++ rest) = Ok v.
Proof. intros. rewrite Uint64_app by apply PutUint64_length. by rewrite be_decode_PutUint64. Qed.

Lemma PutUint64_be_decode b : length b = 8%nat → PutUint64 (be_decode b) = b.
Proof. intros Hb. unfold PutUint64. rewrite <-Hb. apply be_encode_decode. Qed.

Lemma PutUint64_inj v w : is_u64 v → is_u64 w → PutUint64 v = PutUint64 w → v = w.
Proof. intros Hv Hw H. rewrite <-(be_decode_PutUint64 v), H by done. by apply be_decode_PutUint64. Qed.

Lemma be_decode_u64 b : length b = 8%nat → is_u64 (be_decode b).
Proof. intros Hb. pose proof (be_decode_lt b) as H. rewrite Hb in H. exact H. Qed.

(** ** Lexicographic order

    Go's [<] on strings, [bytes.Compare] and [strings.Compare], and the
    "binary-alphabetical" key order of an [ethdb] iterator. *)
Fixpoint bytes_compare (a b : bytes) : comparison :=
  match a, b with
  | [], [] => Eq
  | [], _ => Lt
  | _, [] => Gt
  | x :: a, y :: b =>
      match (byte_val x ?= byte_val y)%N with Eq => bytes_compare a b | c => c end
  end.

Definition bytes_ltb (a b : bytes) : bool :=
  match bytes_compare a b with Lt => true | _ => false end.
Definition bytes_leb (a b : bytes) : bool :=
  match bytes_compare a b with Gt => false | _ => true end.
Definition bytes_lt (a b : bytes) : Prop := bytes_compare a b = Lt.
Definition bytes_le (a b : bytes) : Prop := bytes_compare a b ≠ Gt.

#[global] Instance bytes_lt_dec : RelDecision bytes_lt.
Proof. unfold bytes_lt. intros a b. apply _. Defined.
#[global] Instance bytes_le_dec : RelDecision bytes_le.
Proof. unfold bytes_le. intros a b. apply _. Defined.

Lemma bytes_compare_eq a b : bytes_compare a b = Eq ↔ a = b.
Proof.
  revert b. induction a as [|x a IH]; intros [|y b]; simpl; try done.
  destruct (N.compare_spec (byte_val x) (byte_val y)) as [E|E|E].
  - apply byte_val_inj in E as ->. rewrite IH. split; congruence.
  - split; [done|]. intros [= -> ->]. lia.
  - split; [done|]. intros [= -> ->]. lia.
Qed.

Lemma bytes_compare_refl a : bytes_compare a a = Eq.
Proof. by apply bytes_compare_eq. Qed.

Lemma bytes_compare_antisym a b : bytes_compare b a = CompOpp (bytes_compare a b).
Proof.
  revert b. induction a as [|x a IH]; intros [|y b]; simpl; try done.
  rewrite (N.compare_antisym (byte_val x) (byte_val y)).
  destruct (byte_val x ?= byte_val y)%N; simpl; auto.
Qed.

Lemma bytes_lt_trans a b c : bytes_lt a b → bytes_lt b c → bytes_lt a c.
Proof.
  unfold bytes_lt. revert b c.
  induction a as [|x a IH]; intros [|y b] [|z c]; simpl; try done.
  destruct (N.compare_spec (byte_val x) (byte_val y)),
    (N.compare_spec (byte_val y) (byte_val z)),
    (N.compare_spec (byte_val x) (byte_val z)); try done; try lia; eauto.
Qed.

Lemma bytes_lt_irrefl a : ¬ bytes_lt a a.
Proof. unfold bytes_lt. by rewrite bytes_compare_refl. Qed.

Lemma bytes_lt_gt a b : bytes_lt a b ↔ bytes_compare b a = Gt.
Proof. unfold bytes_lt. rewrite (bytes_compare_antisym a b). by destruct (bytes_compare a b). Qed.

Lemma bytes_le_lt_eq a b : bytes_le a b ↔ bytes_lt a b ∨ a = b.
Proof.
  unfold bytes_le, bytes_lt. rewrite <-bytes_compare_eq.
  destruct (bytes_compare a b); intuition congruence.
Qed.

Lemma bytes_le_refl a : bytes_le a a.
Proof. apply bytes_le_lt_eq. by right. Qed.

Lemma bytes_not_le a b : ¬ bytes_le a b ↔ bytes_lt b a.
Proof. rewrite bytes_lt_gt. unfold bytes_le. destruct (bytes_compare a b); intuition congruence. Qed.

Lemma bytes_not_lt a b : ¬ bytes_lt a b ↔ bytes_le b a.
Proof. rewrite <-bytes_not_le. destruct (decide (bytes_le b a)); tauto. Qed.

Lemma bytes_le_lt_trans a b c : bytes_le a b → bytes_lt b c → bytes_lt a c.
Proof. rewrite bytes_le_lt_eq. intros [H| ->]; eauto using bytes_lt_trans. Qed.
Lemma bytes_lt_le_trans a b c : bytes_lt a b → bytes_le b c → bytes_lt a c.
Proof. rewrite bytes_le_lt_eq. intros H [H'| <-]; eauto using bytes_lt_trans. Qed.
Lemma bytes_le_trans a b c : bytes_le a b → bytes_le b c → bytes_le a c.
Proof.
  rewrite (bytes_le_lt_eq a b). intros [H| ->] H'; [|done].
  apply bytes_le_lt_eq. left. by eapply bytes_lt_le_trans.
Qed.
Lemma bytes_le_total a b : bytes_le a b ∨ bytes_le b a.
Proof. destruct (decide (bytes_le a b)) as [|Hn]; [by left|right]. by apply bytes_le_lt_eq, or_introl, bytes_not_le. Qed.

#[global] Instance bytes_lt_strict : StrictOrder bytes_lt.
Proof. split; [exact bytes_lt_irrefl|exact bytes_lt_trans]. Qed.

(** A common prefix does not matter, and a prefix is below its extensions. *)
Lemma bytes_compare_app p a b : bytes_compare (p ++ a) (p ++ b) = bytes_compare a b.
Proof. induction p as [|x p IH]; simpl; [done|]. by rewrite N.compare_refl. Qed.

Lemma bytes_lt_app p a b : bytes_lt (p ++ a) (p ++ b) ↔ bytes_lt a b.
Proof. unfold bytes_lt. by rewrite bytes_compare_app. Qed.
Lemma bytes_le_app p a b : bytes_le (p ++ a) (p ++ b) ↔ bytes_le a b.
Proof. unfold bytes_le. by rewrite bytes_compare_app. Qed.

Lemma bytes_le_nil a : bytes_le [] a.
Proof. by destruct a. Qed.

Lemma bytes_le_prefix p s : bytes_le p (p ++ s).
Proof. rewrite <-(app_nil_r p) at 1. rewrite bytes_le_app. apply bytes_le_nil. Qed.

(** On strings of equal length the order is that of the big-endian values. *)
Lemma bytes_compare_snoc a b x y : length a = length b →
  bytes_compare (a ++ [x]) (b ++ [y]) =
  match bytes_compare a b with Eq => (byte_val x ?= byte_val y)%N | c => c end.
Proof.
  revert b. induction a as [|c a IH]; intros [|d b] Hl; simpl in *; try done.
  - by destruct (byte_val x ?= byte_val y)%N.
  - destruct (byte_val c ?= byte_val d)%N; try done. apply IH. lia.
Qed.

Lemma bytes_compare_be a b : length a = length b →
  bytes_compare a b = (be_decode a ?= be_decode b)%N.
Proof.
  revert b. induction a as [|x a IH] using rev_ind; intros b Hl.
  - by destruct b.
  - destruct b as [|y b _] using rev_ind; [rewrite length_app in Hl; simpl in Hl; lia|].
    rewrite !length_app in Hl. simpl in Hl. assert (length a = length b) by lia.
    rewrite bytes_compare_snoc, IH, !be_decode_snoc by done.
    pose proof (byte_val_lt x). pose proof (byte_val_lt y).
    destruct (N.compare_spec (be_decode a) (be_decode b)) as [->|?|?].
    + destruct (N.compare_spec (byte_val x) (byte_val y)); symmetry;
        [apply N.compare_eq_iff|apply N.compare_lt_iff|apply N.compare_gt_iff]; lia.
    + symmetry. apply N.compare_lt_iff. lia.
    + symmetry. apply N.compare_gt_iff. lia.
Qed.

(** ** Fixed-size arrays [[n]byte] *)

Record array (n : nat) := Array {
  array_bytes :> bytes;
  array_len : bool_decide (length array_bytes = n);
}.
Arguments array_bytes {_} _.
Arguments array_len {_} _.

Lemma array_length {n} (a : array n) : length a = n.
Proof. exact (bool_decide_unpack _ (array_len a)). Qed.
#[export] Hint Rewrite PutUint64_length @array_length : lengths.

#[global] Instance array_bytes_inj n : Inj (=) (=) (@array_bytes n).
Proof. intros [a Ha] [b Hb]; simpl. intros ->. f_equal. apply proof_irrel. Qed.

#[global] Instance array_eq_decision n : EqDecision (array n).
Proof.
  intros a b. destruct (decide (array_bytes a = array_bytes b)) as [E|E].
  - left. by apply array_bytes_inj.
  - right. congruence.
Defined.

(** [var a [n]byte; copy(a[:], b)]: excess bytes are dropped, missing ones zero. *)
Definition zeros (n : nat) : bytes := replicate n x00.

Lemma array_copy_len n b : bool_decide (length (take n (b ++ zeros n)) = n).
Proof. apply bool_decide_pack. unfold zeros. rewrite length_take, length_app, length_replicate. lia. Qed.
Definition array_copy (n : nat) (b : bytes) : array n := Array n _ (array_copy_len n b).

(** The zero value of the type. *)
Definition array_zero (n : nat) : array n := array_copy n [].

Lemma array_copy_exact n b : length b = n → array_bytes (array_copy n b) = b.
Proof. intros <-. simpl. by rewrite take_app_length. Qed.

Lemma array_copy_bytes {n} (a : array n) : array_copy n a = a.
Proof. apply array_bytes_inj, array_copy_exact, array_length. Qed.

Lemma array_zero_bytes n : array_bytes (array_zero n) = zeros n.
Proof. simpl. rewrite take_ge; [done|]. unfold zeros. by rewrite length_replicate. Qed.

#[global] Program Instance array_countable n : Countable (array n) :=
  inj_countable' (@array_bytes n) (array_copy n) _.
Next Obligation. intros n a. apply array_copy_bytes. Qed.
