(* ===== verification/Data.v ===== *)
(** The data the service handles: the wire types of package [types]
    (src/types/types.go), the stored [Entity] (src/store/entity.go) and the
    annotation pair that keys the bitmap index (src/store/ops.go).

    [hexutil.Uint64], [uint64] and [uint32] fields are [N]; [hexutil.Bytes],
    [[]byte] and [string] fields are byte sequences; a Go pointer that may be
    nil is an [option]. *)
From S2P Require Export Bytes.

(** [common.Hash] and [common.Address] are the array types [[32]byte] and
    [[20]byte]. *)
Definition HashLength : nat := 32.
Definition AddressLength : nat := 20.
Abbreviation Hash := (array HashLength).
Abbreviation Address := (array AddressLength).
Definition zeroHash : Hash := array_zero HashLength.
Definition zeroAddress : Address := array_zero AddressLength.

(** [common.Address(key[:20])]: the account address of an entity key. *)
Definition keyAddress (k : Hash) : Address := array_copy AddressLength (take 20 k).

(** ** Package types *)

Record Attribute := mkAttribute {
  attr_ValueType : bytes;
  attr_Name : bytes;
  attr_Value : bytes;
}.

Record CreateOp := mkCreateOp {
  create_OpIndex : N;
  create_EntityKey : Hash;
  create_Sender : Address;
  create_TxIndex : N;
  create_Owner : Address;
  create_ExpiresAt : N;
  create_EntityHash : Hash;
  create_ChangesetHash : Hash;
  create_Payload : bytes;
  create_ContentType : bytes;
  create_Attributes : list Attribute;
}.

Record UpdateOp := mkUpdateOp {
  update_OpIndex : N;
  update_EntityKey : Hash;
  update_Owner : Address;
  update_EntityHash : Hash;
  update_ChangesetHash : Hash;
  update_Payload : bytes;
  update_ContentType : bytes;
  update_Attributes : list Attribute;
}.

Record DeleteOp := mkDeleteOp {
  delete_OpIndex : N;
  delete_EntityKey : Hash;
  delete_Owner : Address;
  delete_EntityHash : Hash;
  delete_ChangesetHash : Hash;
}.

Record ExtendOp := mkExtendOp {
  extend_OpIndex : N;
  extend_EntityKey : Hash;
  extend_Owner : Address;
  extend_ExpiresAt : N;
  extend_EntityHash : Hash;
  extend_ChangesetHash : Hash;
}.

Record TransferOp := mkTransferOp {
  transfer_OpIndex : N;
  transfer_EntityKey : Hash;
  transfer_Owner : Address;
  transfer_EntityHash : Hash;
  transfer_ChangesetHash : Hash;
}.

Record ExpireOp := mkExpireOp {
  expire_OpIndex : N;
  expire_EntityKey : Hash;
  expire_Owner : Address;
  expire_EntityHash : Hash;
  expire_ChangesetHash : Hash;
}.

(** The discriminated union: six pointers, of which unmarshalling sets one. *)
Record ArkivOperation := mkArkivOperation {
  op_Create : option CreateOp;
  op_Update : option UpdateOp;
  op_Delete : option DeleteOp;
  op_Extend : option ExtendOp;
  op_Transfer : option TransferOp;
  op_Expire : option ExpireOp;
}.

Record ArkivTransaction := mkArkivTransaction {
  tx_Hash : Hash;
  tx_Index : N;
  tx_Sender : Address;
  tx_Operations : list ArkivOperation;
}.

Record ArkivBlockHeader := mkArkivBlockHeader {
  header_Number : N;
  header_Hash : Hash;
  header_ParentHash : Hash;
  header_ChangesetHash : Hash;
}.

Record ArkivBlock := mkArkivBlock {
  block_Header : ArkivBlockHeader;
  block_Transactions : list ArkivTransaction;
}.

Record ArkivBlockRef := mkArkivBlockRef {
  ref_Number : N;
  ref_Hash : Hash;
}.

(** ** Package store: entities and annotation pairs *)

Record stringAnnot := mkStringAnnot {
  sa_Key : bytes;
  sa_Value : bytes;
}.

Record numericAnnot := mkNumericAnnot {
  na_Key : bytes;
  na_Value : N;
}.

Record Entity := mkEntity {
  Payload : bytes;
  Owner : Address;
  Creator : Address;
  ExpiresAt : N;
  CreatedAtBlock : N;
  LastModifiedAtBlock : N;
  TransactionIndexInBlock : N;
  OperationIndexInTransaction : N;
  ContentType : bytes;
  Key : Hash;
  StringAnnotations : list stringAnnot;
  NumericAnnotations : list numericAnnot;
}.

(** Assignment to one field of an entity. *)
Definition set_ExpiresAt (x : N) (e : Entity) : Entity :=
  mkEntity (Payload e) (Owner e) (Creator e) x (CreatedAtBlock e) (LastModifiedAtBlock e)
    (TransactionIndexInBlock e) (OperationIndexInTransaction e) (ContentType e) (Key e)
    (StringAnnotations e) (NumericAnnotations e).
Definition set_Owner (x : Address) (e : Entity) : Entity :=
  mkEntity (Payload e) x (Creator e) (ExpiresAt e) (CreatedAtBlock e) (LastModifiedAtBlock e)
    (TransactionIndexInBlock e) (OperationIndexInTransaction e) (ContentType e) (Key e)
    (StringAnnotations e) (NumericAnnotations e).
Definition set_StringAnnotations (x : list stringAnnot) (e : Entity) : Entity :=
  mkEntity (Payload e) (Owner e) (Creator e) (ExpiresAt e) (CreatedAtBlock e) (LastModifiedAtBlock e)
    (TransactionIndexInBlock e) (OperationIndexInTransaction e) (ContentType e) (Key e)
    x (NumericAnnotations e).
Definition set_NumericAnnotations (x : list numericAnnot) (e : Entity) : Entity :=
  mkEntity (Payload e) (Owner e) (Creator e) (ExpiresAt e) (CreatedAtBlock e) (LastModifiedAtBlock e)
    (TransactionIndexInBlock e) (OperationIndexInTransaction e) (ContentType e) (Key e)
    (StringAnnotations e) x.

(** [annotPair] is a (key, val) pair of the bitmap index; it is a map key. *)
Record annotPair := mkAnnotPair {
  pair_key : bytes;
  pair_val : bytes;
}.

#[global] Instance annotPair_eq_decision : EqDecision annotPair.
Proof. solve_decision. Defined.
#[global] Program Instance annotPair_countable : Countable annotPair :=
  inj_countable' (λ p, (pair_key p, pair_val p)) (λ kv, mkAnnotPair kv.1 kv.2) _.
Next Obligation. by intros []. Qed.

#[global] Instance stringAnnot_eq_decision : EqDecision stringAnnot.
Proof. solve_decision. Defined.
#[global] Program Instance stringAnnot_countable : Countable stringAnnot :=
  inj_countable' (λ p, (sa_Key p, sa_Value p)) (λ kv, mkStringAnnot kv.1 kv.2) _.
Next Obligation. by intros []. Qed.
#[global] Instance numericAnnot_eq_decision : EqDecision numericAnnot.
Proof. solve_decision. Defined.
#[global] Program Instance numericAnnot_countable : Countable numericAnnot :=
  inj_countable' (λ p, (na_Key p, na_Value p)) (λ kv, mkNumericAnnot kv.1 kv.2) _.
Next Obligation. by intros []. Qed.
#[global] Instance Entity_eq_decision : EqDecision Entity.
Proof. solve_decision. Defined.
#[global] Program Instance Entity_countable : Countable Entity :=
  inj_countable' (λ e, (Payload e, Owner e, Creator e, ExpiresAt e, CreatedAtBlock e,
      LastModifiedAtBlock e, TransactionIndexInBlock e, OperationIndexInTransaction e,
      ContentType e, Key e, StringAnnotations e, NumericAnnotations e))
    (λ '(a, b, c, d, e, f, g, h, i, j, k, l), mkEntity a b c d e f g h i j k l) _.
Next Obligation. by intros []. Qed.
