(* ===== verification/Ext.v ===== *)
(** The code the service calls and does not contain: go-ethereum's [common],
    [crypto], [rlp], [state], [triedb] and [ethdb], the roaring64 bitmaps, and
    two parts of Go (map iteration order, Unicode lower-casing) that the source
    leaves open.

    Each library is a class of operations with a class of laws stating its
    documented behaviour.  Nothing here fixes an implementation; [Instances]
    gives a concrete one, on which the witnesses of the theorems compute. *)
From S2P Require Export Data.

(** ** go-ethereum/common *)

Class EthCommon := {
  (** "sets b to hash; if b is larger than len(h), b will be cropped from the
      left" and shorter input is padded with zeros on the left. *)
  BytesToHash : bytes → Hash;
  BytesToAddress : bytes → Address;
  (** Hexadecimal renderings: [Hash.Hex] and the checksummed [Address.Hex]. *)
  Hash_Hex : Hash → bytes;
  Address_Hex : Address → bytes;
}.

Class EthCommonOk `{EthCommon} : Prop := {
  BytesToHash_crop b h : length h = HashLength → array_bytes (BytesToHash (b ++ h)) = h;
  BytesToHash_pad b : (length b ≤ HashLength)%nat →
    array_bytes (BytesToHash b) = zeros (HashLength - length b) ++ b;
  BytesToAddress_crop b a : length a = AddressLength → array_bytes (BytesToAddress (b ++ a)) = a;
}.

(** ** go-ethereum/crypto *)

Class Crypto := {
  Keccak256 : bytes → bytes;
  Keccak256Hash : bytes → Hash;
}.

(** ** roaring64 *)

Class Roaring := {
  Bitmap : Type;
  roaring_New : Bitmap;
  bm_Add : N → Bitmap → Bitmap;
  bm_Remove : N → Bitmap → Bitmap;
  (** [x.Or(y)], [x.And(y)], [x.AndNot(y)] update [x]. *)
  bm_Or : Bitmap → Bitmap → Bitmap;
  bm_And : Bitmap → Bitmap → Bitmap;
  bm_AndNot : Bitmap → Bitmap → Bitmap;
  (** [AddRange(lo, hi)] adds the half-open range. *)
  bm_AddRange : N → N → Bitmap → Bitmap;
  bm_Contains : Bitmap → N → bool;
  bm_GetCardinality : Bitmap → N;
  (** The values a reverse iterator yields, in the order it yields them. *)
  bm_ReverseIterator : Bitmap → list N;
  bm_MarshalBinary : Bitmap → result bytes;
  bm_UnmarshalBinary : bytes → result Bitmap;
}.

Class RoaringOk `{Roaring} : Prop := {
  Contains_New x : bm_Contains roaring_New x = false;
  Contains_Add y b x : bm_Contains (bm_Add y b) x = bool_decide (x = y) || bm_Contains b x;
  Contains_Remove y b x : bm_Contains (bm_Remove y b) x = negb (bool_decide (x = y)) && bm_Contains b x;
  Contains_Or a b x : bm_Contains (bm_Or a b) x = bm_Contains a x || bm_Contains b x;
  Contains_And a b x : bm_Contains (bm_And a b) x = bm_Contains a x && bm_Contains b x;
  Contains_AndNot a b x : bm_Contains (bm_AndNot a b) x = bm_Contains a x && negb (bm_Contains b x);
  Contains_AddRange lo hi b x :
    bm_Contains (bm_AddRange lo hi b) x = bool_decide (lo ≤ x < hi)%N || bm_Contains b x;
  ReverseIterator_sorted b : StronglySorted (λ x y, y < x)%N (bm_ReverseIterator b);
  ReverseIterator_elem b x : x ∈ bm_ReverseIterator b ↔ bm_Contains b x = true;
  Cardinality_spec b : bm_GetCardinality b = N.of_nat (length (bm_ReverseIterator b));
  Marshal_ok b : ∃ d, bm_MarshalBinary b = Ok d;
  Marshal_nonempty b d : bm_MarshalBinary b = Ok d → d ≠ [];
  Unmarshal_Marshal b d : bm_MarshalBinary b = Ok d →
    ∃ b', bm_UnmarshalBinary d = Ok b' ∧ ∀ x, bm_Contains b' x = bm_Contains b x;
}.

(** ** go-ethereum/rlp, at the one type the service encodes *)

Class Rlp := {
  rlp_EncodeToBytes : Entity → result bytes;
  rlp_DecodeBytes : bytes → result Entity;
}.

Class RlpOk `{Rlp} : Prop := {
  rlp_roundtrip e d : rlp_EncodeToBytes e = Ok d → rlp_DecodeBytes d = Ok e;
  rlp_nonempty e d : rlp_EncodeToBytes e = Ok d → d ≠ [];
  rlp_Encode_no_panic e : rlp_EncodeToBytes e ≠ Panic;
  rlp_Decode_no_panic d : rlp_DecodeBytes d ≠ Panic;
}.

(** ** go-ethereum/ethdb *)

(** A batch is the list of writes recorded in it; [Write] applies it
    atomically. *)
Inductive batch_op := BatchPut (k v : bytes) | BatchDelete (k : bytes).
Abbreviation Batch := (list batch_op).

Definition batch_Put (b : Batch) (k v : bytes) : Batch := b ++ [BatchPut k v].
Definition batch_Delete (b : Batch) (k : bytes) : Batch := b ++ [BatchDelete k].

(** The effect of a batch on a key: its last write to it, if any. *)
Definition batch_op_lookup (k : bytes) (acc : option (option bytes)) (op : batch_op) : option (option bytes) :=
  match op with
  | BatchPut k' v => if decide (k' = k) then Some (Some v) else acc
  | BatchDelete k' => if decide (k' = k) then Some None else acc
  end.
Definition batch_lookup (b : Batch) (k : bytes) : option (option bytes) :=
  foldl (batch_op_lookup k) None b.

(** A reader of a key-value store, and the reader seen through a batch. *)
Abbreviation reader := (bytes → option bytes).
Definition overlay (b : Batch) (g : reader) : reader :=
  λ k, match batch_lookup b k with Some o => o | None => g k end.

Class KeyValue (D : Type) := {
  kv_Get : D → bytes → result bytes;
  kv_Has : D → bytes → result bool;
  (** The entries an iterator yields, and its [Error] when it stops. *)
  kv_NewIterator : D → bytes → bytes → list (bytes * bytes) * option error;
  (** [NewBatch], the recorded writes, [Write]. *)
  kv_Write : D → Batch → result D;
}.

Definition kv_lookup {D} `{KeyValue D} (d : D) : reader := λ k, ok_val (kv_Get d k).

Class KeyValueOk (D : Type) `{KeyValue D} : Prop := {
  kv_Get_no_panic (d : D) k : kv_Get d k ≠ Panic;
  kv_Has_no_panic (d : D) k : kv_Has d k ≠ Panic;
  kv_Has_spec (d : D) k : kv_Has d k = Ok true ↔ is_Some (kv_lookup d k);
  kv_Write_no_panic (d : D) b : kv_Write d b ≠ Panic;
  kv_Write_spec (d : D) b d' : kv_Write d b = Ok d' → ∀ k, kv_lookup d' k = overlay b (kv_lookup d) k;
  (** Iteration is in ascending key order over the keys with the given prefix
      from [prefix ++ start] on, and complete when it reports no error. *)
  kv_iter_sorted (d : D) p s : StronglySorted (λ x y, bytes_lt x.1 y.1) (kv_NewIterator d p s).1;
  kv_iter_sound (d : D) p s k v : (k, v) ∈ (kv_NewIterator d p s).1 →
    kv_lookup d k = Some v ∧ p `prefix_of` k ∧ bytes_le (p ++ s) k;
  kv_iter_complete (d : D) p s k v : (kv_NewIterator d p s).2 = None →
    kv_lookup d k = Some v → p `prefix_of` k → bytes_le (p ++ s) k → (k, v) ∈ (kv_NewIterator d p s).1;
}.

(** The persistent database ([ethdb.Database]) and the in-memory store
    ([memorydb.Database]). *)
Class EthDB := {
  Database : Type;
  database_kv :: KeyValue Database;
  MemDB : Type;
  memdb_kv :: KeyValue MemDB;
  memorydb_New : MemDB;
  mem_Put : MemDB → bytes → bytes → result MemDB;
  mem_Delete : MemDB → bytes → result MemDB;
}.

Class EthDBOk `{EthDB} : Prop := {
  database_ok :: KeyValueOk Database;
  memdb_ok :: KeyValueOk MemDB;
  memorydb_New_empty k : kv_lookup memorydb_New k = None;
  (** An open in-memory store accepts every write. *)
  mem_Put_ok m k v : ∃ m', mem_Put m k v = Ok m' ∧
    ∀ k', kv_lookup m' k' = if decide (k = k') then Some v else kv_lookup m k';
  mem_Delete_ok m k : ∃ m', mem_Delete m k = Ok m' ∧
    ∀ k', kv_lookup m' k' = if decide (k = k') then None else kv_lookup m k';
  mem_Write_ok m b : ∃ m', kv_Write m b = Ok m';
  mem_iter_ok m p s : (kv_NewIterator m p s).2 = None;
}.

(** ** go-ethereum/core/state and triedb (HashScheme) *)

Class StateLib := {
  StateDB : Type;
  TrieDB : Type;
  EmptyRootHash : Hash;
  (** [triedb.NewDatabase]: an empty node cache over a disk. *)
  triedb_New : TrieDB;
  (** [state.New(root, db)], [db] being read through the given reader. *)
  state_New : reader → Hash → result StateDB;
  Exist : StateDB → Address → bool;
  GetNonce : StateDB → Address → N;
  GetCode : StateDB → Address → bytes;
  GetState : StateDB → Address → Hash → Hash;
  CreateAccount : StateDB → Address → StateDB;
  SetNonce : StateDB → Address → N → StateDB;
  SetCode : StateDB → Address → bytes → StateDB;
  SetState : StateDB → Address → Hash → Hash → StateDB;
  (** [StateDB.Commit(block, deleteEmptyObjects, noStorageWiping)]: the new
      root, the node cache, and the contract-code batch written to the disk of
      the trie database. *)
  state_Commit : StateDB → TrieDB → N → bool → bool → result (Hash * TrieDB * Batch);
  (** [TrieDB.Commit(root, report)]: the batch of nodes written to its disk. *)
  triedb_Commit : TrieDB → Hash → bool → result Batch;
  (** Specification only: the keys trie nodes and code live under, and the
      database a state was opened on. *)
  trie_key : bytes → Prop;
  opened_on : StateDB → reader → Prop;
}.

(** States a caller cannot tell apart. *)
Definition state_same `{StateLib} (s t : StateDB) : Prop :=
  ∀ a, Exist s a = Exist t a ∧ GetNonce s a = GetNonce t a ∧ GetCode s a = GetCode t a ∧
    ∀ k, GetState s a k = GetState t a k.

(** EIP-161: an account without nonce and code is empty (no balance is ever
    set); a commit with [deleteEmptyObjects] removes it. *)
Definition account_empty `{StateLib} (s : StateDB) (a : Address) : Prop :=
  GetNonce s a = 0%N ∧ GetCode s a = [].
Definition account_absent `{StateLib} (s : StateDB) (a : Address) : Prop :=
  Exist s a = false ∧ GetNonce s a = 0%N ∧ GetCode s a = [] ∧ ∀ k, GetState s a k = zeroHash.
Definition state_pruned `{StateLib} (s t : StateDB) : Prop :=
  ∀ a, (account_empty s a → account_absent t a) ∧
    (¬ account_empty s a → Exist t a = Exist s a ∧ GetNonce t a = GetNonce s a ∧
       GetCode t a = GetCode s a ∧ ∀ k, GetState t a k = GetState s a k).

Definition trie_put `{StateLib} (op : batch_op) : Prop :=
  match op with BatchPut k _ => trie_key k | BatchDelete _ => False end.
Definition agree_on_trie `{StateLib} (g g' : reader) : Prop :=
  ∀ k, trie_key k → g k = g' k.

Class StateLibOk `{StateLib} : Prop := {
  (** Trie nodes are stored under their hash and code under ["c"] and its hash,
      never under a key of the service's own name space. *)
  trie_key_disjoint k : trie_key k → ¬ (str "arkiv_" `prefix_of` k);
  state_New_no_panic g r : state_New g r ≠ Panic;
  state_New_empty g : ∃ s, state_New g EmptyRootHash = Ok s ∧ ∀ a, account_absent s a;
  state_New_opened g r s : state_New g r = Ok s → opened_on s g;
  state_New_ext g g' r s : agree_on_trie g g' → state_New g r = Ok s →
    ∃ s', state_New g' r = Ok s' ∧ state_same s s';
  GetState_SetState s a k v a' k' :
    GetState (SetState s a k v) a' k' = if decide (a = a' ∧ k = k') then v else GetState s a' k';
  GetCode_SetState s a k v a' : GetCode (SetState s a k v) a' = GetCode s a';
  GetNonce_SetState s a k v a' : GetNonce (SetState s a k v) a' = GetNonce s a';
  Exist_SetState s a k v a' : Exist (SetState s a k v) a' = bool_decide (a = a') || Exist s a';
  GetState_SetCode s a c a' k' : GetState (SetCode s a c) a' k' = GetState s a' k';
  GetCode_SetCode s a c a' : GetCode (SetCode s a c) a' = if decide (a = a') then c else GetCode s a';
  GetNonce_SetCode s a c a' : GetNonce (SetCode s a c) a' = GetNonce s a';
  Exist_SetCode s a c a' : Exist (SetCode s a c) a' = bool_decide (a = a') || Exist s a';
  GetState_SetNonce s a n a' k' : GetState (SetNonce s a n) a' k' = GetState s a' k';
  GetCode_SetNonce s a n a' : GetCode (SetNonce s a n) a' = GetCode s a';
  GetNonce_SetNonce s a n a' : GetNonce (SetNonce s a n) a' = if decide (a = a') then n else GetNonce s a';
  Exist_SetNonce s a n a' : Exist (SetNonce s a n) a' = bool_decide (a = a') || Exist s a';
  (** "silently overwrite": a fresh object, whatever was there. *)
  GetState_CreateAccount s a a' k' :
    GetState (CreateAccount s a) a' k' = if decide (a = a') then zeroHash else GetState s a' k';
  GetCode_CreateAccount s a a' : GetCode (CreateAccount s a) a' = if decide (a = a') then [] else GetCode s a';
  GetNonce_CreateAccount s a a' : GetNonce (CreateAccount s a) a' = if decide (a = a') then 0%N else GetNonce s a';
  Exist_CreateAccount s a a' : Exist (CreateAccount s a) a' = bool_decide (a = a') || Exist s a';
  opened_ext s g g' : (∀ k, g k = g' k) → opened_on s g → opened_on s g';
  opened_SetState s a k v g : opened_on s g → opened_on (SetState s a k v) g;
  opened_SetCode s a c g : opened_on s g → opened_on (SetCode s a c) g;
  opened_SetNonce s a n g : opened_on s g → opened_on (SetNonce s a n) g;
  opened_CreateAccount s a g : opened_on s g → opened_on (CreateAccount s a) g;
  state_Commit_no_panic s t n b1 b2 : state_Commit s t n b1 b2 ≠ Panic;
  triedb_Commit_no_panic t r b : triedb_Commit t r b ≠ Panic;
  (** A successful commit writes only nodes and code, the new root opens on the
      database so extended to the state with its empty accounts removed, and
      every root that opened before still opens to the same state. *)
  Commit_spec s g n root tdb codes nodes :
    opened_on s g →
    state_Commit s triedb_New n true false = Ok (root, tdb, codes) →
    triedb_Commit tdb root false = Ok nodes →
    Forall trie_put (codes ++ nodes) ∧
    ∀ g', agree_on_trie g' (overlay (codes ++ nodes) g) →
      (∃ s', state_New g' root = Ok s' ∧ state_pruned s s') ∧
      (∀ r t, state_New g r = Ok t → ∃ t', state_New g' r = Ok t' ∧ state_same t t');
}.

(** ** Go *)

(** [for k, v := range m] visits the entries of a map in some order. *)
Class GoRuntime := {
  go_range : ∀ {K A : Type} `{Countable K}, gmap K A → list (K * A);
  (** [strings.Map(unicode.ToLower, s)], [strings.TrimFunc(s, unicode.IsSpace)],
      on strings with a non-ASCII byte. *)
  unicode_ToLower : bytes → bytes;
  unicode_TrimSpace : bytes → bytes;
}.

Class GoRuntimeOk `{GoRuntime} : Prop := {
  go_range_perm {K A} `{Countable K} (m : gmap K A) : go_range m ≡ₚ map_to_list m;
}.

(** ** The environment the service runs in *)

Class Env := {
  env_common :: EthCommon;
  env_crypto :: Crypto;
  env_roaring :: Roaring;
  env_rlp :: Rlp;
  env_ethdb :: EthDB;
  env_state :: StateLib;
  env_go :: GoRuntime;
}.

Class EnvOk `{Env} : Prop := {
  env_common_ok :: EthCommonOk;
  env_roaring_ok :: RoaringOk;
  env_rlp_ok :: RlpOk;
  env_ethdb_ok :: EthDBOk;
  env_state_ok :: StateLibOk;
  env_go_ok :: GoRuntimeOk;
}.

(** Keccak-256 has no collision, and no zero digest, on the strings that the
    deployment hashes.  It is a hypothesis on a set of strings, because a
    function into 32 bytes cannot be injective on all of them. *)
Class CollisionFree `{Crypto} := {
  hashed : bytes → Prop;
  hashed_entity_count : hashed (str "entity_count");
  keccak_inj x y : hashed x → hashed y → Keccak256Hash x = Keccak256Hash y → x = y;
  keccak_nonzero x : hashed x → Keccak256Hash x ≠ zeroHash;
}.

(** ** Lemmas on batches and readers *)

(** A reader after a write. *)
Definition upd (k v : bytes) (g : reader) : reader := λ k', if decide (k = k') then Some v else g k'.

Lemma upd_eq k v g : upd k v g k = Some v.
Proof. unfold upd. by rewrite decide_True. Qed.
Lemma upd_ne k v g k' : k ≠ k' → upd k v g k' = g k'.
Proof. intros. unfold upd. by rewrite decide_False. Qed.

Lemma batch_lookup_app b1 b2 k :
  batch_lookup (b1 ++ b2) k = match batch_lookup b2 k with Some o => Some o | None => batch_lookup b1 k end.
Proof.
  induction b2 as [|op b2 IH] using rev_ind; [by rewrite app_nil_r|].
  rewrite app_assoc. unfold batch_lookup in *. rewrite !(foldl_app _ _ [op]). simpl.
  destruct op; simpl; by case_decide.
Qed.

Lemma batch_lookup_Put b k v k' :
  batch_lookup (batch_Put b k v) k' = if decide (k = k') then Some (Some v) else batch_lookup b k'.
Proof. unfold batch_Put. rewrite batch_lookup_app. unfold batch_lookup. simpl. by case_decide. Qed.

Lemma batch_lookup_Delete b k k' :
  batch_lookup (batch_Delete b k) k' = if decide (k = k') then Some None else batch_lookup b k'.
Proof. unfold batch_Delete. rewrite batch_lookup_app. unfold batch_lookup. simpl. by case_decide. Qed.

Lemma overlay_app b1 b2 g k : overlay (b1 ++ b2) g k = overlay b2 (overlay b1 g) k.
Proof. unfold overlay. rewrite batch_lookup_app. by destruct (batch_lookup b2 k). Qed.

Lemma overlay_not_in (P : bytes → Prop) b g k :
  Forall (λ op, match op with BatchPut k _ | BatchDelete k => P k end) b → ¬ P k → overlay b g k = g k.
Proof.
  intros Hb Hk. unfold overlay.
  assert (batch_lookup b k = None) as ->; [|done].
  induction b as [|op b IH] using rev_ind; [done|].
  apply Forall_app in Hb as [Hb Hop]. rewrite batch_lookup_app, IH by done.
  rewrite Forall_singleton in Hop. unfold batch_lookup. destruct op; simpl in *; case_decide; by subst.
Qed.

(** Copying the entries of a list with distinct keys. *)
Lemma batch_lookup_copy (l : list (bytes * bytes)) b k :
  NoDup l.*1 →
  batch_lookup (foldl (λ b kv, batch_Put b kv.1 kv.2) b l) k =
  match list_to_map (M := gmap bytes bytes) l !! k with Some v => Some (Some v) | None => batch_lookup b k end.
Proof.
  revert b. induction l as [|[k0 v0] l IH]; intros b Hd; simpl; [by rewrite lookup_empty|].
  apply NoDup_cons in Hd as [Hn Hd]. rewrite IH by done. rewrite batch_lookup_Put, lookup_insert. simpl.
  destruct (decide (k0 = k)) as [->|Hne]; [|done].
  by rewrite (not_elem_of_list_to_map_1 l k) by done.
Qed.

Lemma sorted_keys_NoDup (l : list (bytes * bytes)) :
  StronglySorted (λ x y, bytes_lt x.1 y.1) l → NoDup l.*1.
Proof.
  induction 1 as [|x l Hs IH Hx]; simpl; constructor; [|done].
  rewrite list_elem_of_fmap. intros (y & E & Hy). rewrite Forall_forall in Hx.
  specialize (Hx y Hy). rewrite E in Hx. by apply bytes_lt_irrefl in Hx.
Qed.
