(* ===== verification/GoStrings.v ===== *)
(** What the source uses of Go's [strings] and [bytes] packages: [ToLower],
    [TrimRight], [TrimSpace], [HasPrefix], [HasSuffix], [ContainsAny] and
    [IndexByte]. *)
From S2P Require Export Ext.

(** ASCII is the range below [utf8.RuneSelf]. *)
Definition is_ascii (s : bytes) : bool := forallb (λ c, byte_val c <? 128)%N s.

Definition lower_ascii (c : byte) : byte :=
  let n := byte_val c in if (65 <=? n)%N && (n <=? 90)%N then byte_of (n + 32) else c.

(** [strings.ToLower]: the ASCII fast path, Unicode case mapping otherwise. *)
Definition ToLower `{GoRuntime} (s : bytes) : bytes :=
  if is_ascii s then map lower_ascii s else unicode_ToLower s.

(** [strings.TrimRight(s, "\x00")]. *)
Fixpoint trim_left_byte (c : byte) (s : bytes) : bytes :=
  match s with
  | [] => []
  | x :: s' => if decide (x = c) then trim_left_byte c s' else s
  end.
Definition trim_right_byte (c : byte) (s : bytes) : bytes := rev (trim_left_byte c (rev s)).

(** [strings.TrimSpace]: ASCII white space is tab, newline, vertical tab, form
    feed, carriage return and space. *)
Definition is_space_ascii (c : byte) : bool :=
  let n := byte_val c in ((9 <=? n) && (n <=? 13) || (n =? 32))%N.
Fixpoint trim_left_space (s : bytes) : bytes :=
  match s with
  | [] => []
  | x :: s' => if is_space_ascii x then trim_left_space s' else s
  end.
Definition TrimSpace `{GoRuntime} (s : bytes) : bytes :=
  if is_ascii s then rev (trim_left_space (rev (trim_left_space s))) else unicode_TrimSpace s.

Fixpoint HasPrefix (s p : bytes) {struct p} : bool :=
  match p, s with
  | [], _ => true
  | _ :: _, [] => false
  | y :: p, x :: s => bool_decide (x = y) && HasPrefix s p
  end.

Definition HasSuffix (s p : bytes) : bool := HasPrefix (rev s) (rev p).

(** [strings.ContainsAny(s, chars)] for ASCII [chars]. *)
Definition ContainsAny (s chars : bytes) : bool := existsb (λ c, bool_decide (c ∈ chars)) s.

(** [bytes.IndexByte]: the first position of a byte; [None] stands for -1. *)
Fixpoint IndexByte (s : bytes) (c : byte) : option nat :=
  match s with
  | [] => None
  | x :: s' => if decide (x = c) then Some O else S <$> IndexByte s' c
  end.

Lemma HasPrefix_spec s p : HasPrefix s p = true ↔ p `prefix_of` s.
Proof.
  revert s. induction p as [|y p IH]; intros s; simpl.
  - split; [intros; apply prefix_nil|done].
  - destruct s as [|x s]; simpl.
    + split; [done|]. intros H. by apply prefix_nil_inv in H.
    + rewrite andb_true_iff, bool_decide_eq_true, IH. split.
      * intros [-> ?]. by apply prefix_cons.
      * intros H. split; [symmetry; by eapply prefix_cons_inv_1|by eapply prefix_cons_inv_2].
Qed.

Lemma HasSuffix_spec s p : HasSuffix s p = true ↔ p `suffix_of` s.
Proof. unfold HasSuffix. rewrite HasPrefix_spec. rewrite suffix_prefix_reverse. unfold reverse. by rewrite <-!rev_alt. Qed.

Lemma IndexByte_app k v c : c ∉ k → IndexByte (k ++ c :: v) c = Some (length k).
Proof.
  induction k as [|x k IH]; simpl; intros Hc.
  - by rewrite decide_True.
  - apply not_elem_of_cons in Hc as [? ?]. rewrite decide_False by done. by rewrite IH.
Qed.
