(* ===== verification/Instances.v ===== *)
(** A concrete environment: executable functions that satisfy the laws of
    [Ext], on which the witnesses of the theorems compute.  It is an existence
    proof of the hypotheses, not a model of the libraries. *)
From S2P Require Export GoStrings.

(** ** Serialisation: a prefix-free codec per type *)

Class Codec (A : Type) := {
  enc : A → bytes;
  dec : bytes → option (A * bytes);
  dec_enc a rest : dec (enc a ++ rest) = Some (a, rest);
}.

(** Bits, least significant first, closed by [x02]. *)
Fixpoint pos_bytes (p : positive) : bytes :=
  match p with
  | xH => [x02]
  | xO p => x00 :: pos_bytes p
  | xI p => x01 :: pos_bytes p
  end.

Fixpoint bytes_pos (b : bytes) : option (positive * bytes) :=
  match b with
  | [] => None
  | c :: b =>
      if decide (c = x02) then Some (xH, b)
      else '(p, b) ← bytes_pos b; Some (if decide (c = x00) then xO p else xI p, b)
  end.

Lemma bytes_pos_bytes p rest : bytes_pos (pos_bytes p ++ rest) = Some (p, rest).
Proof. induction p as [p IH|p IH|]; simpl; rewrite ?IH; done. Qed.

#[export] Program Instance N_codec : Codec N := {|
  enc n := pos_bytes (N.succ_pos n);
  dec b := '(p, b) ← bytes_pos b; Some (Pos.pred_N p, b);
|}.
Next Obligation. intros n rest. simpl. rewrite bytes_pos_bytes. simpl. by rewrite N.pos_pred_succ. Qed.

#[export] Program Instance byte_codec : Codec byte := {|
  enc c := [c];
  dec b := match b with c :: b => Some (c, b) | [] => None end;
|}.
Next Obligation. done. Qed.

#[export] Program Instance prod_codec {A B} `{Codec A, Codec B} : Codec (A * B) := {|
  enc ab := enc ab.1 ++ enc ab.2;
  dec b := '(x, b) ← dec b; '(y, b) ← dec b; Some ((x, y), b);
|}.
Next Obligation. intros A B ?? [x y] rest. simpl. rewrite <-app_assoc, dec_enc. simpl. by rewrite dec_enc. Qed.

(** A list is a length and its elements. *)
Fixpoint dec_n {A} `{Codec A} (n : nat) (b : bytes) : option (list A * bytes) :=
  match n with
  | O => Some ([], b)
  | S n => '(x, b) ← dec b; '(l, b) ← dec_n n b; Some (x :: l, b)
  end.

Lemma dec_n_enc {A} `{Codec A} (l : list A) rest : dec_n (length l) (flat_map enc l ++ rest) = Some (l, rest).
Proof. induction l as [|x l IH]; simpl; [done|]. rewrite <-app_assoc, dec_enc. simpl. by rewrite IH. Qed.

#[export] Program Instance list_codec {A} `{Codec A} : Codec (list A) := {|
  enc l := enc (N.of_nat (length l)) ++ flat_map enc l;
  dec b := '(n, b) ← dec (A := N) b; dec_n (N.to_nat n) b;
|}.
Next Obligation. intros A ? l rest. cbv beta. rewrite <-app_assoc, dec_enc. cbn [mbind option_bind]. by rewrite Nat2N.id, dec_n_enc. Qed.

Program Definition iso_codec {A B} `{Codec A} (f : B → A) (g : A → B) (Hgf : ∀ b, g (f b) = b) : Codec B := {|
  enc b := enc (f b);
  dec b := '(a, b) ← dec b; Some (g a, b);
|}.
Next Obligation. intros A B ? f g Hgf b rest. simpl. rewrite dec_enc. simpl. by rewrite Hgf. Qed.

#[export] Instance array_codec n : Codec (array n) := iso_codec array_bytes (array_copy n) array_copy_bytes.
#[export] Instance gmap_codec {K A} `{Countable K, Codec K, Codec A} : Codec (gmap K A) :=
  iso_codec map_to_list list_to_map list_to_map_to_list.
#[export] Instance stringAnnot_codec : Codec stringAnnot.
Proof. refine (iso_codec (λ p, (sa_Key p, sa_Value p)) (λ kv, mkStringAnnot kv.1 kv.2) _). by intros []. Defined.
#[export] Instance numericAnnot_codec : Codec numericAnnot.
Proof. refine (iso_codec (λ p, (na_Key p, na_Value p)) (λ kv, mkNumericAnnot kv.1 kv.2) _). by intros []. Defined.
#[export] Instance Entity_codec : Codec Entity.
Proof.
  refine (iso_codec (λ e, (Payload e, Owner e, Creator e, ExpiresAt e, CreatedAtBlock e,
      LastModifiedAtBlock e, TransactionIndexInBlock e, OperationIndexInTransaction e,
      ContentType e, Key e, StringAnnotations e, NumericAnnotations e))
    (λ '(a, b, c, d, e, f, g, h, i, j, k, l), mkEntity a b c d e f g h i j k l) _).
  by intros [].
Defined.

Definition ser {A} `{Codec A} (a : A) : bytes := x00 :: enc a.
Definition deser {A} `{Codec A} (b : bytes) : option A := match b with [] => None | _ :: b => fst <$> dec b end.

Lemma deser_ser {A} `{Codec A} (a : A) : deser (ser a) = Some a.
Proof. unfold deser, ser. rewrite <-(app_nil_r (enc a)), dec_enc. done. Qed.

Lemma ser_nonempty {A} `{Codec A} (a : A) : ser a ≠ [].
Proof. done. Qed.

(** ** common and crypto *)

Definition pad_left (n : nat) (b : bytes) : bytes :=
  if (n <? length b)%nat then drop (length b - n) b else zeros (n - length b) ++ b.

Definition nibble (n : N) : byte := if (n <? 10)%N then byte_of (48 + n) else byte_of (55 + n).
Definition hex_upper (b : bytes) : bytes :=
  str "0x" ++ flat_map (λ c, [nibble (byte_val c / 16); nibble (byte_val c mod 16)]) b.

#[export] Instance toy_common : EthCommon := {
  BytesToHash b := array_copy HashLength (pad_left HashLength b);
  BytesToAddress b := array_copy AddressLength (pad_left AddressLength b);
  Hash_Hex h := hex_upper h;
  Address_Hex a := hex_upper a;
}.

Lemma pad_left_crop n b h : length h = n → pad_left n (b ++ h) = h.
Proof.
  intros Hh. unfold pad_left. rewrite length_app, Hh.
  destruct (Nat.ltb_spec n (length b + n)) as [?|?].
  - replace (length b + n - n)%nat with (length b) by lia. apply drop_app_length.
  - destruct b; simpl in *; [|lia]. rewrite Nat.sub_diag. done.
Qed.

#[export] Instance toy_common_ok : EthCommonOk.
Proof.
  split.
  - intros b h Hh. unfold BytesToHash, toy_common. rewrite pad_left_crop by done.
    by apply array_copy_exact.
  - intros b Hb. unfold BytesToHash, toy_common, pad_left.
    destruct (Nat.ltb_spec HashLength (length b)); [lia|].
    apply array_copy_exact. unfold zeros. rewrite length_app, length_replicate. lia.
  - intros b a Ha. unfold BytesToAddress, toy_common. rewrite pad_left_crop by done.
    by apply array_copy_exact.
Qed.

(** A polynomial hash to 32 bytes. *)
Definition toy_digest (b : bytes) : Hash :=
  array_copy HashLength (be_encode 32
    (foldl (λ h c, N.land (h * 1099511628211 + byte_val c + 1) (N.ones 256)) 14695981039346656037%N b)).

#[export] Instance toy_crypto : Crypto := {
  Keccak256 b := array_bytes (toy_digest b);
  Keccak256Hash := toy_digest;
}.

(** Collision-freeness on an explicit list of strings, by computation. *)
Definition collision_free_on (l : list bytes) : bool :=
  bool_decide (NoDup (map toy_digest (remove_dups l))) && bool_decide (zeroHash ∉ map toy_digest l).

Lemma map_NoDup_inj {A B} (f : A → B) (l : list A) x y :
  NoDup (map f l) → x ∈ l → y ∈ l → f x = f y → x = y.
Proof.
  induction l as [|z l IH]; simpl; intros Hd Hx Hy E; [by apply elem_of_nil in Hx|].
  apply NoDup_cons in Hd as [Hz Hd].
  apply elem_of_cons in Hx as [->|Hx], Hy as [->|Hy]; auto.
  - destruct Hz. rewrite E. by apply (list_elem_of_fmap_2 f).
  - destruct Hz. rewrite <-E. by apply (list_elem_of_fmap_2 f).
Qed.

Program Definition toy_cf (l : list bytes) (Hl : collision_free_on (str "entity_count" :: l) = true) : CollisionFree :=
  {| hashed x := x ∈ str "entity_count" :: l |}.
Next Obligation. intros l _. apply elem_of_cons. by left. Qed.
Next Obligation.
  intros l Hl x y Hx Hy E. apply andb_true_iff in Hl as [Hd _]. apply bool_decide_eq_true in Hd.
  eapply map_NoDup_inj; [exact Hd|by apply elem_of_remove_dups..|exact E].
Qed.
Next Obligation.
  intros l Hl x Hx E. apply andb_true_iff in Hl as [_ Hz]. apply bool_decide_eq_true in Hz.
  destruct Hz. rewrite <-E. by apply (list_elem_of_fmap_2 toy_digest).
Qed.

(** ** roaring64 *)

Definition N_gt (x y : N) : Prop := (y ≤ x)%N.
#[export] Instance N_gt_dec : RelDecision N_gt.
Proof. intros x y. unfold N_gt. apply _. Defined.
#[export] Instance N_gt_total : Total N_gt.
Proof. intros x y. unfold N_gt. lia. Qed.
#[export] Instance N_gt_trans : Transitive N_gt.
Proof. intros x y z. unfold N_gt. lia. Qed.

Definition set_desc (s : gset N) : list N := merge_sort N_gt (elements s).

Fixpoint range_set (lo : N) (n : nat) : gset N :=
  match n with O => ∅ | S n => {[ lo ]} ∪ range_set (lo + 1) n end.

Lemma elem_of_range_set lo n x : x ∈ range_set lo n ↔ (lo ≤ x < lo + N.of_nat n)%N.
Proof.
  revert lo. induction n as [|n IH]; intros lo; simpl.
  - split; [set_solver|lia].
  - rewrite elem_of_union, elem_of_singleton, IH. lia.
Qed.

#[export] Instance toy_roaring : Roaring := {
  Bitmap := gset N;
  roaring_New := ∅;
  bm_Add x b := {[ x ]} ∪ b;
  bm_Remove x b := b ∖ {[ x ]};
  bm_Or a b := a ∪ b;
  bm_And a b := a ∩ b;
  bm_AndNot a b := a ∖ b;
  bm_AddRange lo hi b := range_set lo (N.to_nat (hi - lo)) ∪ b;
  bm_Contains b x := bool_decide (x ∈ b);
  bm_GetCardinality b := N.of_nat (size b);
  bm_ReverseIterator := set_desc;
  bm_MarshalBinary b := Ok (ser (set_desc b));
  bm_UnmarshalBinary d := match deser d with Some l => Ok (list_to_set (l : list N)) | None => Err (Errorf "bitmap") end;
}.

Lemma set_desc_perm s : set_desc s ≡ₚ elements s.
Proof. apply merge_sort_Permutation. Qed.

Lemma set_desc_elem s x : x ∈ set_desc s ↔ x ∈ s.
Proof. by rewrite set_desc_perm, elem_of_elements. Qed.

Lemma StronglySorted_strict (l : list N) :
  NoDup l → StronglySorted N_gt l → StronglySorted (λ x y, y < x)%N l.
Proof.
  intros Hd Hs. induction Hs as [|x l Hs IH Hx]; constructor.
  - apply IH. by apply NoDup_cons in Hd as [_ ?].
  - apply NoDup_cons in Hd as [Hn _]. rewrite Forall_forall in Hx |- *.
    intros y Hy. specialize (Hx y Hy). unfold N_gt in Hx.
    assert (x ≠ y) by (intros ->; done). lia.
Qed.

#[export] Instance toy_roaring_ok : RoaringOk.
Proof.
  split; simpl; intros.
  7:{ apply eq_true_iff_eq. rewrite orb_true_iff, !bool_decide_eq_true, elem_of_union, elem_of_range_set.
    assert (lo ≤ x < lo + N.of_nat (N.to_nat (hi - lo)) ↔ lo ≤ x < hi)%N as -> by lia. done. }
  1-6: try apply eq_true_iff_eq; rewrite ?orb_true_iff, ?andb_true_iff, ?negb_true_iff,
    ?bool_decide_eq_true, ?bool_decide_eq_false; set_unfold; intuition (congruence || auto).
  - apply StronglySorted_strict.
    + rewrite set_desc_perm. apply NoDup_elements.
    + apply StronglySorted_merge_sort; apply _.
  - by rewrite set_desc_elem, bool_decide_eq_true.
  - by rewrite set_desc_perm.
  - by eexists.
  - simplify_eq. apply ser_nonempty.
  - simplify_eq. rewrite deser_ser. eexists. split; [done|]. intros x.
    apply bool_decide_ext. by rewrite elem_of_list_to_set, set_desc_elem.
Qed.

(** ** rlp *)

#[export] Instance toy_rlp : Rlp := {
  rlp_EncodeToBytes e := Ok (ser e);
  rlp_DecodeBytes d := match deser d with Some e => Ok e | None => Err (Errorf "rlp") end;
}.

#[export] Instance toy_rlp_ok : RlpOk.
Proof.
  split; simpl; intros; simplify_eq.
  - by rewrite deser_ser.
  - apply ser_nonempty.
  - discriminate.
  - destruct (deser d); discriminate.
Qed.

(** ** ethdb: a finite map, which may refuse batches *)

Record toy_db := ToyDB { td_map : gmap bytes bytes; td_full : bool }.

Definition key_le (x y : bytes * bytes) : Prop := bytes_le x.1 y.1.
#[export] Instance key_le_dec : RelDecision key_le.
Proof. intros x y. unfold key_le. apply _. Defined.
#[export] Instance key_le_total : Total key_le.
Proof. intros x y. apply bytes_le_total. Qed.
#[export] Instance key_le_trans : Transitive key_le.
Proof. intros x y z. apply bytes_le_trans. Qed.

Definition apply_op (m : gmap bytes bytes) (op : batch_op) : gmap bytes bytes :=
  match op with BatchPut k v => <[k := v]> m | BatchDelete k => delete k m end.

Definition map_iter (m : gmap bytes bytes) (p s : bytes) : list (bytes * bytes) :=
  merge_sort key_le (filter (λ kv, HasPrefix kv.1 p = true ∧ bytes_le (p ++ s) kv.1) (map_to_list m)).

#[export] Instance toy_kv : KeyValue toy_db := {
  kv_Get d k := match td_map d !! k with Some v => Ok v | None => Err (Errorf "not found") end;
  kv_Has d k := Ok (bool_decide (is_Some (td_map d !! k)));
  kv_NewIterator d p s := (map_iter (td_map d) p s, None);
  kv_Write d b := if td_full d then Err (Errorf "write failed") else Ok (ToyDB (foldl apply_op (td_map d) b) false);
}.

Lemma toy_lookup (d : toy_db) k : kv_lookup d k = td_map d !! k.
Proof. unfold kv_lookup. simpl. by destruct (td_map d !! k). Qed.

Lemma foldl_apply_lookup m b k :
  foldl apply_op m b !! k = match batch_lookup b k with Some o => o | None => m !! k end.
Proof.
  induction b as [|op b IH] using rev_ind; [done|].
  unfold batch_lookup in *. rewrite !foldl_app. simpl. destruct op; simpl; case_decide; subst.
  - apply lookup_insert_eq.
  - by rewrite lookup_insert_ne.
  - apply lookup_delete_eq.
  - by rewrite lookup_delete_ne.
Qed.

Lemma elem_of_map_iter m p s k v :
  (k, v) ∈ map_iter m p s ↔ m !! k = Some v ∧ p `prefix_of` k ∧ bytes_le (p ++ s) k.
Proof.
  unfold map_iter. rewrite merge_sort_Permutation, list_elem_of_filter, elem_of_map_to_list. simpl.
  rewrite HasPrefix_spec. tauto.
Qed.

Lemma map_iter_sorted m p s : StronglySorted (λ x y, bytes_lt x.1 y.1) (map_iter m p s).
Proof.
  assert (StronglySorted key_le (map_iter m p s)) as Hs by (apply StronglySorted_merge_sort; apply _).
  assert (NoDup (map_iter m p s).*1) as Hd.
  { unfold map_iter. rewrite merge_sort_Permutation. apply NoDup_fmap_fst.
    - intros k v1 v2 [_ H1%elem_of_map_to_list]%list_elem_of_filter [_ H2%elem_of_map_to_list]%list_elem_of_filter.
      congruence.
    - apply NoDup_filter, NoDup_map_to_list. }
  induction Hs as [|x l Hs IH Hx]; constructor; simpl in Hd; apply NoDup_cons in Hd as [Hn Hd].
  - by apply IH.
  - rewrite Forall_forall in Hx |- *. intros y Hy. specialize (Hx y Hy).
    apply bytes_le_lt_eq in Hx as [?|E]; [done|]. destruct Hn. rewrite E.
    by apply list_elem_of_fmap_2.
Qed.

#[export] Instance toy_kv_ok : KeyValueOk toy_db.
Proof.
  split; intros; rewrite ?toy_lookup.
  - simpl. by destruct (td_map d !! k).
  - done.
  - simpl. split; [intros [= ?%bool_decide_eq_true]; done|].
    intros. f_equal. by apply bool_decide_eq_true.
  - simpl. by destruct (td_full d).
  - simpl in *. destruct (td_full d); simplify_eq. simpl.
    rewrite foldl_apply_lookup. unfold overlay. by rewrite toy_lookup.
  - apply map_iter_sorted.
  - by apply elem_of_map_iter.
  - apply elem_of_map_iter. by rewrite <-toy_lookup.
Qed.

(** The in-memory store never refuses a batch. *)
Record toy_mem := ToyMem { tm_map : gmap bytes bytes }.

#[export] Instance toy_mem_kv : KeyValue toy_mem := {
  kv_Get d k := kv_Get (ToyDB (tm_map d) false) k;
  kv_Has d k := kv_Has (ToyDB (tm_map d) false) k;
  kv_NewIterator d p s := (map_iter (tm_map d) p s, None);
  kv_Write d b := Ok (ToyMem (foldl apply_op (tm_map d) b));
}.

Lemma toy_mem_lookup (d : toy_mem) k : kv_lookup d k = tm_map d !! k.
Proof. unfold kv_lookup. simpl. by destruct (tm_map d !! k). Qed.

#[export] Instance toy_mem_kv_ok : KeyValueOk toy_mem.
Proof.
  split; intros; rewrite ?toy_mem_lookup.
  - simpl. by destruct (tm_map d !! k).
  - done.
  - simpl. split; [intros [= ?%bool_decide_eq_true]; done|].
    intros. f_equal. by apply bool_decide_eq_true.
  - done.
  - simpl in *. simplify_eq. simpl. rewrite foldl_apply_lookup. unfold overlay. by rewrite toy_mem_lookup.
  - apply map_iter_sorted.
  - by apply elem_of_map_iter.
  - apply elem_of_map_iter. by rewrite <-toy_mem_lookup.
Qed.

#[export] Instance toy_ethdb : EthDB := {
  Database := toy_db;
  MemDB := toy_mem;
  memorydb_New := ToyMem ∅;
  mem_Put m k v := Ok (ToyMem (<[k := v]> (tm_map m)));
  mem_Delete m k := Ok (ToyMem (delete k (tm_map m)));
}.

#[export] Instance toy_ethdb_ok : EthDBOk.
Proof.
  split; try apply _; intros.
  - by rewrite toy_mem_lookup.
  - eexists. split; [done|]. intros k'. rewrite !toy_mem_lookup. simpl. rewrite lookup_insert.
    by case_decide.
  - eexists. split; [done|]. intros k'. rewrite !toy_mem_lookup. simpl. rewrite lookup_delete.
    by case_decide.
  - by eexists.
  - done.
Qed.

(** ** State: the whole account map is one node, stored under its digest

    A commit that would store a second state under the digest of another fails,
    which is how a function into 32 bytes keeps every root readable. *)

Abbreviation toy_account := (N * bytes * gmap Hash Hash)%type.
Record toy_state := ToyState { ts_source : reader; ts_accounts : gmap Address toy_account }.

Definition toy_get (s : toy_state) (a : Address) : toy_account := default (0%N, [], ∅) (ts_accounts s !! a).
Definition toy_set (s : toy_state) (a : Address) (x : toy_account) : toy_state :=
  ToyState (ts_source s) (<[a := x]> (ts_accounts s)).

Definition toy_nonempty (a : Address * toy_account) : Prop := a.2.1 ≠ (0%N, []).
#[export] Instance toy_nonempty_dec a : Decision (toy_nonempty a).
Proof. unfold toy_nonempty. apply _. Defined.

Definition toy_empty_root : Hash := toy_digest (str "empty root").
Definition toy_prune (b : bool) (m : gmap Address toy_account) : gmap Address toy_account :=
  if b then filter toy_nonempty m else m.
Definition toy_trie_key (k : bytes) : Prop := HasPrefix k (str "arkiv_") = false.

Definition toy_open (g : reader) (r : Hash) : result toy_state :=
  if decide (r = toy_empty_root) then Ok (ToyState g ∅)
  else if HasPrefix r (str "arkiv_") then Err (Errorf "missing trie node")
  else match g r ≫= deser with Some m => Ok (ToyState g m) | None => Err (Errorf "missing trie node") end.

Definition toy_commit (s : toy_state) (t : option (Hash * bytes)) (n : N) (del keep : bool) :
    result (Hash * option (Hash * bytes) * Batch) :=
  let enc := ser (toy_prune del (ts_accounts s)) in
  let root := toy_digest enc in
  if decide (root = toy_empty_root) then Err (Errorf "collision")
  else if HasPrefix root (str "arkiv_") then Err (Errorf "collision")
  else match ts_source s root with
       | Some enc' => if decide (enc' = enc) then Ok (root, Some (root, enc), []) else Err (Errorf "collision")
       | None => Ok (root, Some (root, enc), [])
       end.

#[export] Instance toy_statelib : StateLib := {
  StateDB := toy_state;
  TrieDB := option (Hash * bytes);
  EmptyRootHash := toy_empty_root;
  triedb_New := None;
  state_New := toy_open;
  Exist s a := bool_decide (is_Some (ts_accounts s !! a));
  GetNonce s a := (toy_get s a).1.1;
  GetCode s a := (toy_get s a).1.2;
  GetState s a k := default zeroHash ((toy_get s a).2 !! k);
  CreateAccount s a := toy_set s a (0%N, [], ∅);
  SetNonce s a n := toy_set s a (n, (toy_get s a).1.2, (toy_get s a).2);
  SetCode s a c := toy_set s a ((toy_get s a).1.1, c, (toy_get s a).2);
  SetState s a k v := toy_set s a ((toy_get s a).1, <[k := v]> (toy_get s a).2);
  state_Commit := toy_commit;
  triedb_Commit t r _ :=
    match t with
    | Some (root, enc) => if decide (root = r) then Ok [BatchPut root enc] else Err (Errorf "unknown root")
    | None => Err (Errorf "unknown root")
    end;
  trie_key := toy_trie_key;
  opened_on s g := ∀ k, ts_source s k = g k;
}.

#[local] Opaque toy_digest ser toy_empty_root HasPrefix.

Lemma toy_get_set s a x a' : toy_get (toy_set s a x) a' = if decide (a = a') then x else toy_get s a'.
Proof. unfold toy_get, toy_set. simpl. rewrite lookup_insert. by case_decide. Qed.

Lemma toy_Exist_set s a x a' :
  bool_decide (is_Some (ts_accounts (toy_set s a x) !! a')) =
  bool_decide (a = a') || bool_decide (is_Some (ts_accounts s !! a')).
Proof.
  apply eq_true_iff_eq. rewrite orb_true_iff, !bool_decide_eq_true. simpl. rewrite lookup_insert.
  case_decide as Ha; [|by split; [right|intros [?|?]]]. split; [by left|by eexists].
Qed.

Lemma toy_same (s t : toy_state) : ts_accounts s = ts_accounts t → state_same s t.
Proof. intros E a. simpl. unfold toy_get. by rewrite E. Qed.

Lemma toy_prune_pruned (s : toy_state) g :
  state_pruned s (ToyState g (toy_prune true (ts_accounts s))).
Proof.
  intros a. unfold account_empty, account_absent. simpl. unfold toy_get. simpl.
  rewrite map_lookup_filter. destruct (ts_accounts s !! a) as [[[n c] st]|] eqn:E; simpl.
  - destruct (decide (toy_nonempty (a, (n, c, st)))) as [Hne|He]; unfold toy_nonempty in *; simpl in *.
    + rewrite option_guard_True by done. simpl. split; [intros [-> ->]; by destruct Hne|done].
    + rewrite option_guard_False by done. simpl. split; [done|].
      intros Hn. destruct He. intros [= -> ->]. by destruct Hn.
  - split; [done|]. intros []. done.
Qed.

Lemma toy_open_cases g r :
  (r = toy_empty_root ∧ toy_open g r = Ok (ToyState g ∅)) ∨
  (r ≠ toy_empty_root ∧ ∃ e, toy_open g r = Err e) ∨
  (∃ m, r ≠ toy_empty_root ∧ HasPrefix r (str "arkiv_") = false ∧
     g r ≫= deser = Some m ∧ toy_open g r = Ok (ToyState g m)).
Proof.
  unfold toy_open. destruct (decide (r = toy_empty_root)) as [?|?]; [by left|right].
  destruct (HasPrefix r (str "arkiv_")); [left; by eauto|].
  destruct (g r ≫= deser) as [m|]; [right; by eauto 10|left; by eauto].
Qed.

Lemma toy_Commit_spec (s : toy_state) g n root tdb codes nodes :
  opened_on s g → state_Commit s triedb_New n true false = Ok (root, tdb, codes) →
  triedb_Commit tdb root false = Ok nodes →
  Forall trie_put (codes ++ nodes) ∧
  ∀ g', agree_on_trie g' (overlay (codes ++ nodes) g) →
    (∃ s', state_New g' root = Ok s' ∧ state_pruned s s') ∧
    (∀ r t, state_New g r = Ok t → ∃ t', state_New g' r = Ok t' ∧ state_same t t').
Proof.
  simpl. unfold toy_commit. intros Hsrc.
  set (enc := ser (toy_prune true (ts_accounts s))). set (rt := toy_digest enc).
  case_decide as Hroot; [done|]. destruct (HasPrefix rt (str "arkiv_")) eqn:Hpre; [done|].
  intros Hc Hn.
  assert (root = rt ∧ tdb = Some (rt, enc) ∧ codes = [] ∧ (g rt = None ∨ g rt = Some enc)) as (-> & -> & -> & Hg).
  { rewrite Hsrc in Hc. destruct (g rt) as [enc'|]; [destruct (decide (enc' = enc)) as [->|]; [|done]|];
      injection Hc as <- <- <-; auto. }
  rewrite decide_True in Hn by done. injection Hn as <-. simpl. split.
  { constructor; [|constructor]. exact Hpre. }
  intros g' Hag. unfold agree_on_trie, overlay, batch_lookup in Hag. simpl in Hag.
  assert (g' rt = Some enc) as Hrt by (rewrite Hag by exact Hpre; by rewrite decide_True).
  split.
  - unfold toy_open. destruct (decide (rt = toy_empty_root)) as [?|_]; [contradiction|].
    rewrite Hpre, Hrt. simpl. unfold enc. rewrite deser_ser. eexists. split; [done|]. apply toy_prune_pruned.
  - intros r t. destruct (toy_open_cases g r) as [(Hr & ->)|[(? & e & ->)|(m & Hr & Hp & Hm & ->)]];
      intros Ht; try discriminate Ht; injection Ht as <-.
    + exists (ToyState g' ∅). split; [|by apply toy_same].
      unfold toy_open. destruct (decide (r = toy_empty_root)); [reflexivity|contradiction].
    + exists (ToyState g' m). split; [|by apply toy_same].
      unfold toy_open. destruct (decide (r = toy_empty_root)) as [?|_]; [contradiction|].
      rewrite Hp. destruct (decide (array_bytes rt = array_bytes r)) as [E|E].
      * assert (g' r = g r) as -> by (rewrite <-E in Hm |- *; destruct Hg as [Hg|Hg]; rewrite Hg in *; [discriminate Hm|done]).
        by rewrite Hm.
      * rewrite Hag by exact Hp. destruct (decide _); [contradiction|]. by rewrite Hm.
Qed.

Lemma toy_open_ext g g' r (s : toy_state) :
  agree_on_trie g g' → toy_open g r = Ok s → ∃ s', toy_open g' r = Ok s' ∧ state_same s s'.
Proof.
  intros Ha. destruct (toy_open_cases g r) as [(Hr & ->)|[(? & e & ->)|(m & Hr & Hp & Hm & ->)]];
    intros Hs; try discriminate Hs; injection Hs as <-.
  - exists (ToyState g' ∅). split; [|by apply toy_same].
    unfold toy_open. by destruct (decide (r = toy_empty_root)).
  - exists (ToyState g' m). split; [|by apply toy_same].
    unfold toy_open. destruct (decide (r = toy_empty_root)) as [?|_]; [contradiction|].
    rewrite Hp, <-(Ha r Hp), Hm. done.
Qed.

(** Reading a field back after [toy_set]. *)
Ltac toy_field := simpl; rewrite toy_get_set; by case_decide; subst.

#[export] Instance toy_statelib_ok : StateLibOk.
Proof.
  split.
  - intros k Hk Hp%HasPrefix_spec. unfold trie_key, toy_statelib, toy_trie_key in *. congruence.
  - intros g r. simpl. destruct (toy_open_cases g r) as [(? & ->)|[(? & e & ->)|(m & ? & ? & ? & ->)]]; discriminate.
  - intros g. exists (ToyState g ∅). split; [|done].
    simpl. unfold toy_open. by destruct (decide (toy_empty_root = toy_empty_root)).
  - intros g r s. simpl.
    destruct (toy_open_cases g r) as [(? & ->)|[(? & e & ->)|(m & ? & ? & ? & ->)]]; intros Hs;
      first [discriminate Hs|injection Hs as <-; intros k; reflexivity].
  - intros. by eapply toy_open_ext.
  - intros. simpl. rewrite toy_get_set. destruct (decide (a = a')) as [<-|Hne]; simpl.
    + rewrite lookup_insert. destruct (decide (k = k')) as [<-|Hk].
      * by rewrite decide_True.
      * by rewrite decide_False by (intros [_ ?]; done).
    + by rewrite decide_False by (intros [? _]; done).
  - intros. toy_field.
  - intros. toy_field.
  - intros. apply toy_Exist_set.
  - intros. toy_field.
  - intros. toy_field.
  - intros. toy_field.
  - intros. apply toy_Exist_set.
  - intros. toy_field.
  - intros. toy_field.
  - intros. toy_field.
  - intros. apply toy_Exist_set.
  - intros. toy_field.
  - intros. toy_field.
  - intros. toy_field.
  - intros. apply toy_Exist_set.
  - intros s g g' Hg Hs k. rewrite (Hs k). apply Hg.
  - done.
  - done.
  - done.
  - done.
  - intros s t n b1 b2. simpl. unfold toy_commit.
    destruct (decide _); [done|]. destruct (HasPrefix _ _); [done|].
    destruct (ts_source s _); [|done]. by destruct (decide _).
  - intros [[root enc]|] r b; simpl; [|done]. by destruct (decide _).
  - exact toy_Commit_spec.
Qed.

(** ** Go, and the whole environment *)

#[export] Instance toy_go : GoRuntime := {
  go_range K A _ _ m := map_to_list m;
  unicode_ToLower s := s;
  unicode_TrimSpace s := s;
}.

#[export] Instance toy_go_ok : GoRuntimeOk.
Proof. by split. Qed.

#[export] Instance toy_env : Env := Build_Env _ _ _ _ _ _ _.
#[export] Instance toy_env_ok : EnvOk.
Proof. split; apply _. Qed.
