(* ===== verification/GoJson.v ===== *)
(** What the source uses of Go's [encoding/json], on JSON values: the decoding
    of objects into structs, of arrays into slices, and of strings and numbers.

    A value is a tree; the text format (escapes, white space, number grammar)
    is the library's.  The members of an object keep their order and may
    repeat; a repeated member is decoded over the value the one before left, so
    every decoder takes the old value.  (The elements a slice lost when it
    shrank are forgotten, which shows only when one of its members repeats three
    times with the shortest in between.) *)
From Stdlib Require Export DecimalString DecimalN.
From S2P Require Export GoStrings.

#[warnings="-register-all"]
Inductive json :=
  | JNull
  | JBool (b : bool)
  | JNum (lit : bytes)
  | JStr (s : bytes)
  | JArr (l : list json)
  | JObj (members : list (bytes * json)).

(** ** Strings *)

(** A UTF-8 continuation byte, and the length of the encoding at the head of a
    string: 0 when it is invalid ([utf8.DecodeRune] gives [RuneError], 1). *)
Definition in_range (lo hi : N) (c : byte) : bool := ((lo <=? byte_val c) && (byte_val c <=? hi))%N.
Definition cont (c : byte) : bool := in_range 128 191 c.
Definition rune_len (s : bytes) : nat :=
  match s with
  | [] => 0
  | c :: s =>
      if in_range 0 127 c then 1 else
      if in_range 194 223 c then match s with c1 :: _ => if cont c1 then 2 else 0 | _ => 0 end else
      if in_range 224 239 c then
        match s with
        | c1 :: c2 :: _ =>
            if in_range (if byte_val c =? 224 then 160 else 128)%N (if byte_val c =? 237 then 159 else 191)%N c1 && cont c2
            then 3 else 0
        | _ => 0
        end else
      if in_range 240 244 c then
        match s with
        | c1 :: c2 :: c3 :: _ =>
            if in_range (if byte_val c =? 240 then 144 else 128)%N (if byte_val c =? 244 then 143 else 191)%N c1 && cont c2 && cont c3
            then 4 else 0
        | _ => 0
        end
      else 0
  end.

(** The encoder writes the replacement character for every invalid byte. *)
Definition replacement : bytes := [xef; xbf; xbd].
Fixpoint utf8_coerce_fuel (fuel : nat) (s : bytes) : bytes :=
  match fuel, s with
  | S fuel, c :: s' =>
      match rune_len s with
      | O => replacement ++ utf8_coerce_fuel fuel s'
      | S n => take (S n) s ++ utf8_coerce_fuel fuel (drop (S n) s)
      end
  | _, _ => []
  end.
Definition utf8_coerce (s : bytes) : bytes := utf8_coerce_fuel (length s) s.

Definition encode_string (s : bytes) : json := JStr (utf8_coerce s).

(** ** Numbers *)

Definition decimal_lit (n : N) : bytes := str (NilEmpty.string_of_uint (N.to_uint n)).
Definition parse_decimal (lit : bytes) : option N :=
  match lit with
  | [] => None
  | _ => N.of_uint <$> NilEmpty.uint_of_string (String.string_of_list_byte lit)
  end.
Definition encode_uint (n : N) : json := JNum (decimal_lit n).

(** ** Struct fields *)

(** [foldName]: two names fold alike when [bytes.EqualFold] equates them.  On
    names made of ASCII letters only two other runes fold onto a letter: the
    Kelvin sign and the long s. *)
Definition upper_ascii (c : byte) : byte :=
  let n := byte_val c in if ((97 <=? n) && (n <=? 122))%N then byte_of (n - 32) else c.
Fixpoint fold_name (s : bytes) : bytes :=
  match s with
  | xe2 :: x84 :: xaa :: s => x4b :: fold_name s
  | xc5 :: xbf :: s => x53 :: fold_name s
  | c :: s => upper_ascii c :: fold_name s
  | [] => []
  end.

(** The field a member is for: the one of its exact name, else the first whose
    name folds alike. *)
Definition resolve (names : list bytes) (key : bytes) : option bytes :=
  if decide (key ∈ names) then Some key
  else head (filter (λ name, fold_name name = fold_name key) names).

(** The values assigned to a field, in order. *)
Fixpoint assigned (names : list bytes) (ms : list (bytes * json)) (name : bytes) : list json :=
  match ms with
  | [] => []
  | (k, v) :: ms => if bool_decide (resolve names k = Some name) then v :: assigned names ms name else assigned names ms name
  end.

(** Fields are independent, so a struct is decoded field by field: each value
    assigned to it in turn, over the one before.  Members for no field are
    ignored. *)
Definition decode_field {A} (dec : A → json → result A) (zero : A) (names : list bytes) (ms : list (bytes * json)) (name : bytes) : result A :=
  foldM dec zero (assigned names ms name).

(** The members of a struct value; [null] has no effect. *)
Definition object_members (j : json) : result (list (bytes * json)) :=
  match j with
  | JObj ms => Ok ms
  | JNull => Ok []
  | _ => Err (Errorf "cannot unmarshal into Go struct")
  end.

(** A pointer or an [interface] apart, [null] leaves the value it meets. *)
Definition decode_string (old : bytes) (j : json) : result bytes :=
  match j with
  | JStr s => Ok s
  | JNull => Ok old
  | _ => Err (Errorf "cannot unmarshal into Go value of type string")
  end.

Definition decode_uint32 (old : N) (j : json) : result N :=
  match j with
  | JNum lit =>
      match parse_decimal lit with
      | Some n => if (n <? 2 ^ 32)%N then Ok n else Err (Errorf "cannot unmarshal number into uint32")
      | None => Err (Errorf "cannot unmarshal number into uint32")
      end
  | JNull => Ok old
  | _ => Err (Errorf "cannot unmarshal into Go value of type uint32")
  end.

(** A type with an [UnmarshalJSON] method decodes every value itself. *)
Definition decode_with {A} (unmarshal : json → result A) (old : A) (j : json) : result A := unmarshal j.

(** The elements of an array, each decoded over the old element in its place,
    or over a zero value. *)
Fixpoint decode_elements {A} (dec : A → json → result A) (zero : A) (old : list A) (l : list json) : result (list A) :=
  match l with
  | [] => Ok []
  | j :: l =>
      x ← dec (default zero (head old)) j;
      xs ← decode_elements dec zero (tail old) l;
      Ok (x :: xs)
  end.

Definition decode_slice {A} (dec : A → json → result A) (zero : A) (old : list A) (j : json) : result (list A) :=
  match j with
  | JArr l => decode_elements dec zero old l
  | JNull => Ok []
  | _ => Err (Errorf "cannot unmarshal into Go slice")
  end.

(** A nil slice is written as [null], an empty one as [[]]; the model has one
    empty list for both, and [nilSlice] says which of the two it is. *)
Definition encode_slice {A} (nilSlice : bool) (marshal : A → result json) (l : list A) : result json :=
  match l with
  | [] => Ok (if nilSlice then JNull else JArr [])
  | _ => js ← mapM_result marshal l; Ok (JArr js)
  end.

(** ** Round trips *)

Lemma parse_decimal_lit n : parse_decimal (decimal_lit n) = Some n.
Proof.
  unfold parse_decimal, decimal_lit, str.
  assert (String.list_byte_of_string (NilEmpty.string_of_uint (N.to_uint n)) ≠ []) as Hne.
  { destruct n as [|p]; [done|]. cbn. pose proof (DecimalPos.Unsigned.to_uint_nonnil p) as Hp. by destruct (Pos.to_uint p). }
  destruct (String.list_byte_of_string _) eqn:Es; [done|]. rewrite <-Es, String.string_of_list_byte_of_string, NilEmpty.usu.
  cbn. by rewrite DecimalN.Unsigned.of_to.
Qed.

Lemma decode_encode_uint32 old n : (n < 2 ^ 32)%N → decode_uint32 old (encode_uint n) = Ok n.
Proof. intros Hn. unfold decode_uint32, encode_uint. rewrite parse_decimal_lit. by apply N.ltb_lt in Hn as ->. Qed.

Lemma elements_roundtrip {A B} (enc : A → result json) (dec : B → json → result B) zero (f : A → B) l :
  Forall (λ x, ∃ j, enc x = Ok j ∧ dec zero j = Ok (f x)) l →
  ∃ js, mapM_result enc l = Ok js ∧ decode_elements dec zero [] js = Ok (map f l).
Proof.
  induction 1 as [|x l (j & He & Hd) _ (js & IHe & IHd)]; cbn; [by exists []|].
  rewrite He, IHe. cbn. exists (j :: js). split; [done|]. cbn. by rewrite Hd, IHd.
Qed.

Lemma slice_roundtrip {A B} b (enc : A → result json) (dec : B → json → result B) zero (f : A → B) l :
  Forall (λ x, ∃ j, enc x = Ok j ∧ dec zero j = Ok (f x)) l →
  ∃ j, encode_slice b enc l = Ok j ∧ decode_slice dec zero [] j = Ok (map f l).
Proof.
  intros H. destruct l as [|x l]; [by exists (if b then JNull else JArr []); destruct b|].
  destruct (elements_roundtrip _ _ _ _ _ H) as (js & He & Hd). exists (JArr js).
  unfold encode_slice. rewrite He. by split.
Qed.

(** A property that the element decoder establishes from a weaker one, which the
    zero element has. *)
Lemma decode_slice_inv {A} (P Q : A → Prop) (dec : A → json → result A) zero old j l :
  P zero → (∀ a, Q a → P a) → (∀ a j b, P a → dec a j = Ok b → Q b) → Forall Q old →
  decode_slice dec zero old j = Ok l → Forall Q l.
Proof.
  intros Hz HQ Hs Ho. destruct j as [| | | |js|]; try done; [by intros [= <-]|]. cbn. revert old Ho l.
  induction js as [|j js IH]; intros old Ho l; cbn; [by intros [= <-]|].
  destruct (dec _ j) as [x| |] eqn:Ex; [|done..]. cbn. destruct (decode_elements _ _ _ js) as [xs| |] eqn:Exs; [|done..].
  intros [= <-]. constructor.
  - eapply Hs; [|exact Ex]. destruct Ho; [done|by apply HQ].
  - eapply IH; [|exact Exs]. by destruct Ho.
Qed.

(** An object written with the field names in order, each once: a field gets
    its own member, also behind a member that is for no field. *)
Lemma resolve_exact names key : key ∈ names → resolve names key = Some key.
Proof. intros Hk. unfold resolve. by rewrite decide_True. Qed.

Lemma assigned_nth names ms i name v :
  NoDup names → map fst ms ⊆ names → NoDup (map fst ms) → ms !! i = Some (name, v) → assigned names ms name = [v].
Proof.
  intros Hn. revert i. induction ms as [|[k w] ms IH]; intros i Hsub Hnd Hi; [done|].
  cbn [map fst] in *. apply NoDup_cons in Hnd as [Hk Hnd]. cbn [assigned].
  rewrite resolve_exact by (apply Hsub, elem_of_cons; by left).
  assert (map fst ms ⊆ names) as Hsub' by (intros x Hx; apply Hsub, elem_of_cons; by right).
  destruct i as [|i]; cbn in Hi.
  - injection Hi as -> ->. rewrite bool_decide_true by done. f_equal. clear IH Hsub. induction ms as [|[k' w'] ms IH']; [done|].
    cbn [map fst] in *. cbn [assigned]. rewrite resolve_exact by (apply Hsub', elem_of_cons; by left).
    apply not_elem_of_cons in Hk as [Hk Hk']. rewrite bool_decide_false by congruence.
    apply NoDup_cons in Hnd as [_ Hnd]. apply IH'; [done|done|]. intros x Hx. apply Hsub', elem_of_cons. by right.
  - rewrite bool_decide_false; [by apply (IH i)|]. intros [= ->]. apply Hk.
    apply list_elem_of_fmap. exists (name, v). split; [done|]. by eapply list_elem_of_lookup_2.
Qed.

Lemma decode_field_nth {A} (dec : A → json → result A) zero names ms i name v :
  NoDup names → map fst ms = names → ms !! i = Some (name, v) → decode_field dec zero names ms name = dec zero v.
Proof.
  intros Hn Hms Hi. unfold decode_field. rewrite (assigned_nth names ms i name v); [|done|by rewrite Hms|by rewrite Hms|done].
  cbn. by destruct (dec zero v).
Qed.

Lemma decode_field_skip {A} (dec : A → json → result A) zero names k w ms name :
  resolve names k = None → decode_field dec zero names ((k, w) :: ms) name = decode_field dec zero names ms name.
Proof. intros Hk. unfold decode_field. cbn [assigned]. by rewrite Hk, bool_decide_false. Qed.

Lemma assigned_none names ms name : Forall (λ k, resolve names k = None) (map fst ms) → assigned names ms name = [].
Proof.
  induction ms as [|[k v] ms IH]; cbn [map fst]; [done|]. intros [Hk Hms]%Forall_cons. cbn [assigned].
  rewrite Hk, bool_decide_false by done. by apply IH.
Qed.
