(* ===== verification/Glob.v ===== *)
(** Pattern matching on annotation values (src/store/query.go: [globMatch],
    [prefixSuccessor]) and the "prefix*" test of src/query/evaluate.go. *)
From S2P Require Export GoStrings.

Definition star : byte := x2a.
Definition question : byte := x3f.

(** [for len(pattern) > 0 && pattern[0] == '*' { pattern = pattern[1:] }] *)
Fixpoint skip_stars (p : bytes) : bytes :=
  match p with
  | c :: p' => if decide (c = star) then skip_stars p' else p
  | [] => []
  end.

(** [for i := 0; i <= len(s); i++ { if f(s[i:]) { return true } }; return false] *)
Fixpoint any_suffix (f : bytes → bool) (s : bytes) : bool :=
  f s || match s with [] => false | _ :: s' => any_suffix f s' end.

(** [globMatch], with fuel for the nested recursion on the pattern: each call
    spends one unit per pattern byte it consumes. *)
Fixpoint globMatch_fuel (fuel : nat) (pattern s : bytes) : bool :=
  match fuel with
  | O => false
  | S fuel =>
      match pattern with
      | [] => match s with [] => true | _ => false end
      | c :: pattern' =>
          if decide (c = star) then
            let rest := skip_stars pattern in
            match rest with
            | [] => true
            | _ => any_suffix (globMatch_fuel fuel rest) s
            end
          else
            match s with
            | [] => false
            | x :: s' => if decide (c = question ∨ c = x) then globMatch_fuel fuel pattern' s' else false
            end
      end
  end.

Definition globMatch (pattern s : bytes) : bool := globMatch_fuel (S (length pattern)) pattern s.

(** [prefixSuccessor]: the loop runs from the last byte down. *)
Fixpoint successor_rev (r : bytes) : option bytes :=
  match r with
  | [] => None
  | c :: r' => if (byte_val c <? 255)%N then Some (rev (byte_of (byte_val c + 1) :: r')) else successor_rev r'
  end.
Definition prefixSuccessor (prefix : bytes) : option bytes := successor_rev (rev prefix).

Definition isPrefixGlob (pattern : bytes) : option bytes :=
  if negb (HasSuffix pattern [star]) then None else
  let prefix := take (length pattern - 1) pattern in
  if ContainsAny prefix [star; question] then None else Some prefix.

(** ** The pattern language *)

Inductive glob : bytes → bytes → Prop :=
  | glob_nil : glob [] []
  | glob_star p s1 s2 : glob p s2 → glob (star :: p) (s1 ++ s2)
  | glob_question p x s : glob p s → glob (question :: p) (x :: s)
  | glob_char c p s : c ≠ star → c ≠ question → glob p s → glob (c :: p) (c :: s).

Lemma glob_star_inv p s : glob (star :: p) s ↔ ∃ s1 s2, s = s1 ++ s2 ∧ glob p s2.
Proof.
  split.
  - intros H. inversion H as [|? s1 s2 ?|?|]; subst; [by eauto|done].
  - intros (s1 & s2 & -> & H). by constructor.
Qed.

Lemma glob_cons_inv c p s : c ≠ star →
  glob (c :: p) s ↔ ∃ x s', s = x :: s' ∧ (c = question ∨ c = x) ∧ glob p s'.
Proof.
  intros Hc. split.
  - intros H. inversion H; subst; [done|by eauto 10|by eauto 10].
  - intros (x & s' & -> & Hcx & H). destruct (decide (c = question)) as [->|Hq]; [by constructor|].
    destruct Hcx as [?| ->]; [done|by constructor].
Qed.

Lemma glob_skip_stars p s : glob (star :: p) s ↔ glob (star :: skip_stars p) s.
Proof.
  revert s. induction p as [|c p IH]; intros s; simpl; [done|].
  destruct (decide (c = star)) as [->|]; [|done].
  rewrite <-IH, !glob_star_inv. split.
  - intros (s1 & s2 & -> & (s3 & s4 & -> & H)%glob_star_inv). exists (s1 ++ s3), s4. by rewrite <-app_assoc.
  - intros (s1 & s2 & -> & H). exists s1, s2. split; [done|]. apply glob_star_inv. by exists [], s2.
Qed.

Lemma any_suffix_spec f s : any_suffix f s = true ↔ ∃ s1 s2, s = s1 ++ s2 ∧ f s2 = true.
Proof.
  induction s as [|x s IH]; simpl; rewrite orb_true_iff.
  - split; [intros [H|H]; [by exists [], []|done]|].
    intros (s1 & s2 & E & H). symmetry in E. apply app_eq_nil in E as [-> ->]. by left.
  - rewrite IH. split.
    + intros [H|(s1 & s2 & -> & H)]; [by exists [], (x :: s)|by exists (x :: s1), s2].
    + intros ([|y s1] & s2 & E & H); simplify_eq/=; [by left|right; by eauto].
Qed.

Lemma skip_stars_length p : (length (skip_stars p) ≤ length p)%nat.
Proof. induction p as [|c p IH]; simpl; [done|]. case_decide; simpl; lia. Qed.

Lemma globMatch_fuel_spec fuel p s :
  (length p < fuel)%nat → globMatch_fuel fuel p s = true ↔ glob p s.
Proof.
  revert p s. induction fuel as [|fuel IH]; intros p s Hf; [lia|].
  destruct p as [|c p]; simpl.
  - destruct s; split; [by constructor|done|done|by inversion 1].
  - destruct (decide (c = star)) as [->|Hc].
    + rewrite glob_skip_stars, glob_star_inv. simpl in Hf.
      pose proof (skip_stars_length p). destruct (skip_stars p) as [|d r] eqn:Er.
      * split; [|done]. intros _. exists s, []. split; [by rewrite app_nil_r|constructor].
      * rewrite any_suffix_spec. setoid_rewrite IH; [done|]. simpl in *. lia.
    + rewrite glob_cons_inv by done. simpl in Hf. destruct s as [|x s].
      * split; [done|]. by intros (? & ? & ? & _).
      * case_decide as Hx.
        -- rewrite IH by lia. split; [by eauto 10|]. intros (? & ? & ? & _ & ?). by simplify_eq.
        -- split; [done|]. intros (? & ? & ? & ? & _). by simplify_eq.
Qed.

Lemma globMatch_glob p s : globMatch p s = true ↔ glob p s.
Proof. apply globMatch_fuel_spec. lia. Qed.

(** Claim C29. [globMatch] decides the pattern language: ['*'] stands for any
    byte sequence, ['?'] for any one byte, every other byte for itself.  In
    particular the fuel of the model is enough for every pattern and string. *)
Theorem globMatch_correct p s : globMatch p s = true ↔ glob p s.
Proof. apply globMatch_glob. Qed.

(** ** Prefix ranges *)

Lemma between_app p a b s :
  bytes_le (p ++ a) s → bytes_lt s (p ++ b) → ∃ t, s = p ++ t ∧ bytes_le a t ∧ bytes_lt t b.
Proof.
  revert s. induction p as [|c p IH]; intros s Hl Hr; simpl in *; [by eauto|].
  destruct s as [|x s]; [by destruct Hl|].
  unfold bytes_le, bytes_lt in Hl, Hr. simpl in Hl, Hr.
  destruct (N.compare_spec (byte_val c) (byte_val x)) as [E|E|E]; [|exfalso..].
  - apply byte_val_inj in E as ->. rewrite N.compare_refl in Hr.
    destruct (IH s Hl Hr) as (t & -> & ? & ?). by eauto.
  - destruct (N.compare_spec (byte_val x) (byte_val c)); [lia..|done].
  - done.
Qed.

Lemma prefixSuccessor_snoc p c :
  prefixSuccessor (p ++ [c]) =
  if (byte_val c <? 255)%N then Some (p ++ [byte_of (byte_val c + 1)]) else prefixSuccessor p.
Proof.
  unfold prefixSuccessor. rewrite rev_unit. simpl. case_match; [|done].
  by rewrite rev_involutive.
Qed.

Lemma singleton_le c t : bytes_le [c] t ↔ ∃ x t', t = x :: t' ∧ (byte_val c ≤ byte_val x)%N.
Proof.
  unfold bytes_le. destruct t as [|x t]; simpl.
  - split; [done|]. by intros (? & ? & ? & _).
  - destruct (N.compare_spec (byte_val c) (byte_val x)) as [E|E|E]; split; intros H;
      try (destruct H as (? & ? & ? & ?); simplify_eq; lia);
      try (by eexists _, _; split; [done|lia]); try done; by destruct t.
Qed.

Lemma lt_singleton t c : bytes_lt t [c] ↔ t = [] ∨ ∃ x t', t = x :: t' ∧ (byte_val x < byte_val c)%N.
Proof.
  unfold bytes_lt. destruct t as [|x t]; simpl; [by split; [left|]|].
  destruct (N.compare_spec (byte_val x) (byte_val c)) as [E|E|E]; split; intros H; try done.
  - by destruct t.
  - destruct H as [?|(? & ? & ? & ?)]; simplify_eq; lia.
  - right. by eauto.
  - destruct H as [?|(? & ? & ? & ?)]; simplify_eq; lia.
Qed.

Lemma prefixSuccessor_bound p s :
  p `prefix_of` s ↔ bytes_le p s ∧ ∀ h, prefixSuccessor p = Some h → bytes_lt s h.
Proof.
  revert s. induction p as [|c p IH] using rev_ind; intros s.
  { split; [|intros; apply prefix_nil]. intros _. split; [apply bytes_le_nil|done]. }
  rewrite prefixSuccessor_snoc. pose proof (byte_val_lt c) as Hc. split.
  - intros [t ->]. split; [apply bytes_le_prefix|]. rewrite <-app_assoc. intros h.
    destruct (N.ltb_spec (byte_val c) 255).
    + intros [= <-]. rewrite bytes_lt_app. unfold bytes_lt. simpl.
      rewrite byte_val_of, N.mod_small by lia.
      destruct (N.compare_spec (byte_val c) (byte_val c + 1)); [lia|done|lia].
    + apply IH. by exists ([c] ++ t).
  - intros [Hle Hlt]. destruct (N.ltb_spec (byte_val c) 255).
    + destruct (between_app p [c] [byte_of (byte_val c + 1)] s Hle (Hlt _ eq_refl)) as (t & -> & H1 & H2).
      apply singleton_le in H1 as (x & t' & -> & H1).
      apply lt_singleton in H2 as [?|(x2 & t2 & E & H2)]; [done|]. injection E as <- <-.
      rewrite byte_val_of, N.mod_small in H2 by lia.
      assert (c = x) as -> by (apply byte_val_inj; lia). apply prefix_app, prefix_cons, prefix_nil.
    + destruct (proj2 (IH s)) as [t ->].
      { split; [|done]. eapply bytes_le_trans; [apply bytes_le_prefix|done]. }
      apply bytes_le_app, singleton_le in Hle as (x & t' & -> & Hx).
      pose proof (byte_val_lt x). assert (c = x) as -> by (apply byte_val_inj; lia).
      apply prefix_app, prefix_cons, prefix_nil.
Qed.

(** Claim C32. The half-open range [[p, prefixSuccessor p)] of the
    lexicographic order holds exactly the strings with prefix [p]; without a
    successor (all bytes 0xFF) the range is unbounded above.  So a prefix query
    can be answered by a range scan. *)
Theorem prefixSuccessor_range p s :
  p `prefix_of` s ↔ bytes_le p s ∧ match prefixSuccessor p with Some h => bytes_lt s h | None => True end.
Proof. 
  rewrite prefixSuccessor_bound. destruct (prefixSuccessor p) as [h|].
  - split; intros [H1 H2]; (split; [done|]); [by apply H2|by intros ? [= <-]].
  - split; intros [H1 H2]; by split.
Qed.

(** ** "prefix*" patterns *)

Lemma ContainsAny_false s chars : ContainsAny s chars = false ↔ ∀ c, c ∈ s → c ∉ chars.
Proof.
  unfold ContainsAny. induction s as [|x s IH]; simpl.
  - split; [|done]. intros _ c Hc. by apply elem_of_nil in Hc.
  - rewrite orb_false_iff, bool_decide_eq_false, IH. setoid_rewrite elem_of_cons. split.
    + intros [? ?] c [->|?]; auto.
    + intros Hc. split; [apply Hc; by left|intros; apply Hc; by right].
Qed.

Lemma glob_literal p q s :
  (∀ c, c ∈ p → c ∉ [star; question]) → glob (p ++ q) s ↔ ∃ t, s = p ++ t ∧ glob q t.
Proof.
  revert s. induction p as [|c p IH]; intros s Hp; simpl.
  { split; [by eauto|by intros (t & -> & ?)]. }
  assert (c ≠ star ∧ c ≠ question) as [? ?].
  { specialize (Hp c (list_elem_of_here _ _)). apply not_elem_of_cons in Hp as [? Hp].
    by apply not_elem_of_cons in Hp as [? _]. }
  rewrite glob_cons_inv by done. split.
  - intros (x & s' & -> & [?| ->] & Hg); [done|].
    apply IH in Hg as (t & -> & ?); [by eauto|]. intros d Hd. apply Hp. by right.
  - intros (t & -> & Hg). eexists _, _. split; [done|]. split; [by right|].
    apply IH; [intros d Hd; apply Hp; by right|]. by eauto.
Qed.

Lemma glob_any s : glob [star] s.
Proof. rewrite <-(app_nil_r s). apply glob_star, glob_nil. Qed.

Lemma isPrefixGlob_Some pattern p :
  isPrefixGlob pattern = Some p ↔ pattern = p ++ [star] ∧ ∀ c, c ∈ p → c ∉ [star; question].
Proof.
  unfold isPrefixGlob. split.
  - destruct (HasSuffix pattern [star]) eqn:Hs; [|done]. apply HasSuffix_spec in Hs as [q ->]. simpl.
    rewrite length_app. simpl. rewrite Nat.add_sub, take_app_length.
    destruct (ContainsAny q _) eqn:Hq; [done|]. intros [= <-]. split; [done|]. by apply ContainsAny_false.
  - intros [-> Hp%ContainsAny_false].
    assert (HasSuffix (p ++ [star]) [star] = true) as -> by (apply HasSuffix_spec; by exists p). simpl.
    rewrite length_app. simpl. rewrite Nat.add_sub, take_app_length. by rewrite Hp.
Qed.

Lemma isPrefixGlob_glob pattern p s : isPrefixGlob pattern = Some p → glob pattern s ↔ p `prefix_of` s.
Proof.
  intros [-> Hp]%isPrefixGlob_Some. rewrite glob_literal by done. unfold prefix.
  split; [by intros (t & -> & _); eauto|]. intros [t ->]. exists t. split; [done|apply glob_any].
Qed.
