(* ===== verification/Keys.v ===== *)
(** The PebbleDB key space and the fixed-size record codecs
    (src/store/keys.go). *)
From S2P Require Export GoStrings.

Definition prefixBitmap : bytes := str "arkiv_bm".
Definition prefixAnnot : bytes := str "arkiv_annot".
Definition prefixID : bytes := str "arkiv_id".
Definition prefixAddr : bytes := str "arkiv_addr".
Definition prefixPairs : bytes := str "arkiv_pairs".
Definition prefixRoot : bytes := str "arkiv_root".
Definition prefixParent : bytes := str "arkiv_parent".
Definition prefixBlockNumber : bytes := str "arkiv_blknum".
Definition headKey : bytes := str "arkiv_head".

Definition bitmapKey (hash : Hash) : bytes := prefixBitmap ++ hash.
Definition annotKey (key val : bytes) : bytes := prefixAnnot ++ key ++ x00 :: val.
Definition idKey (id : N) : bytes := prefixID ++ PutUint64 id.
Definition addrKey (addr : Address) : bytes := prefixAddr ++ addr.
Definition pairsKey (key val : bytes) : bytes := prefixPairs ++ key ++ x00 :: val.
Definition rootKey (blockHash : Hash) : bytes := prefixRoot ++ blockHash.
Definition parentKey (blockHash : Hash) : bytes := prefixParent ++ blockHash.
Definition blockNumberKey (number : N) : bytes := prefixBlockNumber ++ PutUint64 number.

Definition numericVal (v : N) : bytes := PutUint64 v.
Definition encodeUint64 (v : N) : bytes := PutUint64 v.
Definition decodeUint64 (b : bytes) : result N := Uint64 b.

Definition encodeHead (number : N) (hash root : Hash) : bytes :=
  PutUint64 number ++ hash ++ root.

(** [decodeHead] slices [b[:8]], [b[8:40]], [b[40:72]]: a shorter [b] panics. *)
Definition decodeHead `{EthCommon} (b : bytes) : result (N * Hash * Hash) :=
  if (length b <? 72)%nat then Panic else
  number ← Uint64 (take 8 b);
  Ok (number, BytesToHash (take 32 (drop 8 b)), BytesToHash (take 32 (drop 40 b))).

(** ** The key space as a data type *)

Inductive db_key :=
  | KBitmap (hash : Hash)
  | KAnnot (key val : bytes)
  | KID (id : N)
  | KAddr (addr : Address)
  | KPairs (key val : bytes)
  | KRoot (blockHash : Hash)
  | KParent (blockHash : Hash)
  | KBlockNumber (number : N)
  | KHead.

Definition key_bytes (k : db_key) : bytes :=
  match k with
  | KBitmap h => bitmapKey h
  | KAnnot k v => annotKey k v
  | KID i => idKey i
  | KAddr a => addrKey a
  | KPairs k v => pairsKey k v
  | KRoot h => rootKey h
  | KParent h => parentKey h
  | KBlockNumber n => blockNumberKey n
  | KHead => headKey
  end.

(** Annotation keys hold no separator byte, numbers are uint64s. *)
Definition key_wf (k : db_key) : Prop :=
  match k with
  | KAnnot k _ | KPairs k _ => x00 ∉ k
  | KID n | KBlockNumber n => is_u64 n
  | _ => True
  end.

Lemma sep_inj (k1 v1 k2 v2 : bytes) :
  x00 ∉ k1 → x00 ∉ k2 → k1 ++ x00 :: v1 = k2 ++ x00 :: v2 → k1 = k2 ∧ v1 = v2.
Proof.
  revert k2. induction k1 as [|x k1 IH]; intros [|y k2] H1 H2 E; simpl in *; simplify_eq.
  - done.
  - by apply not_elem_of_cons in H2 as [? _].
  - by apply not_elem_of_cons in H1 as [? _].
  - apply not_elem_of_cons in H1 as [_ ?], H2 as [_ ?]. by edestruct IH as [-> ->].
Qed.

(** Disequality of keys of different kinds, by their prefixes. *)
Ltac key_ne := by (intros ?; repeat case_match; discriminate).

Lemma key_bytes_inj_aux k1 k2 : key_wf k1 → key_wf k2 → key_bytes k1 = key_bytes k2 → k1 = k2.
Proof.
  intros H1 H2 E. destruct k1, k2; try discriminate E; try done;
    apply app_inv_head in E;
    first [by f_equal; apply array_bytes_inj
          | by f_equal; apply PutUint64_inj
          | by edestruct sep_inj as [-> ->]].
Qed.

Lemma arkiv_prefix k : str "arkiv_" `prefix_of` key_bytes k.
Proof. destruct k; by eexists. Qed.

Lemma idKey_inj i j : is_u64 i → is_u64 j → idKey i = idKey j → i = j.
Proof. intros Hi Hj Ek. apply app_inv_head in Ek. by apply PutUint64_inj. Qed.

Lemma addrKey_inj a b : addrKey a = addrKey b → a = b.
Proof. intros Ek. apply app_inv_head in Ek. by apply array_bytes_inj. Qed.
