(* ===== verification/EntityCodec.v ===== *)
(** Entities: their codec (src/store/entity.go), the annotation pairs under
    which the bitmap index lists them, and the conversion of wire attributes
    (src/store/ops.go). *)
From S2P Require Export Keys.

Section Entity.
Context {E : Env}.

(** [encodeEntity] returns the RLP encoding and its hash. *)
Definition encodeEntity (e : Entity) : result (bytes * Hash) :=
  data ← rlp_EncodeToBytes e;
  Ok (data, Keccak256Hash data).

Definition decodeEntity (data : bytes) : result Entity := rlp_DecodeBytes data.
Definition DecodeEntity (data : bytes) : result Entity := decodeEntity data.

Definition builtinAnnotations (e : Entity) : list annotPair := [
  mkAnnotPair (str "$all") (str "true");
  mkAnnotPair (str "$creator") (ToLower (Address_Hex (Creator e)));
  mkAnnotPair (str "$createdAtBlock") (numericVal (CreatedAtBlock e));
  mkAnnotPair (str "$lastModifiedAtBlock") (numericVal (LastModifiedAtBlock e));
  mkAnnotPair (str "$owner") (ToLower (Address_Hex (Owner e)));
  mkAnnotPair (str "$key") (ToLower (Hash_Hex (Key e)));
  mkAnnotPair (str "$expiration") (numericVal (ExpiresAt e));
  mkAnnotPair (str "$contentType") (ContentType e)].

Definition userAnnotations (e : Entity) : list annotPair :=
  map (λ a, mkAnnotPair (sa_Key a) (sa_Value a)) (StringAnnotations e) ++
  map (λ a, mkAnnotPair (na_Key a) (numericVal (na_Value a))) (NumericAnnotations e).

Definition allAnnotations (e : Entity) : list annotPair :=
  builtinAnnotations e ++ userAnnotations e.

(** A Go [map[annotPair]struct{}]. *)
Definition annotPairSet (pairs : list annotPair) : gmap annotPair () :=
  foldl (λ m p, <[p := tt]> m) ∅ pairs.

(** [v = v<<8 | uint64(byt)], over the last 8 bytes. *)
Definition attrUint64 (b : bytes) : N :=
  let b := if (8 <? length b)%nat then drop (length b - 8) b else b in
  foldl (λ v byt, N.lor (u64 (N.shiftl v 8)) (byte_val byt)) 0%N b.

Definition applyAttribute (e : Entity) (a : Attribute) : Entity :=
  if decide (attr_ValueType a = str "string") then
    let s := trim_right_byte x00 (attr_Value a) in
    set_StringAnnotations (StringAnnotations e ++ [mkStringAnnot (attr_Name a) s]) e
  else if decide (attr_ValueType a = str "uint") then
    set_NumericAnnotations (NumericAnnotations e ++ [mkNumericAnnot (attr_Name a) (attrUint64 (attr_Value a))]) e
  else if decide (attr_ValueType a = str "entityKey") then
    set_StringAnnotations (StringAnnotations e ++
      [mkStringAnnot (attr_Name a) (ToLower (Hash_Hex (BytesToHash (attr_Value a))))]) e
  else e.

Definition applyAttributes (e : Entity) (attrs : list Attribute) : Entity :=
  foldl applyAttribute e attrs.

End Entity.
