(* ===== verification/System.v ===== *)
(** The system account of the trie (src/store/system.go): the entity counter,
    and one storage slot per annotation pair and per entity ID. *)
From S2P Require Export EntityCodec.

Section System.
Context {E : Env}.

Definition systemAddress : Address := BytesToAddress (Keccak256 (str "arkiv.system")).

Definition entityCountSlot : Hash := Keccak256Hash (str "entity_count").

Definition initSystemAccount (sdb : StateDB) : StateDB :=
  if Exist sdb systemAddress then sdb
  else SetNonce (CreateAccount sdb systemAddress) systemAddress 1.

(** [binary.BigEndian.Uint64(val[24:])] of a 32-byte value. *)
Definition readEntityCount (sdb : StateDB) : N :=
  be_decode (drop 24 (GetState sdb systemAddress entityCountSlot)).

Definition incrementEntityCount (sdb : StateDB) : N * StateDB :=
  let id := u64 (readEntityCount sdb + 1) in
  let slot : Hash := array_copy HashLength (zeros 24 ++ PutUint64 id) in
  (id, SetState sdb systemAddress entityCountSlot slot).

Definition annotSlotKey (key val : bytes) : Hash :=
  Keccak256Hash (str "annot" ++ key ++ x00 :: val).

Definition idSlotKey (id : N) : Hash := Keccak256Hash (str "id" ++ PutUint64 id).

Definition setAnnotSlot (sdb : StateDB) (key val : bytes) (hash : Hash) : StateDB :=
  SetState sdb systemAddress (annotSlotKey key val) hash.

(** The address in the low 20 bytes of the slot. *)
Definition addressSlot (addr : Address) : Hash := array_copy HashLength (zeros 12 ++ addr).

Definition setIDSlot (sdb : StateDB) (id : N) (addr : Address) : StateDB :=
  SetState sdb systemAddress (idSlotKey id) (addressSlot addr).

Definition clearIDSlot (sdb : StateDB) (id : N) : StateDB :=
  SetState sdb systemAddress (idSlotKey id) zeroHash.

End System.
