(* ===== verification/Staging.v ===== *)
(** The write buffer of one block (src/store/staging.go): [StagingDB] routes
    writes to an in-memory store over the real database, and [CacheStore] adds
    the state of the trie and the dirty entities and bitmaps. *)
From S2P Require Export System.

Section Staging.
Context {E : Env}.

(** The embedded [ethdb.Database] is the real one; [discard] sets the in-memory
    store to nil, after which its use panics. *)
Record StagingDB := mkStagingDB {
  sd_Database : Database;
  sd_staging : option MemDB;
}.

Definition newStagingDB (real : Database) : StagingDB := mkStagingDB real (Some memorydb_New).

Definition staging_Get (s : StagingDB) (key : bytes) : result bytes :=
  match sd_staging s with
  | None => Panic
  | Some m =>
      match kv_Get m key with
      | Ok v => Ok v
      | Err _ => kv_Get (sd_Database s) key
      | Panic => Panic
      end
  end.

Definition staging_Has (s : StagingDB) (key : bytes) : result bool :=
  match sd_staging s with
  | None => Panic
  | Some m =>
      ok ← ignore_err false (kv_Has m key);
      if (ok : bool) then Ok true else kv_Has (sd_Database s) key
  end.

Definition with_staging (s : StagingDB) (f : MemDB → result MemDB) : result StagingDB :=
  match sd_staging s with
  | None => Panic
  | Some m => m' ← f m; Ok (mkStagingDB (sd_Database s) (Some m'))
  end.

Definition staging_Put (s : StagingDB) (key value : bytes) : result StagingDB :=
  with_staging s (λ m, mem_Put m key value).
Definition staging_Delete (s : StagingDB) (key : bytes) : result StagingDB :=
  with_staging s (λ m, mem_Delete m key).
(** [NewBatch] is a batch of the in-memory store: its [Write] lands there. *)
Definition staging_WriteBatch (s : StagingDB) (b : Batch) : result StagingDB :=
  with_staging s (λ m, kv_Write m b).

(** [commit] copies every live entry of the in-memory store to the real
    database in one batch.  The result is the error and the real database. *)
Definition staging_commit (s : StagingDB) : result () * Database :=
  match sd_staging s with
  | None => (Panic, sd_Database s)
  | Some m =>
      let batch := foldl (λ b kv, batch_Put b kv.1 kv.2) [] (kv_NewIterator m [] []).1 in
      match kv_Write (sd_Database s) batch with
      | Ok d => (Ok tt, d)
      | Err e => (Err e, sd_Database s)
      | Panic => (Panic, sd_Database s)
      end
  end.

Definition staging_discard (s : StagingDB) : StagingDB := mkStagingDB (sd_Database s) None.

(** What the trie database reads through a [StagingDB]. *)
Definition staging_reader (s : StagingDB) : reader := λ k, ok_val (staging_Get s k).

Record CacheStore := mkCacheStore {
  stagingDB : StagingDB;
  trieDB : TrieDB;
  stateDB : StateDB;
  blockNumber : N;
  blockHash : Hash;
  parentHash : Hash;
  dirtyEntities : gmap Address Entity;
  dirtyBitmaps : gmap annotPair Bitmap;
}.

Definition set_stagingDB (x : StagingDB) (c : CacheStore) : CacheStore :=
  mkCacheStore x (trieDB c) (stateDB c) (blockNumber c) (blockHash c) (parentHash c)
    (dirtyEntities c) (dirtyBitmaps c).
Definition set_trieDB (x : TrieDB) (c : CacheStore) : CacheStore :=
  mkCacheStore (stagingDB c) x (stateDB c) (blockNumber c) (blockHash c) (parentHash c)
    (dirtyEntities c) (dirtyBitmaps c).
Definition set_stateDB (x : StateDB) (c : CacheStore) : CacheStore :=
  mkCacheStore (stagingDB c) (trieDB c) x (blockNumber c) (blockHash c) (parentHash c)
    (dirtyEntities c) (dirtyBitmaps c).
Definition set_hashes (h p : Hash) (c : CacheStore) : CacheStore :=
  mkCacheStore (stagingDB c) (trieDB c) (stateDB c) (blockNumber c) h p
    (dirtyEntities c) (dirtyBitmaps c).
Definition set_dirtyEntities (x : gmap Address Entity) (c : CacheStore) : CacheStore :=
  mkCacheStore (stagingDB c) (trieDB c) (stateDB c) (blockNumber c) (blockHash c) (parentHash c)
    x (dirtyBitmaps c).
Definition set_dirtyBitmaps (x : gmap annotPair Bitmap) (c : CacheStore) : CacheStore :=
  mkCacheStore (stagingDB c) (trieDB c) (stateDB c) (blockNumber c) (blockHash c) (parentHash c)
    (dirtyEntities c) x.

Definition newCacheStore (real : Database) (parentRoot : Hash) (number : N) : result CacheStore :=
  let staging := newStagingDB real in
  let tdb := triedb_New in
  sdb ← wrap "open state" (state_New (staging_reader staging) parentRoot);
  Ok (mkCacheStore staging tdb sdb number zeroHash zeroHash ∅ ∅).

(** [getEntity] returns a pointer into [dirtyEntities]: the entity is cached on
    first access, and the caller updates it there. *)
Definition getEntity (c : CacheStore) (addr : Address) : result (Entity * CacheStore) :=
  match dirtyEntities c !! addr with
  | Some e => Ok (e, c)
  | None =>
      let code := GetCode (stateDB c) addr in
      if (length code =? 0)%nat then Err (Errorf "entity not found") else
      e ← wrap "decode entity" (decodeEntity code);
      Ok (e, set_dirtyEntities (<[addr := e]> (dirtyEntities c)) c)
  end.

(** Writes through the cache store. *)
Definition cs_Put (c : CacheStore) (key value : bytes) : result CacheStore :=
  sd ← staging_Put (stagingDB c) key value;
  Ok (set_stagingDB sd c).
Definition cs_WriteBatch (c : CacheStore) (b : Batch) : result CacheStore :=
  sd ← staging_WriteBatch (stagingDB c) b;
  Ok (set_stagingDB sd c).

Definition Discard (c : CacheStore) : CacheStore :=
  set_stagingDB (staging_discard (stagingDB c)) c.

End Staging.

(** ** The staging layer as a reader *)

Abbreviation rd cs := (staging_reader (stagingDB cs)).

Section StagingLemmas.
Context {E : Env} {EO : EnvOk}.

(** Not discarded. *)
Definition live (s : StagingDB) : Prop := is_Some (sd_staging s).

Lemma kv_Get_lookup {D} `{KeyValueOk D} (d : D) k v : kv_Get d k = Ok v ↔ kv_lookup d k = Some v.
Proof. unfold kv_lookup. by rewrite ok_val_Some. Qed.

Lemma kv_Get_None {D} `{KeyValueOk D} (d : D) k : kv_lookup d k = None → ∃ e, kv_Get d k = Err e.
Proof.
  unfold kv_lookup. intros Hn. destruct (kv_Get d k) eqn:Eg; simpl in Hn; [done|by eauto|].
  by apply kv_Get_no_panic in Eg.
Qed.

Lemma staging_reader_eq s m : sd_staging s = Some m →
  ∀ k, staging_reader s k = match kv_lookup m k with Some v => Some v | None => kv_lookup (sd_Database s) k end.
Proof.
  intros Hm k. unfold staging_reader, staging_Get. rewrite Hm. unfold kv_lookup.
  destruct (kv_Get m k) eqn:Eg; simpl; [done|done|]. by apply kv_Get_no_panic in Eg.
Qed.

Lemma staging_Get_Some s k v : staging_Get s k = Ok v ↔ staging_reader s k = Some v.
Proof. unfold staging_reader. by rewrite ok_val_Some. Qed.

Lemma staging_Get_None s k : live s → staging_reader s k = None → ∃ e, staging_Get s k = Err e.
Proof.
  intros [m Hm]. rewrite (staging_reader_eq _ _ Hm). unfold staging_Get. rewrite Hm.
  destruct (kv_lookup m k) eqn:Em; [done|].
  destruct (kv_Get_None _ _ Em) as [e ->]. apply kv_Get_None.
Qed.

Lemma staging_Has_spec s k : live s →
  ignore_err false (staging_Has s k) = Ok (bool_decide (is_Some (staging_reader s k))).
Proof.
  intros [m Hm]. rewrite (staging_reader_eq _ _ Hm). unfold staging_Has. rewrite Hm.
  assert (∀ D (HK : KeyValue D) (HO : KeyValueOk D) (d : D),
    ignore_err false (kv_Has d k) = Ok (bool_decide (is_Some (kv_lookup d k)))) as Hhas.
  { intros D HK HO d. pose proof (kv_Has_spec d k) as Hs. pose proof (kv_Has_no_panic d k).
    destruct (kv_Has d k) as [[|]|?|]; simpl; [| | |done]; f_equal; symmetry.
    - by apply bool_decide_eq_true, Hs.
    - apply bool_decide_eq_false. rewrite <-Hs. congruence.
    - apply bool_decide_eq_false. rewrite <-Hs. congruence. }
  rewrite Hhas by apply _. cbn.
  destruct (kv_lookup m k) as [v|]; simpl; [done|by apply Hhas, _].
Qed.

(** A write succeeds, stays in the staging layer, and shows in the reader. *)
Lemma staging_Put_ok s k v : live s → ∃ s', staging_Put s k v = Ok s' ∧ live s' ∧
  sd_Database s' = sd_Database s ∧ ∀ k', staging_reader s' k' = upd k v (staging_reader s) k'.
Proof.
  intros [m Hm]. unfold staging_Put, with_staging. rewrite Hm.
  destruct (mem_Put_ok m k v) as (m' & -> & Hm'). cbn. eexists. split; [done|].
  split; [by eexists|]. split; [done|]. intros k'. unfold upd.
  rewrite (staging_reader_eq _ m'), (staging_reader_eq _ m) by done. rewrite Hm'. simpl. by case_decide.
Qed.

Lemma staging_WriteBatch_ok s b : live s →
  ∃ s', staging_WriteBatch s b = Ok s' ∧ live s' ∧ sd_Database s' = sd_Database s ∧
    (Forall (λ op, ∃ k v, op = BatchPut k v) b → ∀ k, staging_reader s' k = overlay b (staging_reader s) k).
Proof.
  intros [m Hm]. unfold staging_WriteBatch, with_staging. rewrite Hm.
  destruct (mem_Write_ok m b) as (m' & Hw). rewrite Hw. cbn. eexists. split; [done|].
  split; [by eexists|]. split; [done|]. intros Hb k.
  rewrite (staging_reader_eq _ m') by done. rewrite (kv_Write_spec _ _ _ Hw). simpl.
  unfold overlay. destruct (batch_lookup b k) as [[v|]|] eqn:Eb.
  - done.
  - exfalso. clear -Eb Hb. induction b as [|op b IH] using rev_ind; [done|].
    apply Forall_app in Hb as [Hb Hop]. rewrite Forall_singleton in Hop. destruct Hop as (k0 & v0 & ->).
    rewrite batch_lookup_app in Eb. unfold batch_lookup in Eb at 1. simpl in Eb.
    case_decide; [done|]. by apply IH.
  - by rewrite (staging_reader_eq _ m).
Qed.

(** The atomic flush: on success the database is what the staging layer
    showed; on failure it is unchanged. *)
Lemma staging_commit_spec s r d : live s → staging_commit s = (r, d) →
  match r with
  | Ok _ => ∀ k, kv_lookup d k = staging_reader s k
  | _ => d = sd_Database s
  end.
Proof.
  intros [m Hm]. unfold staging_commit. rewrite Hm.
  destruct (kv_Write _ _) as [d'|e|] eqn:Ew; intros [= <- <-]; [|done|done].
  intros k. rewrite (kv_Write_spec _ _ _ Ew), (staging_reader_eq _ _ Hm).
  pose proof (kv_iter_sorted m [] []) as Hsort.
  unfold overlay. rewrite batch_lookup_copy by (by apply sorted_keys_NoDup).
  destruct (list_to_map _ !! k) as [v|] eqn:El.
  - apply elem_of_list_to_map_2, kv_iter_sound in El as (-> & _ & _). done.
  - unfold batch_lookup. simpl. destruct (kv_lookup m k) as [v|] eqn:Em; [|done].
    apply not_elem_of_list_to_map_2 in El. destruct El.
    apply list_elem_of_fmap. exists (k, v). split; [done|].
    apply kv_iter_complete; [apply mem_iter_ok|done|apply prefix_nil|apply bytes_le_nil].
Qed.

End StagingLemmas.
