(* ===== verification/BitmapIndex.v ===== *)
(** The annotation bitmaps of a block (src/store/bitmap.go): first-touch
    loading into the dirty cache, mutation there, and the flush at commit. *)
From S2P Require Export Staging.

Section Bitmap.
Context {E : Env}.

(** The bitmap a first touch loads: the one the pointer leads to, or a new one
    when there is no 32-byte pointer. *)
Definition loadBitmap (s : StagingDB) (key val : bytes) : result Bitmap :=
  oldHashBytes ← ignore_err [] (staging_Get s (annotKey key val));
  if (length oldHashBytes =? HashLength)%nat then
    bmBytes ← staging_Get s (bitmapKey (BytesToHash oldHashBytes));
    bm_UnmarshalBinary bmBytes
  else Ok roaring_New.

Definition mutateBitmap (cs : CacheStore) (key val : bytes) (mutate : Bitmap → Bitmap) : result CacheStore :=
  let pair := mkAnnotPair key val in
  bm ← match dirtyBitmaps cs !! pair with
       | Some bm => Ok bm
       | None => loadBitmap (stagingDB cs) key val
       end;
  Ok (set_dirtyBitmaps (<[pair := mutate bm]> (dirtyBitmaps cs)) cs).

Definition bitmapAdd (cs : CacheStore) (key val : bytes) (entityID : N) : result CacheStore :=
  mutateBitmap cs key val (bm_Add entityID).

Definition bitmapRemove (cs : CacheStore) (key val : bytes) (entityID : N) : result CacheStore :=
  mutateBitmap cs key val (bm_Remove entityID).

(** The body of the loop of [flushBitmaps]. *)
Definition flushBitmap (c : CacheStore) (entry : annotPair * Bitmap) : result CacheStore :=
  let '(p, bm) := entry in
  newBytes ← wrap "marshal bitmap" (bm_MarshalBinary bm);
  let newHash := Keccak256Hash newBytes in
  c ← cs_Put c (bitmapKey newHash) newBytes;
  c ← cs_Put c (annotKey (pair_key p) (pair_val p)) newHash;
  let c := set_stateDB (setAnnotSlot (stateDB c) (pair_key p) (pair_val p) newHash) c in
  let pk := pairsKey (pair_key p) (pair_val p) in
  has ← ignore_err false (staging_Has (stagingDB c) pk);
  if (has : bool) then Ok c else cs_Put c pk [x01].

Definition flushBitmaps (c : CacheStore) : result CacheStore :=
  foldM flushBitmap c (go_range (dirtyBitmaps c)).

End Bitmap.
