(* ===== verification/Ops.v ===== *)
(** The six operations on entities and their dispatch (src/store/ops.go), the
    entity flush, and the commit of a block (src/store/staging.go). *)
From S2P Require Export BitmapIndex.

Section Ops.
Context {E : Env}.

(** [for _, pair := range pairs { if err := f(cs, pair, id) ... }] *)
Definition bitmapAddAll (cs : CacheStore) (pairs : list annotPair) (entityID : N) : result CacheStore :=
  foldM (λ cs pair, wrap "bitmap add" (bitmapAdd cs (pair_key pair) (pair_val pair) entityID)) cs pairs.
Definition bitmapRemoveAll (cs : CacheStore) (pairs : list annotPair) (entityID : N) : result CacheStore :=
  foldM (λ cs pair, wrap "bitmap remove" (bitmapRemove cs (pair_key pair) (pair_val pair) entityID)) cs pairs.

Definition newEntity (number : N) (op : CreateOp) : Entity :=
  applyAttributes
    (mkEntity (create_Payload op) (create_Owner op) (create_Sender op) (create_ExpiresAt op)
      number number (create_TxIndex op) (create_OpIndex op)
      (create_ContentType op) (create_EntityKey op) [] [])
    (create_Attributes op).

Definition processCreate (cs : CacheStore) (op : CreateOp) : result CacheStore :=
  let addr := keyAddress (create_EntityKey op) in
  (* 1. assign the ID and set up the trie account *)
  let '(entityID, sdb) := incrementEntityCount (stateDB cs) in
  let sdb := CreateAccount sdb addr in
  let cs := set_stateDB (setIDSlot sdb entityID addr) cs in
  (* 2. the PebbleDB mappings *)
  cs ← cs_Put cs (idKey entityID) addr;
  cs ← cs_Put cs (addrKey addr) (encodeUint64 entityID);
  (* 3. cache the entity *)
  let entity := newEntity (blockNumber cs) op in
  let cs := set_dirtyEntities (<[addr := entity]> (dirtyEntities cs)) cs in
  (* 4. update the bitmap caches *)
  bitmapAddAll cs (allAnnotations entity) entityID.

(** [idBytes, err := cs.stagingDB.Get(addrKey(addr)); decodeUint64(idBytes)] *)
Definition lookupEntityID (cs : CacheStore) (addr : Address) : result N :=
  idBytes ← wrap "entity ID not found" (staging_Get (stagingDB cs) (addrKey addr));
  decodeUint64 idBytes.

Definition updatedEntity (number : N) (old : Entity) (op : UpdateOp) : Entity :=
  applyAttributes
    (mkEntity (update_Payload op) (Owner old) (Creator old) (ExpiresAt old)
      (CreatedAtBlock old) number (TransactionIndexInBlock old)
      (OperationIndexInTransaction old) (update_ContentType op) (Key old) [] [])
    (update_Attributes op).

(** The keys of [m] that are not keys of [m'], in iteration order. *)
Definition keys_not_in (m m' : gmap annotPair ()) : list annotPair :=
  filter (λ p, m' !! p = None) (map fst (go_range m)).

Definition processUpdate (cs : CacheStore) (op : UpdateOp) : result CacheStore :=
  let addr := keyAddress (update_EntityKey op) in
  '(old, cs) ← getEntity cs addr;
  entityID ← lookupEntityID cs addr;
  let updated := updatedEntity (blockNumber cs) old op in
  let oldSet := annotPairSet (allAnnotations old) in
  let newSet := annotPairSet (allAnnotations updated) in
  cs ← bitmapRemoveAll cs (keys_not_in oldSet newSet) entityID;
  cs ← bitmapAddAll cs (keys_not_in newSet oldSet) entityID;
  Ok (set_dirtyEntities (<[addr := updated]> (dirtyEntities cs)) cs).

Definition deleteEntity (cs : CacheStore) (addr : Address) : result CacheStore :=
  '(entity, cs) ← getEntity cs addr;
  entityID ← lookupEntityID cs addr;
  cs ← bitmapRemoveAll cs (allAnnotations entity) entityID;
  let cs := set_stateDB (clearIDSlot (stateDB cs) entityID) cs in
  let cs := set_dirtyEntities (delete addr (dirtyEntities cs)) cs in
  Ok (set_stateDB (SetCode (stateDB cs) addr []) cs).

Definition processDelete (cs : CacheStore) (op : DeleteOp) : result CacheStore :=
  deleteEntity cs (keyAddress (delete_EntityKey op)).

Definition processExpire (cs : CacheStore) (op : ExpireOp) : result CacheStore :=
  deleteEntity cs (keyAddress (expire_EntityKey op)).

Definition processExtend (cs : CacheStore) (op : ExtendOp) : result CacheStore :=
  let addr := keyAddress (extend_EntityKey op) in
  '(entity, cs) ← getEntity cs addr;
  entityID ← lookupEntityID cs addr;
  cs ← bitmapRemove cs (str "$expiration") (numericVal (ExpiresAt entity)) entityID;
  let entity := set_ExpiresAt (extend_ExpiresAt op) entity in
  let cs := set_dirtyEntities (<[addr := entity]> (dirtyEntities cs)) cs in
  bitmapAdd cs (str "$expiration") (numericVal (ExpiresAt entity)) entityID.

Definition processTransfer (cs : CacheStore) (op : TransferOp) : result CacheStore :=
  let addr := keyAddress (transfer_EntityKey op) in
  '(entity, cs) ← getEntity cs addr;
  entityID ← lookupEntityID cs addr;
  cs ← bitmapRemove cs (str "$owner") (ToLower (Address_Hex (Owner entity))) entityID;
  let entity := set_Owner (transfer_Owner op) entity in
  let cs := set_dirtyEntities (<[addr := entity]> (dirtyEntities cs)) cs in
  bitmapAdd cs (str "$owner") (ToLower (Address_Hex (Owner entity))) entityID.

Definition applyOp (cs : CacheStore) (op : ArkivOperation) : result CacheStore :=
  match op_Create op with Some o => processCreate cs o | None =>
  match op_Update op with Some o => processUpdate cs o | None =>
  match op_Delete op with Some o => processDelete cs o | None =>
  match op_Extend op with Some o => processExtend cs o | None =>
  match op_Transfer op with Some o => processTransfer cs o | None =>
  match op_Expire op with Some o => processExpire cs o | None =>
    Err (Errorf "empty operation")
  end end end end end end.

Definition ApplyOp (cs : CacheStore) (op : ArkivOperation) : result CacheStore := applyOp cs op.

Definition flushEntity (c : CacheStore) (entry : Address * Entity) : result CacheStore :=
  let '(addr, entity) := entry in
  '(data, _) ← encodeEntity entity;
  Ok (set_stateDB (SetCode (stateDB c) addr data) c).

Definition flushEntities (c : CacheStore) : result CacheStore :=
  foldM flushEntity c (go_range (dirtyEntities c)).

(** Steps 1 to 6 of [Commit], all of them on the staging layer. *)
Definition stageCommit (c : CacheStore) : result (Hash * CacheStore) :=
  c ← wrap "flush entities" (flushEntities c);
  c ← wrap "flush bitmaps" (flushBitmaps c);
  '(newRoot, tdb, codes) ← wrap "commit state" (state_Commit (stateDB c) (trieDB c) (blockNumber c) true false);
  c ← cs_WriteBatch (set_trieDB tdb c) codes;
  nodes ← wrap "commit trie" (triedb_Commit (trieDB c) newRoot false);
  c ← wrap "commit trie" (cs_WriteBatch c nodes);
  c ← cs_Put c (rootKey (blockHash c)) newRoot;
  c ← cs_Put c (parentKey (blockHash c)) (parentHash c);
  c ← cs_Put c (blockNumberKey (blockNumber c)) (blockHash c);
  c ← wrap "stage head" (cs_Put c headKey (encodeHead (blockNumber c) (blockHash c) newRoot));
  Ok (newRoot, c).

(** [Commit]: the staging steps, then the atomic flush.  The result is the
    root or the error, and the real database. *)
Definition Commit (c : CacheStore) : result Hash * Database :=
  match stageCommit c with
  | Err e => (Err e, sd_Database (stagingDB c))
  | Panic => (Panic, sd_Database (stagingDB c))
  | Ok (newRoot, c) =>
      let '(r, d) := staging_commit (stagingDB c) in
      (wrap "atomic flush" (_ ← r; Ok newRoot), d)
  end.

End Ops.
