(* ===== verification/Revert.v ===== *)
(** Repopulation of the mutable PebbleDB entries from the trie after a revert
    (src/store/revert.go). *)
From S2P Require Export Ops.

Section Revert.
Context {E : Env}.

Definition repopulateAnnotEntry (sdb : StateDB) (batch : Batch) (entry : bytes * bytes) : Batch :=
  let suffix := drop (length prefixPairs) entry.1 in
  match IndexByte suffix x00 with
  | None => batch
  | Some sep =>
      let aKey := take sep suffix in
      let aVal := drop (sep + 1) suffix in
      let hash := GetState sdb systemAddress (annotSlotKey aKey aVal) in
      let ak := annotKey aKey aVal in
      if decide (hash = zeroHash) then batch_Delete batch ak else batch_Put batch ak hash
  end.

Definition repopulateAnnot (rawDB : Database) (batch : Batch) (sdb : StateDB) : result Batch :=
  let '(entries, err) := kv_NewIterator rawDB prefixPairs [] in
  let batch := foldl (repopulateAnnotEntry sdb) batch entries in
  match err with Some e => Err e | None => Ok batch end.

Definition repopulateIDEntry (sdb : StateDB) (batch : Batch) (entry : bytes * bytes) : result Batch :=
  let '(key, value) := entry in
  if negb (length key =? length prefixID + 8)%nat then Ok batch else
  id ← decodeUint64 (drop (length prefixID) key);
  let slotVal := GetState sdb systemAddress (idSlotKey id) in
  if decide (slotVal = zeroHash) then
    let batch := if (length value =? 20)%nat
                 then batch_Delete batch (addrKey (BytesToAddress value)) else batch in
    Ok (batch_Delete batch key)
  else Ok batch.

Definition repopulateIDs (rawDB : Database) (batch : Batch) (sdb : StateDB) : result Batch :=
  let '(entries, err) := kv_NewIterator rawDB prefixID [] in
  batch ← foldM (repopulateIDEntry sdb) batch entries;
  match err with Some e => Err e | None => Ok batch end.

Definition repopulatePebbleDB (rawDB : Database) (batch : Batch) (sdb : StateDB) : result Batch :=
  batch ← repopulateAnnot rawDB batch sdb;
  repopulateIDs rawDB batch sdb.

End Revert.
