(* ===== verification/Store.v ===== *)
(** The store (src/store/store.go): opening, block processing, reverts and
    reorgs.  [ProcessBlock], [RevertBlocks], [Reorg] hold the write lock for
    their whole run, so each is one step; a step takes the store and returns
    the outcome with the store it leaves, on errors too. *)
From S2P Require Export Revert.

Section StoreState.
Context {E : Env}.

(** [trieDB] and [stateDB] of the struct are read-only handles on [rawDB]. *)
Record Store := mkStore {
  rawDB : Database;
  headRoot : Hash;
  headHash : Hash;
  headNumber : N;
}.

Definition store_reader (s : Store) : reader := kv_lookup (rawDB s).

End StoreState.

(** A step of the store: the outcome and the store after it. *)
Abbreviation step A := (result A * Store)%type.

Section Store.
Context {E : Env}.

Definition New (raw : Database) : result Store :=
  match kv_Get raw headKey with
  | Ok b =>
      if (length b =? 72)%nat then
        '(number, hash, root) ← decodeHead b;
        Ok (mkStore raw root hash number)
      else Ok (mkStore raw EmptyRootHash zeroHash 0)
  | Err _ => Ok (mkStore raw EmptyRootHash zeroHash 0)
  | Panic => Panic
  end.

(** [processBlock] injects the sender and index of the transaction. *)
Definition injectTx (tx : ArkivTransaction) (op : ArkivOperation) : ArkivOperation :=
  match op_Create op with
  | None => op
  | Some o =>
      mkArkivOperation
        (Some (mkCreateOp (create_OpIndex o) (create_EntityKey o) (tx_Sender tx) (tx_Index tx)
          (create_Owner o) (create_ExpiresAt o) (create_EntityHash o) (create_ChangesetHash o)
          (create_Payload o) (create_ContentType o) (create_Attributes o)))
        (op_Update op) (op_Delete op) (op_Extend op) (op_Transfer op) (op_Expire op)
  end.

Definition applyTransaction (cs : CacheStore) (tx : ArkivTransaction) : result CacheStore :=
  foldM (λ cs op, wrap "tx op" (ApplyOp cs (injectTx tx op))) cs (tx_Operations tx).

(** The cache store a block starts from. *)
Definition openBlock (s : Store) (block : ArkivBlock) : result CacheStore :=
  let h := block_Header block in
  cs ← newCacheStore (rawDB s) (headRoot s) (header_Number h);
  let cs := set_hashes (header_Hash h) (header_ParentHash h) cs in
  Ok (set_stateDB (initSystemAccount (stateDB cs)) cs).

Definition processBlock (s : Store) (block : ArkivBlock) : step Hash :=
  let h := block_Header block in
  match (cs ← openBlock s block; foldM applyTransaction cs (block_Transactions block)) with
  | Err e => (Err e, s)
  | Panic => (Panic, s)
  | Ok cs =>
      let '(r, d) := Commit cs in
      match r with
      | Err e => (Err e, mkStore d (headRoot s) (headHash s) (headNumber s))
      | Panic => (Panic, mkStore d (headRoot s) (headHash s) (headNumber s))
      | Ok newRoot => (Ok newRoot, mkStore d newRoot (header_Hash h) (header_Number h))
      end
  end.

Definition ProcessBlock (s : Store) (block : ArkivBlock) : step Hash := processBlock s block.

Definition HeadRoot (s : Store) : Hash := headRoot s.

(** The state root recorded for a block, or the empty root. *)
Definition ancestorRootOf (s : Store) (hash : Hash) : result Hash :=
  match kv_Get (rawDB s) (rootKey hash) with
  | Ok b => Ok (BytesToHash b)
  | Err _ => Ok EmptyRootHash
  | Panic => Panic
  end.

Definition deleteBlockIndex (batch : Batch) (ref : ArkivBlockRef) : Batch :=
  batch_Delete (batch_Delete (batch_Delete batch (rootKey (ref_Hash ref)))
    (parentKey (ref_Hash ref))) (blockNumberKey (ref_Number ref)).

(** The batch of a revert to the parent of [oldest], and the head it sets. *)
Definition revertBatch (s : Store) (oldest : ArkivBlockRef) (refs : list ArkivBlockRef) :
    result (Batch * (N * Hash * Hash)) :=
  parentHashBytes ← wrap "parent hash not found" (kv_Get (rawDB s) (parentKey (ref_Hash oldest)));
  let ancestorHash := BytesToHash parentHashBytes in
  ancestorRoot ← ancestorRootOf s ancestorHash;
  sdb ← wrap "open state" (state_New (store_reader s) ancestorRoot);
  batch ← wrap "repopulate pebble" (repopulatePebbleDB (rawDB s) [] sdb);
  let batch := foldl deleteBlockIndex batch refs in
  let ancestorNumber := (if 0 <? ref_Number oldest then ref_Number oldest - 1 else 0)%N in
  let batch := batch_Put batch headKey (encodeHead ancestorNumber ancestorHash ancestorRoot) in
  Ok (batch, (ancestorNumber, ancestorHash, ancestorRoot)).

Definition applyRevert (s : Store) (r : result (Batch * (N * Hash * Hash))) : step () :=
  match r with
  | Err e => (Err e, s)
  | Panic => (Panic, s)
  | Ok (batch, (number, hash, root)) =>
      match kv_Write (rawDB s) batch with
      | Err e => (Err (Wrapf "atomic revert flush" e), s)
      | Panic => (Panic, s)
      | Ok d => (Ok tt, mkStore d root hash number)
      end
  end.

(** [revertBlock] is the one-block case; [revertToAncestor] takes the newest
    block first, and panics on an empty list (its callers check). *)
Definition revertBlock (s : Store) (ref : ArkivBlockRef) : step () :=
  applyRevert s (revertBatch s ref [ref]).

Definition revertToAncestor (s : Store) (revertedBlocks : list ArkivBlockRef) : step () :=
  match last revertedBlocks with
  | None => (Panic, s)
  | Some oldest => applyRevert s (revertBatch s oldest revertedBlocks)
  end.

Definition RevertBlock (s : Store) (ref : ArkivBlockRef) : step Hash :=
  let '(r, s') := revertBlock s ref in
  (_ ← r; Ok (headRoot s'), s').

Definition RevertBlocks (s : Store) (refs : list ArkivBlockRef) : step Hash :=
  match refs with
  | [] => (Ok (headRoot s), s)
  | _ => let '(r, s') := revertToAncestor s refs in (_ ← r; Ok (headRoot s'), s')
  end.

(** [for i, block := range newBlocks { if _, err := s.processBlock(block) ... }] *)
Fixpoint processBlocks (s : Store) (blocks : list ArkivBlock) : step () :=
  match blocks with
  | [] => (Ok tt, s)
  | b :: blocks =>
      match processBlock s b with
      | (Ok _, s) => processBlocks s blocks
      | (Err e, s) => (Err (Wrapf "new block" e), s)
      | (Panic, s) => (Panic, s)
      end
  end.

Definition Reorg (s : Store) (revertedBlocks : list ArkivBlockRef) (newBlocks : list ArkivBlock) : step Hash :=
  let '(r, s) := match revertedBlocks with
                 | [] => (Ok tt, s)
                 | _ => revertToAncestor s revertedBlocks
                 end in
  match r with
  | Err e => (Err e, s)
  | Panic => (Panic, s)
  | Ok _ =>
      let '(r, s) := processBlocks s newBlocks in
      (_ ← r; Ok (headRoot s), s)
  end.

(** The root a block answers with is the new head root. *)
Lemma processBlock_root s block root s' : processBlock s block = (Ok root, s') → headRoot s' = root.
Proof.
  unfold processBlock. destruct (mbind _ _) as [cs| |]; [|done..].
  destruct (Commit cs) as [[r| |] d]; [|done..]. by intros [= <- <-].
Qed.

End Store.
