(* ===== verification/StoreQuery.v ===== *)
(** The read path of the store (src/store/query.go). *)
From S2P Require Export Store Glob.

Section StoreQuery.
Context {E : Env}.

Definition HeadHash (s : Store) : Hash := headHash s.
Definition HeadNumber (s : Store) : N := headNumber s.

Definition openStateAt (s : Store) (atBlockNumber : N) : result StateDB :=
  root ← (if (atBlockNumber =? 0)%N then Ok (headRoot s) else
    hashBytes ← wrap "block not found" (kv_Get (rawDB s) (blockNumberKey atBlockNumber));
    rootBytes ← wrap "state root not found" (kv_Get (rawDB s) (rootKey (BytesToHash hashBytes)));
    Ok (BytesToHash rootBytes));
  state_New (store_reader s) root.

Definition ReadAnnotBitmap (s : Store) (atBlockNumber : N) (key val : bytes) : result Bitmap :=
  sdb ← openStateAt s atBlockNumber;
  let h := GetState sdb systemAddress (annotSlotKey key val) in
  if decide (h = zeroHash) then Ok roaring_New else
  match kv_Get (rawDB s) (bitmapKey h) with
  | Panic => Panic
  | Err _ => Ok roaring_New
  | Ok bmBytes =>
      if (length bmBytes =? 0)%nat then Ok roaring_New
      else wrap "unmarshal bitmap" (bm_UnmarshalBinary bmBytes)
  end.

Definition AllEntities (s : Store) (atBlockNumber : N) : result Bitmap :=
  ReadAnnotBitmap s atBlockNumber (str "$all") (str "true").

Definition annotKeyPrefix (key : bytes) : bytes := prefixAnnot ++ key ++ [x00].

(** Returns nil ([None]) on any error. *)
Definition loadBitmapFromPointer (s : Store) (hashBytes : bytes) : option Bitmap :=
  if negb (length hashBytes =? HashLength)%nat then None else
  bmBytes ← ok_val (kv_Get (rawDB s) (bitmapKey (BytesToHash hashBytes)));
  if (length bmBytes =? 0)%nat then None else ok_val (bm_UnmarshalBinary bmBytes).

Definition orPointer (s : Store) (res : Bitmap) (pointer : bytes) : Bitmap :=
  match loadBitmapFromPointer s pointer with Some bm => bm_Or res bm | None => res end.

(** A scan step says to skip the entry, to stop, or to OR its bitmap in. *)
Inductive scan_action := ScanSkip | ScanStop | ScanOr.

Fixpoint scan (s : Store) (act : bytes → scan_action) (res : Bitmap) (entries : list (bytes * bytes)) : Bitmap :=
  match entries with
  | [] => res
  | (k, v) :: entries =>
      match act k with
      | ScanSkip => scan s act res entries
      | ScanStop => res
      | ScanOr => scan s act (orPointer s res v) entries
      end
  end.

Definition numericAction (prefix : bytes) (hi : N) (k : bytes) : scan_action :=
  if negb (length k =? length prefix + 8)%nat then ScanSkip
  else if (hi <? be_decode (drop (length prefix) k))%N then ScanStop
  else ScanOr.

Definition IterateNumericAnnotBitmaps (s : Store) (key : bytes) (lo hi : N) : Bitmap :=
  let prefix := annotKeyPrefix key in
  let startSuffix := if (0 <? lo)%N then PutUint64 lo else [] in
  scan s (numericAction prefix hi) roaring_New (kv_NewIterator (rawDB s) prefix startSuffix).1.

Definition stringAction (prefix : bytes) (lo : option bytes) (loIncl : bool)
    (hi : option bytes) (hiIncl : bool) (k : bytes) : scan_action :=
  if (length k <=? length prefix)%nat then ScanSkip else
  let suffix := drop (length prefix) k in
  if match lo with Some l => negb loIncl && bool_decide (suffix = l) | None => false end then ScanSkip
  else if match hi with
          | Some h => bytes_ltb h suffix || (bool_decide (suffix = h) && negb hiIncl)
          | None => false end then ScanStop
  else ScanOr.

Definition IterateStringAnnotBitmaps (s : Store) (key : bytes) (lo : option bytes) (loIncl : bool)
    (hi : option bytes) (hiIncl : bool) : Bitmap :=
  let prefix := annotKeyPrefix key in
  let startSuffix := default [] lo in
  scan s (stringAction prefix lo loIncl hi hiIncl) roaring_New
    (kv_NewIterator (rawDB s) prefix startSuffix).1.

Definition IteratePrefixAnnotBitmaps (s : Store) (key prefix : bytes) : Bitmap :=
  IterateStringAnnotBitmaps s key (Some prefix) true (prefixSuccessor prefix) false.

Definition globAction (prefix pattern : bytes) (k : bytes) : scan_action :=
  if (length k <=? length prefix)%nat then ScanSkip
  else if globMatch pattern (drop (length prefix) k) then ScanOr else ScanSkip.

Definition IterateGlobAnnotBitmaps (s : Store) (key pattern : bytes) : Bitmap :=
  let prefix := annotKeyPrefix key in
  scan s (globAction prefix pattern) roaring_New (kv_NewIterator (rawDB s) prefix []).1.

Definition GetEntityBytes (s : Store) (atBlockNumber : N) (addr : Address) : result bytes :=
  sdb ← openStateAt s atBlockNumber;
  let code := GetCode sdb addr in
  if (length code =? 0)%nat then Err (Errorf "entity not found") else Ok code.

Definition GetEntity (s : Store) (atBlockNumber : N) (addr : Address) : result Entity :=
  sdb ← openStateAt s atBlockNumber;
  let code := GetCode sdb addr in
  if (length code =? 0)%nat then Err (Errorf "entity not found") else decodeEntity code.

Definition IDToAddress (s : Store) (id : N) : option Address :=
  data ← ok_val (kv_Get (rawDB s) (idKey id));
  if negb (length data =? 20)%nat then None else Some (BytesToAddress data).

End StoreQuery.
