(* ===== verification/Chain.v ===== *)
(** The chain ingest handlers (src/chain/server.go, src/chain/types.go). *)
From S2P Require Export Store.

Section Chain.
Context {E : Env}.

Record CommitChainRequest := mkCommitChainRequest { cc_Blocks : list ArkivBlock }.
Record RevertRequest := mkRevertRequest { rv_Blocks : list ArkivBlockRef }.
Record ReorgRequest := mkReorgRequest {
  ro_RevertedBlocks : list ArkivBlockRef;
  ro_NewBlocks : list ArkivBlock;
}.
Record StateRootResponse := mkStateRootResponse { StateRoot : Hash }.

(** The loop of [CommitChain]; the root is the zero hash until a block is
    processed. *)
Fixpoint commitLoop (s : Store) (stateRoot : Hash) (blocks : list ArkivBlock) : step Hash :=
  match blocks with
  | [] => (Ok stateRoot, s)
  | b :: blocks =>
      match ProcessBlock s b with
      | (Ok root, s) => commitLoop s root blocks
      | (Err e, s) => (Err (Wrapf "process block" e), s)
      | (Panic, s) => (Panic, s)
      end
  end.

Definition CommitChain (s : Store) (req : CommitChainRequest) : step StateRootResponse :=
  let '(r, s) := commitLoop s zeroHash (cc_Blocks req) in
  (root ← r; Ok (mkStateRootResponse root), s).

Definition Chain_Revert (s : Store) (req : RevertRequest) : step StateRootResponse :=
  let '(r, s) := RevertBlocks s (rv_Blocks req) in
  (root ← r; Ok (mkStateRootResponse root), s).

Definition Chain_Reorg (s : Store) (req : ReorgRequest) : step StateRootResponse :=
  let '(r, s) := Reorg s (ro_RevertedBlocks req) (ro_NewBlocks req) in
  (root ← r; Ok (mkStateRootResponse root), s).

End Chain.
