(* ===== verification/Wire.v ===== *)
(** The wire format of the ingest interface (src/types/types.go,
    src/chain/types.go): the JSON codecs of operations, blocks and requests.

    [common.Hash], [common.Address], [hexutil.Bytes] and [hexutil.Uint64] bring
    their own text codecs; they are parameters ([HexJson]).  The structs are
    encoded and decoded through their tags ([GoJson]). *)
From S2P Require Export GoJson Chain.

(** [MarshalText] and [UnmarshalJSON] of the four types. *)
Class HexJson := {
  hash_MarshalText : Hash → bytes;
  hash_UnmarshalJSON : json → result Hash;
  address_MarshalText : Address → bytes;
  address_UnmarshalJSON : json → result Address;
  bytes_MarshalText : bytes → bytes;
  bytes_UnmarshalJSON : json → result bytes;
  uint64_MarshalText : N → bytes;
  uint64_UnmarshalJSON : json → result N;
}.

(** The texts are hexadecimal, so ASCII, and decode to what they encode. *)
Class HexJsonOk `{HexJson} : Prop := {
  hash_text h : hash_UnmarshalJSON (encode_string (hash_MarshalText h)) = Ok h;
  address_text a : address_UnmarshalJSON (encode_string (address_MarshalText a)) = Ok a;
  bytes_text b : bytes_UnmarshalJSON (encode_string (bytes_MarshalText b)) = Ok b;
  uint64_text n : is_u64 n → uint64_UnmarshalJSON (encode_string (uint64_MarshalText n)) = Ok n;
  uint64_range j n : uint64_UnmarshalJSON j = Ok n → is_u64 n;
}.

Section Wire.
Context `{HexJson}.
(** Whether the slices without elements are nil. *)
Variable nilSlice : bool.

Definition encode_hash (h : Hash) : json := encode_string (hash_MarshalText h).
Definition encode_address (a : Address) : json := encode_string (address_MarshalText a).
Definition encode_bytes (b : bytes) : json := encode_string (bytes_MarshalText b).
Definition encode_uint64 (n : N) : json := encode_string (uint64_MarshalText n).
Definition decode_hash := decode_with hash_UnmarshalJSON.
Definition decode_address := decode_with address_UnmarshalJSON.
Definition decode_bytes := decode_with bytes_UnmarshalJSON.
Definition decode_uint64 := decode_with uint64_UnmarshalJSON.

(** ** Attributes

    A struct decoded over another keeps the fields the object lacks. *)

Definition encode_Attribute (a : Attribute) : result json :=
  Ok (JObj [(str "valueType", encode_string (attr_ValueType a)); (str "name", encode_string (attr_Name a));
            (str "value", encode_bytes (attr_Value a))]).

Definition Attribute_fields : list bytes := [str "valueType"; str "name"; str "value"].
Definition zero_attribute : Attribute := mkAttribute [] [] [].
Definition decode_Attribute (old : Attribute) (j : json) : result Attribute :=
  ms ← object_members j;
  t ← decode_field decode_string (attr_ValueType old) Attribute_fields ms (str "valueType");
  n ← decode_field decode_string (attr_Name old) Attribute_fields ms (str "name");
  v ← decode_field decode_bytes (attr_Value old) Attribute_fields ms (str "value");
  Ok (mkAttribute t n v).

(** ** Operations

    The members of each operation, in field order; [Sender] and [TxIndex] of a
    create have the tag ["-"] and do not appear. *)

Definition members_CreateOp (o : CreateOp) : result (list (bytes * json)) :=
  attrs ← encode_slice nilSlice encode_Attribute (create_Attributes o);
  Ok [(str "opIndex", encode_uint (create_OpIndex o)); (str "entityKey", encode_hash (create_EntityKey o));
      (str "owner", encode_address (create_Owner o)); (str "expiresAt", encode_uint64 (create_ExpiresAt o));
      (str "entityHash", encode_hash (create_EntityHash o)); (str "changesetHash", encode_hash (create_ChangesetHash o));
      (str "payload", encode_bytes (create_Payload o)); (str "contentType", encode_string (create_ContentType o));
      (str "attributes", attrs)].

Definition members_UpdateOp (o : UpdateOp) : result (list (bytes * json)) :=
  attrs ← encode_slice nilSlice encode_Attribute (update_Attributes o);
  Ok [(str "opIndex", encode_uint (update_OpIndex o)); (str "entityKey", encode_hash (update_EntityKey o));
      (str "owner", encode_address (update_Owner o));
      (str "entityHash", encode_hash (update_EntityHash o)); (str "changesetHash", encode_hash (update_ChangesetHash o));
      (str "payload", encode_bytes (update_Payload o)); (str "contentType", encode_string (update_ContentType o));
      (str "attributes", attrs)].

Definition members_DeleteOp (o : DeleteOp) : result (list (bytes * json)) :=
  Ok [(str "opIndex", encode_uint (delete_OpIndex o)); (str "entityKey", encode_hash (delete_EntityKey o));
      (str "owner", encode_address (delete_Owner o));
      (str "entityHash", encode_hash (delete_EntityHash o)); (str "changesetHash", encode_hash (delete_ChangesetHash o))].

Definition members_ExtendOp (o : ExtendOp) : result (list (bytes * json)) :=
  Ok [(str "opIndex", encode_uint (extend_OpIndex o)); (str "entityKey", encode_hash (extend_EntityKey o));
      (str "owner", encode_address (extend_Owner o)); (str "expiresAt", encode_uint64 (extend_ExpiresAt o));
      (str "entityHash", encode_hash (extend_EntityHash o)); (str "changesetHash", encode_hash (extend_ChangesetHash o))].

Definition members_TransferOp (o : TransferOp) : result (list (bytes * json)) :=
  Ok [(str "opIndex", encode_uint (transfer_OpIndex o)); (str "entityKey", encode_hash (transfer_EntityKey o));
      (str "owner", encode_address (transfer_Owner o));
      (str "entityHash", encode_hash (transfer_EntityHash o)); (str "changesetHash", encode_hash (transfer_ChangesetHash o))].

Definition members_ExpireOp (o : ExpireOp) : result (list (bytes * json)) :=
  Ok [(str "opIndex", encode_uint (expire_OpIndex o)); (str "entityKey", encode_hash (expire_EntityKey o));
      (str "owner", encode_address (expire_Owner o));
      (str "entityHash", encode_hash (expire_EntityHash o)); (str "changesetHash", encode_hash (expire_ChangesetHash o))].

(** [json.Marshal(T{Type: tag, XOp: o})]: the embedded struct is flattened. *)
Definition marshal_typed (tag : bytes) (members : result (list (bytes * json))) : result json :=
  ms ← members; Ok (JObj ((str "type", encode_string tag) :: ms)).

Definition MarshalJSON (o : ArkivOperation) : result json :=
  match op_Create o with Some x => marshal_typed (str "create") (members_CreateOp x) | None =>
  match op_Update o with Some x => marshal_typed (str "update") (members_UpdateOp x) | None =>
  match op_Delete o with Some x => marshal_typed (str "delete") (members_DeleteOp x) | None =>
  match op_Extend o with Some x => marshal_typed (str "extend") (members_ExtendOp x) | None =>
  match op_Transfer o with Some x => marshal_typed (str "transfer") (members_TransferOp x) | None =>
  match op_Expire o with Some x => marshal_typed (str "expire") (members_ExpireOp x) | None =>
    Err (Errorf "ArkivOperation: no operation set")
  end end end end end end.

Definition CreateOp_fields : list bytes :=
  [str "opIndex"; str "entityKey"; str "owner"; str "expiresAt"; str "entityHash"; str "changesetHash";
   str "payload"; str "contentType"; str "attributes"].
Definition decode_CreateOp (j : json) : result CreateOp :=
  ms ← object_members j;
  opIndex ← decode_field decode_uint32 0%N CreateOp_fields ms (str "opIndex");
  key ← decode_field decode_hash zeroHash CreateOp_fields ms (str "entityKey");
  owner ← decode_field decode_address zeroAddress CreateOp_fields ms (str "owner");
  expires ← decode_field decode_uint64 0%N CreateOp_fields ms (str "expiresAt");
  eh ← decode_field decode_hash zeroHash CreateOp_fields ms (str "entityHash");
  ch ← decode_field decode_hash zeroHash CreateOp_fields ms (str "changesetHash");
  payload ← decode_field decode_bytes [] CreateOp_fields ms (str "payload");
  ct ← decode_field decode_string [] CreateOp_fields ms (str "contentType");
  attrs ← decode_field (decode_slice decode_Attribute zero_attribute) [] CreateOp_fields ms (str "attributes");
  Ok (mkCreateOp opIndex key zeroAddress 0 owner expires eh ch payload ct attrs).

Definition UpdateOp_fields : list bytes :=
  [str "opIndex"; str "entityKey"; str "owner"; str "entityHash"; str "changesetHash"; str "payload";
   str "contentType"; str "attributes"].
Definition decode_UpdateOp (j : json) : result UpdateOp :=
  ms ← object_members j;
  opIndex ← decode_field decode_uint32 0%N UpdateOp_fields ms (str "opIndex");
  key ← decode_field decode_hash zeroHash UpdateOp_fields ms (str "entityKey");
  owner ← decode_field decode_address zeroAddress UpdateOp_fields ms (str "owner");
  eh ← decode_field decode_hash zeroHash UpdateOp_fields ms (str "entityHash");
  ch ← decode_field decode_hash zeroHash UpdateOp_fields ms (str "changesetHash");
  payload ← decode_field decode_bytes [] UpdateOp_fields ms (str "payload");
  ct ← decode_field decode_string [] UpdateOp_fields ms (str "contentType");
  attrs ← decode_field (decode_slice decode_Attribute zero_attribute) [] UpdateOp_fields ms (str "attributes");
  Ok (mkUpdateOp opIndex key owner eh ch payload ct attrs).

(** The five fields that deletions, transfers and expirations share. *)
Definition RefOp_fields : list bytes :=
  [str "opIndex"; str "entityKey"; str "owner"; str "entityHash"; str "changesetHash"].
Definition decode_RefOp {A} (mk : N → Hash → Address → Hash → Hash → A) (j : json) : result A :=
  ms ← object_members j;
  opIndex ← decode_field decode_uint32 0%N RefOp_fields ms (str "opIndex");
  key ← decode_field decode_hash zeroHash RefOp_fields ms (str "entityKey");
  owner ← decode_field decode_address zeroAddress RefOp_fields ms (str "owner");
  eh ← decode_field decode_hash zeroHash RefOp_fields ms (str "entityHash");
  ch ← decode_field decode_hash zeroHash RefOp_fields ms (str "changesetHash");
  Ok (mk opIndex key owner eh ch).
Definition decode_DeleteOp : json → result DeleteOp := decode_RefOp mkDeleteOp.
Definition decode_TransferOp : json → result TransferOp := decode_RefOp mkTransferOp.
Definition decode_ExpireOp : json → result ExpireOp := decode_RefOp mkExpireOp.

Definition ExtendOp_fields : list bytes :=
  [str "opIndex"; str "entityKey"; str "owner"; str "expiresAt"; str "entityHash"; str "changesetHash"].
Definition decode_ExtendOp (j : json) : result ExtendOp :=
  ms ← object_members j;
  opIndex ← decode_field decode_uint32 0%N ExtendOp_fields ms (str "opIndex");
  key ← decode_field decode_hash zeroHash ExtendOp_fields ms (str "entityKey");
  owner ← decode_field decode_address zeroAddress ExtendOp_fields ms (str "owner");
  expires ← decode_field decode_uint64 0%N ExtendOp_fields ms (str "expiresAt");
  eh ← decode_field decode_hash zeroHash ExtendOp_fields ms (str "entityHash");
  ch ← decode_field decode_hash zeroHash ExtendOp_fields ms (str "changesetHash");
  Ok (mkExtendOp opIndex key owner expires eh ch).

(** The tag is read by a first pass over the value. *)
Definition decode_type (j : json) : result bytes :=
  ms ← object_members j; decode_field decode_string [] [str "type"] ms (str "type").

(** [UnmarshalJSON] sets one pointer of its receiver and leaves the others. *)
Definition UnmarshalJSON (o : ArkivOperation) (data : json) : result ArkivOperation :=
  typ ← decode_type data;
  let 'mkArkivOperation c u d x t e := o in
  if decide (typ = str "create") then v ← decode_CreateOp data; Ok (mkArkivOperation (Some v) u d x t e) else
  if decide (typ = str "update") then v ← decode_UpdateOp data; Ok (mkArkivOperation c (Some v) d x t e) else
  if decide (typ = str "delete") then v ← decode_DeleteOp data; Ok (mkArkivOperation c u (Some v) x t e) else
  if decide (typ = str "extend") then v ← decode_ExtendOp data; Ok (mkArkivOperation c u d (Some v) t e) else
  if decide (typ = str "transfer") then v ← decode_TransferOp data; Ok (mkArkivOperation c u d x (Some v) e) else
  if decide (typ = str "expire") then v ← decode_ExpireOp data; Ok (mkArkivOperation c u d x t (Some v)) else
    Err (Errorf "unknown operation type").

Definition zero_operation : ArkivOperation := mkArkivOperation None None None None None None.

(** ** Blocks and requests *)

Definition encode_ArkivTransaction (tx : ArkivTransaction) : result json :=
  ops ← encode_slice nilSlice MarshalJSON (tx_Operations tx);
  Ok (JObj [(str "hash", encode_hash (tx_Hash tx)); (str "index", encode_uint (tx_Index tx));
            (str "sender", encode_address (tx_Sender tx)); (str "operations", ops)]).
Definition ArkivTransaction_fields : list bytes := [str "hash"; str "index"; str "sender"; str "operations"].
Definition zero_transaction : ArkivTransaction := mkArkivTransaction zeroHash 0 zeroAddress [].
Definition decode_ArkivTransaction (old : ArkivTransaction) (j : json) : result ArkivTransaction :=
  ms ← object_members j;
  h ← decode_field decode_hash (tx_Hash old) ArkivTransaction_fields ms (str "hash");
  i ← decode_field decode_uint32 (tx_Index old) ArkivTransaction_fields ms (str "index");
  s ← decode_field decode_address (tx_Sender old) ArkivTransaction_fields ms (str "sender");
  ops ← decode_field (decode_slice UnmarshalJSON zero_operation) (tx_Operations old) ArkivTransaction_fields ms (str "operations");
  Ok (mkArkivTransaction h i s ops).

Definition encode_ArkivBlockHeader (h : ArkivBlockHeader) : json :=
  JObj [(str "number", encode_uint64 (header_Number h)); (str "hash", encode_hash (header_Hash h));
        (str "parentHash", encode_hash (header_ParentHash h)); (str "changesetHash", encode_hash (header_ChangesetHash h))].
Definition ArkivBlockHeader_fields : list bytes := [str "number"; str "hash"; str "parentHash"; str "changesetHash"].
Definition zero_header : ArkivBlockHeader := mkArkivBlockHeader 0 zeroHash zeroHash zeroHash.
Definition decode_ArkivBlockHeader (old : ArkivBlockHeader) (j : json) : result ArkivBlockHeader :=
  ms ← object_members j;
  n ← decode_field decode_uint64 (header_Number old) ArkivBlockHeader_fields ms (str "number");
  h ← decode_field decode_hash (header_Hash old) ArkivBlockHeader_fields ms (str "hash");
  p ← decode_field decode_hash (header_ParentHash old) ArkivBlockHeader_fields ms (str "parentHash");
  c ← decode_field decode_hash (header_ChangesetHash old) ArkivBlockHeader_fields ms (str "changesetHash");
  Ok (mkArkivBlockHeader n h p c).

Definition encode_ArkivBlock (b : ArkivBlock) : result json :=
  txs ← encode_slice nilSlice encode_ArkivTransaction (block_Transactions b);
  Ok (JObj [(str "header", encode_ArkivBlockHeader (block_Header b)); (str "transactions", txs)]).
Definition ArkivBlock_fields : list bytes := [str "header"; str "transactions"].
Definition zero_block : ArkivBlock := mkArkivBlock zero_header [].
Definition decode_ArkivBlock (old : ArkivBlock) (j : json) : result ArkivBlock :=
  ms ← object_members j;
  h ← decode_field decode_ArkivBlockHeader (block_Header old) ArkivBlock_fields ms (str "header");
  txs ← decode_field (decode_slice decode_ArkivTransaction zero_transaction) (block_Transactions old) ArkivBlock_fields ms (str "transactions");
  Ok (mkArkivBlock h txs).

Definition encode_ArkivBlockRef (r : ArkivBlockRef) : result json :=
  Ok (JObj [(str "number", encode_uint64 (ref_Number r)); (str "hash", encode_hash (ref_Hash r))]).
Definition ArkivBlockRef_fields : list bytes := [str "number"; str "hash"].
Definition zero_ref : ArkivBlockRef := mkArkivBlockRef 0 zeroHash.
Definition decode_ArkivBlockRef (old : ArkivBlockRef) (j : json) : result ArkivBlockRef :=
  ms ← object_members j;
  n ← decode_field decode_uint64 (ref_Number old) ArkivBlockRef_fields ms (str "number");
  h ← decode_field decode_hash (ref_Hash old) ArkivBlockRef_fields ms (str "hash");
  Ok (mkArkivBlockRef n h).

Definition encode_CommitChainRequest (r : CommitChainRequest) : result json :=
  bs ← encode_slice nilSlice encode_ArkivBlock (cc_Blocks r); Ok (JObj [(str "blocks", bs)]).
Definition decode_CommitChainRequest (j : json) : result CommitChainRequest :=
  ms ← object_members j;
  bs ← decode_field (decode_slice decode_ArkivBlock zero_block) [] [str "blocks"] ms (str "blocks");
  Ok (mkCommitChainRequest bs).

Definition encode_RevertRequest (r : RevertRequest) : result json :=
  bs ← encode_slice nilSlice encode_ArkivBlockRef (rv_Blocks r); Ok (JObj [(str "blocks", bs)]).
Definition decode_RevertRequest (j : json) : result RevertRequest :=
  ms ← object_members j;
  bs ← decode_field (decode_slice decode_ArkivBlockRef zero_ref) [] [str "blocks"] ms (str "blocks");
  Ok (mkRevertRequest bs).

Definition encode_ReorgRequest (r : ReorgRequest) : result json :=
  rs ← encode_slice nilSlice encode_ArkivBlockRef (ro_RevertedBlocks r);
  bs ← encode_slice nilSlice encode_ArkivBlock (ro_NewBlocks r);
  Ok (JObj [(str "revertedBlocks", rs); (str "newBlocks", bs)]).
Definition ReorgRequest_fields : list bytes := [str "revertedBlocks"; str "newBlocks"].
Definition decode_ReorgRequest (j : json) : result ReorgRequest :=
  ms ← object_members j;
  rs ← decode_field (decode_slice decode_ArkivBlockRef zero_ref) [] ReorgRequest_fields ms (str "revertedBlocks");
  bs ← decode_field (decode_slice decode_ArkivBlock zero_block) [] ReorgRequest_fields ms (str "newBlocks");
  Ok (mkReorgRequest rs bs).

End Wire.
