(* ===== verification/WireProofs.v ===== *)
(** Round trips of the wire codecs. *)
From S2P Require Export Wire.

(** ** What survives the wire *)

(** Strings that the encoder does not change. *)
Definition utf8 (s : bytes) : Prop := utf8_coerce s = s.

Definition Attribute_wf (a : Attribute) : Prop := utf8 (attr_ValueType a) ∧ utf8 (attr_Name a).
Definition CreateOp_wf (o : CreateOp) : Prop :=
  (create_OpIndex o < 2 ^ 32)%N ∧ is_u64 (create_ExpiresAt o) ∧ utf8 (create_ContentType o) ∧ Forall Attribute_wf (create_Attributes o).
Definition UpdateOp_wf (o : UpdateOp) : Prop :=
  (update_OpIndex o < 2 ^ 32)%N ∧ utf8 (update_ContentType o) ∧ Forall Attribute_wf (update_Attributes o).

(** One pointer set, with its numbers in range. *)
Definition operation_wf (o : ArkivOperation) : Prop :=
  match o with
  | mkArkivOperation (Some x) None None None None None => CreateOp_wf x
  | mkArkivOperation None (Some x) None None None None => UpdateOp_wf x
  | mkArkivOperation None None (Some x) None None None => (delete_OpIndex x < 2 ^ 32)%N
  | mkArkivOperation None None None (Some x) None None => (extend_OpIndex x < 2 ^ 32)%N ∧ is_u64 (extend_ExpiresAt x)
  | mkArkivOperation None None None None (Some x) None => (transfer_OpIndex x < 2 ^ 32)%N
  | mkArkivOperation None None None None None (Some x) => (expire_OpIndex x < 2 ^ 32)%N
  | _ => False
  end.

Definition transaction_wf (tx : ArkivTransaction) : Prop := (tx_Index tx < 2 ^ 32)%N ∧ Forall operation_wf (tx_Operations tx).
Definition block_wf (b : ArkivBlock) : Prop :=
  is_u64 (header_Number (block_Header b)) ∧ Forall transaction_wf (block_Transactions b).

(** The fields without a wire form are zero on the other side. *)
Definition wire_CreateOp (o : CreateOp) : CreateOp :=
  mkCreateOp (create_OpIndex o) (create_EntityKey o) zeroAddress 0 (create_Owner o) (create_ExpiresAt o)
    (create_EntityHash o) (create_ChangesetHash o) (create_Payload o) (create_ContentType o) (create_Attributes o).
Definition wire_operation (o : ArkivOperation) : ArkivOperation :=
  mkArkivOperation (wire_CreateOp <$> op_Create o) (op_Update o) (op_Delete o) (op_Extend o) (op_Transfer o) (op_Expire o).
Definition wire_transaction (tx : ArkivTransaction) : ArkivTransaction :=
  mkArkivTransaction (tx_Hash tx) (tx_Index tx) (tx_Sender tx) (map wire_operation (tx_Operations tx)).
Definition wire_block (b : ArkivBlock) : ArkivBlock :=
  mkArkivBlock (block_Header b) (map wire_transaction (block_Transactions b)).

(** ** Structs *)

(** The next field of a struct decoder, by its position; [decode_typed_field]
    skips the tag before the members. *)
Ltac names_nodup := apply (bool_decide_unpack _); vm_compute; exact I.
Ltac decode_nth i :=
  match goal with |- mbind _ (decode_field ?d ?z ?ns ?ms ?n) = _ =>
    erewrite (decode_field_nth d z ns ms i n); [|names_nodup|reflexivity|reflexivity]
  end.
Ltac decode_typed_nth i :=
  match goal with |- mbind _ (decode_field ?d ?z ?ns ((?k, ?w) :: ?ms) ?n) = _ =>
    rewrite (decode_field_skip d z ns k w ms n) by (vm_compute; reflexivity)
  end; decode_nth i.

Lemma decode_encode_string old s : utf8 s → decode_string old (encode_string s) = Ok s.
Proof. intros Hs. unfold encode_string, decode_string. by rewrite Hs. Qed.

Section WireProofs.
Context `{HexJson} `{!HexJsonOk}.
Variable nilSlice : bool.

Lemma decode_encode_hash old h : decode_hash old (encode_hash h) = Ok h.
Proof. apply hash_text. Qed.
Lemma decode_encode_address old a : decode_address old (encode_address a) = Ok a.
Proof. apply address_text. Qed.
Lemma decode_encode_bytes old b : decode_bytes old (encode_bytes b) = Ok b.
Proof. apply bytes_text. Qed.
Lemma decode_encode_uint64 old n : is_u64 n → decode_uint64 old (encode_uint64 n) = Ok n.
Proof. apply uint64_text. Qed.

Ltac decode_value :=
  first [ rewrite decode_encode_hash | rewrite decode_encode_address | rewrite decode_encode_bytes
                | rewrite decode_encode_uint32 by done | rewrite decode_encode_uint64 by done
                | rewrite decode_encode_string by done
        | match goal with Hd : decode_slice _ _ _ _ = Ok _ |- _ => rewrite Hd end ]; bind_step.

(** Decode a struct of [n] fields. *)
Ltac decode_fields nth i n :=
  lazymatch n with
  | O => idtac
  | S ?n => nth i; decode_value; decode_fields nth (S i) n
  end.
Ltac decode_struct n := cbn [object_members mbind result_bind]; decode_fields ltac:(fun i => decode_nth i) O n.
Ltac decode_typed_struct n := cbn [object_members mbind result_bind]; decode_fields ltac:(fun i => decode_typed_nth i) O n.

Lemma Attribute_roundtrip old a : Attribute_wf a → ∃ j, encode_Attribute a = Ok j ∧ decode_Attribute old j = Ok a.
Proof.
  intros [Ht Hn]. eexists. split; [done|]. unfold decode_Attribute. decode_struct 3%nat. by destruct a.
Qed.

Lemma Attributes_roundtrip attrs : Forall Attribute_wf attrs →
  ∃ j, encode_slice nilSlice encode_Attribute attrs = Ok j ∧ decode_slice decode_Attribute zero_attribute [] j = Ok attrs.
Proof.
  intros Hw. destruct (slice_roundtrip nilSlice encode_Attribute decode_Attribute zero_attribute id attrs) as (j & He & Hd).
  - eapply Forall_impl; [exact Hw|]. intros a Ha. by apply Attribute_roundtrip.
  - exists j. split; [exact He|]. by rewrite Hd, map_id.
Qed.

(** The tag is found among the members of any operation. *)
Definition typed (ms : list (bytes * json)) : Prop := Forall (λ k, resolve [str "type"] k = None) (map fst ms).

Lemma decode_type_typed tag ms : utf8 tag → typed ms → decode_type (JObj ((str "type", encode_string tag) :: ms)) = Ok tag.
Proof.
  intros Ht Hms. unfold decode_type, decode_field. cbn [object_members mbind result_bind assigned].
  rewrite resolve_exact, bool_decide_true, assigned_none by (done || by apply elem_of_cons; left).
  cbn [foldM]. by rewrite decode_encode_string.
Qed.

(** An operation's members, behind its tag, decode to what the wire keeps. *)
Definition op_roundtrip {A} (tag : bytes) (members : result (list (bytes * json))) (dec : json → result A) (a : A) : Prop :=
  ∃ ms, members = Ok ms ∧ typed ms ∧ dec (JObj ((str "type", encode_string tag) :: ms)) = Ok a.

Ltac op_members := unfold typed; repeat constructor.

Lemma CreateOp_roundtrip tag o : CreateOp_wf o → op_roundtrip tag (members_CreateOp nilSlice o) decode_CreateOp (wire_CreateOp o).
Proof.
  intros (Hi & He & Hc & Ha). destruct (Attributes_roundtrip _ Ha) as (j & Ej & Dj).
  unfold op_roundtrip, members_CreateOp. rewrite Ej. eexists. split; [done|]. split; [op_members|].
  unfold decode_CreateOp. by decode_typed_struct 9%nat.
Qed.

Lemma UpdateOp_roundtrip tag o : UpdateOp_wf o → op_roundtrip tag (members_UpdateOp nilSlice o) decode_UpdateOp o.
Proof.
  intros (Hi & Hc & Ha). destruct (Attributes_roundtrip _ Ha) as (j & Ej & Dj).
  unfold op_roundtrip, members_UpdateOp. rewrite Ej. eexists. split; [done|]. split; [op_members|].
  unfold decode_UpdateOp. decode_typed_struct 8%nat. by destruct o.
Qed.

Lemma DeleteOp_roundtrip tag o : (delete_OpIndex o < 2 ^ 32)%N → op_roundtrip tag (members_DeleteOp o) decode_DeleteOp o.
Proof.
  intros Hi. eexists. split; [done|]. split; [op_members|].
  unfold decode_DeleteOp, decode_RefOp. decode_typed_struct 5%nat. by destruct o.
Qed.
Lemma TransferOp_roundtrip tag o : (transfer_OpIndex o < 2 ^ 32)%N → op_roundtrip tag (members_TransferOp o) decode_TransferOp o.
Proof.
  intros Hi. eexists. split; [done|]. split; [op_members|].
  unfold decode_TransferOp, decode_RefOp. decode_typed_struct 5%nat. by destruct o.
Qed.
Lemma ExpireOp_roundtrip tag o : (expire_OpIndex o < 2 ^ 32)%N → op_roundtrip tag (members_ExpireOp o) decode_ExpireOp o.
Proof.
  intros Hi. eexists. split; [done|]. split; [op_members|].
  unfold decode_ExpireOp, decode_RefOp. decode_typed_struct 5%nat. by destruct o.
Qed.
Lemma ExtendOp_roundtrip tag o : (extend_OpIndex o < 2 ^ 32)%N → is_u64 (extend_ExpiresAt o) →
  op_roundtrip tag (members_ExtendOp o) decode_ExtendOp o.
Proof.
  intros Hi He. eexists. split; [done|]. split; [op_members|].
  unfold decode_ExtendOp. decode_typed_struct 6%nat. by destruct o.
Qed.

Ltac pick_tag :=
  repeat match goal with |- context [decide (?a = ?b)] =>
    first [ constr_eq a b; rewrite (decide_True (P := a = b)) by reflexivity
          | rewrite (decide_False (P := a = b)) by (apply (bool_decide_unpack _); vm_compute; exact I) ]
  end.
Ltac unmarshal_as Hrt :=
  let ms := fresh "ms" in let He := fresh in let Ht := fresh in let Hd := fresh in
  destruct Hrt as (ms & He & Ht & Hd); unfold MarshalJSON, marshal_typed; cbn [op_Create op_Update op_Delete op_Extend op_Transfer op_Expire];
  rewrite He; bind_step; eexists; split; [done|];
  unfold UnmarshalJSON; rewrite decode_type_typed by (done || (vm_compute; reflexivity)); cbn [mbind result_bind zero_operation];
  pick_tag; by rewrite Hd.

Lemma operation_roundtrip o : operation_wf o →
  ∃ j, MarshalJSON nilSlice o = Ok j ∧ UnmarshalJSON zero_operation j = Ok (wire_operation o).
Proof.
  destruct o as [[c|] [u|] [d|] [x|] [t|] [e|] ]; try done; intros Hw.
  - unmarshal_as (CreateOp_roundtrip (str "create") c Hw).
  - unmarshal_as (UpdateOp_roundtrip (str "update") u Hw).
  - unmarshal_as (DeleteOp_roundtrip (str "delete") d Hw).
  - destruct Hw as [Hi He]. unmarshal_as (ExtendOp_roundtrip (str "extend") x Hi He).
  - unmarshal_as (TransferOp_roundtrip (str "transfer") t Hw).
  - unmarshal_as (ExpireOp_roundtrip (str "expire") e Hw).
Qed.

Lemma transaction_roundtrip tx : transaction_wf tx →
  ∃ j, encode_ArkivTransaction nilSlice tx = Ok j ∧ decode_ArkivTransaction zero_transaction j = Ok (wire_transaction tx).
Proof.
  intros [Hi Ho]. destruct (slice_roundtrip nilSlice (MarshalJSON nilSlice) UnmarshalJSON zero_operation wire_operation (tx_Operations tx)) as (j & Ej & Dj).
  { eapply Forall_impl; [exact Ho|]. apply operation_roundtrip. }
  unfold encode_ArkivTransaction. rewrite Ej. eexists. split; [done|].
  unfold decode_ArkivTransaction. change (tx_Operations zero_transaction) with (@nil ArkivOperation). by decode_struct 4%nat.
Qed.

Lemma header_roundtrip old h : is_u64 (header_Number h) → decode_ArkivBlockHeader old (encode_ArkivBlockHeader h) = Ok h.
Proof.
  intros Hn. unfold decode_ArkivBlockHeader, encode_ArkivBlockHeader. decode_struct 4%nat. by destruct h.
Qed.

Lemma block_roundtrip b : block_wf b →
  ∃ j, encode_ArkivBlock nilSlice b = Ok j ∧ decode_ArkivBlock zero_block j = Ok (wire_block b).
Proof.
  intros [Hn Ht]. destruct (slice_roundtrip nilSlice (encode_ArkivTransaction nilSlice) decode_ArkivTransaction zero_transaction wire_transaction (block_Transactions b)) as (j & Ej & Dj).
  { eapply Forall_impl; [exact Ht|]. apply transaction_roundtrip. }
  unfold encode_ArkivBlock. rewrite Ej. eexists. split; [done|].
  unfold decode_ArkivBlock. change (block_Transactions zero_block) with (@nil ArkivTransaction). cbn [object_members mbind result_bind].
  decode_nth O. rewrite header_roundtrip by done. bind_step. decode_nth 1%nat. by rewrite Dj.
Qed.

Lemma ref_roundtrip old r : is_u64 (ref_Number r) → ∃ j, encode_ArkivBlockRef r = Ok j ∧ decode_ArkivBlockRef old j = Ok r.
Proof.
  intros Hn. eexists. split; [done|]. unfold decode_ArkivBlockRef. decode_struct 2%nat. by destruct r.
Qed.

Lemma blocks_roundtrip bs : Forall block_wf bs →
  ∃ j, encode_slice nilSlice (encode_ArkivBlock nilSlice) bs = Ok j ∧ decode_slice decode_ArkivBlock zero_block [] j = Ok (map wire_block bs).
Proof. intros Hb. apply slice_roundtrip. eapply Forall_impl; [exact Hb|]. apply block_roundtrip. Qed.

Lemma refs_roundtrip rs : Forall (λ r, is_u64 (ref_Number r)) rs →
  ∃ j, encode_slice nilSlice encode_ArkivBlockRef rs = Ok j ∧ decode_slice decode_ArkivBlockRef zero_ref [] j = Ok rs.
Proof.
  intros Hr. destruct (slice_roundtrip nilSlice encode_ArkivBlockRef decode_ArkivBlockRef zero_ref id rs) as (j & He & Hd).
  { eapply Forall_impl; [exact Hr|]. apply ref_roundtrip. }
  exists j. by rewrite Hd, map_id.
Qed.

Lemma CommitChainRequest_roundtrip req : Forall block_wf (cc_Blocks req) →
  ∃ j, encode_CommitChainRequest nilSlice req = Ok j ∧
    decode_CommitChainRequest j = Ok (mkCommitChainRequest (map wire_block (cc_Blocks req))).
Proof.
  intros (j & Ej & Dj)%blocks_roundtrip. unfold encode_CommitChainRequest. rewrite Ej. eexists. split; [done|].
  unfold decode_CommitChainRequest. by decode_struct 1%nat.
Qed.
Lemma RevertRequest_roundtrip req : Forall (λ r, is_u64 (ref_Number r)) (rv_Blocks req) →
  ∃ j, encode_RevertRequest nilSlice req = Ok j ∧ decode_RevertRequest j = Ok req.
Proof.
  intros (j & Ej & Dj)%refs_roundtrip. unfold encode_RevertRequest. rewrite Ej. eexists. split; [done|].
  unfold decode_RevertRequest. decode_struct 1%nat. by destruct req.
Qed.
Lemma ReorgRequest_roundtrip req : Forall (λ r, is_u64 (ref_Number r)) (ro_RevertedBlocks req) → Forall block_wf (ro_NewBlocks req) →
  ∃ j, encode_ReorgRequest nilSlice req = Ok j ∧
    decode_ReorgRequest j = Ok (mkReorgRequest (ro_RevertedBlocks req) (map wire_block (ro_NewBlocks req))).
Proof.
  intros (j & Ej & Dj)%refs_roundtrip (j' & Ej' & Dj')%blocks_roundtrip. unfold encode_ReorgRequest.
  rewrite Ej, Ej'. eexists. split; [done|]. unfold decode_ReorgRequest. by decode_struct 2%nat.
Qed.
End WireProofs.

(** ** What decoding guarantees *)

Lemma decode_field_inv {A} (P : A → Prop) (dec : A → json → result A) zero names ms name b :
  P zero → (∀ a j b, P a → dec a j = Ok b → P b) → decode_field dec zero names ms name = Ok b → P b.
Proof.
  intros H0 Hs Hd. apply (foldM_inv (λ _, P) dec zero (assigned names ms name) b); [exact H0| |exact Hd].
  intros dn x rest st st' _ Hst Hx. by eapply Hs.
Qed.

Lemma decode_uint32_range old j n : (old < 2 ^ 32)%N → decode_uint32 old j = Ok n → (n < 2 ^ 32)%N.
Proof.
  intros Ho. unfold decode_uint32. destruct j as [| |lit| | |]; try done; [by intros [= <-]|].
  destruct (parse_decimal lit) as [m|]; [|done]. destruct (N.ltb_spec m (2 ^ 32)); [by intros [= <-]|done].
Qed.

(** Numbers in the range of their types, in every operation that is set. *)
Definition operation_ranged (o : ArkivOperation) : Prop :=
  (∀ x, op_Create o = Some x → (create_OpIndex x < 2 ^ 32)%N ∧ is_u64 (create_ExpiresAt x) ∧
     create_Sender x = zeroAddress ∧ create_TxIndex x = 0%N) ∧
  (∀ x, op_Update o = Some x → (update_OpIndex x < 2 ^ 32)%N) ∧
  (∀ x, op_Delete o = Some x → (delete_OpIndex x < 2 ^ 32)%N) ∧
  (∀ x, op_Extend o = Some x → (extend_OpIndex x < 2 ^ 32)%N ∧ is_u64 (extend_ExpiresAt x)) ∧
  (∀ x, op_Transfer o = Some x → (transfer_OpIndex x < 2 ^ 32)%N) ∧
  (∀ x, op_Expire o = Some x → (expire_OpIndex x < 2 ^ 32)%N).

(** The pointers that are set, in the order of the struct. *)
Definition op_pointers (o : ArkivOperation) : list bool :=
  [bool_decide (is_Some (op_Create o)); bool_decide (is_Some (op_Update o)); bool_decide (is_Some (op_Delete o));
   bool_decide (is_Some (op_Extend o)); bool_decide (is_Some (op_Transfer o)); bool_decide (is_Some (op_Expire o))].
Definition operation_tags : list bytes :=
  [str "create"; str "update"; str "delete"; str "extend"; str "transfer"; str "expire"].

Definition operation_typed (o : ArkivOperation) : Prop := operation_ranged o ∧ true ∈ op_pointers o.
Definition transaction_typed (tx : ArkivTransaction) : Prop :=
  (tx_Index tx < 2 ^ 32)%N ∧ Forall operation_typed (tx_Operations tx).
Definition block_typed (b : ArkivBlock) : Prop :=
  is_u64 (header_Number (block_Header b)) ∧ Forall transaction_typed (block_Transactions b).

Section Typed.
Context `{HexJson} `{!HexJsonOk}.

Lemma decoded_uint32 zero names ms name n : (zero < 2 ^ 32)%N → decode_field decode_uint32 zero names ms name = Ok n → (n < 2 ^ 32)%N.
Proof. intros Hz. apply (decode_field_inv (λ n, n < 2 ^ 32)%N); [done|]. intros a j b. apply decode_uint32_range. Qed.
Lemma decoded_uint64 zero names ms name n : is_u64 zero → decode_field decode_uint64 zero names ms name = Ok n → is_u64 n.
Proof. intros Hz. apply (decode_field_inv is_u64); [done|]. intros a j b _. apply uint64_range. Qed.
Lemma decoded_slice {A} (P Q : A → Prop) (f : A → json → result A) zero old names ms name l :
  P zero → (∀ a, Q a → P a) → (∀ a j b, P a → f a j = Ok b → Q b) → Forall Q old →
  decode_field (decode_slice f zero) old names ms name = Ok l → Forall Q l.
Proof. intros Hz HQ Hf Ho. apply (decode_field_inv (Forall Q)); [done|]. intros a j b Ha. by eapply decode_slice_inv. Qed.

Lemma decode_RefOp_inv {A} (mk : N → Hash → Address → Hash → Hash → A) j a :
  decode_RefOp mk j = Ok a → ∃ i k o e c, a = mk i k o e c ∧ (i < 2 ^ 32)%N.
Proof.
  unfold decode_RefOp. intros Hd. apply bind_Ok in Hd as (ms & _ & Hd). apply bind_Ok in Hd as (i & Hi & Hd).
  run_Ok Hd. do 5 eexists. split; [done|]. by eapply (decoded_uint32 0%N).
Qed.

Lemma decode_CreateOp_ranged j x : decode_CreateOp j = Ok x →
  (create_OpIndex x < 2 ^ 32)%N ∧ is_u64 (create_ExpiresAt x) ∧ create_Sender x = zeroAddress ∧ create_TxIndex x = 0%N.
Proof.
  unfold decode_CreateOp. intros Hd. run_Ok Hd. cbn. split; [by eapply (decoded_uint32 0%N)|]. split; [|done].
  by eapply (decoded_uint64 0%N).
Qed.
Lemma decode_UpdateOp_ranged j x : decode_UpdateOp j = Ok x → (update_OpIndex x < 2 ^ 32)%N.
Proof. unfold decode_UpdateOp. intros Hd. run_Ok Hd. cbn. by eapply (decoded_uint32 0%N). Qed.
Lemma decode_ExtendOp_ranged j x : decode_ExtendOp j = Ok x → (extend_OpIndex x < 2 ^ 32)%N ∧ is_u64 (extend_ExpiresAt x).
Proof.
  unfold decode_ExtendOp. intros Hd. run_Ok Hd. cbn. split; [by eapply (decoded_uint32 0%N)|by eapply (decoded_uint64 0%N)].
Qed.

(** What a success sets: the pointer its tag names, besides those the receiver
    had. *)
Lemma UnmarshalJSON_ok old data o : UnmarshalJSON old data = Ok o →
  ∃ typ, decode_type data = Ok typ ∧ typ ∈ operation_tags ∧
    op_pointers o = zip_with orb (op_pointers old) (map (λ t, bool_decide (typ = t)) operation_tags) ∧
    (operation_ranged old → operation_ranged o).
Proof.
  unfold UnmarshalJSON. intros (typ & Ht & Ho)%bind_Ok. exists typ. split; [done|].
  destruct old as [c u d x t e]. unfold operation_ranged, op_pointers.
  repeat case_decide; try done; apply bind_Ok in Ho as (v & Hv & [= <-]); subst typ;
    (split; [apply (bool_decide_unpack _); vm_compute; exact I|]);
    (split; [cbn [op_Create op_Update op_Delete op_Extend op_Transfer op_Expire]; rewrite (bool_decide_true (is_Some (Some v))) by done;
      repeat match goal with |- context [bool_decide (is_Some ?p)] => is_var p; destruct p end; vm_compute; reflexivity|]);
    cbn [op_Create op_Update op_Delete op_Extend op_Transfer op_Expire]; intros (? & ? & ? & ? & ? & ?);
    split_and!; try done; intros y [= <-].
  - by eapply decode_CreateOp_ranged.
  - by eapply decode_UpdateOp_ranged.
  - apply decode_RefOp_inv in Hv as (? & ? & ? & ? & ? & -> & ?). done.
  - by eapply decode_ExtendOp_ranged.
  - apply decode_RefOp_inv in Hv as (? & ? & ? & ? & ? & -> & ?). done.
  - apply decode_RefOp_inv in Hv as (? & ? & ? & ? & ? & -> & ?). done.
Qed.

Lemma zero_operation_ranged : operation_ranged zero_operation.
Proof. by split_and!. Qed.

Lemma operation_ok old data o : operation_ranged old → UnmarshalJSON old data = Ok o → operation_typed o.
Proof.
  intros Hr (typ & _ & Hin & Hp & Ho)%UnmarshalJSON_ok. split; [by apply Ho|]. rewrite Hp.
  apply list_elem_of_lookup in Hin as [i Hi]. apply list_elem_of_lookup. exists i. rewrite lookup_zip_with, list_lookup_fmap, Hi.
  cbn [fmap option_fmap option_map]. rewrite bool_decide_true by done.
  assert (i < 6)%nat by (apply lookup_lt_Some in Hi; exact Hi).
  destruct (op_pointers old !! i) as [b|] eqn:Eb; [cbn; by rewrite orb_true_r|].
  apply lookup_ge_None in Eb. cbn in Eb. lia.
Qed.

Lemma zero_transaction_typed : transaction_typed zero_transaction.
Proof. by split. Qed.

Lemma decode_transaction_ok old j tx : transaction_typed old → decode_ArkivTransaction old j = Ok tx → transaction_typed tx.
Proof.
  unfold decode_ArkivTransaction. intros [Hi Ho] Hd. run_Ok Hd. split; cbn [tx_Index tx_Operations].
  - by eapply (decoded_uint32 (tx_Index old)).
  - eapply (decoded_slice operation_ranged operation_typed); [exact zero_operation_ranged|by intros ? [? _]| |exact Ho|eassumption].
    intros a j' b. apply operation_ok.
Qed.

Lemma decode_header_ok old j h : is_u64 (header_Number old) → decode_ArkivBlockHeader old j = Ok h → is_u64 (header_Number h).
Proof. unfold decode_ArkivBlockHeader. intros Ho Hd. run_Ok Hd. cbn. by eapply decoded_uint64. Qed.

Lemma zero_block_typed : block_typed zero_block.
Proof. by split. Qed.

Lemma decode_block_ok old j b : block_typed old → decode_ArkivBlock old j = Ok b → block_typed b.
Proof.
  unfold decode_ArkivBlock. intros [Hn Ht] Hd. run_Ok Hd. split; cbn [block_Header block_Transactions].
  - revert Hx0. apply (decode_field_inv (λ h, is_u64 (header_Number h))); [done|]. intros a j' h. apply decode_header_ok.
  - eapply (decoded_slice transaction_typed transaction_typed); [exact zero_transaction_typed|done| |exact Ht|eassumption].
    intros a j' t. apply decode_transaction_ok.
Qed.

Lemma decode_ref_ok old j r : is_u64 (ref_Number old) → decode_ArkivBlockRef old j = Ok r → is_u64 (ref_Number r).
Proof. unfold decode_ArkivBlockRef. intros Ho Hd. run_Ok Hd. cbn. by eapply decoded_uint64. Qed.

Lemma decoded_blocks names ms name bs :
  decode_field (decode_slice decode_ArkivBlock zero_block) [] names ms name = Ok bs → Forall block_typed bs.
Proof. apply (decoded_slice block_typed); [exact zero_block_typed|done| |done]. intros a j b. apply decode_block_ok. Qed.
Lemma decoded_refs names ms name rs :
  decode_field (decode_slice decode_ArkivBlockRef zero_ref) [] names ms name = Ok rs → Forall (λ r, is_u64 (ref_Number r)) rs.
Proof. apply (decoded_slice (λ r, is_u64 (ref_Number r))); [done|done| |done]. intros a j b. apply decode_ref_ok. Qed.

Lemma UnmarshalJSON_unknown old data typ : decode_type data = Ok typ → typ ∉ operation_tags →
  ∃ e, UnmarshalJSON old data = Err e.
Proof.
  intros Ht Hn. unfold UnmarshalJSON. rewrite Ht. bind_step. destruct old.
  repeat (case_decide as Hd; [subst typ; destruct Hn; apply (bool_decide_unpack _); vm_compute; exact I|clear Hd]).
  by eexists.
Qed.
End Typed.

(** ** What a block does does not depend on the wire *)

Section WireBlocks.
Context {E : Env}.

Lemma injectTx_wire tx op : injectTx (wire_transaction tx) (wire_operation op) = injectTx tx op.
Proof. by destruct op as [[c|] u d x t e]. Qed.

Lemma foldM_map_ext {A B S} (f : S → B → result S) (g : S → A → result S) (h : A → B) s l :
  (∀ s x, f s (h x) = g s x) → foldM f s (map h l) = foldM g s l.
Proof. intros Hfg. rewrite <-foldM_map. by apply foldM_ext. Qed.

Lemma processBlock_wire σ b : processBlock σ (wire_block b) = processBlock σ b.
Proof.
  unfold processBlock, openBlock. cbn [wire_block block_Header block_Transactions].
  destruct (newCacheStore _ _ _) as [cs| |]; bind_step; [|done..].
  erewrite foldM_map_ext; [done|]. intros c tx. unfold applyTransaction. cbn [wire_transaction tx_Operations].
  apply foldM_map_ext. intros c' op. by rewrite injectTx_wire.
Qed.

Lemma processBlocks_wire bs σ : processBlocks σ (map wire_block bs) = processBlocks σ bs.
Proof. revert σ. induction bs as [|b bs IH]; intros σ; cbn; [done|]. rewrite processBlock_wire. by destruct (processBlock σ b) as [[]?]. Qed.

Lemma commitLoop_wire bs σ root : commitLoop σ root (map wire_block bs) = commitLoop σ root bs.
Proof.
  revert σ root. induction bs as [|b bs IH]; intros σ root; cbn; [done|].
  unfold ProcessBlock. rewrite processBlock_wire. by destruct (processBlock σ b) as [[]?].
Qed.

Lemma CommitChain_wire σ req : CommitChain σ (mkCommitChainRequest (map wire_block (cc_Blocks req))) = CommitChain σ req.
Proof. unfold CommitChain. cbn [cc_Blocks]. by rewrite commitLoop_wire. Qed.
Lemma Reorg_wire σ req :
  Chain_Reorg σ (mkReorgRequest (ro_RevertedBlocks req) (map wire_block (ro_NewBlocks req))) = Chain_Reorg σ req.
Proof.
  unfold Chain_Reorg, Reorg. cbn [ro_RevertedBlocks ro_NewBlocks].
  destruct (match ro_RevertedBlocks req with [] => _ | _ => _ end) as [[[]|e|] σ']; [|done..]. by rewrite processBlocks_wire.
Qed.
End WireBlocks.
