(* ===== verification/Language.v ===== *)
(** The query language (src/query/language.go, src/query/types.go): the parse
    tree, and what the grammar guarantees of it.

    The parser itself is built by the participle library from the struct tags;
    it is a parameter of the query server.  [TopLevel_wf] states which trees the
    tags admit ([GrammarTheorems] proves that these are the ones). *)
From S2P Require Export GoStrings.

Definition KeyAttributeKey : bytes := str "$key".
Definition CreatorAttributeKey : bytes := str "$creator".
Definition OwnerAttributeKey : bytes := str "$owner".
Definition ExpirationAttributeKey : bytes := str "$expiration".
Definition CreatedAtBlockKey : bytes := str "$createdAtBlock".
Definition ContentTypeAttributeKey : bytes := str "$contentType".
(** The text of the lexer rule [Sequence], which types.go has no constant for. *)
Definition SequenceAttributeKey : bytes := str "$sequence".

(** A literal: exactly one pointer is set by the parser. *)
Record Value := mkValue {
  v_String : option bytes;
  v_Number : option N;
}.

Record Values := mkValues {
  vs_Strings : list bytes;
  vs_Numbers : list N;
}.

(** [LessThan], [LessOrEqualThan], [GreaterThan], [GreaterOrEqualThan]. *)
Record LessThan := mkLessThan { lt_Var : bytes; lt_Value : Value }.
Record LessOrEqualThan := mkLessOrEqualThan { le_Var : bytes; le_Value : Value }.
Record GreaterThan := mkGreaterThan { gt_Var : bytes; gt_Value : Value }.
Record GreaterOrEqualThan := mkGreaterOrEqualThan { ge_Var : bytes; ge_Value : Value }.

Record Equality := mkEquality { eq_Var : bytes; eq_IsNot : bool; eq_Value : Value }.
Record Inclusion := mkInclusion { in_Var : bytes; in_IsNot : bool; in_Values : Values }.
Record GlobExpr := mkGlobExpr { glob_Var : bytes; glob_IsNot : bool; glob_Value : bytes }.

Inductive Expression := mkExpression (e_Or : OrExpression)
with OrExpression := mkOrExpression (or_Left : AndExpression) (or_Right : list OrRHS)
with OrRHS := mkOrRHS (orhs_Expr : AndExpression)
with AndExpression := mkAndExpression (and_Left : EqualExpr) (and_Right : list AndRHS)
with AndRHS := mkAndRHS (arhs_Expr : EqualExpr)
with EqualExpr := mkEqualExpr
  (eqe_Paren : option Paren)
  (eqe_Assign : option Equality)
  (eqe_Inclusion : option Inclusion)
  (eqe_LessThan : option LessThan)
  (eqe_LessOrEqualThan : option LessOrEqualThan)
  (eqe_GreaterThan : option GreaterThan)
  (eqe_GreaterOrEqualThan : option GreaterOrEqualThan)
  (eqe_GlobExpr : option GlobExpr)
with Paren := mkParen (paren_IsNot : bool) (paren_Nested : Expression).

(** [Expression *Expression `@@ | All | Star`]: nil for [$all] and [*]. *)
Record TopLevel := mkTopLevel { top_Expression : option Expression }.

(** Field access. *)
Definition e_Or (e : Expression) : OrExpression := let 'mkExpression o := e in o.
Definition or_Left (e : OrExpression) : AndExpression := let 'mkOrExpression l _ := e in l.
Definition or_Right (e : OrExpression) : list OrRHS := let 'mkOrExpression _ r := e in r.
Definition orhs_Expr (e : OrRHS) : AndExpression := let 'mkOrRHS x := e in x.
Definition and_Left (e : AndExpression) : EqualExpr := let 'mkAndExpression l _ := e in l.
Definition and_Right (e : AndExpression) : list AndRHS := let 'mkAndExpression _ r := e in r.
Definition arhs_Expr (e : AndRHS) : EqualExpr := let 'mkAndRHS x := e in x.
Definition paren_IsNot (e : Paren) : bool := let 'mkParen b _ := e in b.
Definition paren_Nested (e : Paren) : Expression := let 'mkParen _ n := e in n.
Definition eqe_Paren (e : EqualExpr) : option Paren := let 'mkEqualExpr p _ _ _ _ _ _ _ := e in p.

(** Struct literals with one field set. *)
Definition paren_expr (p : Paren) : EqualExpr := mkEqualExpr (Some p) None None None None None None None.
Definition assign_expr (e : Equality) : EqualExpr := mkEqualExpr None (Some e) None None None None None None.
Definition inclusion_expr (e : Inclusion) : EqualExpr := mkEqualExpr None None (Some e) None None None None None.
Definition lt_expr (e : LessThan) : EqualExpr := mkEqualExpr None None None (Some e) None None None None.
Definition le_expr (e : LessOrEqualThan) : EqualExpr := mkEqualExpr None None None None (Some e) None None None.
Definition gt_expr (e : GreaterThan) : EqualExpr := mkEqualExpr None None None None None (Some e) None None.
Definition ge_expr (e : GreaterOrEqualThan) : EqualExpr := mkEqualExpr None None None None None None (Some e) None.
Definition glob_expr (e : GlobExpr) : EqualExpr := mkEqualExpr None None None None None None None (Some e).

(** The operands of a disjunction and of a conjunction. *)
Definition or_operands (e : OrExpression) : list AndExpression := or_Left e :: map orhs_Expr (or_Right e).
Definition and_operands (e : AndExpression) : list EqualExpr := and_Left e :: map arhs_Expr (and_Right e).

(** ** What the grammar guarantees *)

Definition fits_u64 (n : N) : bool := (n <? 2 ^ 64)%N.

(** [`(@String | @EntityKey | @Address) | @Number`]. *)
Definition Value_wf (v : Value) : bool :=
  match v with
  | mkValue (Some _) None => true
  | mkValue None (Some n) => fits_u64 n
  | _ => false
  end.

(** [`'(' (@String | @EntityKey | @Address)+ ')' | '(' @Number+ ')'`]. *)
Definition Values_wf (v : Values) : bool :=
  match v with
  | mkValues (_ :: _) [] => true
  | mkValues [] (n :: ns) => forallb fits_u64 (n :: ns)
  | _ => false
  end.

(** [AnnotationIdentRegex], [[\p{L}_][\p{L}\p{N}_]*]: the letters and digits
    beyond ASCII are runes whose bytes are all above 127, and every such byte is
    admitted. *)
Definition is_digit (c : byte) : bool := let n := byte_val c in ((48 <=? n) && (n <=? 57))%N.
Definition ident_start (c : byte) : bool :=
  let n := byte_val c in
  ((97 <=? n) && (n <=? 122) || (65 <=? n) && (n <=? 90) || (n =? 95) || (128 <=? n))%N.
Definition ident_char (c : byte) : bool := ident_start c || is_digit c.
Definition is_ident (v : bytes) : bool :=
  match v with c :: s => ident_start c && forallb ident_char s | [] => false end.

(** Comparison variables: [Ident | Expiration | CreatedAtBlock]. *)
Definition range_var (v : bytes) : bool :=
  is_ident v || bool_decide (v ∈ [ExpirationAttributeKey; CreatedAtBlockKey]).

(** Variables of equalities and inclusions. *)
Definition any_var (v : bytes) : bool :=
  is_ident v || bool_decide (v ∈ [KeyAttributeKey; OwnerAttributeKey; CreatorAttributeKey;
    ExpirationAttributeKey; SequenceAttributeKey; CreatedAtBlockKey; ContentTypeAttributeKey]).

(** A leaf: exactly one alternative other than parentheses, with well-formed
    operands. *)
Definition leaf_wf (e : EqualExpr) : bool :=
  match e with
  | mkEqualExpr None (Some a) None None None None None None => any_var (eq_Var a) && Value_wf (eq_Value a)
  | mkEqualExpr None None (Some i) None None None None None => any_var (in_Var i) && Values_wf (in_Values i)
  | mkEqualExpr None None None (Some c) None None None None => range_var (lt_Var c) && Value_wf (lt_Value c)
  | mkEqualExpr None None None None (Some c) None None None => range_var (le_Var c) && Value_wf (le_Value c)
  | mkEqualExpr None None None None None (Some c) None None => range_var (gt_Var c) && Value_wf (gt_Value c)
  | mkEqualExpr None None None None None None (Some c) None => range_var (ge_Var c) && Value_wf (ge_Value c)
  | mkEqualExpr None None None None None None None (Some g) => is_ident (glob_Var g)
  | _ => false
  end.

(** A tree whose leaves all satisfy [leaf], and whose parenthesised operands
    have no second alternative. *)
Section All.
Variable leaf : EqualExpr → bool.

Fixpoint EqualExpr_all (e : EqualExpr) : bool :=
  match e with
  | mkEqualExpr (Some p) None None None None None None None => Paren_all p
  | mkEqualExpr (Some _) _ _ _ _ _ _ _ => false
  | _ => leaf e
  end
with AndRHS_all (e : AndRHS) : bool := let 'mkAndRHS x := e in EqualExpr_all x
with AndExpression_all (e : AndExpression) : bool :=
  let 'mkAndExpression l r := e in EqualExpr_all l && forallb AndRHS_all r
with OrRHS_all (e : OrRHS) : bool := let 'mkOrRHS x := e in AndExpression_all x
with OrExpression_all (e : OrExpression) : bool :=
  let 'mkOrExpression l r := e in AndExpression_all l && forallb OrRHS_all r
with Expression_all (e : Expression) : bool := let 'mkExpression o := e in OrExpression_all o
with Paren_all (p : Paren) : bool := let 'mkParen _ n := p in Expression_all n.

Definition TopLevel_all (t : TopLevel) : bool :=
  match top_Expression t with Some e => Expression_all e | None => true end.
End All.

(** The trees the grammar admits. *)
Definition TopLevel_wf (t : TopLevel) : bool := TopLevel_all leaf_wf t.

(** The operands of an expression: a disjunction of conjunctions. *)
Definition expr_operands (e : Expression) : list (list EqualExpr) :=
  map and_operands (or_operands (e_Or e)).

(** The nesting depth of parentheses, the measure of the normaliser. *)
Fixpoint EqualExpr_depth (e : EqualExpr) : nat :=
  match e with mkEqualExpr (Some p) _ _ _ _ _ _ _ => Paren_depth p | _ => 0 end
with AndRHS_depth (e : AndRHS) : nat := let 'mkAndRHS x := e in EqualExpr_depth x
with AndExpression_depth (e : AndExpression) : nat :=
  let 'mkAndExpression l r := e in Nat.max (EqualExpr_depth l) (list_max (map AndRHS_depth r))
with OrRHS_depth (e : OrRHS) : nat := let 'mkOrRHS x := e in AndExpression_depth x
with OrExpression_depth (e : OrExpression) : nat :=
  let 'mkOrExpression l r := e in Nat.max (AndExpression_depth l) (list_max (map OrRHS_depth r))
with Expression_depth (e : Expression) : nat := let 'mkExpression o := e in OrExpression_depth o
with Paren_depth (p : Paren) : nat := let 'mkParen _ n := p in S (Expression_depth n).
