(* ===== verification/Grammar.v ===== *)
(** The grammar of queries (src/query/language.go: the struct tags), as the
    relation between token sequences and parse trees that the tags state.

    [@@] is the grammar of the field's type, [@X] a token that the field
    captures, a quoted literal any token with that value, [?], [*], [+] and [|]
    as usual.  The parser that participle builds from the tags is not here; a
    parser of the grammar accepts some of the pairs of the relation.  [uint64]
    captures go through the library's number parser, a parameter. *)
From S2P Require Export Language.

(** The rules of [lex], by name. *)
Inductive token_type :=
  | Whitespace | LParen | RParen | TAnd | TOr | TNeq | TEq | TGeqt | TLeqt | TGt | TLt
  | TNotGlob | TGlob | TNot | TEntityKey | TAddress | TString | TNumber | TIdent
  | TCreatedAtBlock | TContentType | TOwner | TCreator | TKey | TExpiration | TSequence | TAll | TStar.
#[export] Instance token_type_eq_dec : EqDecision token_type.
Proof. solve_decision. Defined.

(** A token: its type, and its text (of a string, the text it quotes). *)
Record token := mkToken { tk_type : token_type; tk_value : bytes }.

(** The text of the rules that match one text only. *)
Definition fixed_text (ty : token_type) : option bytes :=
  match ty with
  | LParen => Some (str "(") | RParen => Some (str ")") | TAnd => Some (str "&&") | TOr => Some (str "||")
  | TNeq => Some (str "!=") | TEq => Some (str "=") | TGeqt => Some (str ">=") | TLeqt => Some (str "<=")
  | TGt => Some (str ">") | TLt => Some (str "<") | TNotGlob => Some (str "!~") | TGlob => Some (str "~")
  | TNot => Some (str "!") | TCreatedAtBlock => Some CreatedAtBlockKey | TContentType => Some ContentTypeAttributeKey
  | TOwner => Some OwnerAttributeKey | TCreator => Some CreatorAttributeKey | TKey => Some KeyAttributeKey
  | TExpiration => Some ExpirationAttributeKey | TSequence => Some SequenceAttributeKey
  | TAll => Some (str "$all") | TStar => Some (str "*")
  | Whitespace | TEntityKey | TAddress | TString | TNumber | TIdent => None
  end.

(** [[a-fA-F0-9]], and [0x] before [k] of them. *)
Definition is_hex (c : byte) : bool :=
  is_digit c || let n := byte_val c in ((97 <=? n) && (n <=? 102) || (65 <=? n) && (n <=? 70))%N.
Definition hex_text (k : nat) (v : bytes) : bool :=
  match v with
  | c :: x :: s => bool_decide ([c; x] = str "0x") && (length s =? k)%nat && forallb is_hex s
  | _ => false
  end.
Definition is_number (v : bytes) : bool := match v with [] => false | _ => forallb is_digit v end.
Definition is_space (c : byte) : bool := bool_decide (byte_val c ∈ [32; 9; 10; 13]%N).

(** A token whose text matches its rule; of a string, any text can be quoted. *)
Definition token_ok (t : token) : bool :=
  match fixed_text (tk_type t) with
  | Some text => bool_decide (tk_value t = text)
  | None =>
      match tk_type t with
      | Whitespace => match tk_value t with [] => false | v => forallb is_space v end
      | TEntityKey => hex_text 64 (tk_value t)
      | TAddress => hex_text 40 (tk_value t)
      | TNumber => is_number (tk_value t)
      | TIdent => is_ident (tk_value t)
      | _ => true
      end
  end.

Section Grammar.
Variable numberValue : bytes → option N.

Definition NOT_words : list bytes := [str "NOT"; str "not"].
Definition IN_words : list bytes := [str "IN"; str "in"].
Definition GLOB_words : list bytes := [str "GLOB"; str "glob"].
Definition AND_words : list bytes := [str "AND"; str "and"].
Definition OR_words : list bytes := [str "OR"; str "or"].

Definition range_types : list token_type := [TIdent; TExpiration; TCreatedAtBlock].
Definition var_types : list token_type :=
  [TIdent; TKey; TOwner; TCreator; TExpiration; TSequence; TCreatedAtBlock; TContentType].
Definition text_types : list token_type := [TString; TEntityKey; TAddress].

(** [@('NOT' | 'not')?] *)
Inductive not_tokens : list token → bool → Prop :=
  | not_absent : not_tokens [] false
  | not_present t : tk_value t ∈ NOT_words → not_tokens [t] true.

(** [@(Not | 'NOT' | 'not')?] *)
Inductive paren_not_tokens : list token → bool → Prop :=
  | paren_not_absent : paren_not_tokens [] false
  | paren_not_present t : tk_type t = TNot ∨ tk_value t ∈ NOT_words → paren_not_tokens [t] true.

(** [(@String | @EntityKey | @Address) | @Number] *)
Inductive Value_tokens : list token → Value → Prop :=
  | Value_string t : tk_type t ∈ text_types → Value_tokens [t] (mkValue (Some (tk_value t)) None)
  | Value_number t n : tk_type t = TNumber → numberValue (tk_value t) = Some n →
      Value_tokens [t] (mkValue None (Some n)).

(** ['(' (@String | @EntityKey | @Address)+ ')' | '(' @Number+ ')'] *)
Definition number_token (t : token) (n : N) : Prop := tk_type t = TNumber ∧ numberValue (tk_value t) = Some n.
Inductive Values_tokens : list token → Values → Prop :=
  | Values_strings l ts r : tk_value l = str "(" → tk_value r = str ")" → ts ≠ [] →
      Forall (λ t, tk_type t ∈ text_types) ts → Values_tokens (l :: ts ++ [r]) (mkValues (map tk_value ts) [])
  | Values_numbers l ts ns r : tk_value l = str "(" → tk_value r = str ")" → ts ≠ [] →
      Forall2 number_token ts ns → Values_tokens (l :: ts ++ [r]) (mkValues [] ns).

(** The leaves of [EqualExpr]. *)
Inductive leaf_tokens : list token → EqualExpr → Prop :=
  | leaf_assign v op ts b w : tk_type v ∈ var_types →
      tk_type op = TEq ∧ b = false ∨ tk_type op = TNeq ∧ b = true → Value_tokens ts w →
      leaf_tokens (v :: op :: ts) (assign_expr (mkEquality (tk_value v) b w))
  | leaf_inclusion v nots b i ts w : tk_type v ∈ var_types → not_tokens nots b → tk_value i ∈ IN_words →
      Values_tokens ts w → leaf_tokens (v :: nots ++ i :: ts) (inclusion_expr (mkInclusion (tk_value v) b w))
  | leaf_lt v op ts w : tk_type v ∈ range_types → tk_type op = TLt → Value_tokens ts w →
      leaf_tokens (v :: op :: ts) (lt_expr (mkLessThan (tk_value v) w))
  | leaf_le v op ts w : tk_type v ∈ range_types → tk_type op = TLeqt → Value_tokens ts w →
      leaf_tokens (v :: op :: ts) (le_expr (mkLessOrEqualThan (tk_value v) w))
  | leaf_gt v op ts w : tk_type v ∈ range_types → tk_type op = TGt → Value_tokens ts w →
      leaf_tokens (v :: op :: ts) (gt_expr (mkGreaterThan (tk_value v) w))
  | leaf_ge v op ts w : tk_type v ∈ range_types → tk_type op = TGeqt → Value_tokens ts w →
      leaf_tokens (v :: op :: ts) (ge_expr (mkGreaterOrEqualThan (tk_value v) w))
  | leaf_glob v op b s : tk_type v = TIdent →
      tk_type op = TGlob ∧ b = false ∨ tk_type op = TNotGlob ∧ b = true → tk_type s = TString →
      leaf_tokens [v; op; s] (glob_expr (mkGlobExpr (tk_value v) b (tk_value s)))
  | leaf_glob_word v nots b g s : tk_type v = TIdent → not_tokens nots b → tk_value g ∈ GLOB_words → tk_type s = TString →
      leaf_tokens (v :: nots ++ [g; s]) (glob_expr (mkGlobExpr (tk_value v) b (tk_value s))).

Definition and_token (t : token) : Prop := tk_type t = TAnd ∨ tk_value t ∈ AND_words.
Definition or_token (t : token) : Prop := tk_type t = TOr ∨ tk_value t ∈ OR_words.

Inductive EqualExpr_tokens : list token → EqualExpr → Prop :=
  | equal_leaf ts e : leaf_tokens ts e → EqualExpr_tokens ts e
  | equal_paren nots b l ts o r : paren_not_tokens nots b → tk_type l = LParen → OrExpression_tokens ts o →
      tk_type r = RParen → EqualExpr_tokens (nots ++ l :: ts ++ [r]) (paren_expr (mkParen b (mkExpression o)))
with AndTail_tokens : list token → list AndRHS → Prop :=
  | and_done : AndTail_tokens [] []
  | and_more t ts e tss rs : and_token t → EqualExpr_tokens ts e → AndTail_tokens tss rs →
      AndTail_tokens (t :: ts ++ tss) (mkAndRHS e :: rs)
with AndExpression_tokens : list token → AndExpression → Prop :=
  | and_expr ts e tss rs : EqualExpr_tokens ts e → AndTail_tokens tss rs →
      AndExpression_tokens (ts ++ tss) (mkAndExpression e rs)
with OrTail_tokens : list token → list OrRHS → Prop :=
  | or_done : OrTail_tokens [] []
  | or_more t ts e tss rs : or_token t → AndExpression_tokens ts e → OrTail_tokens tss rs →
      OrTail_tokens (t :: ts ++ tss) (mkOrRHS e :: rs)
with OrExpression_tokens : list token → OrExpression → Prop :=
  | or_expr ts e tss rs : AndExpression_tokens ts e → OrTail_tokens tss rs →
      OrExpression_tokens (ts ++ tss) (mkOrExpression e rs).

(** [@@ | All | Star] *)
Inductive TopLevel_tokens : list token → TopLevel → Prop :=
  | top_expression ts o : OrExpression_tokens ts o → TopLevel_tokens ts (mkTopLevel (Some (mkExpression o)))
  | top_all t : tk_type t = TAll ∨ tk_type t = TStar → TopLevel_tokens [t] (mkTopLevel None).

End Grammar.
