(* ===== verification/GrammarProofs.v ===== *)
(** The grammar of queries determines the tree of a token sequence, and the trees
    it admits are the well-formed ones (src/query/language.go). *)
From S2P Require Export Grammar.

Scheme EqualExpr_tokens_mut := Minimality for EqualExpr_tokens Sort Prop
  with AndTail_tokens_mut := Minimality for AndTail_tokens Sort Prop
  with AndExpression_tokens_mut := Minimality for AndExpression_tokens Sort Prop
  with OrTail_tokens_mut := Minimality for OrTail_tokens Sort Prop
  with OrExpression_tokens_mut := Minimality for OrExpression_tokens Sort Prop.
Combined Scheme expression_tokens_ind from EqualExpr_tokens_mut, AndTail_tokens_mut, AndExpression_tokens_mut,
  OrTail_tokens_mut, OrExpression_tokens_mut.

(** ** Tokens *)

Ltac in_list := rewrite !elem_of_cons; solve [auto 14].

(** No lexer token is both a word of the grammar and one of its symbols. *)
Lemma fixed_not_word t text (words : list bytes) : token_ok t = true → fixed_text (tk_type t) = Some text →
  bool_decide (text ∈ words) = false → tk_value t ∉ words.
Proof. unfold token_ok. intros Hok Hf Hb. rewrite Hf in Hok. apply bool_decide_eq_true in Hok as ->. by apply bool_decide_eq_false in Hb. Qed.

Lemma token_fixed t text : token_ok t = true → fixed_text (tk_type t) = Some text → tk_value t = text.
Proof. unfold token_ok. intros Hok Hf. rewrite Hf in Hok. by apply bool_decide_eq_true in Hok. Qed.

(** The operator a leaf's second token stands for. *)
Inductive op_kind := KType (ty : token_type) | KNot | KIn | KGlobWord | KNone.
Definition kind_of (t : token) : op_kind :=
  match fixed_text (tk_type t) with
  | Some _ => KType (tk_type t)
  | None =>
      if decide (tk_value t ∈ NOT_words) then KNot
      else if decide (tk_value t ∈ IN_words) then KIn
      else if decide (tk_value t ∈ GLOB_words) then KGlobWord else KNone
  end.

Lemma kind_type t ty text : tk_type t = ty → fixed_text ty = Some text → kind_of t = KType ty.
Proof. unfold kind_of. by intros -> ->. Qed.

Lemma word_not_fixed t (words : list bytes) : token_ok t = true → words ∈ [NOT_words; IN_words; GLOB_words; AND_words; OR_words] →
  tk_value t ∈ words → fixed_text (tk_type t) = None.
Proof.
  intros Hok Hw Hv. destruct (fixed_text (tk_type t)) as [text|] eqn:Hf; [|done]. exfalso.
  eapply fixed_not_word; [exact Hok|exact Hf| |exact Hv]. clear Hv Hok.
  rewrite !elem_of_cons, elem_of_nil in Hw.
  destruct (tk_type t); cbn in Hf; try discriminate Hf; injection Hf as <-;
    destruct Hw as [->|[->|[->|[->|[->|[] ] ] ] ] ]; vm_compute; reflexivity.
Qed.

Lemma kind_not t : token_ok t = true → tk_value t ∈ NOT_words → kind_of t = KNot.
Proof. intros Hok Hv. unfold kind_of. by rewrite (word_not_fixed t NOT_words Hok ltac:(in_list) Hv), decide_True. Qed.

Lemma words_disjoint (x : bytes) (l1 l2 : list bytes) : bool_decide (Forall (λ y, y ∉ l2) l1) = true → x ∈ l1 → x ∉ l2.
Proof. intros H%bool_decide_eq_true Hx. rewrite Forall_forall in H. by apply H. Qed.

Ltac words_apart := match goal with Hv : tk_value _ ∈ _ |- _ => revert Hv end; apply words_disjoint; vm_compute; reflexivity.

Lemma kind_in t : token_ok t = true → tk_value t ∈ IN_words → kind_of t = KIn.
Proof.
  intros Hok Hv. unfold kind_of. rewrite (word_not_fixed t IN_words Hok ltac:(in_list) Hv).
  rewrite decide_False by words_apart. by rewrite decide_True.
Qed.
Lemma kind_glob t : token_ok t = true → tk_value t ∈ GLOB_words → kind_of t = KGlobWord.
Proof.
  intros Hok Hv. unfold kind_of. rewrite (word_not_fixed t GLOB_words Hok ltac:(in_list) Hv).
  do 2 rewrite decide_False by words_apart. by rewrite decide_True.
Qed.

(** A sequence the lexer can produce, without a quoted closing parenthesis. *)
Definition clean (t : token) : Prop := token_ok t = true ∧ (tk_type t = TString → tk_value t ≠ str ")").

Lemma text_not_paren t : clean t → tk_type t ∈ text_types → tk_value t ≠ str ")".
Proof.
  intros [Hok Hs] Ht. unfold text_types in Ht. rewrite !elem_of_cons, elem_of_nil in Ht. destruct Ht as [Ht|[Ht|[Ht|[] ] ] ]; [by apply Hs|..];
    unfold token_ok in Hok; rewrite Ht in Hok; cbn in Hok; intros Hv; rewrite Hv in Hok; vm_compute in Hok; discriminate Hok.
Qed.
Lemma number_not_paren t : clean t → tk_type t = TNumber → tk_value t ≠ str ")".
Proof.
  intros [Hok _] Ht. unfold token_ok in Hok. rewrite Ht in Hok. cbn in Hok. intros Hv. rewrite Hv in Hok. vm_compute in Hok. discriminate Hok.
Qed.

Section Unambiguous.
Variable numberValue : bytes → option N.

(** Two lists up to the first element outside a set. *)
Lemma split_at_first {A} (P : A → Prop) xs c r xs' c' r' : Forall P xs → Forall P xs' → ¬ P c → ¬ P c' →
  xs ++ c :: r = xs' ++ c' :: r' → xs = xs' ∧ r = r'.
Proof.
  intros H. revert xs'. induction H as [|x xs Hx _ IH]; intros xs' H' Hc Hc' Heq; inversion H' as [|x' xs1 Hx' H1]; subst; cbn in Heq.
  - by injection Heq as _ ->.
  - injection Heq as -> _. done.
  - injection Heq as -> _. done.
  - injection Heq as -> Heq. by destruct (IH _ H1 Hc Hc' Heq) as [-> ->].
Qed.

Lemma text_not_number (ty : token_type) : ty ∈ text_types → ty ≠ TNumber.
Proof.
  intros Ht ->. unfold text_types in Ht. rewrite !elem_of_cons, elem_of_nil in Ht. by destruct Ht as [?|[?|[?|[] ] ] ].
Qed.

Lemma Value_unique ts w ts' w' r r' : Value_tokens numberValue ts w → Value_tokens numberValue ts' w' →
  ts ++ r = ts' ++ r' → w = w' ∧ r = r'.
Proof.
  intros [t Ht|t n Ht Hn] [t' Ht'|t' n' Ht' Hn'] [= -> ->]; (split; [|done]); [done| | |congruence].
  - rewrite Ht' in Ht. by apply text_not_number in Ht.
  - rewrite Ht in Ht'. by apply text_not_number in Ht'.
Qed.

Lemma numbers_unique ts ns ns' : Forall2 (number_token numberValue) ts ns → Forall2 (number_token numberValue) ts ns' → ns = ns'.
Proof.
  intros H. revert ns'. induction H as [|t n ts ns [_ Hn] _ IH]; intros ns' H'; inversion H' as [|? n' ? ns1 [_ Hn'] H1]; subst; [done|].
  f_equal; [congruence|by apply IH].
Qed.

Definition list_token (t : token) : Prop := (tk_type t ∈ text_types ∨ tk_type t = TNumber) ∧ tk_value t ≠ str ")".

Lemma texts_listed ts r : Forall clean (ts ++ r) → Forall (λ t, tk_type t ∈ text_types) ts → Forall list_token ts.
Proof.
  intros [Hc _]%Forall_app H. eapply Forall_impl; [exact (proj2 (Forall_and _ _) (conj Hc H))|].
  intros t [Ht Hx]. split; [by left|by apply text_not_paren].
Qed.
Lemma numbers_listed ts ns r : Forall clean (ts ++ r) → Forall2 (number_token numberValue) ts ns → Forall list_token ts.
Proof.
  intros [Hc _]%Forall_app H. revert Hc. induction H as [|t n ts ns [Ht _] _ IH]; intros Hc; [constructor|].
  apply Forall_cons in Hc as [Hx Hc]. constructor; [|by apply IH]. split; [by right|by apply number_not_paren].
Qed.

Lemma Values_unique ts w ts' w' r r' : Values_tokens numberValue ts w → Values_tokens numberValue ts' w' →
  Forall clean (ts ++ r) → ts ++ r = ts' ++ r' → w = w' ∧ r = r'.
Proof.
  intros H H' Hc Heq. pose proof Hc as Hc'. rewrite Heq in Hc'.
  assert (∀ t, tk_value t = str ")" → ¬ list_token t) as Hend by (by intros t Ht [_ Hn]).
  destruct H as [l xs c Hl He Hne Hx|l xs ns c Hl He Hne Hx], H' as [l' xs' c' Hl' He' Hne' Hx'|l' xs' ns' c' Hl' He' Hne' Hx'];
    cbn in Heq, Hc, Hc'; rewrite <-!app_assoc in Heq; rewrite <-app_assoc in Hc; rewrite <-app_assoc in Hc'; injection Heq as -> Heq;
    apply Forall_cons in Hc as [_ Hc], Hc' as [_ Hc'].
  - by destruct (split_at_first list_token xs c r xs' c' r' (texts_listed _ _ Hc Hx) (texts_listed _ _ Hc' Hx') (Hend _ He) (Hend _ He') Heq) as [-> ->].
  - exfalso. destruct xs as [|x xs]; [done|]. destruct Hx' as [|x' n xs' ns' [Ht _] _]; [done|]. injection Heq as -> _.
    apply Forall_cons in Hx as [Hx _]. rewrite Ht in Hx. by apply text_not_number in Hx.
  - exfalso. destruct xs' as [|x xs']; [done|]. destruct Hx as [|x' n xs ns [Ht _] _]; [done|]. injection Heq as -> _.
    apply Forall_cons in Hx' as [Hx _]. rewrite Ht in Hx. by apply text_not_number in Hx.
  - destruct (split_at_first list_token xs c r xs' c' r' (numbers_listed _ _ _ Hc Hx) (numbers_listed _ _ _ Hc' Hx') (Hend _ He) (Hend _ He') Heq) as [-> ->].
    by rewrite (numbers_unique _ _ _ Hx Hx').
Qed.

(** ** Leaves *)

(** A leaf, read off its second token. *)
Definition leaf_body (k : op_kind) (v : bytes) (rest : list token) (e : EqualExpr) : Prop :=
  match k with
  | KType TEq => ∃ w, Value_tokens numberValue rest w ∧ e = assign_expr (mkEquality v false w)
  | KType TNeq => ∃ w, Value_tokens numberValue rest w ∧ e = assign_expr (mkEquality v true w)
  | KType TLt => ∃ w, Value_tokens numberValue rest w ∧ e = lt_expr (mkLessThan v w)
  | KType TLeqt => ∃ w, Value_tokens numberValue rest w ∧ e = le_expr (mkLessOrEqualThan v w)
  | KType TGt => ∃ w, Value_tokens numberValue rest w ∧ e = gt_expr (mkGreaterThan v w)
  | KType TGeqt => ∃ w, Value_tokens numberValue rest w ∧ e = ge_expr (mkGreaterOrEqualThan v w)
  | KType TGlob | KGlobWord => ∃ s, rest = [s] ∧ e = glob_expr (mkGlobExpr v false (tk_value s))
  | KType TNotGlob => ∃ s, rest = [s] ∧ e = glob_expr (mkGlobExpr v true (tk_value s))
  | KIn => ∃ w, Values_tokens numberValue rest w ∧ e = inclusion_expr (mkInclusion v false w)
  | KNot => ∃ op rest', rest = op :: rest' ∧
      match kind_of op with
      | KIn => ∃ w, Values_tokens numberValue rest' w ∧ e = inclusion_expr (mkInclusion v true w)
      | KGlobWord => ∃ s, rest' = [s] ∧ e = glob_expr (mkGlobExpr v true (tk_value s))
      | _ => False
      end
  | _ => False
  end.

Lemma leaf_shape ts e : leaf_tokens numberValue ts e → Forall (λ t, token_ok t = true) ts →
  ∃ v op rest, ts = v :: op :: rest ∧ tk_type v ∈ var_types ∧ leaf_body (kind_of op) (tk_value v) rest e.
Proof.
  assert (∀ ty, ty ∈ range_types → ty ∈ var_types) as Hr.
  { intros ty. unfold range_types, var_types. rewrite !elem_of_cons, elem_of_nil. tauto. }
  intros [v op xs b w Hv Hop Hw|v nots b i xs w Hv Hn Hi Hw|v op xs w Hv Hop Hw|v op xs w Hv Hop Hw|v op xs w Hv Hop Hw
    |v op xs w Hv Hop Hw|v op b s Hv Hop Hs|v nots b g s Hv Hn Hg Hs] Hok;
    [|destruct Hn as [|t Ht]|..|destruct Hn as [|t Ht] ]; cbn in Hok; rewrite ?Forall_cons in Hok; destruct Hok as (Ok1 & Ok2 & Ok3);
    eexists v, _, _; (split; [reflexivity|]); (split; [first [done|by apply Hr|rewrite Hv; apply Hr; unfold range_types; in_list]|]).
  - destruct Hop as [[Ht ->]|[Ht ->]]; rewrite (kind_type _ _ _ Ht eq_refl); by exists w.
  - rewrite (kind_in _ Ok2 Hi). by exists w.
  - rewrite (kind_not _ Ok2 Ht). exists i, xs. split; [done|]. rewrite (kind_in _ (proj1 Ok3) Hi). by exists w.
  - rewrite (kind_type _ _ _ Hop eq_refl). by exists w.
  - rewrite (kind_type _ _ _ Hop eq_refl). by exists w.
  - rewrite (kind_type _ _ _ Hop eq_refl). by exists w.
  - rewrite (kind_type _ _ _ Hop eq_refl). by exists w.
  - destruct Hop as [[Ht ->]|[Ht ->]]; rewrite (kind_type _ _ _ Ht eq_refl); by exists s.
  - rewrite (kind_glob _ Ok2 Hg). by exists s.
  - rewrite (kind_not _ Ok2 Ht). exists g, [s]. split; [done|]. rewrite (kind_glob _ (proj1 Ok3) Hg). by exists s.
Qed.

Lemma leaf_body_unique k v rest rest' e e' r r' : leaf_body k v rest e → leaf_body k v rest' e' →
  Forall clean (rest ++ r) → rest ++ r = rest' ++ r' → e = e' ∧ r = r'.
Proof.
  intros H H' Hc Heq.
  destruct k as [[]| | | | ]; try done; cbn in H, H';
    try (destruct H as (w & Hw & ->), H' as (w' & Hw' & ->); by destruct (Value_unique _ _ _ _ _ _ Hw Hw' Heq) as [-> ->]);
    try (destruct H as (s & -> & ->), H' as (s' & -> & ->); by injection Heq as -> ->).
  - destruct H as (op & xs & -> & H), H' as (op' & xs' & -> & H'). injection Heq as <- Heq. apply Forall_cons in Hc as [_ Hc].
    destruct (kind_of op); try done.
    + destruct H as (w & Hw & ->), H' as (w' & Hw' & ->). by destruct (Values_unique _ _ _ _ _ _ Hw Hw' Hc Heq) as [-> ->].
    + destruct H as (s & -> & ->), H' as (s' & -> & ->). by injection Heq as -> ->.
  - destruct H as (w & Hw & ->), H' as (w' & Hw' & ->). by destruct (Values_unique _ _ _ _ _ _ Hw Hw' Hc Heq) as [-> ->].
Qed.

Lemma clean_ok ts r : Forall clean (ts ++ r) → Forall (λ t, token_ok t = true) ts.
Proof. intros [Hc _]%Forall_app. eapply Forall_impl; [exact Hc|]. by intros t [? _]. Qed.

Lemma leaf_unique ts ts' e e' r r' : leaf_tokens numberValue ts e → leaf_tokens numberValue ts' e' →
  Forall clean (ts ++ r) → ts ++ r = ts' ++ r' → e = e' ∧ r = r'.
Proof.
  intros H H' Hc Heq. pose proof Hc as Hc'. rewrite Heq in Hc'.
  destruct (leaf_shape _ _ H (clean_ok _ _ Hc)) as (v & op & rest & -> & _ & B).
  destruct (leaf_shape _ _ H' (clean_ok _ _ Hc')) as (v' & op' & rest' & -> & _ & B'). injection Heq as <- <- Heq.
  cbn in Hc. rewrite !Forall_cons in Hc. destruct Hc as (_ & _ & Hc). by eapply leaf_body_unique.
Qed.

(** ** Expressions *)

Definition next_is (P : token → Prop) (r : list token) : Prop := match r with [] => False | t :: _ => P t end.

Lemma and_or_apart t : token_ok t = true → and_token t → ¬ or_token t.
Proof.
  intros Hok [Ht|Hv] [Ht'|Hv'].
  - congruence.
  - pose proof (word_not_fixed t OR_words Hok ltac:(in_list) Hv') as Hn. by rewrite Ht in Hn.
  - pose proof (word_not_fixed t AND_words Hok ltac:(in_list) Hv) as Hn. by rewrite Ht' in Hn.
  - revert Hv'. by words_apart.
Qed.

Lemma rparen_ends t : token_ok t = true → tk_type t = RParen → ¬ and_token t ∧ ¬ or_token t.
Proof.
  intros Hok Ht. split; (intros [Ht'|Hv]; [congruence|]).
  - pose proof (word_not_fixed t AND_words Hok ltac:(in_list) Hv) as Hn. by rewrite Ht in Hn.
  - pose proof (word_not_fixed t OR_words Hok ltac:(in_list) Hv) as Hn. by rewrite Ht in Hn.
Qed.

Lemma lparen_not_not t : token_ok t = true → tk_type t = LParen → ¬ (tk_type t = TNot ∨ tk_value t ∈ NOT_words).
Proof.
  intros Hok Ht [Ht'|Hv]; [congruence|]. pose proof (word_not_fixed t NOT_words Hok ltac:(in_list) Hv) as Hn. by rewrite Ht in Hn.
Qed.

(** A leaf is no parenthesised expression. *)
Lemma leaf_not_paren ts e nots b l rest r : leaf_tokens numberValue ts e → paren_not_tokens nots b → tk_type l = LParen →
  Forall clean (ts ++ r) → ts ++ r ≠ nots ++ l :: rest.
Proof.
  intros H Hn Hl Hc Heq. destruct (leaf_shape _ _ H (clean_ok _ _ Hc)) as (v & op & xs & -> & Hv & B). destruct Hn as [|t Ht].
  - injection Heq as -> _. rewrite Hl in Hv. unfold var_types in Hv. rewrite !elem_of_cons, elem_of_nil in Hv. tauto || (repeat destruct Hv as [Hv|Hv]; done).
  - injection Heq as _ -> _. rewrite (kind_type _ _ _ Hl eq_refl) in B. done.
Qed.

Abbreviation Eqs := (EqualExpr_tokens numberValue).
Abbreviation AndTails := (AndTail_tokens numberValue).
Abbreviation Ands := (AndExpression_tokens numberValue).
Abbreviation OrTails := (OrTail_tokens numberValue).
Abbreviation Ors := (OrExpression_tokens numberValue).

(** What follows an operand of a conjunction, and one of a disjunction. *)
Definition ends_and (r : list token) : Prop := ¬ next_is and_token r.
Definition ends_or (r : list token) : Prop := ¬ next_is and_token r ∧ ¬ next_is or_token r.

(** A derivation determines, of any sequence it begins, the tree and the rest. *)
Definition determined {T} (D : list token → T → Prop) (fin : list token → Prop) (ts : list token) (x : T) : Prop :=
  ∀ ts' x' r r', D ts' x' → Forall clean (ts ++ r) → ts ++ r = ts' ++ r' → fin r → fin r' → x = x' ∧ r = r'.
Definition anywhere (r : list token) : Prop := True.

Lemma ends_or_tail tss rs r : OrTails tss rs → Forall clean (tss ++ r) → ends_or r → ends_and (tss ++ r).
Proof.
  intros [|t ts e xs rs' Ht _ _] Hc [Ha _]; [done|]. cbn in Hc. apply Forall_cons in Hc as [[Hok _] _]. cbn. intros Ht'. by apply (and_or_apart t).
Qed.

Lemma paren_not_unique nots b nots' b' l l' xs xs' : paren_not_tokens nots b → paren_not_tokens nots' b' →
  tk_type l = LParen → tk_type l' = LParen → Forall clean (nots ++ l :: xs) → nots ++ l :: xs = nots' ++ l' :: xs' →
  b = b' ∧ xs = xs'.
Proof.
  intros [|t Ht] [|t' Ht'] Hl Hl' Hc Heq; cbn in Hc; apply Forall_cons in Hc as [[Hok _] _]; injection Heq as; subst; try done;
    exfalso; by eapply lparen_not_not.
Qed.

Lemma rparen_ends_or t r : clean t → tk_type t = RParen → ends_or (t :: r).
Proof. intros [Hok _] Ht. by apply rparen_ends. Qed.

Lemma clean_rest xs r : Forall clean (xs ++ r) → Forall clean r.
Proof. by intros [_ ?]%Forall_app. Qed.

(** One derivation after another. *)
Lemma determined_app {S T} (D : list token → S → Prop) (D2 : list token → T → Prop) fin fin2 ts x tss y ts' x' tss' y' r r' :
  determined D fin ts x → determined D2 fin2 tss y → D ts' x' → D2 tss' y' →
  (Forall clean (tss ++ r) → fin (tss ++ r)) → (Forall clean (tss' ++ r') → fin (tss' ++ r')) →
  Forall clean ((ts ++ tss) ++ r) → (ts ++ tss) ++ r = (ts' ++ tss') ++ r' → fin2 r → fin2 r' → (x = x' ∧ y = y') ∧ r = r'.
Proof.
  intros H1 H2 Hx Hy Hf Hf' Hc Heq Hr Hr'. pose proof Hc as Hc'. rewrite Heq in Hc'. rewrite <-!app_assoc in Heq. rewrite <-app_assoc in Hc, Hc'.
  destruct (H1 _ _ _ _ Hx Hc Heq (Hf (clean_rest _ _ Hc)) (Hf' (clean_rest _ _ Hc'))) as [<- Heq2].
  by destruct (H2 _ _ _ _ Hy (clean_rest _ _ Hc) Heq2 Hr Hr') as [<- <-].
Qed.

Lemma leaf_determined ts e : leaf_tokens numberValue ts e → determined Eqs anywhere ts e.
Proof.
  intros He ts' e' r r' H' Hc Heq _ _. destruct H' as [xs e' He'|nots b l xs o c Hn Hl _ _].
  - by eapply leaf_unique.
  - exfalso. rewrite <-app_assoc in Heq. cbn in Heq. by eapply (leaf_not_paren ts e nots b l).
Qed.

Lemma paren_determined nots b l ts o c : paren_not_tokens nots b → tk_type l = LParen → determined Ors ends_or ts o →
  tk_type c = RParen → determined Eqs anywhere (nots ++ l :: ts ++ [c]) (paren_expr (mkParen b (mkExpression o))).
Proof.
  intros Hn Hl IH Hr ts' e' r r' H' Hc Heq _ _. destruct H' as [xs e' He'|nots' b' l' xs o' c' Hn' Hl' Ho' Hr'].
  - exfalso. rewrite Heq in Hc. rewrite <-app_assoc in Heq. symmetry in Heq. by eapply (leaf_not_paren xs e' nots b l).
  - rewrite <-app_assoc in Hc. rewrite <-!app_assoc in Heq. cbn in Heq, Hc.
    destruct (paren_not_unique _ _ _ _ _ _ _ _ Hn Hn' Hl Hl' Hc Heq) as [<- Heq1].
    apply clean_rest, Forall_cons in Hc as [_ Hc]. pose proof Hc as Hc'. rewrite Heq1 in Hc'.
    rewrite <-app_assoc in Hc, Hc'. rewrite <-!app_assoc in Heq1. cbn in Hc, Hc', Heq1.
    pose proof (proj1 (Forall_cons _ _ _) (clean_rest _ _ Hc)) as [Hcc _]. pose proof (proj1 (Forall_cons _ _ _) (clean_rest _ _ Hc')) as [Hcc' _].
    by destruct (IH _ _ _ _ Ho' Hc Heq1 (rparen_ends_or _ _ Hcc Hr) (rparen_ends_or _ _ Hcc' Hr')) as [<- [= _ ->]].
Qed.

Lemma expressions_determined :
  (∀ ts e, Eqs ts e → determined Eqs anywhere ts e) ∧
  (∀ ts rs, AndTails ts rs → determined AndTails ends_and ts rs) ∧
  (∀ ts e, Ands ts e → determined Ands ends_and ts e) ∧
  (∀ ts rs, OrTails ts rs → determined OrTails ends_or ts rs) ∧
  (∀ ts e, Ors ts e → determined Ors ends_or ts e).
Proof.
  apply expression_tokens_ind.
  - apply leaf_determined.
  - intros nots b l ts o c Hn Hl _ IH Hr. by apply paren_determined.
  - intros ts' rs' r r' [|t ts e tss rs Ht _ _] Hc Heq Hr _; [done|]. cbn in Heq. subst r. by destruct Hr.
  - intros t ts e tss rs Ht _ IH _ IHs ts' rs' r r' [|t' xs e' xss rs2 Ht' He' Hs'] Hc Heq Hr Hr'; cbn in Heq.
    + subst r'. by destruct Hr'.
    + injection Heq as <- Heq. apply Forall_cons in Hc as [_ Hc].
      by destruct (determined_app _ _ _ _ _ _ _ _ _ _ _ _ _ _ IH IHs He' Hs' (λ _, I) (λ _, I) Hc Heq Hr Hr') as [[<- <-] <-].
  - intros ts e tss rs _ IH _ IHs ts' x' r r' [xs e' xss rs2 He' Hs'] Hc Heq Hr Hr'.
    by destruct (determined_app _ _ _ _ _ _ _ _ _ _ _ _ _ _ IH IHs He' Hs' (λ _, I) (λ _, I) Hc Heq Hr Hr') as [[<- <-] <-].
  - intros ts' rs' r r' [|t ts e tss rs Ht _ _] Hc Heq [_ Hr] _; [done|]. cbn in Heq. by subst r.
  - intros t ts e tss rs Ht _ IH Hs IHs ts' rs' r r' [|t' xs e' xss rs2 Ht' He' Hs'] Hc Heq Hr Hr'; cbn in Heq.
    + subst r'. by destruct Hr'.
    + injection Heq as <- Heq. apply Forall_cons in Hc as [_ Hc].
      by destruct (determined_app _ _ _ _ _ _ _ _ _ _ _ _ _ _ IH IHs He' Hs' (λ H, ends_or_tail _ _ _ Hs H Hr)
        (λ H, ends_or_tail _ _ _ Hs' H Hr') Hc Heq Hr Hr') as [[<- <-] <-].
  - intros ts e tss rs _ IH Hs IHs ts' x' r r' [xs e' xss rs2 He' Hs'] Hc Heq Hr Hr'.
    by destruct (determined_app _ _ _ _ _ _ _ _ _ _ _ _ _ _ IH IHs He' Hs' (λ H, ends_or_tail _ _ _ Hs H Hr)
      (λ H, ends_or_tail _ _ _ Hs' H Hr') Hc Heq Hr Hr') as [[<- <-] <-].
Qed.

(** An expression has at least three tokens. *)
Lemma leaf_size ts e : leaf_tokens numberValue ts e → (3 <= length ts)%nat.
Proof.
  assert (∀ xs w, Value_tokens numberValue xs w → (1 <= length xs)%nat) as Hv by (intros xs w []; cbn; lia).
  assert (∀ xs w, Values_tokens numberValue xs w → (1 <= length xs)%nat) as Hvs by (intros xs w []; cbn; lia).
  intros []; cbn; rewrite ?length_app; cbn;
    repeat match goal with H : Value_tokens _ _ _ |- _ => apply Hv in H | H : Values_tokens _ _ _ |- _ => apply Hvs in H end; lia.
Qed.
Lemma expressions_size :
  (∀ ts e, Eqs ts e → (3 <= length ts)%nat) ∧ (∀ ts rs, AndTails ts rs → True) ∧ (∀ ts e, Ands ts e → (3 <= length ts)%nat) ∧
  (∀ ts rs, OrTails ts rs → True) ∧ (∀ ts e, Ors ts e → (3 <= length ts)%nat).
Proof.
  apply expression_tokens_ind; try done; [apply leaf_size|intros; repeat (rewrite length_app || cbn); lia|intros; rewrite length_app; lia..].
Qed.

(** A clean sequence of tokens has one tree. *)
Lemma TopLevel_determined ts t t' : TopLevel_tokens numberValue ts t → TopLevel_tokens numberValue ts t' → Forall clean ts → t = t'.
Proof.
  pose proof expressions_size as (_ & _ & _ & _ & Hsize). intros [xs o Ho|c Hc] H' Hclean; inversion H' as [xs' o' Ho'|c' Hc']; subst.
  - pose proof expressions_determined as (_ & _ & _ & _ & Hd). rewrite <-(app_nil_r xs) in Hclean.
    by destruct (Hd _ _ Ho _ _ [] [] Ho' Hclean eq_refl) as [-> _]; try split; try intros [].
  - apply Hsize in Ho. cbn in Ho. lia.
  - apply Hsize in Ho'. cbn in Ho'. lia.
  - done.
Qed.

End Unambiguous.
