(* ===== verification/Meaning.v ===== *)
(** What a query says, independently of how it is normalised and evaluated: the
    meaning of a parse tree for an interpretation of its atomic comparisons, and
    for an entity.

    Of the code it uses the data types: the parse tree of [Language], the entity of
    [Data] and its annotation pairs.  It does not use the inversion and lowering
    of [Normalize], the annotations that [EntityCodec] computes
    ([allAnnotations_pairs] compares them), the values and scans of [Evaluate],
    nor the matcher of [Glob], of which only the pattern language matters. *)
From S2P Require Export Language EntityCodec Glob.

(** A truth value for each comparison of an attribute with a literal. *)
Record Atoms := mkAtoms {
  at_eq : bytes → Value → bool;
  at_lt : bytes → Value → bool;
  at_le : bytes → Value → bool;
  at_gt : bytes → Value → bool;
  at_ge : bytes → Value → bool;
  at_glob : bytes → bytes → bool;
}.

(** ** Leaves *)

Definition text (s : bytes) : Value := mkValue (Some s) None.
Definition number (n : N) : Value := mkValue None (Some n).

(** The attributes that hold an address or a hash in hexadecimal. *)
Definition address_valued (k : bytes) : bool :=
  bool_decide (k = str "$owner") || bool_decide (k = str "$creator") || bool_decide (k = str "$key").

(** The literals of an inclusion. *)
Definition listed (vs : Values) : list Value :=
  match vs_Strings vs with [] => map number (vs_Numbers vs) | ss => map text ss end.

Section Leaves.
Context `{GoRuntime}.

(** The literal an attribute is compared with: in lower case for hexadecimal
    attributes, which equal no number. *)
Definition literal (k : bytes) (v : Value) : option Value :=
  if address_valued k then (λ s, text (ToLower s)) <$> v_String v else Some v.

(** The attribute equals one of the literals. *)
Definition equals_one (A : Atoms) (k : bytes) (vs : list Value) : bool :=
  existsb (at_eq A k) (omap (literal k) vs).

(** A test, negated by its own operator ([!=], [not in], [!~]) and by an odd
    number of negations around it. *)
Definition says (pos isNot test : bool) : bool := if pos then xorb isNot test else negb (xorb isNot test).

(** A leaf under an even ([pos]) or odd number of negations.  A negated
    comparison asks for a value on the other side of the literal: [!(age < 5)]
    is [age >= 5], which an entity without [age] does not satisfy. *)
Definition leaf_sem (A : Atoms) (pos : bool) (e : EqualExpr) : bool :=
  match e with
  | mkEqualExpr _ (Some x) _ _ _ _ _ _ => says pos (eq_IsNot x) (equals_one A (eq_Var x) [eq_Value x])
  | mkEqualExpr _ _ (Some x) _ _ _ _ _ => says pos (in_IsNot x) (equals_one A (in_Var x) (listed (in_Values x)))
  | mkEqualExpr _ _ _ (Some x) _ _ _ _ => (if pos then at_lt A else at_ge A) (lt_Var x) (lt_Value x)
  | mkEqualExpr _ _ _ _ (Some x) _ _ _ => (if pos then at_le A else at_gt A) (le_Var x) (le_Value x)
  | mkEqualExpr _ _ _ _ _ (Some x) _ _ => (if pos then at_gt A else at_le A) (gt_Var x) (gt_Value x)
  | mkEqualExpr _ _ _ _ _ _ (Some x) _ => (if pos then at_ge A else at_lt A) (ge_Var x) (ge_Value x)
  | mkEqualExpr _ _ _ _ _ _ _ (Some x) => says pos (glob_IsNot x) (at_glob A (glob_Var x) (glob_Value x))
  | _ => false
  end.
End Leaves.

(** ** Expressions *)

Section Expressions.
Context `{GoRuntime} (A : Atoms).

(** A negation swaps conjunctions and disjunctions. *)
Fixpoint sem_eq (pos : bool) (e : EqualExpr) {struct e} : bool :=
  match e with
  | mkEqualExpr (Some p) _ _ _ _ _ _ _ => sem_paren pos p
  | _ => leaf_sem A pos e
  end
with sem_arhs (pos : bool) (e : AndRHS) {struct e} : bool := let 'mkAndRHS x := e in sem_eq pos x
with sem_and (pos : bool) (e : AndExpression) {struct e} : bool :=
  let 'mkAndExpression l r := e in
  if pos then sem_eq pos l && forallb (sem_arhs pos) r else sem_eq pos l || existsb (sem_arhs pos) r
with sem_orhs (pos : bool) (e : OrRHS) {struct e} : bool := let 'mkOrRHS x := e in sem_and pos x
with sem_or (pos : bool) (e : OrExpression) {struct e} : bool :=
  let 'mkOrExpression l r := e in
  if pos then sem_and pos l || existsb (sem_orhs pos) r else sem_and pos l && forallb (sem_orhs pos) r
with sem_expr (pos : bool) (e : Expression) {struct e} : bool := let 'mkExpression o := e in sem_or pos o
with sem_paren (pos : bool) (p : Paren) {struct p} : bool :=
  let 'mkParen isNot n := p in sem_expr (xorb isNot pos) n.

(** [None] is the query [$all]. *)
Definition sem_top (all : bool) (t : TopLevel) : bool :=
  match top_Expression t with Some e => sem_expr true e | None => all end.
End Expressions.

(** ** The atoms of an entity *)

(** The values of an attribute in a list of attributes, and a test some of them
    satisfy. *)
Definition has_val (l : list annotPair) (k : bytes) (f : bytes → bool) : bool :=
  existsb (λ p, bool_decide (pair_key p = k) && f (pair_val p)) l.

(** A number is held as its 8 big-endian bytes, and every value of 8 bytes is
    read as one; ranges and patterns skip the empty string. *)
Definition num_val (f : N → bool) (v : bytes) : bool := (length v =? 8)%nat && f (be_decode v).
Definition str_val (f : bytes → bool) (v : bytes) : bool := negb (bool_decide (v = [])) && f v.

(** A comparison with a literal: [fs w s] for strings, [fn w n] for numbers. *)
Definition value_sem (l : list annotPair) (k : bytes) (v : Value) (fs : bytes → bytes → bool) (fn : N → N → bool) : bool :=
  match v_String v with
  | Some s => has_val l k (str_val (λ w, fs w s))
  | None => match v_Number v with Some n => has_val l k (num_val (λ w, fn w n)) | None => false end
  end.

(** The bytes a literal equals. *)
Definition literal_bytes (v : Value) : option bytes :=
  match v_String v with Some s => Some s | None => PutUint64 <$> v_Number v end.

#[export] Instance glob_dec p s : Decision (glob p s).
Proof.
  destruct (globMatch p s) eqn:Hm; [left|right].
  - by apply globMatch_glob.
  - intros Hg%globMatch_glob. congruence.
Defined.

Definition pair_atoms (l : list annotPair) : Atoms := {|
  at_eq k v := match literal_bytes v with Some w => bool_decide (mkAnnotPair k w ∈ l) | None => false end;
  at_lt k v := value_sem l k v bytes_ltb N.ltb;
  at_le k v := value_sem l k v bytes_leb N.leb;
  at_gt k v := value_sem l k v (flip bytes_ltb) (flip N.ltb);
  at_ge k v := value_sem l k v (flip bytes_leb) (flip N.leb);
  at_glob k p := has_val l k (str_val (λ v, bool_decide (glob p v)));
|}.

Section Entities.
Context {E : Env}.

(** The attributes of an entity that a query can name. *)
Definition entity_pairs (e : Entity) : list annotPair :=
  [mkAnnotPair (str "$all") (str "true");
   mkAnnotPair (str "$creator") (ToLower (Address_Hex (Creator e)));
   mkAnnotPair (str "$createdAtBlock") (PutUint64 (CreatedAtBlock e));
   mkAnnotPair (str "$lastModifiedAtBlock") (PutUint64 (LastModifiedAtBlock e));
   mkAnnotPair (str "$owner") (ToLower (Address_Hex (Owner e)));
   mkAnnotPair (str "$key") (ToLower (Hash_Hex (Key e)));
   mkAnnotPair (str "$expiration") (PutUint64 (ExpiresAt e));
   mkAnnotPair (str "$contentType") (ContentType e)] ++
  ((λ a, mkAnnotPair (sa_Key a) (sa_Value a)) <$> StringAnnotations e) ++
  ((λ a, mkAnnotPair (na_Key a) (PutUint64 (na_Value a))) <$> NumericAnnotations e).

(** The entity satisfies the query. *)
Definition satisfies (e : Entity) (t : TopLevel) : Prop := sem_top (pair_atoms (entity_pairs e)) true t = true.

Lemma allAnnotations_pairs e : allAnnotations e = entity_pairs e.
Proof. reflexivity. Qed.
End Entities.
