(* ===== verification/Normalize.v ===== *)
(** Normalisation of queries to disjunctive normal form
    (src/query/normalize.go).

    [invert] pushes one negation inwards; [Normalize] distributes conjunctions
    over disjunctions.  A nil dereference or an explicit [panic] is [Panic].
    [Normalize] recurses into an inverted copy of its argument, so it takes
    fuel; [Err] stands for fuel that ran out, and nothing else. *)
From S2P Require Export Language.

Record ASTTerm := mkASTTerm {
  t_Assign : option Equality;
  t_Inclusion : option Inclusion;
  t_LessThan : option LessThan;
  t_LessOrEqualThan : option LessOrEqualThan;
  t_GreaterThan : option GreaterThan;
  t_GreaterOrEqualThan : option GreaterOrEqualThan;
  t_Glob : option GlobExpr;
}.
Record ASTAnd := mkASTAnd { a_Terms : list ASTTerm }.
Record ASTOr := mkASTOr { o_Terms : list ASTAnd }.
Record ASTExpr := mkASTExpr { x_Or : ASTOr }.
Record AST := mkAST { ast_Expr : option ASTExpr }.

(** ** Inversion *)

Definition LessThan_invert (e : LessThan) : GreaterOrEqualThan := mkGreaterOrEqualThan (lt_Var e) (lt_Value e).
Definition LessOrEqualThan_invert (e : LessOrEqualThan) : GreaterThan := mkGreaterThan (le_Var e) (le_Value e).
Definition GreaterThan_invert (e : GreaterThan) : LessOrEqualThan := mkLessOrEqualThan (gt_Var e) (gt_Value e).
Definition GreaterOrEqualThan_invert (e : GreaterOrEqualThan) : LessThan := mkLessThan (ge_Var e) (ge_Value e).
Definition Equality_invert (e : Equality) : Equality := mkEquality (eq_Var e) (negb (eq_IsNot e)) (eq_Value e).
Definition Inclusion_invert (e : Inclusion) : Inclusion := mkInclusion (in_Var e) (negb (in_IsNot e)) (in_Values e).
Definition GlobExpr_invert (e : GlobExpr) : GlobExpr := mkGlobExpr (glob_Var e) (negb (glob_IsNot e)) (glob_Value e).
Definition Paren_invert (e : Paren) : Paren := mkParen (negb (paren_IsNot e)) (paren_Nested e).

(** The alternatives are tried in the order of the source. *)
Definition EqualExpr_invert (e : EqualExpr) : result EqualExpr :=
  let 'mkEqualExpr paren assign incl lt le gt ge glob := e in
  match paren with Some p => Ok (paren_expr (Paren_invert p)) | None =>
  match lt with Some c => Ok (ge_expr (LessThan_invert c)) | None =>
  match le with Some c => Ok (gt_expr (LessOrEqualThan_invert c)) | None =>
  match gt with Some c => Ok (le_expr (GreaterThan_invert c)) | None =>
  match ge with Some c => Ok (lt_expr (GreaterOrEqualThan_invert c)) | None =>
  match glob with Some g => Ok (glob_expr (GlobExpr_invert g)) | None =>
  match assign with Some a => Ok (assign_expr (Equality_invert a)) | None =>
  match incl with Some i => Ok (inclusion_expr (Inclusion_invert i)) | None => Panic
  end end end end end end end end.

Definition AndRHS_invert (e : AndRHS) : result OrRHS :=
  x ← EqualExpr_invert (arhs_Expr e);
  Ok (mkOrRHS (mkAndExpression x [])).

Definition AndExpression_invert (e : AndExpression) : result OrExpression :=
  newLeft ← EqualExpr_invert (and_Left e);
  newRight ← mapM_result AndRHS_invert (and_Right e);
  Ok (mkOrExpression (mkAndExpression newLeft []) newRight).

(** The inverted conjunction, in parentheses. *)
Definition wrap_inverted (e : AndExpression) : result EqualExpr :=
  o ← AndExpression_invert e;
  Ok (paren_expr (mkParen false (mkExpression o))).

Definition OrRHS_invert (e : OrRHS) : result AndRHS :=
  x ← wrap_inverted (orhs_Expr e);
  Ok (mkAndRHS x).

Definition OrExpression_invert (e : OrExpression) : result AndExpression :=
  newLeft ← wrap_inverted (or_Left e);
  newRight ← mapM_result OrRHS_invert (or_Right e);
  Ok (mkAndExpression newLeft newRight).

Definition Expression_invert (e : Expression) : result Expression :=
  newLeft ← OrExpression_invert (e_Or e);
  match and_Right newLeft with
  | [] => match eqe_Paren (and_Left newLeft) with
          | None => Panic
          | Some p => Ok (paren_Nested p)
          end
  | _ => Ok (mkExpression (mkOrExpression newLeft []))
  end.

(** ** Leaves *)

Definition address_var (v : bytes) : bool :=
  bool_decide (v ∈ [KeyAttributeKey; OwnerAttributeKey; CreatorAttributeKey]).

Section Normalize.
Context `{GoRuntime}.

(** [val := strings.ToLower( *e.Value.String)], for the three address-valued
    variables; a nil string panics. *)
Definition lowerValue (var : bytes) (v : Value) : result Value :=
  if address_var var then
    match v_String v with
    | None => Panic
    | Some s => Ok (mkValue (Some (ToLower s)) None)
    end
  else Ok v.

Definition LessThan_Normalize (e : LessThan) : result LessThan :=
  v ← lowerValue (lt_Var e) (lt_Value e); Ok (mkLessThan (lt_Var e) v).
Definition LessOrEqualThan_Normalize (e : LessOrEqualThan) : result LessOrEqualThan :=
  v ← lowerValue (le_Var e) (le_Value e); Ok (mkLessOrEqualThan (le_Var e) v).
Definition GreaterThan_Normalize (e : GreaterThan) : result GreaterThan :=
  v ← lowerValue (gt_Var e) (gt_Value e); Ok (mkGreaterThan (gt_Var e) v).
Definition GreaterOrEqualThan_Normalize (e : GreaterOrEqualThan) : result GreaterOrEqualThan :=
  v ← lowerValue (ge_Var e) (ge_Value e); Ok (mkGreaterOrEqualThan (ge_Var e) v).
Definition Equality_Normalize (e : Equality) : result Equality :=
  v ← lowerValue (eq_Var e) (eq_Value e); Ok (mkEquality (eq_Var e) (eq_IsNot e) v).
Definition Inclusion_Normalize (e : Inclusion) : Inclusion :=
  if address_var (in_Var e) then
    mkInclusion (in_Var e) (in_IsNot e) (mkValues (map ToLower (vs_Strings (in_Values e))) [])
  else e.
Definition GlobExpr_Normalize (e : GlobExpr) : GlobExpr := e.

(** [EqualExpr.Normalize]: a leaf becomes a term; parentheses panic. *)
Definition EqualExpr_Normalize (e : EqualExpr) : result ASTTerm :=
  let 'mkEqualExpr paren assign incl lt le gt ge glob := e in
  match paren with Some _ => Panic | None =>
  match lt with Some c => c ← LessThan_Normalize c; Ok (mkASTTerm None None (Some c) None None None None) | None =>
  match le with Some c => c ← LessOrEqualThan_Normalize c; Ok (mkASTTerm None None None (Some c) None None None) | None =>
  match gt with Some c => c ← GreaterThan_Normalize c; Ok (mkASTTerm None None None None (Some c) None None) | None =>
  match ge with Some c => c ← GreaterOrEqualThan_Normalize c; Ok (mkASTTerm None None None None None (Some c) None) | None =>
  match glob with Some g => Ok (mkASTTerm None None None None None None (Some (GlobExpr_Normalize g))) | None =>
  match assign with Some a => a ← Equality_Normalize a; Ok (mkASTTerm (Some a) None None None None None None) | None =>
  match incl with Some i => Ok (mkASTTerm None (Some (Inclusion_Normalize i)) None None None None None) | None => Panic
  end end end end end end end end.

(** ** Distribution *)

(** One round of the loop: every conjunction so far, extended by every
    conjunction of the next disjunction. *)
Definition distribute (ast : list ASTAnd) (disjunctions : list (list ASTTerm)) : list ASTAnd :=
  flat_map (λ conjunction, map (λ t, mkASTAnd (a_Terms conjunction ++ t)) disjunctions) ast.

Definition cross_product (terms : list (list (list ASTTerm))) : list ASTAnd :=
  foldl distribute [mkASTAnd []] terms.

Section Recursion.
Variable Paren_Normalize : Paren → result ASTExpr.

Definition convertToTerms (e : EqualExpr) : result (list (list ASTTerm)) :=
  match eqe_Paren e with
  | Some p => normalised ← Paren_Normalize p; Ok (map a_Terms (o_Terms (x_Or normalised)))
  | None => t ← EqualExpr_Normalize e; Ok [[t]]
  end.

Definition AndExpression_Normalize (e : AndExpression) : result (list ASTAnd) :=
  terms ← mapM_result convertToTerms (and_operands e);
  Ok (cross_product terms).

Definition OrExpression_Normalize (e : OrExpression) : result ASTOr :=
  terms ← mapM_result AndExpression_Normalize (or_operands e);
  Ok (mkASTOr (concat terms)).

Definition Expression_Normalize (e : Expression) : result ASTExpr :=
  normalised ← OrExpression_Normalize (e_Or e);
  Ok (mkASTExpr normalised).
End Recursion.

Fixpoint Paren_Normalize (fuel : nat) (e : Paren) : result ASTExpr :=
  match fuel with
  | O => Err (Errorf "out of fuel")
  | S fuel =>
      nested ← (if paren_IsNot e then Expression_invert (paren_Nested e) else Ok (paren_Nested e));
      Expression_Normalize (Paren_Normalize fuel) nested
  end.

(** Each level of parentheses costs at most two units: its own, and that of
    the parentheses an inversion adds. *)
Definition normalize_fuel (e : Expression) : nat := 2 * Expression_depth e + 2.

Definition TopLevel_Normalize (t : TopLevel) : result AST :=
  match top_Expression t with
  | Some e => x ← Expression_Normalize (Paren_Normalize (normalize_fuel e)) e; Ok (mkAST (Some x))
  | None => Ok (mkAST None)
  end.

End Normalize.
