(* ===== verification/NormalizeProofs.v ===== *)
(** Normalisation terminates, does not panic on the trees of the grammar whose
    address-valued comparisons hold strings, and preserves the meaning of the
    query that [Meaning] states (src/query/normalize.go). *)
From S2P Require Export Normalize Meaning.

(** ** The meaning of a normal form *)

(** A term, for an interpretation of the atomic comparisons: its literals are
    taken as they are. *)
Definition term_means (atoms : Atoms) (t : ASTTerm) : bool :=
  match t_Assign t with Some e => xorb (eq_IsNot e) (at_eq atoms (eq_Var e) (eq_Value e)) | None =>
  match t_Inclusion t with Some e => xorb (in_IsNot e) (existsb (at_eq atoms (in_Var e)) (listed (in_Values e))) | None =>
  match t_LessThan t with Some e => at_lt atoms (lt_Var e) (lt_Value e) | None =>
  match t_LessOrEqualThan t with Some e => at_le atoms (le_Var e) (le_Value e) | None =>
  match t_GreaterThan t with Some e => at_gt atoms (gt_Var e) (gt_Value e) | None =>
  match t_GreaterOrEqualThan t with Some e => at_ge atoms (ge_Var e) (ge_Value e) | None =>
  match t_Glob t with Some e => xorb (glob_IsNot e) (at_glob atoms (glob_Var e) (glob_Value e)) | None => false
  end end end end end end end.

(** A disjunction of conjunctions of terms. *)
Definition sem_dnf (ev : ASTTerm → bool) (o : ASTOr) : bool := existsb (λ c, forallb ev (a_Terms c)) (o_Terms o).
Definition sem_AST (ev : ASTTerm → bool) (all : bool) (t : AST) : bool :=
  match ast_Expr t with Some x => sem_dnf ev (x_Or x) | None => all end.

(** A leaf [Normalize] accepts: one the grammar admits that compares an
    address-valued variable with strings only. *)
Definition leaf_safe (e : EqualExpr) : bool :=
  match e with
  | mkEqualExpr _ (Some a) _ _ _ _ _ _ =>
      negb (address_var (eq_Var a)) || match v_String (eq_Value a) with Some _ => true | None => false end
  | _ => true
  end.
Definition leaf_ok (e : EqualExpr) : bool := leaf_wf e && leaf_safe e.
Definition TopLevel_ok (t : TopLevel) : bool := TopLevel_all leaf_ok t.

Section NormalizeProofs.
Context `{GoRuntime} (atoms : Atoms).
Abbreviation ev := (term_means atoms).

Lemma existsb_map {A B} (f : B → bool) (g : A → B) l : existsb f (map g l) = existsb (λ x, f (g x)) l.
Proof. induction l as [|x l IH]; simpl; [done|]. by rewrite IH. Qed.
Lemma forallb_map {A B} (f : B → bool) (g : A → B) l : forallb f (map g l) = forallb (λ x, f (g x)) l.
Proof. induction l as [|x l IH]; simpl; [done|]. by rewrite IH. Qed.
Lemma existsb_ext_in {A} (f g : A → bool) l : (∀ x, x ∈ l → f x = g x) → existsb f l = existsb g l.
Proof.
  induction l as [|x l IH]; simpl; [done|]. intros Hf. rewrite Hf, IH by set_solver. done.
Qed.
Lemma forallb_ext_in {A} (f g : A → bool) l : (∀ x, x ∈ l → f x = g x) → forallb f l = forallb g l.
Proof.
  induction l as [|x l IH]; simpl; [done|]. intros Hf. rewrite Hf, IH by set_solver. done.
Qed.
Lemma forallb_elem {A} (f : A → bool) l x : forallb f l = true → x ∈ l → f x = true.
Proof. intros Hf Hx. apply forallb_forall with (x := x) in Hf; [done|]. by apply list_elem_of_In. Qed.

(** ** Expressions by their operands *)

Definition sem_operands (pos : bool) (ops : list (list EqualExpr)) : bool :=
  if pos then existsb (forallb (sem_eq atoms true)) ops else forallb (existsb (sem_eq atoms false)) ops.

Lemma sem_and_operands pos a :
  sem_and atoms pos a = if pos then forallb (sem_eq atoms true) (and_operands a) else existsb (sem_eq atoms false) (and_operands a).
Proof.
  destruct a as [l r]. unfold and_operands. cbn [and_Left and_Right forallb existsb].
  rewrite forallb_map, existsb_map. destruct pos.
  - change (sem_and atoms true (mkAndExpression l r)) with (sem_eq atoms true l && forallb (sem_arhs atoms true) r).
    f_equal. apply forallb_ext_in. by intros [] _.
  - change (sem_and atoms false (mkAndExpression l r)) with (sem_eq atoms false l || existsb (sem_arhs atoms false) r).
    f_equal. apply existsb_ext_in. by intros [] _.
Qed.

Lemma sem_or_operands pos o :
  sem_or atoms pos o = if pos then existsb (sem_and atoms true) (or_operands o) else forallb (sem_and atoms false) (or_operands o).
Proof.
  destruct o as [l r]. unfold or_operands. cbn [or_Left or_Right forallb existsb].
  rewrite forallb_map, existsb_map. destruct pos.
  - change (sem_or atoms true (mkOrExpression l r)) with (sem_and atoms true l || existsb (sem_orhs atoms true) r).
    f_equal. apply existsb_ext_in. by intros [] _.
  - change (sem_or atoms false (mkOrExpression l r)) with (sem_and atoms false l && forallb (sem_orhs atoms false) r).
    f_equal. apply forallb_ext_in. by intros [] _.
Qed.

Lemma sem_expr_operands pos e : sem_expr atoms pos e = sem_operands pos (expr_operands e).
Proof.
  destruct e as [o]. change (sem_expr atoms pos (mkExpression o)) with (sem_or atoms pos o).
  rewrite sem_or_operands. unfold sem_operands, expr_operands. cbn [e_Or]. destruct pos.
  - rewrite existsb_map. apply existsb_ext_in. intros a _. by rewrite sem_and_operands.
  - rewrite forallb_map. apply forallb_ext_in. intros a _. by rewrite sem_and_operands.
Qed.

Lemma and_all_operands φ a : AndExpression_all φ a = forallb (EqualExpr_all φ) (and_operands a).
Proof.
  destruct a as [l r]. unfold and_operands. cbn [and_Left and_Right forallb]. rewrite forallb_map.
  change (AndExpression_all φ (mkAndExpression l r)) with (EqualExpr_all φ l && forallb (AndRHS_all φ) r).
  f_equal. apply forallb_ext_in. by intros [] _.
Qed.

Lemma expr_all_operands φ e : Expression_all φ e = forallb (forallb (EqualExpr_all φ)) (expr_operands e).
Proof.
  destruct e as [[l r]]. unfold expr_operands, or_operands. cbn [e_Or or_Left or_Right]. rewrite forallb_map.
  change (Expression_all φ (mkExpression (mkOrExpression l r))) with (AndExpression_all φ l && forallb (OrRHS_all φ) r).
  cbn [forallb]. rewrite forallb_map, and_all_operands. f_equal. apply forallb_ext_in. intros [a] _. apply and_all_operands.
Qed.

Lemma list_max_elem l n : n ∈ l → (n ≤ list_max l)%nat.
Proof.
  intros Hn. assert (Forall (λ k, k ≤ list_max l)%nat l) as Hall by (by apply list_max_le).
  rewrite Forall_forall in Hall. by apply Hall.
Qed.

Lemma and_depth_operands c x : x ∈ and_operands c → (EqualExpr_depth x ≤ AndExpression_depth c)%nat.
Proof.
  destruct c as [l r]. unfold and_operands. cbn [and_Left and_Right].
  change (AndExpression_depth (mkAndExpression l r)) with (Nat.max (EqualExpr_depth l) (list_max (map AndRHS_depth r))).
  intros [->|Hx]%elem_of_cons; [lia|]. apply list_elem_of_fmap in Hx as ([y] & -> & Hy). cbn [arhs_Expr].
  pose proof (list_max_elem _ _ (list_elem_of_fmap_2 AndRHS_depth _ _ Hy)) as Hm.
  change (AndRHS_depth (mkAndRHS y)) with (EqualExpr_depth y) in Hm. change (AndRHS_depth <$> r) with (map AndRHS_depth r) in Hm. lia.
Qed.

Lemma expr_depth_operands e a x : a ∈ expr_operands e → x ∈ a → (EqualExpr_depth x ≤ Expression_depth e)%nat.
Proof.
  destruct e as [[c rs]]. unfold expr_operands, or_operands. cbn [e_Or or_Left or_Right].
  change (Expression_depth (mkExpression (mkOrExpression c rs))) with
    (Nat.max (AndExpression_depth c) (list_max (map OrRHS_depth rs))).
  intros (c' & -> & Hc)%list_elem_of_fmap Hx%and_depth_operands.
  apply elem_of_cons in Hc as [->|Hc]; [lia|]. apply list_elem_of_fmap in Hc as ([d] & -> & Hd). cbn [orhs_Expr] in Hx.
  pose proof (list_max_elem _ _ (list_elem_of_fmap_2 OrRHS_depth _ _ Hd)) as Hm.
  change (OrRHS_depth (mkOrRHS d)) with (AndExpression_depth d) in Hm. change (OrRHS_depth <$> rs) with (map OrRHS_depth rs) in Hm. lia.
Qed.

Lemma all_cases φ x : EqualExpr_all φ x = true →
  (∃ p, x = paren_expr p ∧ Paren_all φ p = true) ∨ (eqe_Paren x = None ∧ φ x = true).
Proof.
  destruct x as [[p|] a i lt le gt ge g]; [|by right].
  destruct a, i, lt, le, gt, ge, g; try done. intros Hp. left. by exists p.
Qed.

Lemma sem_leaf pos x : eqe_Paren x = None → sem_eq atoms pos x = leaf_sem atoms pos x.
Proof. by destruct x as [[p|] ? ? ? ? ? ? ?]. Qed.

(** ** Negation

    Where the comparisons with a literal are complementary, as they are on an
    attribute that has one number or one non-empty string, a negated query is the
    complement of the query. *)

Definition complementary : Prop :=
  ∀ k v, at_ge atoms k v = negb (at_lt atoms k v) ∧ at_gt atoms k v = negb (at_le atoms k v).

Lemma leaf_sem_negation x : complementary → leaf_wf x = true → leaf_sem atoms false x = negb (leaf_sem atoms true x).
Proof.
  intros HC Hw. destruct x as [p a i lt le gt ge g].
  destruct p, a, i, lt as [c1|], le as [c2|], gt as [c3|], ge as [c4|], g; try discriminate Hw; try reflexivity; cbn [leaf_sem].
  - apply HC.
  - apply HC.
  - destruct (HC (gt_Var c3) (gt_Value c3)) as [_ ->]. by rewrite negb_involutive.
  - destruct (HC (ge_Var c4) (ge_Value c4)) as [-> _]. by rewrite negb_involutive.
Qed.

Lemma sem_operands_negation ops : (∀ a x, a ∈ ops → x ∈ a → sem_eq atoms false x = negb (sem_eq atoms true x)) →
  sem_operands false ops = negb (sem_operands true ops).
Proof.
  intros Hx. cbn. induction ops as [|a ops IH]; [done|]. cbn [forallb existsb]. rewrite negb_orb, IH.
  2: { intros b x Hb. apply Hx, elem_of_cons. by right. }
  f_equal. assert (∀ x, x ∈ a → sem_eq atoms false x = negb (sem_eq atoms true x)) as Ha.
  { intros x. apply Hx, elem_of_cons. by left. }
  clear -Ha. induction a as [|x a IH]; [done|]. cbn [forallb existsb]. rewrite negb_andb, IH.
  2: { intros y Hy. apply Ha, elem_of_cons. by right. }
  f_equal. apply Ha, elem_of_cons. by left.
Qed.

Lemma sem_negation e : complementary → Expression_all leaf_wf e = true →
  sem_expr atoms false e = negb (sem_expr atoms true e).
Proof.
  intros HC. remember (Expression_depth e) as n eqn:En. revert e En. induction n as [n IH] using lt_wf_ind.
  intros e -> He. rewrite !sem_expr_operands. apply sem_operands_negation. intros a x Ha Hx.
  rewrite expr_all_operands in He. pose proof (forallb_elem _ _ _ (forallb_elem _ _ _ He Ha) Hx) as Hall.
  pose proof (expr_depth_operands _ _ _ Ha Hx) as Hd. destruct (all_cases _ _ Hall) as [(p & -> & Hp)|[Hn Hl]].
  - destruct p as [b m]. change (EqualExpr_depth (paren_expr (mkParen b m))) with (S (Expression_depth m)) in Hd.
    change (sem_expr atoms (xorb b false) m = negb (sem_expr atoms (xorb b true) m)).
    pose proof (IH (Expression_depth m) Hd m eq_refl Hp) as Hm. destruct b; cbn [xorb]; rewrite Hm; [|done].
    by rewrite negb_involutive.
  - rewrite !sem_leaf by done. by apply leaf_sem_negation.
Qed.

(** ** Distribution *)

Lemma existsb_and_l {A} (b : bool) (f : A → bool) l : existsb (λ x, b && f x) l = b && existsb f l.
Proof. induction l as [|x l IH]; cbn; [by rewrite andb_false_r|]. rewrite IH. by destruct b, (f x). Qed.

Lemma sem_distribute ast disj :
  existsb (λ c, forallb ev (a_Terms c)) (distribute ast disj) =
  existsb (λ c, forallb ev (a_Terms c)) ast && existsb (forallb ev) disj.
Proof.
  unfold distribute. induction ast as [|c ast IH]; cbn; [done|]. rewrite existsb_app, IH, existsb_map.
  rewrite (existsb_ext_in _ (λ t, forallb ev (a_Terms c) && forallb ev t)) by (intros; cbn; by rewrite forallb_app).
  rewrite existsb_and_l. by destruct (forallb ev (a_Terms c)), (existsb _ ast), (existsb _ disj).
Qed.

Lemma sem_cross_product terms :
  existsb (λ c, forallb ev (a_Terms c)) (cross_product terms) = forallb (existsb (forallb ev)) terms.
Proof.
  unfold cross_product. assert (∀ ast, existsb (λ c, forallb ev (a_Terms c)) (foldl distribute ast terms) =
    existsb (λ c, forallb ev (a_Terms c)) ast && forallb (existsb (forallb ev)) terms) as ->; [|done].
  induction terms as [|d terms IH]; intros ast; cbn; [by rewrite andb_true_r|]. rewrite IH, sem_distribute.
  by rewrite andb_assoc.
Qed.

(** One level: if every operand converts with its meaning, so does the expression. *)
Lemma Expression_Normalize_ok PN e :
  (∀ a x, a ∈ expr_operands e → x ∈ a → ∃ ts, convertToTerms PN x = Ok ts ∧ existsb (forallb ev) ts = sem_eq atoms true x) →
  ∃ r, Expression_Normalize PN e = Ok r ∧ sem_dnf ev (x_Or r) = sem_expr atoms true e.
Proof.
  intros Hop.
  assert (∀ c, (and_operands c) ∈ expr_operands e →
    ∃ cs, AndExpression_Normalize PN c = Ok cs ∧
      existsb (λ c, forallb ev (a_Terms c)) cs = forallb (sem_eq atoms true) (and_operands c)) as Hand.
  { intros c Hc. unfold AndExpression_Normalize.
    destruct (mapM_result_Ok (convertToTerms PN) (and_operands c)) as (ts & -> & HF).
    { intros x Hx. destruct (Hop _ _ Hc Hx) as (t & ? & _). by exists t. }
    bind_step. eexists. split; [done|]. rewrite sem_cross_product.
    assert (∀ x, x ∈ and_operands c → ∀ t, convertToTerms PN x = Ok t →
      existsb (forallb ev) t = sem_eq atoms true x) as Hx.
    { intros x Hx t Ht. destruct (Hop _ _ Hc Hx) as (t' & Ht' & <-). congruence. }
    clear -HF Hx. revert Hx. generalize (and_operands c) as l, HF. intros l HF'. clear HF.
    induction HF' as [|x t l ts Hxt HF IH]; intros Hx; cbn; [done|]. rewrite (Hx x) by (set_solver || done). rewrite IH; [done|set_solver]. }
  rewrite sem_expr_operands. unfold sem_operands, Expression_Normalize, OrExpression_Normalize.
  unfold expr_operands in *. set (cs := or_operands (e_Or e)) in *.
  destruct (mapM_result_Ok (AndExpression_Normalize PN) cs) as (ys & -> & HF).
  { intros c Hc. destruct (Hand c) as (y & ? & _); [by apply (list_elem_of_fmap_2 and_operands)|]. by exists y. }
  bind_step. eexists. split; [done|]. unfold sem_dnf. cbn [x_Or o_Terms]. rewrite existsb_map.
  assert (∀ c, c ∈ cs → ∀ y, AndExpression_Normalize PN c = Ok y → existsb (λ c, forallb ev (a_Terms c)) y =
    forallb (sem_eq atoms true) (and_operands c)) as Hc.
  { intros c Hc y Hy. destruct (Hand c) as (y' & Hy' & <-); [by apply (list_elem_of_fmap_2 and_operands)|]. congruence. }
  clear -HF Hc. induction HF as [|c y cs ys Hcy HF IH]; cbn [concat existsb]; [done|].
  rewrite existsb_app, (Hc c) by (set_solver || done). rewrite IH; [done|set_solver].
Qed.

(** ** Leaves *)

Lemma range_not_address v : range_var v = true → address_var v = false.
Proof.
  unfold range_var, address_var, is_ident. rewrite orb_true_iff. intros H0.
  apply bool_decide_eq_false. intros Hv. rewrite !elem_of_cons, elem_of_nil in Hv.
  destruct Hv as [->|[->|[->|[] ] ] ]; by vm_compute in H0; destruct H0.
Qed.

Lemma lowerValue_range v w : range_var v = true → lowerValue v w = Ok w.
Proof. intros Hv%range_not_address. unfold lowerValue. by rewrite Hv. Qed.

Lemma lowerValue_safe v w : negb (address_var v) || (match v_String w with Some _ => true | None => false end) = true →
  ∃ w', lowerValue v w = Ok w'.
Proof.
  unfold lowerValue. destruct (address_var v); simpl; [|by eexists]. destruct (v_String w); [by eexists|done].
Qed.

Lemma address_valued_var v : address_valued v = address_var v.
Proof.
  apply eq_true_iff_eq. unfold address_valued, address_var. rewrite !orb_true_iff, !bool_decide_eq_true.
  rewrite !elem_of_cons, elem_of_nil. unfold KeyAttributeKey, OwnerAttributeKey, CreatorAttributeKey. tauto.
Qed.

(** Lowering a literal is what the meaning asks for. *)
Lemma lowerValue_literal v w w' : lowerValue v w = Ok w' → equals_one atoms v [w] = at_eq atoms v w'.
Proof.
  unfold equals_one, lowerValue, literal. cbn [omap list_omap]. rewrite address_valued_var. destruct (address_var v).
  - destruct w as [[s|] n]; [|done]. intros [= <-]. cbn. by rewrite orb_false_r.
  - intros [= <-]. cbn. by rewrite orb_false_r.
Qed.

Lemma existsb_omap_Some {B C} (f : C → bool) (g : B → C) h l : (∀ x, h x = Some (g x)) →
  existsb f (omap h l) = existsb f (map g l).
Proof. intros Hg. induction l as [|x l IH]; cbn; [done|]. rewrite Hg. cbn. by rewrite IH. Qed.

Lemma Inclusion_Normalize_literals i : equals_one atoms (in_Var i) (listed (in_Values i)) =
  existsb (at_eq atoms (in_Var i)) (listed (in_Values (Inclusion_Normalize i))).
Proof.
  destruct i as [v b [ss ns]]. unfold equals_one, Inclusion_Normalize, literal. cbn [in_Var in_Values in_IsNot vs_Strings].
  rewrite address_valued_var. destruct (address_var v); cbn [in_Values].
  - unfold listed. cbn [vs_Strings vs_Numbers]. destruct ss as [|s ss]; cbn [map].
    + induction ns as [|n ns IH]; [done|]. exact IH.
    + change (omap ?h (?x :: ?l)) with (omap h (map text (s :: ss))).
      change (text (ToLower s) :: ?l) with (map text (map ToLower (s :: ss))). rewrite map_map.
      generalize (s :: ss). intros l. induction l as [|t l IH]; [done|]. cbn. by rewrite IH.
  - rewrite (existsb_omap_Some _ (λ w, w)) by done. by rewrite map_id.
Qed.

(** A well-formed leaf normalises, with its meaning. *)
Lemma leaf_Normalize_ok x : leaf_ok x = true → eqe_Paren x = None →
  ∃ t, EqualExpr_Normalize x = Ok t ∧ term_means atoms t = leaf_sem atoms true x.
Proof.
  unfold leaf_ok. intros [Hw Hs]%andb_true_iff Hp. destruct x as [p a i lt le gt ge g]. cbn in Hp. subst p.
  destruct a as [[v b w]|], i as [[v' b' w']|], lt as [[v1 w1]|], le as [[v2 w2]|], gt as [[v3 w3]|], ge as [[v4 w4]|], g as [[v5 b5 w5]|];
    try discriminate Hw; cbn [EqualExpr_Normalize leaf_sem].
  - destruct (lowerValue_safe v w Hs) as [z Hz]. unfold Equality_Normalize. cbn [eq_Var eq_Value eq_IsNot]. rewrite Hz.
    eexists. split; [done|]. unfold says. by rewrite (lowerValue_literal _ _ _ Hz).
  - eexists. split; [done|]. unfold says. rewrite Inclusion_Normalize_literals. cbn [term_means t_Assign t_Inclusion].
    unfold Inclusion_Normalize. by destruct (address_var _).
  - unfold LessThan_Normalize. cbn. apply andb_true_iff in Hw as [Hr _]. rewrite lowerValue_range by exact Hr. by eexists.
  - unfold LessOrEqualThan_Normalize. cbn. apply andb_true_iff in Hw as [Hr _]. rewrite lowerValue_range by exact Hr. by eexists.
  - unfold GreaterThan_Normalize. cbn. apply andb_true_iff in Hw as [Hr _]. rewrite lowerValue_range by exact Hr. by eexists.
  - unfold GreaterOrEqualThan_Normalize. cbn. apply andb_true_iff in Hw as [Hr _]. rewrite lowerValue_range by exact Hr. by eexists.
  - by eexists.
Qed.

Lemma says_negb pos b test : says pos (negb b) test = says (negb pos) b test.
Proof. by destruct pos, b, test. Qed.

(** It inverts to a well-formed leaf that means its negation. *)
Lemma leaf_invert_ok x : leaf_ok x = true → eqe_Paren x = None →
  ∃ y, EqualExpr_invert x = Ok y ∧ eqe_Paren y = None ∧ EqualExpr_all leaf_ok y = true ∧
    ∀ pos, leaf_sem atoms pos y = leaf_sem atoms (negb pos) x.
Proof.
  unfold leaf_ok. intros [Hw Hs]%andb_true_iff Hp. destruct x as [p a i lt le gt ge g]. cbn in Hp. subst p.
  destruct a, i, lt, le, gt, ge, g; try discriminate Hw; eexists; (split; [reflexivity|]); (split; [reflexivity|]);
    (split; [apply andb_true_iff; split; [exact Hw|exact Hs]|]); intros pos; first [apply says_negb|by destruct pos].
Qed.

(** ** Inversion *)

Definition inverse (x y : EqualExpr) : Prop :=
  EqualExpr_all leaf_ok y = true ∧ EqualExpr_depth y = EqualExpr_depth x ∧ ∀ pos, sem_eq atoms pos y = sem_eq atoms (negb pos) x.

Lemma EqualExpr_invert_ok x : EqualExpr_all leaf_ok x = true → ∃ y, EqualExpr_invert x = Ok y ∧ inverse x y.
Proof.
  intros Hx. pose proof (all_cases _ _ Hx) as [(p & -> & Hp)|[Hn Hl]].
  - exists (paren_expr (Paren_invert p)). split; [done|]. destruct p as [b n]. split; [exact Hp|]. split; [done|].
    intros pos. change (sem_expr atoms (xorb (negb b) pos) n = sem_expr atoms (xorb b (negb pos)) n). by destruct b, pos.
  - destruct (leaf_invert_ok _ Hl Hn) as (y & Hy & Hny & Hay & Hsem). exists y. split; [done|]. split; [done|]. split.
    + destruct x as [[p|] ? ? ? ? ? ? ?], y as [[q|] ? ? ? ? ? ? ?]; done.
    + intros pos. rewrite !sem_leaf by done. apply Hsem.
Qed.

(** The operands of an inverted conjunction: one disjunct per operand. *)
Lemma AndExpression_invert_ok c : forallb (EqualExpr_all leaf_ok) (and_operands c) = true →
  ∃ o ys, AndExpression_invert c = Ok o ∧ expr_operands (mkExpression o) = map (λ y, [y]) ys ∧
    Forall2 inverse (and_operands c) ys.
Proof.
  destruct c as [l r]. unfold and_operands. cbn [and_Left and_Right forallb]. intros [Hl Hr]%andb_true_iff.
  destruct (EqualExpr_invert_ok _ Hl) as (y & Hy & Hiy).
  destruct (mapM_result_Ok AndRHS_invert r) as (zs & Hzs & HF).
  { intros [x] Hx. rewrite forallb_map in Hr. pose proof (forallb_elem _ _ _ Hr Hx) as Hax.
    destruct (EqualExpr_invert_ok _ Hax) as (y' & Hy' & _). cbn in *. unfold AndRHS_invert. cbn. rewrite Hy'. by eexists. }
  exists (mkOrExpression (mkAndExpression y []) zs), (y :: map (λ z, and_Left (orhs_Expr z)) zs).
  unfold AndExpression_invert. cbn [and_Left and_Right]. rewrite Hy. bind_step. rewrite Hzs.
  split; [done|]. rewrite forallb_map in Hr. clear Hzs Hl Hy.
  assert (map and_operands (map orhs_Expr zs) = map (λ y, [y]) (map (λ z, and_Left (orhs_Expr z)) zs) ∧
    Forall2 inverse (map arhs_Expr r) (map (λ z, and_Left (orhs_Expr z)) zs)) as [Hops Hinv].
  { revert Hr. induction HF as [|[x] z r zs Hxz HF IH]; intros Hr; [done|]. cbn [forallb map arhs_Expr] in *.
    apply andb_true_iff in Hr as [Hx Hr]. destruct (EqualExpr_invert_ok _ Hx) as (y' & Hy' & Hiy').
    unfold AndRHS_invert in Hxz. cbn [arhs_Expr] in Hxz. rewrite Hy' in Hxz. cbn in Hxz. injection Hxz as <-.
    destruct (IH Hr) as [IH1 IH2]. cbn [map orhs_Expr and_Left]. split; [by rewrite IH1|by constructor]. }
  split; [|by constructor]. unfold expr_operands, or_operands. cbn [e_Or or_Left or_Right map]. by rewrite Hops.
Qed.

(** A conjunction turned into parentheses around its inverse. *)
Definition wrapped (c : AndExpression) (q : EqualExpr) : Prop :=
  ∃ n ys, q = paren_expr (mkParen false n) ∧ expr_operands n = map (λ y, [y]) ys ∧ Forall2 inverse (and_operands c) ys.

Lemma wrap_inverted_ok c : forallb (EqualExpr_all leaf_ok) (and_operands c) = true → ∃ q, wrap_inverted c = Ok q ∧ wrapped c q.
Proof.
  intros Hc. destruct (AndExpression_invert_ok _ Hc) as (o & ys & Ho & Hops & HF). unfold wrap_inverted. rewrite Ho.
  eexists. split; [done|]. by exists (mkExpression o), ys.
Qed.

Lemma OrExpression_invert_ok o : forallb (λ c, forallb (EqualExpr_all leaf_ok) (and_operands c)) (or_operands o) = true →
  ∃ a, OrExpression_invert o = Ok a ∧ Forall2 wrapped (or_operands o) (and_operands a).
Proof.
  destruct o as [l r]. unfold or_operands, OrExpression_invert. cbn [or_Left or_Right forallb]. intros [Hl Hr]%andb_true_iff.
  rewrite forallb_map in Hr. destruct (wrap_inverted_ok _ Hl) as (q & -> & Hq). bind_step.
  destruct (mapM_result_Ok OrRHS_invert r) as (zs & -> & HF).
  { intros [c] Hx. pose proof (forallb_elem _ _ _ Hr Hx) as Hc. destruct (wrap_inverted_ok _ Hc) as (q' & Hq' & _).
    unfold OrRHS_invert. cbn [orhs_Expr] in *. rewrite Hq'. by eexists. }
  eexists. split; [done|]. unfold and_operands. cbn [and_Left and_Right]. constructor; [done|].
  clear -HF Hr. induction HF as [|[c] z r zs Hcz HF IH]; cbn [map]; [constructor|]. cbn [forallb] in Hr.
  apply andb_true_iff in Hr as [Hc Hr]. constructor; [|by apply IH]. cbn [orhs_Expr] in *.
  destruct (wrap_inverted_ok _ Hc) as (q' & Hq' & Hw). unfold OrRHS_invert in Hcz. cbn [orhs_Expr] in Hcz.
  rewrite Hq' in Hcz. cbn in Hcz. by injection Hcz as <-.
Qed.

(** The meaning and the size of a disjunction of inverted operands. *)
Lemma sem_inverse xs ys : Forall2 inverse xs ys →
  existsb (forallb (sem_eq atoms true)) (map (λ y, [y]) ys) = existsb (sem_eq atoms false) xs.
Proof.
  induction 1 as [|x y xs ys (_ & _ & Hs) HF IH]; cbn; [done|]. rewrite IH, andb_true_r. by rewrite Hs.
Qed.

Lemma inverse_elem xs ys y : Forall2 inverse xs ys → y ∈ ys → ∃ x, x ∈ xs ∧ inverse x y.
Proof. apply Forall2_in_r. Qed.

Lemma expr_depth_le e k : (∀ a x, a ∈ expr_operands e → x ∈ a → (EqualExpr_depth x ≤ k)%nat) → (Expression_depth e ≤ k)%nat.
Proof.
  assert (∀ c, (∀ x, x ∈ and_operands c → (EqualExpr_depth x ≤ k)%nat) → (AndExpression_depth c ≤ k)%nat) as Hand.
  { intros [l r] Hx. unfold and_operands in Hx. cbn [and_Left and_Right] in Hx.
    change (AndExpression_depth (mkAndExpression l r)) with (Nat.max (EqualExpr_depth l) (list_max (map AndRHS_depth r))).
    apply Nat.max_lub; [apply Hx, elem_of_cons; by left|]. apply list_max_le, Forall_forall.
    intros n (z & -> & Hz)%list_elem_of_fmap. destruct z as [x]. apply Hx, elem_of_cons. right.
    by apply (list_elem_of_fmap_2 arhs_Expr _ (mkAndRHS x)). }
  destruct e as [[c rs]]. unfold expr_operands, or_operands. cbn [e_Or or_Left or_Right map]. intros Hx.
  change (Expression_depth (mkExpression (mkOrExpression c rs))) with
    (Nat.max (AndExpression_depth c) (list_max (map OrRHS_depth rs))).
  apply Nat.max_lub; [apply Hand; intros x; apply Hx, elem_of_cons; by left|]. apply list_max_le, Forall_forall.
  intros n (z & -> & Hz)%list_elem_of_fmap. destruct z as [d]. apply Hand. intros x. apply Hx, elem_of_cons. right.
  apply (list_elem_of_fmap_2 and_operands), (list_elem_of_fmap_2 orhs_Expr _ (mkOrRHS d)). done.
Qed.

(** The operands an inverted expression has: inverses, or parentheses around
    disjunctions of inverses. *)
Definition inverted_operand (e : Expression) (q : EqualExpr) : Prop :=
  (∃ a x, a ∈ expr_operands e ∧ x ∈ a ∧ inverse x q) ∨ (∃ c, and_operands c ∈ expr_operands e ∧ wrapped c q).

Lemma wrapped_sem c q : wrapped c q → sem_eq atoms true q = existsb (sem_eq atoms false) (and_operands c).
Proof.
  intros (n & ys & -> & Hops & HF). change (sem_eq atoms true (paren_expr (mkParen false n))) with (sem_expr atoms true n).
  rewrite sem_expr_operands. unfold sem_operands. rewrite Hops. by apply sem_inverse.
Qed.

Lemma sem_wrapped cs qs : Forall2 wrapped cs qs →
  forallb (sem_eq atoms true) qs = forallb (λ c, existsb (sem_eq atoms false) (and_operands c)) cs.
Proof. induction 1 as [|c q cs qs Hw HF IH]; cbn [forallb]; [done|]. by rewrite IH, (wrapped_sem _ _ Hw). Qed.

Lemma Expression_invert_ok e : Expression_all leaf_ok e = true →
  ∃ e', Expression_invert e = Ok e' ∧ sem_expr atoms true e' = sem_expr atoms false e ∧
    ∀ a q, a ∈ expr_operands e' → q ∈ a → inverted_operand e q.
Proof.
  rewrite expr_all_operands. unfold expr_operands. rewrite forallb_map. intros Hall.
  destruct (OrExpression_invert_ok _ Hall) as (a & Ha & HF). unfold Expression_invert. rewrite Ha. bind_step.
  rewrite (sem_expr_operands false). unfold sem_operands, expr_operands. rewrite forallb_map.
  destruct a as [q0 [|r0 rs]]; cbn [and_Right and_Left] in *; unfold and_operands at 1 in HF; cbn [and_Left and_Right map] in HF.
  - destruct (or_operands (e_Or e)) as [|c cs] eqn:Ec; [by inversion HF|]. apply Forall2_cons in HF as [Hw HF'].
    inversion HF'; subst.
    pose proof (wrapped_sem _ _ Hw) as Hsem. destruct Hw as (n & ys & -> & Hops & Hinv). exists n. split; [done|]. split.
    + cbn [forallb]. rewrite andb_true_r. exact Hsem.
    + intros b q Hb Hq. change (b ∈ expr_operands n) in Hb. rewrite Hops in Hb. apply list_elem_of_fmap in Hb as (y & -> & Hy). apply list_elem_of_singleton in Hq as ->.
      destruct (inverse_elem _ _ _ Hinv Hy) as (x & Hx & Hxy). left. exists (and_operands c), x. split; [|done].
      unfold expr_operands. rewrite Ec. apply elem_of_cons. by left.
  - eexists. split; [done|]. split.
    + rewrite sem_expr_operands. unfold sem_operands, expr_operands, or_operands. cbn [e_Or or_Left or_Right map existsb].
      rewrite orb_false_r. unfold and_operands at 1. cbn [and_Left and_Right map].
      exact (sem_wrapped _ _ HF).
    + unfold expr_operands, or_operands. cbn [e_Or or_Left or_Right map]. intros b q Hb Hq. apply list_elem_of_singleton in Hb as ->.
      destruct (Forall2_in_r _ _ _ _ HF Hq) as (c & Hc & Hw). right. exists c.
      split; [|done]. by apply (list_elem_of_fmap_2 and_operands).
Qed.

(** ** Termination and meaning *)

Definition paren_need (p : Paren) : nat := if paren_IsNot p then 2 * Paren_depth p else 2 * Paren_depth p - 1.

Definition normalizes (fuel : nat) (p : Paren) : Prop :=
  ∃ x, Paren_Normalize fuel p = Ok x ∧ sem_dnf ev (x_Or x) = sem_paren atoms true p.

Lemma convertToTerms_ok fuel x : EqualExpr_all leaf_ok x = true → (∀ p, x = paren_expr p → normalizes fuel p) →
  ∃ ts, convertToTerms (Paren_Normalize fuel) x = Ok ts ∧ existsb (forallb ev) ts = sem_eq atoms true x.
Proof.
  intros Hx Hp. pose proof (all_cases _ _ Hx) as [(p & -> & _)|[Hn Hl]]; unfold convertToTerms.
  - destruct (Hp p eq_refl) as (r & Hr & Hsem). cbn [eqe_Paren paren_expr]. rewrite Hr. bind_step.
    eexists. split; [done|]. rewrite existsb_map. exact Hsem.
  - rewrite Hn, sem_leaf by done. destruct (leaf_Normalize_ok _ Hl Hn) as (t & -> & <-). bind_step.
    eexists. split; [done|]. cbn [existsb forallb]. by rewrite andb_true_r, orb_false_r.
Qed.

Lemma paren_need_le p k fuel : (Paren_depth p ≤ k)%nat → (2 * k ≤ fuel)%nat → (paren_need p ≤ fuel)%nat.
Proof. unfold paren_need. destruct (paren_IsNot p); lia. Qed.

Lemma Paren_Normalize_ok fuel p : Paren_all leaf_ok p = true → (paren_need p ≤ fuel)%nat → normalizes fuel p.
Proof.
  revert p. induction fuel as [|fuel IH]; intros [b n] Hall Hneed; unfold paren_need in Hneed;
    change (Paren_depth (mkParen b n)) with (S (Expression_depth n)) in Hneed; cbn [paren_IsNot] in Hneed; [destruct b; lia|].
  change (Paren_all leaf_ok (mkParen b n)) with (Expression_all leaf_ok n) in Hall.
  assert (∀ q, EqualExpr_all leaf_ok (paren_expr q) = true → (Paren_depth q ≤ Expression_depth n)%nat → normalizes fuel q) as Hsmall.
  { intros q Hq Hd. apply IH; [done|]. eapply paren_need_le; [exact Hd|]. destruct b; lia. }
  unfold normalizes. cbn [Paren_Normalize paren_IsNot paren_Nested].
  destruct b.
  - destruct (Expression_invert_ok _ Hall) as (e' & -> & Hsem & Hops). bind_step.
    change (sem_paren atoms true (mkParen true n)) with (sem_expr atoms false n). rewrite <-Hsem.
    apply Expression_Normalize_ok. intros a q Ha Hq. destruct (Hops a q Ha Hq) as [(a' & x & Ha' & Hx & Hok & Hd & _)|(c & Hc & Hw)].
    + apply convertToTerms_ok; [done|]. intros r ->. apply Hsmall; [done|].
      change (Paren_depth r) with (EqualExpr_depth (paren_expr r)). rewrite Hd. by eapply expr_depth_operands.
    + destruct Hw as (m & ys & -> & Hm & HF).
      assert (∀ y, y ∈ ys → EqualExpr_all leaf_ok y = true ∧ (EqualExpr_depth y ≤ Expression_depth n)%nat) as Hys.
      { intros y Hy. destruct (inverse_elem _ _ _ HF Hy) as (x & Hx & Hok & Hd & _). split; [done|]. rewrite Hd.
        by eapply expr_depth_operands. }
      assert (∀ a x, a ∈ expr_operands m → x ∈ a → x ∈ ys) as Hm'.
      { intros a' x. rewrite Hm. intros (y & -> & Hy)%list_elem_of_fmap ->%list_elem_of_singleton. done. }
      assert (Expression_all leaf_ok m = true) as Hmok.
      { rewrite expr_all_operands, Hm, forallb_map. apply forallb_forall. intros y Hy%list_elem_of_In. cbn.
        rewrite andb_true_r. by apply Hys. }
      apply convertToTerms_ok; [exact Hmok|]. intros r [= <-]. apply IH; [exact Hmok|]. unfold paren_need. cbn [paren_IsNot].
      change (Paren_depth (mkParen false m)) with (S (Expression_depth m)).
      assert (Expression_depth m ≤ Expression_depth n)%nat; [|lia].
      apply expr_depth_le. intros a' x Ha' Hx. apply Hys. by eapply Hm'.
  - bind_step. change (sem_paren atoms true (mkParen false n)) with (sem_expr atoms true n).
    apply Expression_Normalize_ok. intros a x Ha Hx. rewrite expr_all_operands in Hall.
    pose proof (forallb_elem _ _ _ (forallb_elem _ _ _ Hall Ha) Hx) as Hok.
    apply convertToTerms_ok; [done|]. intros q ->. apply Hsmall; [done|].
    change (Paren_depth q) with (EqualExpr_depth (paren_expr q)). by eapply expr_depth_operands.
Qed.

Lemma TopLevel_Normalize_ok all t : TopLevel_ok t = true →
  ∃ ast, TopLevel_Normalize t = Ok ast ∧ sem_AST ev all ast = sem_top atoms all t.
Proof.
  unfold TopLevel_ok, TopLevel_all, TopLevel_Normalize, sem_top. destruct (top_Expression t) as [e|]; [|by eexists].
  intros Hall. destruct (Expression_Normalize_ok (Paren_Normalize (normalize_fuel e)) e) as (r & Hr & Hsem).
  - intros a x Ha Hx. pose proof Hall as Hall'. rewrite expr_all_operands in Hall'.
    pose proof (forallb_elem _ _ _ (forallb_elem _ _ _ Hall' Ha) Hx) as Hok. apply convertToTerms_ok; [done|].
    intros q ->. apply Paren_Normalize_ok; [by destruct q|].
    pose proof (expr_depth_operands _ _ _ Ha Hx) as Hd. change (EqualExpr_depth (paren_expr q)) with (Paren_depth q) in Hd.
    eapply paren_need_le; [exact Hd|]. unfold normalize_fuel. lia.
  - rewrite Hr. cbn. eexists. split; [done|]. exact Hsem.
Qed.

End NormalizeProofs.

(** It normalises at all. *)
Lemma TopLevel_Normalize_Ok `{GoRuntime} t : TopLevel_ok t = true → ∃ ast, TopLevel_Normalize t = Ok ast.
Proof.
  intros Ht. set (no := λ (_ : bytes) (_ : Value), false).
  destruct (TopLevel_Normalize_ok (mkAtoms no no no no no (λ _ _, false)) true t Ht) as (ast & ? & _). by exists ast.
Qed.
