(* ===== verification/GrammarTrees.v ===== *)
(** Which trees the grammar of queries admits: a printer of trees, and its
    derivations (src/query/language.go). *)
From S2P Require Export GrammarProofs NormalizeProofs.

(** ** Printing *)

Definition sym (ty : token_type) : token := mkToken ty (default [] (fixed_text ty)).
Definition word (w : bytes) : token := mkToken TIdent w.
Definition quoted (s : bytes) : token := mkToken TString s.

Section Print.
Variable numberText : N → bytes.
Definition number (n : N) : token := mkToken TNumber (numberText n).

(** A variable is an identifier or one of the built-ins. *)
Definition var_token (v : bytes) : token :=
  match list_find (λ ty, fixed_text ty = Some v) var_types with
  | Some (_, ty) => mkToken ty v
  | None => word v
  end.

Definition Value_print (w : Value) : list token :=
  match w with
  | mkValue (Some s) _ => [quoted s]
  | mkValue None (Some n) => [number n]
  | mkValue None None => []
  end.
Definition Values_print (w : Values) : list token :=
  match w with
  | mkValues [] ns => sym LParen :: map number ns ++ [sym RParen]
  | mkValues ss _ => sym LParen :: map quoted ss ++ [sym RParen]
  end.
Definition not_print (b : bool) : list token := if b then [word (str "NOT")] else [].

Definition leaf_print (e : EqualExpr) : list token :=
  match e with
  | mkEqualExpr None (Some a) None None None None None None =>
      var_token (eq_Var a) :: sym (if eq_IsNot a then TNeq else TEq) :: Value_print (eq_Value a)
  | mkEqualExpr None None (Some i) None None None None None =>
      var_token (in_Var i) :: not_print (in_IsNot i) ++ word (str "IN") :: Values_print (in_Values i)
  | mkEqualExpr None None None (Some c) None None None None => var_token (lt_Var c) :: sym TLt :: Value_print (lt_Value c)
  | mkEqualExpr None None None None (Some c) None None None => var_token (le_Var c) :: sym TLeqt :: Value_print (le_Value c)
  | mkEqualExpr None None None None None (Some c) None None => var_token (gt_Var c) :: sym TGt :: Value_print (gt_Value c)
  | mkEqualExpr None None None None None None (Some c) None => var_token (ge_Var c) :: sym TGeqt :: Value_print (ge_Value c)
  | mkEqualExpr None None None None None None None (Some g) =>
      [word (glob_Var g); sym (if glob_IsNot g then TNotGlob else TGlob); quoted (glob_Value g)]
  | _ => []
  end.

Fixpoint EqualExpr_print (e : EqualExpr) : list token :=
  match e with
  | mkEqualExpr (Some p) None None None None None None None => Paren_print p
  | _ => leaf_print e
  end
with AndRHS_print (e : AndRHS) : list token := let 'mkAndRHS x := e in sym TAnd :: EqualExpr_print x
with AndExpression_print (e : AndExpression) : list token :=
  let 'mkAndExpression l r := e in EqualExpr_print l ++ concat (map AndRHS_print r)
with OrRHS_print (e : OrRHS) : list token := let 'mkOrRHS x := e in sym TOr :: AndExpression_print x
with OrExpression_print (e : OrExpression) : list token :=
  let 'mkOrExpression l r := e in AndExpression_print l ++ concat (map OrRHS_print r)
with Expression_print (e : Expression) : list token := let 'mkExpression o := e in OrExpression_print o
with Paren_print (p : Paren) : list token :=
  let 'mkParen b n := p in (if b then [sym TNot] else []) ++ sym LParen :: Expression_print n ++ [sym RParen].

Definition TopLevel_print (t : TopLevel) : list token :=
  match top_Expression t with Some e => Expression_print e | None => [sym TAll] end.
End Print.

Lemma sym_ok ty : is_Some (fixed_text ty) → token_ok (sym ty) = true.
Proof. intros [text Ht]. unfold token_ok, sym. cbn. rewrite Ht. cbn. by apply bool_decide_eq_true. Qed.

(** ** Every derivation yields a well-formed tree *)
Section Trees.
Variable numberValue : bytes → option N.
Hypothesis number_fits : ∀ v n, numberValue v = Some n → fits_u64 n = true.

Abbreviation oks := (Forall (λ t, token_ok t = true)).

Lemma var_types_ok t : token_ok t = true → tk_type t ∈ var_types → any_var (tk_value t) = true.
Proof.
  intros Hok Ht. unfold any_var. apply orb_true_iff. unfold var_types in Ht. rewrite !elem_of_cons, elem_of_nil in Ht.
  destruct Ht as [Ht|Ht]; [left; unfold token_ok in Hok; by rewrite Ht in Hok|].
  right. repeat destruct Ht as [Ht|Ht]; try done; unfold token_ok in Hok; rewrite Ht in Hok; cbn in Hok;
    apply bool_decide_eq_true in Hok as ->; vm_compute; reflexivity.
Qed.
Lemma range_types_ok t : token_ok t = true → tk_type t ∈ range_types → range_var (tk_value t) = true.
Proof.
  intros Hok Ht. unfold range_var. apply orb_true_iff. unfold range_types in Ht. rewrite !elem_of_cons, elem_of_nil in Ht.
  destruct Ht as [Ht|Ht]; [left; unfold token_ok in Hok; by rewrite Ht in Hok|].
  right. repeat destruct Ht as [Ht|Ht]; try done; unfold token_ok in Hok; rewrite Ht in Hok; cbn in Hok;
    apply bool_decide_eq_true in Hok as ->; vm_compute; reflexivity.
Qed.
Lemma ident_ok t : token_ok t = true → tk_type t = TIdent → is_ident (tk_value t) = true.
Proof. unfold token_ok. intros Hok Ht. by rewrite Ht in Hok. Qed.

Lemma Value_admitted ts w : Value_tokens numberValue ts w → Value_wf w = true.
Proof. intros [t _|t n _ Hn]; [done|]. cbn. by eapply number_fits. Qed.

Lemma Values_admitted ts w : Values_tokens numberValue ts w → Values_wf w = true.
Proof.
  intros [l xs r _ _ Hne _|l xs ns r _ _ Hne Hns]; [by destruct xs|].
  assert (forallb fits_u64 ns = true) as Hall.
  { clear Hne. induction Hns as [|t n xs ns [_ Hn] _ IH]; [done|]. cbn. by rewrite (number_fits _ _ Hn). }
  by destruct Hns.
Qed.

Lemma leaf_admitted ts e : leaf_tokens numberValue ts e → oks ts → leaf_wf e = true ∧ eqe_Paren e = None.
Proof.
  intros [v op xs b w Hv _ Hw|v nots b i xs w Hv _ _ Hw|v op xs w Hv _ Hw|v op xs w Hv _ Hw|v op xs w Hv _ Hw|v op xs w Hv _ Hw
    |v op b s Hv _ _|v nots b g s Hv _ _ _] [Hok _]%Forall_cons; (split; [|done]); cbn;
    rewrite ?(Value_admitted _ _ Hw), ?(Values_admitted _ _ Hw), ?andb_true_r;
    first [by apply var_types_ok|by apply range_types_ok|by apply ident_ok].
Qed.

Lemma leaf_all φ e : eqe_Paren e = None → EqualExpr_all φ e = φ e.
Proof. by destruct e as [[] ]. Qed.

Lemma expressions_admitted :
  (∀ ts e, EqualExpr_tokens numberValue ts e → oks ts → EqualExpr_all leaf_wf e = true) ∧
  (∀ ts rs, AndTail_tokens numberValue ts rs → oks ts → forallb (AndRHS_all leaf_wf) rs = true) ∧
  (∀ ts e, AndExpression_tokens numberValue ts e → oks ts → AndExpression_all leaf_wf e = true) ∧
  (∀ ts rs, OrTail_tokens numberValue ts rs → oks ts → forallb (OrRHS_all leaf_wf) rs = true) ∧
  (∀ ts e, OrExpression_tokens numberValue ts e → oks ts → OrExpression_all leaf_wf e = true).
Proof.
  apply expression_tokens_ind.
  - intros ts e He Hok. destruct (leaf_admitted _ _ He Hok) as [Hwf Hp]. by rewrite leaf_all.
  - intros nots b l ts o r _ _ _ IH _ [_ [_ [Hok _]%Forall_app]%Forall_cons]%Forall_app. by apply IH.
  - done.
  - intros t ts e tss rs _ _ IH _ IHs [_ [Hok Hoks]%Forall_app]%Forall_cons. apply andb_true_iff. split; [by apply IH|by apply IHs].
  - intros ts e tss rs _ IH _ IHs [Hok Hoks]%Forall_app. apply andb_true_iff. split; [by apply IH|by apply IHs].
  - done.
  - intros t ts e tss rs _ _ IH _ IHs [_ [Hok Hoks]%Forall_app]%Forall_cons. apply andb_true_iff. split; [by apply IH|by apply IHs].
  - intros ts e tss rs _ IH _ IHs [Hok Hoks]%Forall_app. apply andb_true_iff. split; [by apply IH|by apply IHs].
Qed.

Lemma TopLevel_admitted ts t : TopLevel_tokens numberValue ts t → oks ts → TopLevel_wf t = true.
Proof. pose proof expressions_admitted as (_ & _ & _ & _ & H). intros [xs o Ho|c _] Hok; [by apply (H _ _ Ho)|done]. Qed.

(** ** Every well-formed tree has a derivation *)

Variable numberText : N → bytes.
Hypothesis number_reads : ∀ n, fits_u64 n = true →
  is_number (numberText n) = true ∧ numberValue (numberText n) = Some n.

(** Trees whose leaves print to tokens of [P]. *)
Section Printed.
Variable φ : EqualExpr → bool.
Variable P : token → Prop.
Hypothesis leaf_printed : ∀ e, φ e = true →
  leaf_tokens numberValue (leaf_print numberText e) e ∧ Forall P (leaf_print numberText e).
Hypothesis sym_printed : ∀ ty, is_Some (fixed_text ty) → P (sym ty).

Definition printed (e : EqualExpr) : Prop :=
  EqualExpr_tokens numberValue (EqualExpr_print numberText e) e ∧ Forall P (EqualExpr_print numberText e).

Lemma AndExpression_printed a : Forall printed (and_operands a) →
  AndExpression_tokens numberValue (AndExpression_print numberText a) a ∧ Forall P (AndExpression_print numberText a).
Proof.
  destruct a as [l r]. unfold and_operands. cbn [and_Left and_Right]. intros [[Hl Pl] Hr]%Forall_cons.
  change (AndExpression_print numberText (mkAndExpression l r)) with
    (EqualExpr_print numberText l ++ concat (map (AndRHS_print numberText) r)).
  assert (AndTail_tokens numberValue (concat (map (AndRHS_print numberText) r)) r ∧ Forall P (concat (map (AndRHS_print numberText) r))) as [Ht Pt].
  { induction r as [|[x] r IH]; [by split; constructor|]. cbn [map] in Hr. apply Forall_cons in Hr as [[Hx Px] Hr].
    destruct (IH Hr) as [Ht Pt]. cbn [map concat].
    change (AndRHS_print numberText (mkAndRHS x)) with (sym TAnd :: EqualExpr_print numberText x). cbn [app]. split.
    - constructor; [by left|done..].
    - constructor; [by apply sym_printed|by apply Forall_app]. }
  split; [by constructor|by apply Forall_app].
Qed.

Lemma Expression_printed e : Forall (Forall printed) (expr_operands e) →
  OrExpression_tokens numberValue (Expression_print numberText e) (e_Or e) ∧ Forall P (Expression_print numberText e).
Proof.
  destruct e as [[l r]]. unfold expr_operands, or_operands. cbn [e_Or or_Left or_Right map]. intros [Hl Hr]%Forall_cons.
  apply AndExpression_printed in Hl as [Hl Pl].
  change (Expression_print numberText (mkExpression (mkOrExpression l r))) with
    (AndExpression_print numberText l ++ concat (map (OrRHS_print numberText) r)).
  assert (OrTail_tokens numberValue (concat (map (OrRHS_print numberText) r)) r ∧ Forall P (concat (map (OrRHS_print numberText) r))) as [Ht Pt].
  { induction r as [|[x] r IH]; [by split; constructor|]. cbn [map] in Hr. apply Forall_cons in Hr as [Hx Hr].
    apply AndExpression_printed in Hx as [Hx Px]. destruct (IH Hr) as [Ht Pt]. cbn [map concat].
    change (OrRHS_print numberText (mkOrRHS x)) with (sym TOr :: AndExpression_print numberText x). cbn [app]. split.
    - constructor; [by left|done..].
    - constructor; [by apply sym_printed|by apply Forall_app]. }
  split; [by constructor|by apply Forall_app].
Qed.

Lemma EqualExpr_printed n e : (EqualExpr_depth e < n)%nat → EqualExpr_all φ e = true → printed e.
Proof.
  revert e. induction n as [|n IH]; intros e Hd Hall; [lia|]. destruct (all_cases _ _ Hall) as [([b x] & -> & Hp)|[Hp Hleaf]].
  - change (EqualExpr_depth (paren_expr (mkParen b x))) with (S (Expression_depth x)) in Hd.
    change (Paren_all φ (mkParen b x)) with (Expression_all φ x) in Hp. rewrite expr_all_operands in Hp.
    assert (Forall (Forall printed) (expr_operands x)) as Hx.
    { apply Forall_forall. intros a Ha. apply Forall_forall. intros y Hy. apply IH.
      - pose proof (expr_depth_operands _ _ _ Ha Hy). lia.
      - eapply forallb_elem; [eapply (forallb_elem (forallb _)); [exact Hp|done]|done]. }
    apply Expression_printed in Hx as [Hx Px]. unfold printed.
    change (EqualExpr_print numberText (paren_expr (mkParen b x))) with
      ((if b then [sym TNot] else []) ++ sym LParen :: Expression_print numberText x ++ [sym RParen]).
    destruct x as [o]. split.
    + apply (equal_paren numberValue); [destruct b; constructor; by left|done..].
    + apply Forall_app. split; [destruct b; repeat constructor; by apply sym_printed|].
      constructor; [by apply sym_printed|]. apply Forall_app. split; [done|]. repeat constructor. by apply sym_printed.
  - destruct (leaf_printed _ Hleaf) as [Ht Pt]. unfold printed.
    assert (EqualExpr_print numberText e = leaf_print numberText e) as -> by (by destruct e as [[] ]). split; [by constructor|done].
Qed.

Lemma TopLevel_printed t : TopLevel_all φ t = true →
  TopLevel_tokens numberValue (TopLevel_print numberText t) t ∧ Forall P (TopLevel_print numberText t).
Proof.
  destruct t as [[x|]]; unfold TopLevel_all, TopLevel_print; cbn [top_Expression]; intros Hall.
  - rewrite expr_all_operands in Hall. destruct (Expression_printed x) as [Hx Px].
    { apply Forall_forall. intros a Ha. apply Forall_forall. intros y Hy. apply (EqualExpr_printed (S (EqualExpr_depth y))); [lia|].
      eapply forallb_elem; [eapply (forallb_elem (forallb _)); [exact Hall|done]|done]. }
    split; [|done]. destruct x as [o]. by constructor.
  - split; [by constructor; left|]. repeat constructor. by apply sym_printed.
Qed.
End Printed.

(** ** Leaves *)

Lemma ident_var v : is_ident v = true → var_token v = word v.
Proof.
  intros Hv. unfold var_token. destruct (list_find _ var_types) as [[i ty]|] eqn:Hf; [|done]. exfalso.
  apply list_find_Some in Hf as (Hty & Htext & _). apply list_elem_of_lookup_2 in Hty. unfold var_types in Hty. rewrite !elem_of_cons, elem_of_nil in Hty.
  repeat destruct Hty as [->|Hty]; try done; injection Htext as <-; vm_compute in Hv; discriminate Hv.
Qed.

Definition is_var (types : list token_type) (v : bytes) : Prop :=
  tk_type (var_token v) ∈ types ∧ tk_value (var_token v) = v ∧ token_ok (var_token v) = true.

Ltac builtin_var := split_and!; [refine (bool_decide_unpack _ _)|..]; vm_compute; done.
Lemma any_var_token v : any_var v = true → is_var var_types v.
Proof.
  unfold any_var. intros [Hv|Hv%bool_decide_eq_true]%orb_true_iff.
  - unfold is_var. rewrite (ident_var _ Hv). split_and!; [unfold var_types; cbn; in_list|done|exact Hv].
  - rewrite !elem_of_cons, elem_of_nil in Hv. repeat destruct Hv as [->|Hv]; try done; builtin_var.
Qed.
Lemma range_var_token v : range_var v = true → is_var range_types v.
Proof.
  unfold range_var. intros [Hv|Hv%bool_decide_eq_true]%orb_true_iff.
  - unfold is_var. rewrite (ident_var _ Hv). split_and!; [unfold range_types; cbn; in_list|done|exact Hv].
  - rewrite !elem_of_cons, elem_of_nil in Hv. repeat destruct Hv as [->|Hv]; try done; builtin_var.
Qed.

Lemma Value_printed w : Value_wf w = true → Value_tokens numberValue (Value_print numberText w) w ∧
  Forall (λ t, token_ok t = true) (Value_print numberText w).
Proof.
  destruct w as [[s|] [n|]]; try done.
  - intros _. split; [apply (Value_string _ (quoted s)); cbn; unfold text_types; in_list|repeat constructor].
  - intros [Ht Hn]%number_reads. split; [by apply (Value_number _ (number numberText n))|by repeat constructor].
Qed.

Lemma numbers_printed ns : forallb fits_u64 ns = true →
  Forall2 (number_token numberValue) (map (number numberText) ns) ns ∧
  Forall (λ t, token_ok t = true) (map (number numberText) ns).
Proof.
  induction ns as [|n ns IH]; [by repeat constructor|]. intros [[Ht Hn]%number_reads [IH1 IH2]%IH]%andb_true_iff.
  split; constructor; try done.
Qed.

Lemma brackets_ok ts : Forall (λ t, token_ok t = true) ts → Forall (λ t, token_ok t = true) (sym LParen :: ts ++ [sym RParen]).
Proof. intros Hts. constructor; [done|]. apply Forall_app. split; [done|by repeat constructor]. Qed.

Lemma Values_printed w : Values_wf w = true → Values_tokens numberValue (Values_print numberText w) w ∧
  Forall (λ t, token_ok t = true) (Values_print numberText w).
Proof.
  destruct w as [[|s ss] [|n ns]]; try done.
  - intros [Hns Hok]%numbers_printed. split; [by apply (Values_numbers _ (sym LParen) (map (number numberText) (n :: ns)))|by apply brackets_ok].
  - intros _. assert (map tk_value (map quoted (s :: ss)) = s :: ss) as Hs by (rewrite map_map; apply map_id). split.
    + rewrite <-Hs at 2. apply (Values_strings _ (sym LParen) (map quoted (s :: ss)) (sym RParen)); try done.
      apply Forall_map, Forall_true. intros x. cbn. unfold text_types. in_list.
    + apply brackets_ok, Forall_map, Forall_true. done.
Qed.

Lemma leaf_printed_ok e : leaf_wf e = true →
  leaf_tokens numberValue (leaf_print numberText e) e ∧ Forall (λ t, token_ok t = true) (leaf_print numberText e).
Proof.
  destruct e as [[|] [[v b w]|] [[v' b' w']|] [[v1 w1]|] [[v2 w2]|] [[v3 w3]|] [[v4 w4]|] [[v5 b5 w5]|]]; try done; cbn [leaf_wf leaf_print
    eq_Var eq_IsNot eq_Value in_Var in_IsNot in_Values lt_Var lt_Value le_Var le_Value gt_Var gt_Value ge_Var ge_Value glob_Var glob_IsNot glob_Value].
  - intros [(Ht & Hv & Hok)%any_var_token [Hw Hws]%Value_printed]%andb_true_iff. split; [|by repeat constructor; [|destruct b|]].
    rewrite <-Hv at 2. apply leaf_assign; [done|by destruct b; auto|done].
  - intros [(Ht & Hv & Hok)%any_var_token [Hw Hws]%Values_printed]%andb_true_iff. split.
    + rewrite <-Hv at 2. apply leaf_inclusion; [done|destruct b'; constructor|..|done]; cbn; unfold NOT_words, IN_words; in_list.
    + constructor; [done|]. apply Forall_app. split; [by destruct b'; repeat constructor|by constructor].
  - intros [(Ht & Hv & Hok)%range_var_token [Hw Hws]%Value_printed]%andb_true_iff. split; [|by repeat constructor].
    by rewrite <-Hv at 2; apply leaf_lt.
  - intros [(Ht & Hv & Hok)%range_var_token [Hw Hws]%Value_printed]%andb_true_iff. split; [|by repeat constructor].
    by rewrite <-Hv at 2; apply leaf_le.
  - intros [(Ht & Hv & Hok)%range_var_token [Hw Hws]%Value_printed]%andb_true_iff. split; [|by repeat constructor].
    by rewrite <-Hv at 2; apply leaf_gt.
  - intros [(Ht & Hv & Hok)%range_var_token [Hw Hws]%Value_printed]%andb_true_iff. split; [|by repeat constructor].
    by rewrite <-Hv at 2; apply leaf_ge.
  - intros Hv. split; [|by repeat constructor; [|destruct b5]]. by apply (leaf_glob _ (word v5)); [|destruct b5; auto|].
Qed.

(** ** Quoted parentheses *)

(** The texts a leaf quotes. *)
Definition Value_texts (w : Value) : list bytes := match v_String w with Some s => [s] | None => [] end.
Definition leaf_texts (e : EqualExpr) : list bytes :=
  match e with
  | mkEqualExpr _ a i lt le gt ge g =>
      match a with Some x => Value_texts (eq_Value x) | None => [] end ++
      match i with Some x => vs_Strings (in_Values x) | None => [] end ++
      match lt with Some x => Value_texts (lt_Value x) | None => [] end ++
      match le with Some x => Value_texts (le_Value x) | None => [] end ++
      match gt with Some x => Value_texts (gt_Value x) | None => [] end ++
      match ge with Some x => Value_texts (ge_Value x) | None => [] end ++
      match g with Some x => [glob_Value x] | None => [] end
  end.
Definition no_paren (e : EqualExpr) : bool := forallb (λ s, negb (bool_decide (s = str ")"))) (leaf_texts e).
Definition plain (e : EqualExpr) : bool := leaf_wf e && no_paren e.

Definition quotes (l : list bytes) (t : token) : Prop := tk_type t = TString → tk_value t ∈ l.

Lemma var_token_quotes l v : quotes l (var_token v).
Proof.
  unfold var_token, quotes. destruct (list_find _ var_types) as [[i ty]|] eqn:Hf; [|done]. intros Ht. exfalso. cbn in Ht. subst ty.
  apply list_find_Some in Hf as (_ & Htext & _). done.
Qed.
Lemma sym_quotes l ty : ty ≠ TString → quotes l (sym ty).
Proof. by intros Hty Ht. Qed.
Lemma Value_quotes w : Forall (quotes (Value_texts w)) (Value_print numberText w).
Proof. destruct w as [[s|] [n|]]; repeat constructor; intros Ht; try done; cbn; in_list. Qed.
Lemma Values_quotes w : Forall (quotes (vs_Strings w)) (Values_print numberText w).
Proof.
  destruct w as [[|s ss] ns]; (constructor; [by apply sym_quotes|]); (apply Forall_app; split; [|by repeat constructor; apply sym_quotes]);
    apply Forall_map, Forall_forall; [done|]. intros x Hx _. exact Hx.
Qed.
Lemma leaf_quotes e : leaf_wf e = true → Forall (quotes (leaf_texts e)) (leaf_print numberText e).
Proof.
  destruct e as [[|] [[v b w]|] [[v' b' w']|] [[v1 w1]|] [[v2 w2]|] [[v3 w3]|] [[v4 w4]|] [[v5 b5 w5]|]]; try done; intros _;
    cbn [leaf_print leaf_texts eq_Var eq_IsNot eq_Value in_Var in_IsNot in_Values lt_Var lt_Value le_Var le_Value gt_Var gt_Value ge_Var ge_Value
      glob_Var glob_IsNot glob_Value app]; rewrite ?app_nil_r;
    try (constructor; [by apply var_token_quotes|]).
  - constructor; [by destruct b|apply Value_quotes].
  - apply Forall_app. split; [by destruct b'; repeat constructor|]. constructor; [done|apply Values_quotes].
  - constructor; [done|apply Value_quotes].
  - constructor; [done|apply Value_quotes].
  - constructor; [done|apply Value_quotes].
  - constructor; [done|apply Value_quotes].
  - constructor; [done|]. constructor; [by destruct b5|]. constructor; [|constructor]. intros _. cbn. in_list.
Qed.

Lemma leaf_printed_clean e : plain e = true →
  leaf_tokens numberValue (leaf_print numberText e) e ∧ Forall clean (leaf_print numberText e).
Proof.
  intros [Hwf Hno]%andb_true_iff. destruct (leaf_printed_ok _ Hwf) as [Ht Hok]. split; [done|].
  eapply Forall_impl; [exact (proj2 (Forall_and _ _) (conj Hok (leaf_quotes _ Hwf)))|]. intros t [Htok Hq]. split; [done|].
  intros Hstr Hv. specialize (Hq Hstr). pose proof (forallb_elem _ _ _ Hno Hq) as Hn. cbn in Hn. rewrite Hv in Hn. vm_compute in Hn. discriminate Hn.
Qed.

Lemma sym_clean ty : is_Some (fixed_text ty) → clean (sym ty).
Proof. intros Hty. split; [by apply sym_ok|]. cbn. intros ->. by destruct Hty. Qed.

Lemma TopLevel_printed_clean t : TopLevel_all plain t = true →
  TopLevel_tokens numberValue (TopLevel_print numberText t) t ∧ Forall clean (TopLevel_print numberText t).
Proof. exact (TopLevel_printed plain clean leaf_printed_clean sym_clean t). Qed.

Lemma TopLevel_printed_ok t : TopLevel_wf t = true →
  TopLevel_tokens numberValue (TopLevel_print numberText t) t ∧ Forall (λ u, token_ok u = true) (TopLevel_print numberText t).
Proof. exact (TopLevel_printed leaf_wf _ leaf_printed_ok sym_ok t). Qed.
End Trees.
