(* ===== verification/Effects.v ===== *)
(** What the operations promise of an entity, field by field, and that the code
    builds it so (src/store/ops.go). *)
From S2P Require Export Ops.

(** ** Numeric attributes *)

Lemma lor_shifted v c : (c < 256)%N → N.lor (N.shiftl v 8) c = (v * 256 + c)%N.
Proof.
  intros Hc. change 256%N with (2 ^ 8)%N at 1. rewrite <-N.shiftl_mul_pow2.
  assert (N.land (N.shiftl v 8) c = 0%N) as Hl.
  { apply N.bits_inj. intros i. rewrite N.land_spec, N.bits_0. destruct (N.lt_ge_cases i 8) as [Hi|Hi].
    - by rewrite N.shiftl_spec_low.
    - replace c with (c mod 2 ^ 8)%N by (by apply N.mod_small). by rewrite N.mod_pow2_bits_high, andb_false_r. }
  by rewrite <-N.lxor_lor, <-N.add_nocarry_lxor.
Qed.

Lemma attr_fold b : (length b ≤ 8)%nat →
  foldl (λ v byt, N.lor (u64 (N.shiftl v 8)) (byte_val byt)) 0%N b = be_decode b.
Proof.
  induction b as [|c b IH] using rev_ind; intros Hl; [done|]. rewrite length_app in Hl. simpl in Hl.
  rewrite foldl_app, be_decode_snoc, IH by lia. cbn [foldl].
  assert (be_decode b < 2 ^ 56)%N as Hb.
  { eapply N.lt_le_trans; [apply be_decode_lt|]. change (2 ^ 56)%N with (256 ^ 7)%N. apply N.pow_le_mono_r; lia. }
  rewrite u64_id; [by apply lor_shifted, byte_val_lt|]. unfold is_u64. rewrite N.shiftl_mul_pow2. lia.
Qed.

(** The low bytes of a big-endian number. *)
Lemma be_decode_app a b : be_decode (a ++ b) = (be_decode a * 256 ^ N.of_nat (length b) + be_decode b)%N.
Proof.
  induction b as [|c b IH] using rev_ind; [rewrite app_nil_r; cbn; lia|].
  rewrite app_assoc, !be_decode_snoc, IH, length_app, Nat.add_1_r, Nat2N.inj_succ, N.pow_succ_r by lia. lia.
Qed.

Lemma attrUint64_mod b : attrUint64 b = (be_decode b mod 2 ^ 64)%N.
Proof.
  unfold attrUint64. destruct (Nat.ltb_spec 8 (length b)) as [Hl|Hl].
  - assert (length (drop (length b - 8) b) = 8%nat) as H8 by (rewrite length_drop; lia).
    rewrite attr_fold by lia. rewrite <-(take_drop (length b - 8) b) at 3. rewrite be_decode_app, H8.
    pose proof (be_decode_lt (drop (length b - 8) b)) as Hlt. rewrite H8 in Hlt.
    change (256 ^ N.of_nat 8)%N with (2 ^ 64)%N in *. rewrite N.add_comm, N.Div0.mod_add. symmetry. by apply N.mod_small.
  - rewrite attr_fold by done. symmetry. apply N.mod_small. eapply N.lt_le_trans; [apply be_decode_lt|].
    change (2 ^ 64)%N with (256 ^ 8)%N. apply N.pow_le_mono_r; lia.
Qed.

(** ** The promised entities

    Nothing here but [applyAttributes] and the lemmas mentions how [Ops] builds
    an entity. *)

Section Effects.
Context {E : Env}.

(** What one attribute adds. *)
Definition attr_string (a : Attribute) : option stringAnnot :=
  if decide (attr_ValueType a = str "string") then Some (mkStringAnnot (attr_Name a) (trim_right_byte x00 (attr_Value a)))
  else if decide (attr_ValueType a = str "entityKey")
  then Some (mkStringAnnot (attr_Name a) (ToLower (Hash_Hex (BytesToHash (attr_Value a))))) else None.
Definition attr_number (a : Attribute) : option numericAnnot :=
  if decide (attr_ValueType a = str "uint") then Some (mkNumericAnnot (attr_Name a) (be_decode (attr_Value a) mod 2 ^ 64)) else None.

(** A creation takes every field from the operation, and both block numbers from
    its block. *)
Definition created (number : N) (op : CreateOp) : Entity := {|
  Payload := create_Payload op;
  Owner := create_Owner op;
  Creator := create_Sender op;
  ExpiresAt := create_ExpiresAt op;
  CreatedAtBlock := number;
  LastModifiedAtBlock := number;
  TransactionIndexInBlock := create_TxIndex op;
  OperationIndexInTransaction := create_OpIndex op;
  ContentType := create_ContentType op;
  Key := create_EntityKey op;
  StringAnnotations := omap attr_string (create_Attributes op);
  NumericAnnotations := omap attr_number (create_Attributes op) |}.

(** An update replaces the payload, the content type and the attributes, and
    moves the block of the last modification. *)
Definition updated (number : N) (old : Entity) (op : UpdateOp) : Entity := {|
  Payload := update_Payload op;
  Owner := Owner old;
  Creator := Creator old;
  ExpiresAt := ExpiresAt old;
  CreatedAtBlock := CreatedAtBlock old;
  LastModifiedAtBlock := number;
  TransactionIndexInBlock := TransactionIndexInBlock old;
  OperationIndexInTransaction := OperationIndexInTransaction old;
  ContentType := update_ContentType op;
  Key := Key old;
  StringAnnotations := omap attr_string (update_Attributes op);
  NumericAnnotations := omap attr_number (update_Attributes op) |}.

(** An extension moves the expiration and nothing else, a transfer the owner and
    nothing else: not the block of the last modification. *)
Definition extended (expiresAt : N) (old : Entity) : Entity := {|
  Payload := Payload old;
  Owner := Owner old;
  Creator := Creator old;
  ExpiresAt := expiresAt;
  CreatedAtBlock := CreatedAtBlock old;
  LastModifiedAtBlock := LastModifiedAtBlock old;
  TransactionIndexInBlock := TransactionIndexInBlock old;
  OperationIndexInTransaction := OperationIndexInTransaction old;
  ContentType := ContentType old;
  Key := Key old;
  StringAnnotations := StringAnnotations old;
  NumericAnnotations := NumericAnnotations old |}.

Definition transferred (owner : Address) (old : Entity) : Entity := {|
  Payload := Payload old;
  Owner := owner;
  Creator := Creator old;
  ExpiresAt := ExpiresAt old;
  CreatedAtBlock := CreatedAtBlock old;
  LastModifiedAtBlock := LastModifiedAtBlock old;
  TransactionIndexInBlock := TransactionIndexInBlock old;
  OperationIndexInTransaction := OperationIndexInTransaction old;
  ContentType := ContentType old;
  Key := Key old;
  StringAnnotations := StringAnnotations old;
  NumericAnnotations := NumericAnnotations old |}.

(** ** The code builds them *)

Lemma applyAttributes_annotations e attrs :
  applyAttributes e attrs =
  mkEntity (Payload e) (Owner e) (Creator e) (ExpiresAt e) (CreatedAtBlock e) (LastModifiedAtBlock e)
    (TransactionIndexInBlock e) (OperationIndexInTransaction e) (ContentType e) (Key e)
    (StringAnnotations e ++ omap attr_string attrs) (NumericAnnotations e ++ omap attr_number attrs).
Proof.
  revert e. induction attrs as [|a attrs IH]; intros e; [cbn; rewrite !app_nil_r; by destruct e|].
  unfold applyAttributes in *. cbn [foldl omap list_omap]. rewrite IH. unfold applyAttribute, attr_string at 2, attr_number at 2.
  rewrite <-attrUint64_mod. destruct (decide (attr_ValueType a = str "string")) as [E1|].
  - rewrite decide_False by (rewrite E1; discriminate). cbn. by rewrite <-app_assoc.
  - destruct (decide (attr_ValueType a = str "uint")) as [E2|].
    + rewrite decide_False by (rewrite E2; discriminate). cbn. by rewrite <-app_assoc.
    + destruct (decide (attr_ValueType a = str "entityKey")); cbn; [by rewrite <-app_assoc|done].
Qed.

Lemma newEntity_created number op : newEntity number op = created number op.
Proof. unfold newEntity. by rewrite applyAttributes_annotations. Qed.
Lemma updatedEntity_updated number old op : updatedEntity number old op = updated number old op.
Proof. unfold updatedEntity. by rewrite applyAttributes_annotations. Qed.
Lemma set_ExpiresAt_extended x e : set_ExpiresAt x e = extended x e.
Proof. reflexivity. Qed.
Lemma set_Owner_transferred x e : set_Owner x e = transferred x e.
Proof. reflexivity. Qed.

End Effects.
