(* ===== verification/Spec.v ===== *)
(** What the store promises: a map from account addresses to live entities and
    their IDs, with the count of IDs given out, and the six operations on it, with
    the entities of [Effects].
    The bitmap index, the trie and the PebbleDB caches do not appear here;
    [Repr] says how they represent such a state. *)
From S2P Require Export StoreQuery Effects.

Section Spec.
Context {E : Env}.

Record AbsState := mkAbs {
  abs_ents : gmap Address (N * Entity);
  abs_count : N;
}.

Definition abs_empty : AbsState := mkAbs ∅ 0.

(** The IDs a query for one annotation pair must return. *)
Definition indexed (st : AbsState) (p : annotPair) (id : N) : Prop :=
  ∃ a e, abs_ents st !! a = Some (id, e) ∧ p ∈ allAnnotations e.

(** ** The operations *)

Definition abs_put (st : AbsState) (a : Address) (id : N) (e : Entity) : AbsState :=
  mkAbs (<[a := (id, e)]> (abs_ents st)) (abs_count st).

Definition abs_modify (st : AbsState) (a : Address) (f : Entity → Entity) : option AbsState :=
  '(id, e) ← abs_ents st !! a;
  Some (abs_put st a id (f e)).

Definition abs_create (number : N) (st : AbsState) (op : CreateOp) : AbsState :=
  let id := (abs_count st + 1)%N in
  mkAbs (<[keyAddress (create_EntityKey op) := (id, created number op)]> (abs_ents st)) id.

Definition abs_delete (st : AbsState) (a : Address) : option AbsState :=
  _ ← abs_ents st !! a;
  Some (mkAbs (delete a (abs_ents st)) (abs_count st)).

(** [None]: the operation must fail. *)
Definition abs_op (number : N) (st : AbsState) (op : ArkivOperation) : option AbsState :=
  match op_Create op with Some o => Some (abs_create number st o) | None =>
  match op_Update op with
  | Some o => abs_modify st (keyAddress (update_EntityKey o)) (λ e, updated number e o) | None =>
  match op_Delete op with Some o => abs_delete st (keyAddress (delete_EntityKey o)) | None =>
  match op_Extend op with
  | Some o => abs_modify st (keyAddress (extend_EntityKey o)) (extended (extend_ExpiresAt o)) | None =>
  match op_Transfer op with
  | Some o => abs_modify st (keyAddress (transfer_EntityKey o)) (transferred (transfer_Owner o)) | None =>
  match op_Expire op with Some o => abs_delete st (keyAddress (expire_EntityKey o)) | None =>
    None
  end end end end end end.

Fixpoint abs_ops (number : N) (st : AbsState) (ops : list ArkivOperation) : option AbsState :=
  match ops with
  | [] => Some st
  | op :: ops => st' ← abs_op number st op; abs_ops number st' ops
  end.

(** The operations of a block, in order. *)
Definition tx_ops (tx : ArkivTransaction) : list ArkivOperation :=
  map (injectTx tx) (tx_Operations tx).
Definition block_ops (block : ArkivBlock) : list ArkivOperation :=
  concat (map tx_ops (block_Transactions block)).
Definition abs_block (st : AbsState) (block : ArkivBlock) : option AbsState :=
  abs_ops (header_Number (block_Header block)) st (block_ops block).
Fixpoint abs_blocks (st : AbsState) (blocks : list ArkivBlock) : option AbsState :=
  match blocks with
  | [] => Some st
  | b :: blocks => st' ← abs_block st b; abs_blocks st' blocks
  end.

(** ** The inputs the promise is about

    What the ingest path relies on its peer (the smart contract) for: entity
    keys are fresh, attribute names hold no zero byte and are not the two
    built-in names that extension and transfer update in place; and, for the
    collision-freeness hypothesis, the strings that are hashed. *)

Definition reserved (k : bytes) : Prop := k = str "$expiration" ∨ k = str "$owner".
Definition names_ok (e : Entity) : Prop := Forall (λ p, ¬ reserved (pair_key p)) (userAnnotations e).

Context {CF : CollisionFree}.

Definition slot_name (p : annotPair) : bytes := str "annot" ++ pair_key p ++ x00 :: pair_val p.
Definition id_name (id : N) : bytes := str "id" ++ PutUint64 id.

Definition tracked (p : annotPair) : Prop := ¬ (x00 ∈ pair_key p) ∧ hashed (slot_name p).
Definition tracked_id (id : N) : Prop := is_u64 id ∧ hashed (id_name id).

Definition entity_ok (e : Entity) : Prop := names_ok e ∧ Forall tracked (allAnnotations e).

Definition create_valid (number : N) (st : AbsState) (op : CreateOp) : Prop :=
  let a := keyAddress (create_EntityKey op) in
  abs_ents st !! a = None ∧ a ≠ systemAddress ∧ a ≠ zeroAddress ∧
  tracked_id (abs_count st + 1) ∧ entity_ok (created number op).

Definition modify_valid (st : AbsState) (a : Address) (f : Entity → Entity) : Prop :=
  match abs_ents st !! a with Some (_, e) => entity_ok (f e) | None => True end.

Definition op_valid (number : N) (st : AbsState) (op : ArkivOperation) : Prop :=
  match op_Create op with Some o => create_valid number st o | None =>
  match op_Update op with
  | Some o => modify_valid st (keyAddress (update_EntityKey o)) (λ e, updated number e o) | None =>
  match op_Delete op with Some _ => True | None =>
  match op_Extend op with
  | Some o => modify_valid st (keyAddress (extend_EntityKey o)) (extended (extend_ExpiresAt o)) | None =>
  match op_Transfer op with
  | Some o => modify_valid st (keyAddress (transfer_EntityKey o)) (transferred (transfer_Owner o)) | None =>
    True
  end end end end end.

Fixpoint ops_valid (number : N) (st : AbsState) (ops : list ArkivOperation) : Prop :=
  match ops with
  | [] => True
  | op :: ops => op_valid number st op ∧
      match abs_op number st op with Some st' => ops_valid number st' ops | None => True end
  end.

Definition block_valid (st : AbsState) (block : ArkivBlock) : Prop :=
  ops_valid (header_Number (block_Header block)) st (block_ops block).

Lemma modify_valid_elim st a f id e : modify_valid st a f → abs_ents st !! a = Some (id, e) → entity_ok (f e).
Proof. unfold modify_valid. intros H Ha. by rewrite Ha in H. Qed.

(** The conditions are decidable when membership in the hashed strings is. *)
Section Decide.
Context {HD : ∀ x, Decision (hashed x)}.

#[export] Instance reserved_dec k : Decision (reserved k).
Proof. unfold reserved. apply _. Defined.
#[export] Instance tracked_dec p : Decision (tracked p).
Proof. unfold tracked. apply _. Defined.
#[export] Instance tracked_id_dec id : Decision (tracked_id id).
Proof. unfold tracked_id, is_u64. apply _. Defined.
#[export] Instance entity_ok_dec e : Decision (entity_ok e).
Proof. unfold entity_ok, names_ok. apply _. Defined.
#[export] Instance modify_valid_dec st a f : Decision (modify_valid st a f).
Proof. unfold modify_valid. destruct (abs_ents st !! a) as [[]|]; apply _. Defined.
#[export] Instance op_valid_dec number st op : Decision (op_valid number st op).
Proof. unfold op_valid, create_valid. repeat case_match; apply _. Defined.
#[export] Instance ops_valid_dec number st ops : Decision (ops_valid number st ops).
Proof.
  revert st. induction ops as [|op ops IH]; intros st; simpl; [apply _|].
  apply and_dec; [apply _|]. destruct (abs_op number st op); [apply IH|apply _].
Defined.
#[export] Instance block_valid_dec st block : Decision (block_valid st block).
Proof. unfold block_valid. apply _. Defined.
End Decide.

(** Well-formed abstract states. *)
Record abs_wf (st : AbsState) : Prop := {
  wf_id a id e : abs_ents st !! a = Some (id, e) → (1 ≤ id ≤ abs_count st)%N ∧ tracked_id id;
  wf_addr a id e : abs_ents st !! a = Some (id, e) → a ≠ systemAddress ∧ a ≠ zeroAddress;
  wf_ent a id e : abs_ents st !! a = Some (id, e) → entity_ok e;
  wf_inj a a' id e e' : abs_ents st !! a = Some (id, e) → abs_ents st !! a' = Some (id, e') → a = a';
  wf_count : is_u64 (abs_count st);
}.


(** ** Well-formedness is kept *)

Lemma abs_wf_empty : abs_wf abs_empty.
Proof. split; simpl; intros; try (by rewrite lookup_empty in *; simplify_map_eq). done. Qed.

Lemma abs_wf_put st a id e e0 :
  abs_wf st → abs_ents st !! a = Some (id, e0) → entity_ok e → abs_wf (abs_put st a id e).
Proof.
  intros [W1 W2 W3 W4 W5] Ha He. split; simpl; [..|done].
  - intros a' id' e' [[-> [= <- <-]]|[_ H]]%lookup_insert_Some; eauto.
  - intros a' id' e' [[-> [= <- <-]]|[_ H]]%lookup_insert_Some; eauto.
  - intros a' id' e' [[-> [= <- <-]]|[_ H]]%lookup_insert_Some; eauto.
  - intros a1 a2 i e1 e2 [[-> [= <- <-]]|[? H1]]%lookup_insert_Some
      [[-> [= ?]]|[? H2]]%lookup_insert_Some; simplify_eq; eauto.
Qed.

Lemma abs_wf_delete st a : abs_wf st → abs_wf (mkAbs (delete a (abs_ents st)) (abs_count st)).
Proof.
  intros [W1 W2 W3 W4 W5]. split; simpl; [..|done].
  - intros a' id e [_ H]%lookup_delete_Some; eauto.
  - intros a' id e [_ H]%lookup_delete_Some; eauto.
  - intros a' id e [_ H]%lookup_delete_Some; eauto.
  - intros a1 a2 i e1 e2 [_ H1]%lookup_delete_Some [_ H2]%lookup_delete_Some; eauto.
Qed.

Lemma abs_wf_create number st op : abs_wf st → create_valid number st op → abs_wf (abs_create number st op).
Proof.
  intros [W1 W2 W3 W4 W5] (Hf & Hs & Hz & Hid & He).
  unfold abs_create. split; simpl; [..|by destruct Hid].
  - intros a' id' e' [[<- [= <- <-]]|[_ H]]%lookup_insert_Some; [split; [lia|done]|].
    apply W1 in H as [? ?]. split; [lia|done].
  - intros a' id' e' [[<- [= <- <-]]|[_ H]]%lookup_insert_Some; eauto.
  - intros a' id' e' [[<- [= <- <-]]|[_ H]]%lookup_insert_Some; eauto.
  - intros a1 a2 i e1 e2 [[<- [= <- <-]]|[? H1]]%lookup_insert_Some
      [[<- [= ?]]|[? H2]]%lookup_insert_Some; simplify_eq; eauto.
    + apply W1 in H2. lia.
    + apply W1 in H1. lia.
Qed.

Lemma abs_modify_Some st a f st' : abs_modify st a f = Some st' ↔
  ∃ id e, abs_ents st !! a = Some (id, e) ∧ st' = abs_put st a id (f e).
Proof.
  unfold abs_modify. destruct (abs_ents st !! a) as [[id e]|]; simpl.
  - split; [intros [= <-]; by eauto|]. by intros (?&?&[= <- <-]&->).
  - split; [done|]. by intros (?&?&?&?).
Qed.

Lemma abs_delete_Some st a st' : abs_delete st a = Some st' ↔
  is_Some (abs_ents st !! a) ∧ st' = mkAbs (delete a (abs_ents st)) (abs_count st).
Proof.
  unfold abs_delete. destruct (abs_ents st !! a) as [x|]; simpl.
  - split; [intros [= <-]; eauto|by intros [_ ->]].
  - split; [done|]. by intros [[? ?] _].
Qed.

Lemma abs_wf_modify st a f st' : abs_wf st → modify_valid st a f →
  abs_modify st a f = Some st' → abs_wf st'.
Proof. intros W Hv (id & e & Ha & ->)%abs_modify_Some. eapply abs_wf_put; eauto using modify_valid_elim. Qed.

Lemma abs_wf_op number st op st' : abs_wf st → op_valid number st op →
  abs_op number st op = Some st' → abs_wf st'.
Proof.
  unfold op_valid, abs_op. intros W.
  assert (∀ a, abs_delete st a = Some st' → abs_wf st') as Hd.
  { intros a [_ ->]%abs_delete_Some. by apply abs_wf_delete. }
  destruct (op_Create op); [intros ? [= <-]; by apply abs_wf_create|].
  repeat case_match; intros; simplify_eq; eauto using abs_wf_modify.
Qed.

Lemma abs_op_count number st op st' : abs_op number st op = Some st' → (abs_count st ≤ abs_count st')%N.
Proof.
  unfold abs_op. destruct (op_Create op); [intros [= <-]; simpl; lia|].
  repeat case_match; intros Hop; simplify_eq;
    first [apply abs_modify_Some in Hop as (?&?&?&->)|apply abs_delete_Some in Hop as [_ ->]]; simpl; lia.
Qed.

Lemma abs_ops_count n ops st st' : abs_ops n st ops = Some st' → (abs_count st ≤ abs_count st')%N.
Proof.
  revert st. induction ops as [|op ops IH]; intros st; cbn; [by intros [= ->]|].
  destruct (abs_op n st op) as [st1|] eqn:Eo; [|done]. cbn. intros H. apply abs_op_count in Eo. apply IH in H. lia.
Qed.

(** ** What the operations do to the index *)

Lemma indexed_create number st op p x :
  abs_ents st !! keyAddress (create_EntityKey op) = None →
  indexed (abs_create number st op) p x ↔
  indexed st p x ∨ (p ∈ allAnnotations (created number op) ∧ x = (abs_count st + 1)%N).
Proof.
  intros Hf. unfold indexed, abs_create; simpl. split.
  - intros (a & e & [[<- [= <- <-]]|[? H]]%lookup_insert_Some & Hp); eauto 6.
  - intros [(a & e & H & Hp)|[Hp ->]].
    + exists a, e. rewrite lookup_insert_ne by congruence. done.
    + eexists _, _. by rewrite lookup_insert_eq.
Qed.

Lemma indexed_delete st a id e p x : abs_wf st → abs_ents st !! a = Some (id, e) →
  indexed (mkAbs (delete a (abs_ents st)) (abs_count st)) p x ↔
  indexed st p x ∧ ¬ (p ∈ allAnnotations e ∧ x = id).
Proof.
  intros W Ha. unfold indexed; simpl. split.
  - intros (a' & e' & [? H]%lookup_delete_Some & Hp). split; [by eauto|].
    intros [_ ->]. by pose proof (wf_inj _ W _ _ _ _ _ H Ha).
  - intros [(a' & e' & H & Hp) Hn]. exists a', e'. rewrite lookup_delete_ne; [done|].
    intros <-. rewrite Ha in H. injection H as <- <-. by apply Hn.
Qed.

Lemma indexed_put st a id e e' p x : abs_wf st → abs_ents st !! a = Some (id, e) →
  indexed (abs_put st a id e') p x ↔
  (indexed st p x ∧ x ≠ id) ∨ (p ∈ allAnnotations e' ∧ x = id).
Proof.
  intros W Ha. unfold indexed; simpl. split.
  - intros (a' & e1 & [[-> [= <- <-]]|[? H]]%lookup_insert_Some & Hp); [by right|].
    left. split; [by eauto|]. intros ->. by pose proof (wf_inj _ W _ _ _ _ _ H Ha).
  - intros [[(a' & e1 & H & Hp) Hn]|[Hp ->]].
    + exists a', e1. rewrite lookup_insert_ne; [done|]. congruence.
    + eexists _, _. by rewrite lookup_insert_eq.
Qed.

Lemma indexed_self st a id e p : abs_wf st → abs_ents st !! a = Some (id, e) →
  indexed st p id ↔ p ∈ allAnnotations e.
Proof.
  intros W Ha. split; [|by exists a, e]. intros (a' & e' & H & Hp).
  pose proof (wf_inj _ W _ _ _ _ _ H Ha) as ->. by simplify_eq.
Qed.

End Spec.
