(* ===== verification/Repr.v ===== *)
(** How the trie and the PebbleDB represent an abstract state: the invariant
    of the store, split into the part the trie carries ([trie_repr], true of
    any historical root), the mutable PebbleDB entries of the head
    ([pebble_repr]), and the shape of the key space ([db_wf]). *)
From S2P Require Export Spec.

Section Repr.
Context {E : Env} {CF : CollisionFree}.

(** A bitmap holds exactly the IDs of a set. *)
Definition bitmap_repr (B : Bitmap) (X : N → Prop) : Prop := ∀ x, bm_Contains B x = true ↔ X x.

Definition slot_of (s : StateDB) (p : annotPair) : Hash :=
  GetState s systemAddress (annotSlotKey (pair_key p) (pair_val p)).

(** The blob stored under a content hash decodes to the set. *)
Definition blob_ok (g : reader) (h : Hash) (X : N → Prop) : Prop :=
  ∃ d B, g (bitmapKey h) = Some d ∧ d ≠ [] ∧ bm_UnmarshalBinary d = Ok B ∧ bitmap_repr B X.

Definition has_pair (g : reader) (p : annotPair) : Prop := is_Some (g (pairsKey (pair_key p) (pair_val p))).

(** The pointer in the trie slot of a pair leads to the set. *)
Definition slot_ok (g : reader) (h : Hash) (p : annotPair) (X : N → Prop) : Prop :=
  (h = zeroHash ∧ ∀ x, ¬ X x) ∨ (h ≠ zeroHash ∧ blob_ok g h X ∧ has_pair g p).

Definition bitmaps_ok (g : reader) (s : StateDB) (db : gmap annotPair Bitmap) (X : annotPair → N → Prop) : Prop :=
  ∀ p, tracked p →
    match db !! p with
    | Some B => bitmap_repr B (X p)
    | None => slot_ok g (slot_of s p) p (X p)
    end.

Definition live_id (st : AbsState) (id : N) : Prop := ∃ a e, abs_ents st !! a = Some (id, e).

Definition code_ok (s : StateDB) (de : gmap Address Entity) (a : Address) (o : option (N * Entity)) : Prop :=
  match o with
  | Some (_, e) =>
      match de !! a with
      | Some e' => e' = e
      | None => GetCode s a ≠ [] ∧ decodeEntity (GetCode s a) = Ok e
      end
  | None => de !! a = None ∧ GetCode s a = []
  end.

Record trie_repr (g : reader) (s : StateDB) (de : gmap Address Entity) (db : gmap annotPair Bitmap)
    (st : AbsState) : Prop := {
  tr_count : readEntityCount s = abs_count st;
  tr_id id : tracked_id id →
    (∃ a e, abs_ents st !! a = Some (id, e) ∧ GetState s systemAddress (idSlotKey id) = addressSlot a) ∨
    (¬ live_id st id ∧ GetState s systemAddress (idSlotKey id) = zeroHash);
  tr_code a : code_ok s de a (abs_ents st !! a);
  tr_bitmaps : bitmaps_ok g s db (indexed st);
}.

Record pebble_repr (g : reader) (s : StateDB) (st : AbsState) : Prop := {
  pb_annot p : tracked p → g (annotKey (pair_key p) (pair_val p)) =
    if decide (slot_of s p = zeroHash) then None else Some (array_bytes (slot_of s p));
  pb_id a id e : abs_ents st !! a = Some (id, e) → g (idKey id) = Some (array_bytes a);
  pb_addr a id e : abs_ents st !! a = Some (id, e) → g (addrKey a) = Some (PutUint64 id);
}.

Record db_wf (g : reader) : Prop := {
  dw_annot k : prefixAnnot `prefix_of` k → is_Some (g k) →
    ∃ p, tracked p ∧ k = annotKey (pair_key p) (pair_val p);
  dw_pairs k : prefixPairs `prefix_of` k → is_Some (g k) →
    ∃ p, tracked p ∧ k = pairsKey (pair_key p) (pair_val p);
  dw_id k v : prefixID `prefix_of` k → g k = Some v →
    ∃ id (a : Address), tracked_id id ∧ k = idKey id ∧ v = a;
  dw_blob h d : g (bitmapKey h) = Some d → hashed d ∧ Keccak256Hash d = h;
}.

Definition sys_ok (s : StateDB) : Prop := Exist s systemAddress = true ∧ GetNonce s systemAddress ≠ 0%N.

(** The cache store of a block in progress. *)
Record cs_repr (cs : CacheStore) (st : AbsState) : Prop := {
  cr_live : live (stagingDB cs);
  cr_sys : sys_ok (stateDB cs);
  cr_wf : abs_wf st;
  cr_db : db_wf (rd cs);
  cr_trie : trie_repr (rd cs) (stateDB cs) (dirtyEntities cs) (dirtyBitmaps cs) st;
  cr_pebble : pebble_repr (rd cs) (stateDB cs) st;
  cr_dirty p : is_Some (dirtyBitmaps cs !! p) → tracked p;
  cr_opened : opened_on (stateDB cs) (kv_lookup (sd_Database (stagingDB cs)));
  cr_agree : agree_on_trie (rd cs) (kv_lookup (sd_Database (stagingDB cs)));
  cr_tdb : trieDB cs = triedb_New;
}.

(** What a state root stands for, at any time after the block that made it. *)
Record snapshot (g : reader) (s : StateDB) (st : AbsState) : Prop := {
  sn_wf : abs_wf st;
  sn_sys : sys_ok s ∨ account_absent s systemAddress;
  sn_trie : trie_repr g s ∅ ∅ st;
}.

Definition root_repr (g : reader) (root : Hash) (st : AbsState) : Prop :=
  ∃ s, state_New g root = Ok s ∧ snapshot g s st.

(** The store at rest: its head root, and the caches of the head. *)
Record head_repr (σ : Store) (st : AbsState) : Prop := {
  hr_db : db_wf (store_reader σ);
  hr_state : ∃ s, state_New (store_reader σ) (headRoot σ) = Ok s ∧
    snapshot (store_reader σ) s st ∧ pebble_repr (store_reader σ) s st;
}.

End Repr.


(** ** Frame lemmas *)

Section ReprLemmas.
Context {E : Env} {EO : EnvOk} {CF : CollisionFree}.

Lemma bitmap_repr_ext B X Y : (∀ x, X x ↔ Y x) → bitmap_repr B X → bitmap_repr B Y.
Proof. intros H HB x. rewrite <-H. apply HB. Qed.

Lemma slot_ok_ext g h p X Y : (∀ x, X x ↔ Y x) → slot_ok g h p X → slot_ok g h p Y.
Proof.
  intros H [[-> Hn]|(Hz & (d & B & ? & ? & ? & HB) & Hp)]; [left|right].
  - split; [done|]. intros x. by rewrite <-H.
  - split; [done|]. split; [|done]. exists d, B. eauto using bitmap_repr_ext.
Qed.

Lemma bitmaps_ok_ext g s db X Y : (∀ p x, tracked p → X p x ↔ Y p x) → bitmaps_ok g s db X → bitmaps_ok g s db Y.
Proof.
  intros H HB p Hp. specialize (HB p Hp).
  destruct (db !! p).
  - eapply bitmap_repr_ext; [|exact HB]. intros x. by apply H.
  - eapply slot_ok_ext; [|exact HB]. intros x. by apply H.
Qed.

(** Blobs and pairs are only ever added. *)
Definition grows (g g' : reader) : Prop :=
  (∀ h d, g (bitmapKey h) = Some d → g' (bitmapKey h) = Some d) ∧ (∀ p, has_pair g p → has_pair g' p).

Lemma grows_refl g : grows g g.
Proof. done. Qed.
Lemma grows_trans g1 g2 g3 : grows g1 g2 → grows g2 g3 → grows g1 g3.
Proof. intros [? ?] [? ?]; split; eauto. Qed.
Lemma grows_eq g g' : (∀ k, g' k = g k) → grows g g'.
Proof. intros H. unfold grows, has_pair. split; intros *; by rewrite H. Qed.

Lemma slot_ok_grows g g' h p X : grows g g' → slot_ok g h p X → slot_ok g' h p X.
Proof.
  intros [Hb Hp] [[-> Hn]|(Hz & (d & B & ? & ? & ? & HB) & ?)]; [by left|right].
  split; [done|]. split; [|by apply Hp]. exists d, B. split; [by apply Hb|done].
Qed.

(** Two states with the same system storage and code. *)
Definition storage_same (s s' : StateDB) : Prop :=
  ∀ k, GetState s' systemAddress k = GetState s systemAddress k.

Lemma bitmaps_ok_frame g g' s s' db X : grows g g' → (∀ p, tracked p → slot_of s' p = slot_of s p) →
  bitmaps_ok g s db X → bitmaps_ok g' s' db X.
Proof.
  intros Hg Hs HB p Hp. specialize (HB p Hp). destruct (db !! p); [done|].
  rewrite Hs by done. by eapply slot_ok_grows.
Qed.

Lemma trie_repr_frame g g' s s' de db st : grows g g' → storage_same s s' → (∀ a, GetCode s' a = GetCode s a) →
  trie_repr g s de db st → trie_repr g' s' de db st.
Proof.
  intros Hg Hs Hc [T1 T2 T3 T4]. split.
  - unfold readEntityCount. by rewrite Hs.
  - intros id Hid. rewrite Hs. by apply T2.
  - intros a. specialize (T3 a). unfold code_ok in *. by rewrite !Hc.
  - eapply bitmaps_ok_frame; [done| |done]. intros p _. apply Hs.
Qed.

Lemma pebble_repr_frame g g' s s' st :
  (∀ p, tracked p → g' (annotKey (pair_key p) (pair_val p)) = g (annotKey (pair_key p) (pair_val p))) →
  (∀ id a e, abs_ents st !! a = Some (id, e) → g' (idKey id) = g (idKey id) ∧ g' (addrKey a) = g (addrKey a)) →
  (∀ p, tracked p → slot_of s' p = slot_of s p) →
  pebble_repr g s st → pebble_repr g' s' st.
Proof.
  intros Ha Hi Hs [P1 P2 P3]. split.
  - intros p Hp. rewrite Ha, Hs by done. by apply P1.
  - intros a id e He. destruct (Hi _ _ _ He) as [-> _]. eauto.
  - intros a id e He. destruct (Hi _ _ _ He) as [_ ->]. eauto.
Qed.

Lemma db_wf_ext g g' : (∀ k, g' k = g k) → db_wf g → db_wf g'.
Proof.
  intros H [D1 D2 D3 D4]. split; intros *; rewrite H; auto.
Qed.

(** Writes to typed keys. *)
Definition write_ok (k : db_key) (v : bytes) : Prop :=
  match k with
  | KAnnot key val | KPairs key val => tracked (mkAnnotPair key val)
  | KID id => tracked_id id ∧ ∃ a : Address, v = a
  | KBitmap h => hashed v ∧ Keccak256Hash v = h
  | _ => True
  end.

Lemma db_wf_upd g k v : write_ok k v → db_wf g → db_wf (upd (key_bytes k) v g).
Proof.
  intros Hk [D1 D2 D3 D4]. unfold upd. split.
  - intros k' Hp. destruct (decide (key_bytes k = k')) as [<-|_]; [|by apply D1].
    intros _. destruct Hp as [suf Hp]. destruct k; try discriminate Hp. by exists (mkAnnotPair key val).
  - intros k' Hp. destruct (decide (key_bytes k = k')) as [<-|_]; [|by apply D2].
    intros _. destruct Hp as [suf Hp]. destruct k; try discriminate Hp. by exists (mkAnnotPair key val).
  - intros k' v' Hp. destruct (decide (key_bytes k = k')) as [<-|_]; [|by apply D3].
    intros [= <-]. destruct Hp as [suf Hp]. destruct k; try discriminate Hp.
    destruct Hk as [? [a ->]]. by exists id, a.
  - intros h d. destruct (decide (key_bytes k = bitmapKey h)) as [Ek|_]; [|by apply D4].
    intros [= <-]. destruct k; try discriminate Ek. apply app_inv_head, array_bytes_inj in Ek. by subst.
Qed.

Lemma grows_upd g k v : db_wf g → write_ok k v → grows g (upd (key_bytes k) v g).
Proof.
  intros D Hk. unfold upd. split.
  - intros h d Hd. destruct (decide (key_bytes k = bitmapKey h)) as [Ek|_]; [|done].
    destruct k; try discriminate Ek. apply app_inv_head, array_bytes_inj in Ek. subst.
    apply (dw_blob _ D) in Hd as [? ?]. destruct Hk as [? ?]. f_equal. apply keccak_inj; try done. congruence.
  - intros p. unfold has_pair. by destruct (decide _).
Qed.

(** The pointer entries and the slots of tracked pairs are distinct. *)
Lemma annotKey_inj p q : tracked p → tracked q →
  annotKey (pair_key p) (pair_val p) = annotKey (pair_key q) (pair_val q) → p = q.
Proof.
  destruct p as [k v], q as [k' v']. intros [Hp _] [Hq _] Ek. apply app_inv_head in Ek.
  simpl in *. by destruct (sep_inj _ _ _ _ Hp Hq Ek) as [-> ->].
Qed.

Lemma annotSlotKey_inj p q : tracked p → tracked q →
  annotSlotKey (pair_key p) (pair_val p) = annotSlotKey (pair_key q) (pair_val q) → p = q.
Proof.
  intros Hp Hq Ek. apply keccak_inj in Ek; [|by apply Hp|by apply Hq].
  apply annotKey_inj; [done..|]. apply app_inv_head in Ek. unfold annotKey. by rewrite Ek.
Qed.

Lemma idSlotKey_inj i j : tracked_id i → tracked_id j → idSlotKey i = idSlotKey j → i = j.
Proof.
  intros [? Hi] [? Hj] Ek. apply keccak_inj in Ek; [|done..].
  apply app_inv_head in Ek. by apply PutUint64_inj.
Qed.

Lemma idSlotKey_annotSlotKey i p : tracked_id i → tracked p → idSlotKey i ≠ annotSlotKey (pair_key p) (pair_val p).
Proof. intros [_ Hi] [_ Hp] Ek. apply keccak_inj in Ek; [|done..]. discriminate Ek. Qed.

End ReprLemmas.
