(* ===== verification/OpsProofs.v ===== *)
(** The six operations refine their abstract counterparts, on the success and
    on the error branch (src/store/ops.go). *)
From S2P Require Export Repr.

Section OpsProofs.
Context {E : Env} {EO : EnvOk} {CF : CollisionFree}.

(** What a step leaves alone: the database under the staging layer, the block
    identity, the stored blobs and pairs, and every key it does not name. *)
Record cs_frame (touched : bytes → Prop) (cs cs' : CacheStore) : Prop := {
  cf_db : sd_Database (stagingDB cs') = sd_Database (stagingDB cs);
  cf_number : blockNumber cs' = blockNumber cs;
  cf_hash : blockHash cs' = blockHash cs;
  cf_parent : parentHash cs' = parentHash cs;
  cf_grows : grows (rd cs) (rd cs');
  cf_rd k : ¬ touched k → rd cs' k = rd cs k;
  (* an ID entry is written along with the entry of its address *)
  cf_id k v : rd cs' (prefixID ++ k) = Some v → rd cs (prefixID ++ k) = Some v ∨ touched (prefixAddr ++ v);
}.

Lemma cs_frame_refl T cs : cs_frame T cs cs.
Proof. split; auto using grows_refl. Qed.

Lemma cs_frame_mono (T T' : bytes → Prop) cs cs' : (∀ k, T k → T' k) → cs_frame T cs cs' → cs_frame T' cs cs'.
Proof.
  intros H [? ? ? ? ? Hr Hi]. split; try done; [intros k Hk; apply Hr; auto|].
  intros k v Hk. destruct (Hi k v Hk); auto.
Qed.

Lemma cs_frame_trans T cs1 cs2 cs3 : cs_frame T cs1 cs2 → cs_frame T cs2 cs3 → cs_frame T cs1 cs3.
Proof.
  intros [A1 A2 A3 A4 A5 A6 A7] [B1 B2 B3 B4 B5 B6 B7]. split; [congruence..|by eapply grows_trans| |].
  - intros k Hk. by rewrite B6, A6.
  - intros k v Hk. destruct (B7 k v Hk); auto.
Qed.

(** A write to the staging layer. *)
Lemma cs_Put_ok cs k v : live (stagingDB cs) → ∃ sd, cs_Put cs k v = Ok (set_stagingDB sd cs) ∧ live sd ∧
  sd_Database sd = sd_Database (stagingDB cs) ∧ ∀ k', staging_reader sd k' = upd k v (rd cs) k'.
Proof.
  intros Hl. unfold cs_Put. destruct (staging_Put_ok _ k v Hl) as (sd & -> & ?). by exists sd.
Qed.

(** ** Bitmaps *)

(** What the bitmap operations need of the cache store, for index contents [X]. *)
Record bm_pre (cs : CacheStore) (X : annotPair → N → Prop) : Prop := {
  bp_live : live (stagingDB cs);
  bp_annot p : tracked p → rd cs (annotKey (pair_key p) (pair_val p)) =
    if decide (slot_of (stateDB cs) p = zeroHash) then None else Some (array_bytes (slot_of (stateDB cs) p));
  bp_bitmaps : bitmaps_ok (rd cs) (stateDB cs) (dirtyBitmaps cs) X;
  bp_dirty p : is_Some (dirtyBitmaps cs !! p) → tracked p;
}.

Lemma cs_repr_bm_pre cs st : cs_repr cs st → bm_pre cs (indexed st).
Proof. intros [? ? ? ? [] [] ? ? ? ?]. by split. Qed.

Lemma bm_pre_ext cs X Y : (∀ p x, tracked p → X p x ↔ Y p x) → bm_pre cs X → bm_pre cs Y.
Proof. intros H [? ? ? ?]. split; try done. by eapply bitmaps_ok_ext. Qed.

Lemma BytesToHash_bytes (h : Hash) : BytesToHash h = h.
Proof. apply array_bytes_inj. apply (BytesToHash_crop []), array_length. Qed.

Lemma BytesToAddress_bytes (a : Address) : BytesToAddress a = a.
Proof. apply array_bytes_inj. apply (BytesToAddress_crop []), array_length. Qed.

Lemma bitmap_repr_New : bitmap_repr roaring_New (λ _, False).
Proof. intros x. by rewrite Contains_New. Qed.

(** First touch: the loaded bitmap holds the pair's set. *)
Lemma loadBitmap_ok cs X p : bm_pre cs X → tracked p → dirtyBitmaps cs !! p = None →
  ∃ B, loadBitmap (stagingDB cs) (pair_key p) (pair_val p) = Ok B ∧ bitmap_repr B (X p).
Proof.
  intros [Hl Ha Hb _] Hp Hn. specialize (Ha p Hp). specialize (Hb p Hp). rewrite Hn in Hb.
  unfold loadBitmap. destruct Hb as [[Hz He]|(Hz & (d & B & Hd & Hne & HB & HX) & _)].
  - rewrite decide_True in Ha by done. destruct (staging_Get_None _ _ Hl Ha) as [e ->]. cbn.
    exists roaring_New. split; [done|]. intros x. rewrite Contains_New. split; [done|]. intros ?. by destruct (He x).
  - rewrite decide_False in Ha by done. apply staging_Get_Some in Ha as ->. cbn.
    rewrite array_length. cbn. rewrite BytesToHash_bytes.
    apply staging_Get_Some in Hd as ->. cbn. eauto.
Qed.

Lemma mutateBitmap_ok cs X p f (F : (N → Prop) → N → Prop) : bm_pre cs X → tracked p →
  (∀ B Y, bitmap_repr B Y → bitmap_repr (f B) (F Y)) →
  ∃ db', mutateBitmap cs (pair_key p) (pair_val p) f = Ok (set_dirtyBitmaps db' cs) ∧
    bm_pre (set_dirtyBitmaps db' cs) (λ q, if decide (q = p) then F (X p) else X q).
Proof.
  intros Hpre Hp Hf. unfold mutateBitmap. replace (mkAnnotPair _ _) with p by (by destruct p).
  assert (∃ B, match dirtyBitmaps cs !! p with
      | Some bm => Ok bm | None => loadBitmap (stagingDB cs) (pair_key p) (pair_val p) end = Ok B ∧
      bitmap_repr B (X p)) as (B & HB & HX).
  { destruct (dirtyBitmaps cs !! p) as [B|] eqn:Ed; [|by apply loadBitmap_ok].
    exists B. split; [done|]. pose proof (bp_bitmaps _ _ Hpre p Hp) as Hb. by rewrite Ed in Hb. }
  rewrite HB. cbn. eexists. split; [done|]. destruct Hpre as [Hl Ha Hb Hd]. split; simpl; try done.
  - intros q Hq. rewrite lookup_insert. destruct (decide (q = p)) as [->|Hne].
    + rewrite decide_True by done. by apply Hf.
    + rewrite decide_False by done. by apply Hb.
  - intros q. rewrite lookup_insert. destruct (decide (p = q)) as [<-|]; [done|]. apply Hd.
Qed.

Lemma bitmapAdd_ok cs X p id : bm_pre cs X → tracked p →
  ∃ db', bitmapAdd cs (pair_key p) (pair_val p) id = Ok (set_dirtyBitmaps db' cs) ∧
    bm_pre (set_dirtyBitmaps db' cs) (λ q x, X q x ∨ (q = p ∧ x = id)).
Proof.
  intros Hpre Hp. destruct (mutateBitmap_ok cs X p (bm_Add id) (λ Y x, Y x ∨ x = id)) as (db' & Hm & Hpre'); try done.
  { intros B Y HB x. rewrite Contains_Add, orb_true_iff, bool_decide_eq_true, (HB x). tauto. }
  exists db'. split; [done|]. eapply bm_pre_ext; [|exact Hpre'].
  intros q x _. simpl. destruct (decide (q = p)) as [->|]; tauto.
Qed.

Lemma bitmapRemove_ok cs X p id : bm_pre cs X → tracked p →
  ∃ db', bitmapRemove cs (pair_key p) (pair_val p) id = Ok (set_dirtyBitmaps db' cs) ∧
    bm_pre (set_dirtyBitmaps db' cs) (λ q x, X q x ∧ ¬ (q = p ∧ x = id)).
Proof.
  intros Hpre Hp. destruct (mutateBitmap_ok cs X p (bm_Remove id) (λ Y x, Y x ∧ x ≠ id)) as (db' & Hm & Hpre'); try done.
  { intros B Y HB x. rewrite Contains_Remove, andb_true_iff, negb_true_iff, bool_decide_eq_false, (HB x). tauto. }
  exists db'. split; [done|]. eapply bm_pre_ext; [|exact Hpre'].
  intros q x _. simpl. destruct (decide (q = p)) as [->|]; tauto.
Qed.

(** A loop of bitmap changes whose steps act on the contents by [F]. *)
Lemma bitmap_loop_ok (f : CacheStore → annotPair → result CacheStore)
    (F : list annotPair → (annotPair → N → Prop) → annotPair → N → Prop) cs X pairs :
  (∀ cs X p, bm_pre cs X → tracked p → ∃ db', f cs p = Ok (set_dirtyBitmaps db' cs) ∧
     bm_pre (set_dirtyBitmaps db' cs) (F [p] X)) →
  (∀ X q x, F [] X q x ↔ X q x) →
  (∀ l p X q x, F (l ++ [p]) X q x ↔ F [p] (F l X) q x) →
  bm_pre cs X → Forall tracked pairs →
  ∃ db', foldM f cs pairs = Ok (set_dirtyBitmaps db' cs) ∧ bm_pre (set_dirtyBitmaps db' cs) (F pairs X).
Proof.
  intros Hf H0 Hs Hpre Hall.
  destruct (foldM_total (λ l cs', ∃ db', cs' = set_dirtyBitmaps db' cs ∧ bm_pre cs' (F l X)) f cs pairs)
    as (cs' & Hfold & db' & -> & Hpre'); [| |by eauto].
  - exists (dirtyBitmaps cs). split; [by destruct cs|]. eapply bm_pre_ext; [|done]. intros; by rewrite H0.
  - intros l p rest cs' -> (db' & -> & Hpre'). apply Forall_app in Hall as [_ [Hp _]%Forall_cons].
    destruct (Hf _ _ p Hpre' Hp) as (db'' & -> & Hpre''). eexists. split; [done|].
    exists db''. split; [done|]. eapply bm_pre_ext; [|exact Hpre'']. intros; by rewrite Hs.
Qed.

Lemma bitmapAddAll_ok cs X pairs id : bm_pre cs X → Forall tracked pairs →
  ∃ db', bitmapAddAll cs pairs id = Ok (set_dirtyBitmaps db' cs) ∧
    bm_pre (set_dirtyBitmaps db' cs) (λ q x, X q x ∨ (q ∈ pairs ∧ x = id)).
Proof.
  apply (bitmap_loop_ok _ (λ l X q x, X q x ∨ (q ∈ l ∧ x = id))).
  - intros cs' X' p Hpre Hp. destruct (bitmapAdd_ok _ _ _ id Hpre Hp) as (db' & -> & Hpre').
    exists db'. split; [done|]. eapply bm_pre_ext; [|done]. intros. simpl. by rewrite list_elem_of_singleton.
  - intros X' q x. rewrite elem_of_nil. tauto.
  - intros l p X' q x. rewrite elem_of_app, list_elem_of_singleton. tauto.
Qed.

Lemma bitmapRemoveAll_ok cs X pairs id : bm_pre cs X → Forall tracked pairs →
  ∃ db', bitmapRemoveAll cs pairs id = Ok (set_dirtyBitmaps db' cs) ∧
    bm_pre (set_dirtyBitmaps db' cs) (λ q x, X q x ∧ ¬ (q ∈ pairs ∧ x = id)).
Proof.
  apply (bitmap_loop_ok _ (λ l X q x, X q x ∧ ¬ (q ∈ l ∧ x = id))).
  - intros cs' X' p Hpre Hp. destruct (bitmapRemove_ok _ _ _ id Hpre Hp) as (db' & -> & Hpre').
    exists db'. split; [done|]. eapply bm_pre_ext; [|done]. intros. simpl. by rewrite list_elem_of_singleton.
  - intros X' q x. rewrite elem_of_nil. tauto.
  - intros l p X' q x. rewrite elem_of_app, list_elem_of_singleton. tauto.
Qed.

(** ** Entities *)

Lemma getEntity_ok cs st a id e : cs_repr cs st → abs_ents st !! a = Some (id, e) →
  ∃ de, getEntity cs a = Ok (e, set_dirtyEntities de cs) ∧ cs_repr (set_dirtyEntities de cs) st.
Proof.
  intros R Ha. pose proof (tr_code _ _ _ _ _ (cr_trie _ _ R) a) as Hc. rewrite Ha in Hc. simpl in Hc.
  unfold getEntity. destruct (dirtyEntities cs !! a) as [e'|] eqn:Ed.
  - subst e'. exists (dirtyEntities cs). by destruct cs.
  - destruct Hc as [Hne Hdec]. destruct (GetCode (stateDB cs) a) as [|b code] eqn:Eg; [done|].
    cbn. cbn in Hdec. rewrite Hdec. cbn. eexists. split; [done|].
    destruct R as [R1 R2 R3 R4 [T1 T2 T3 T4] R6 R7 R8 R9 R10]. split; simpl; try done. split; simpl; try done.
    intros a'. specialize (T3 a'). unfold code_ok in *. rewrite lookup_insert.
    destruct (decide (a = a')) as [<-|Hn]; [|by destruct (abs_ents st !! a') as [[]|]].
    by rewrite Ha.
Qed.

Lemma getEntity_missing cs st a : cs_repr cs st → abs_ents st !! a = None → ∃ err, getEntity cs a = Err err.
Proof.
  intros R Ha. pose proof (tr_code _ _ _ _ _ (cr_trie _ _ R) a) as Hc. rewrite Ha in Hc.
  destruct Hc as [Hd Hc]. unfold getEntity. rewrite Hd, Hc. cbn. eauto.
Qed.

Lemma lookupEntityID_ok cs st a id e : cs_repr cs st → abs_ents st !! a = Some (id, e) → lookupEntityID cs a = Ok id.
Proof.
  intros R Ha. unfold lookupEntityID. pose proof (pb_addr _ _ _ (cr_pebble _ _ R) _ _ _ Ha) as Hg.
  apply staging_Get_Some in Hg as ->.
  destruct (wf_id _ (cr_wf _ _ R) _ _ _ Ha) as [_ [Hid _]].
  pose proof (Uint64_PutUint64 id [] Hid) as Hu. by rewrite app_nil_r in Hu.
Qed.

(** The state after an entity was replaced in the dirty cache and the bitmaps
    were changed to match. *)
Lemma cs_repr_put cs st a id e e' db : cs_repr cs st → abs_ents st !! a = Some (id, e) → entity_ok e' →
  bm_pre (set_dirtyBitmaps db cs) (indexed (abs_put st a id e')) →
  cs_repr (set_dirtyEntities (<[a := e']> (dirtyEntities cs)) (set_dirtyBitmaps db cs)) (abs_put st a id e').
Proof.
  intros [R1 R2 R3 R4 [T1 T2 T3 T4] [P1 P2 P3] R7 R8 R9 R10] Ha He [B1 B2 B3 B4].
  assert (∀ x a' e1, abs_ents (abs_put st a id e') !! a' = Some (x, e1) → ∃ e2, abs_ents st !! a' = Some (x, e2)) as Hsame.
  { simpl. intros x a' e1 [[<- [= <- <-]]|[_ H]]%lookup_insert_Some; eauto. }
  assert (∀ x a' e1, abs_ents st !! a' = Some (x, e1) → ∃ e2, abs_ents (abs_put st a id e') !! a' = Some (x, e2)) as Hsame'.
  { simpl. intros x a' e1 H. destruct (decide (a = a')) as [<-|].
    - rewrite lookup_insert_eq. simplify_eq. eauto.
    - rewrite lookup_insert_ne by done. eauto. }
  split; simpl; try done.
  - by eapply abs_wf_put.
  - split; simpl; try done.
    + intros x Hx. destruct (T2 x Hx) as [(a' & e1 & H & ->)|[Hn ->]]; [left|right].
      * destruct (Hsame' _ _ _ H) as [e2 ?]. eauto.
      * split; [|done]. intros (a' & e1 & H). apply Hn. destruct (Hsame _ _ _ H). by eexists _, _.
    + intros a'. specialize (T3 a'). unfold code_ok in *. rewrite !lookup_insert.
      by destruct (decide (a = a')).
  - split; [done|..]; intros a' x e1 H; destruct (Hsame _ _ _ H); eauto.
Qed.

(** An update in place of a live entity: the shared shape of [processUpdate],
    [processExtend] and [processTransfer]. *)
Lemma modify_missing cs st a f : cs_repr cs st → abs_modify st a f = None →
  ∃ err, getEntity cs a = Err err.
Proof.
  intros R Hn. apply (getEntity_missing cs st); [done|]. unfold abs_modify in Hn.
  by destruct (abs_ents st !! a) as [[]|].
Qed.

Lemma elem_of_annotPairSet p pairs : is_Some (annotPairSet pairs !! p) ↔ p ∈ pairs.
Proof.
  unfold annotPairSet. assert (∀ m : gmap annotPair (), is_Some (foldl (λ m p, <[p := tt]> m) m pairs !! p)
    ↔ is_Some (m !! p) ∨ p ∈ pairs) as ->.
  2:{ rewrite lookup_empty, is_Some_alt. tauto. }
  induction pairs as [|q pairs IH]; intros m; simpl; [rewrite elem_of_nil; tauto|].
  rewrite IH, elem_of_cons, lookup_insert_is_Some. destruct (decide (q = p)) as [->|]; tauto || (split; intuition congruence).
Qed.

Lemma elem_of_keys_not_in p l1 l2 :
  p ∈ keys_not_in (annotPairSet l1) (annotPairSet l2) ↔ p ∈ l1 ∧ p ∉ l2.
Proof.
  unfold keys_not_in. rewrite list_elem_of_filter, <-(elem_of_annotPairSet p l1), <-(elem_of_annotPairSet p l2).
  rewrite <-eq_None_not_Some, list_elem_of_fmap. split.
  - intros [Hn ([q []] & -> & Hq)]. split; [|done]. rewrite (go_range_perm (annotPairSet l1)) in Hq.
    apply elem_of_map_to_list in Hq. by eexists.
  - intros [[[] Hp] Hn]. split; [done|]. exists (p, tt). split; [done|].
    rewrite (go_range_perm (annotPairSet l1)). by apply elem_of_map_to_list.
Qed.

(** Extension and transfer move one built-in pair. *)
Lemma allAnnotations_extended e x q : names_ok e →
  q ∈ allAnnotations (extended x e) ↔
  (q ∈ allAnnotations e ∧ q ≠ mkAnnotPair (str "$expiration") (numericVal (ExpiresAt e))) ∨
  q = mkAnnotPair (str "$expiration") (numericVal x).
Proof.
  intros Hn. assert (q ∈ userAnnotations e → q ≠ mkAnnotPair (str "$expiration") (numericVal (ExpiresAt e))) as Hu.
  { intros Hq ->. unfold names_ok in Hn. rewrite Forall_forall in Hn. apply (Hn _ Hq). by left. }
  unfold allAnnotations, builtinAnnotations. change (userAnnotations (extended x e)) with (userAnnotations e).
  rewrite !elem_of_app, !elem_of_cons, elem_of_nil. cbn [Creator CreatedAtBlock LastModifiedAtBlock Owner Key ExpiresAt ContentType extended].
  split.
  - intros [[->|[->|[->|[->|[->|[->|[->|[->|[] ] ] ] ] ] ] ] ]|Hq]; [..|by auto 10]; try (by right);
      left; (split; [by auto 12|]); intros Eq; discriminate (f_equal pair_key Eq).
  - intros [[[[->|[->|[->|[->|[->|[->|[->|[->|[] ] ] ] ] ] ] ] ]|Hq] Hne]| ->]; by auto 12.
Qed.

Lemma allAnnotations_transferred e x q : names_ok e →
  q ∈ allAnnotations (transferred x e) ↔
  (q ∈ allAnnotations e ∧ q ≠ mkAnnotPair (str "$owner") (ToLower (Address_Hex (Owner e)))) ∨
  q = mkAnnotPair (str "$owner") (ToLower (Address_Hex x)).
Proof.
  intros Hn. assert (q ∈ userAnnotations e → q ≠ mkAnnotPair (str "$owner") (ToLower (Address_Hex (Owner e)))) as Hu.
  { intros Hq ->. unfold names_ok in Hn. rewrite Forall_forall in Hn. apply (Hn _ Hq). by right. }
  unfold allAnnotations, builtinAnnotations. change (userAnnotations (transferred x e)) with (userAnnotations e).
  rewrite !elem_of_app, !elem_of_cons, elem_of_nil. cbn [Creator CreatedAtBlock LastModifiedAtBlock Owner Key ExpiresAt ContentType transferred].
  split.
  - intros [[->|[->|[->|[->|[->|[->|[->|[->|[] ] ] ] ] ] ] ] ]|Hq]; [..|by auto 10]; try (by right);
      left; (split; [by auto 12|]); intros Eq; discriminate (f_equal pair_key Eq).
  - intros [[[[->|[->|[->|[->|[->|[->|[->|[->|[] ] ] ] ] ] ] ] ]|Hq] Hne]| ->]; by auto 12.
Qed.

(** ** The operations *)

Lemma readEntityCount_increment s : is_u64 (readEntityCount s + 1) →
  (incrementEntityCount s).1 = (readEntityCount s + 1)%N ∧
  readEntityCount (incrementEntityCount s).2 = (readEntityCount s + 1)%N.
Proof.
  intros Hu. unfold incrementEntityCount. cbn [fst snd]. rewrite u64_id by done. split; [done|].
  unfold readEntityCount at 1. rewrite GetState_SetState, decide_True by done.
  rewrite array_copy_exact.
  - rewrite drop_app_length' by (unfold zeros; by rewrite length_replicate). by apply be_decode_PutUint64.
  - unfold zeros; lengths.
Qed.

Lemma count_annot_slot p : tracked p → entityCountSlot ≠ annotSlotKey (pair_key p) (pair_val p).
Proof. intros [_ Hp] Ek. apply keccak_inj in Ek; [discriminate Ek|apply hashed_entity_count|done]. Qed.
Lemma count_id_slot id : tracked_id id → entityCountSlot ≠ idSlotKey id.
Proof. intros [_ Hp] Ek. apply keccak_inj in Ek; [discriminate Ek|apply hashed_entity_count|done]. Qed.

(** The two mappings of a new entity. *)
Definition create_touched (st : AbsState) (o : CreateOp) (k : bytes) : Prop :=
  k = idKey (abs_count st + 1) ∨ k = addrKey (keyAddress (create_EntityKey o)).

Definition op_touched (st : AbsState) (op : ArkivOperation) (k : bytes) : Prop :=
  match op_Create op with Some o => create_touched st o k | None => False end.

(** Trie nodes are untouched by writes in the service's name space. *)
Lemma agree_on_trie_upd k v g g0 : agree_on_trie g g0 → agree_on_trie (upd (key_bytes k) v g) g0.
Proof.
  intros H k' Hk. rewrite upd_ne; [by apply H|]. intros <-. eapply trie_key_disjoint; [done|apply arkiv_prefix].
Qed.

Lemma agree_on_trie_ext g g' g0 : (∀ k, g' k = g k) → agree_on_trie g g0 → agree_on_trie g' g0.
Proof. intros H Hg k Hk. rewrite H. by apply Hg. Qed.

Lemma agree_on_trie_sym g g' : agree_on_trie g g' → agree_on_trie g' g.
Proof. intros H k Hk. symmetry. by apply H. Qed.

(** The two writes of a creation. *)
Lemma create_grows cs st o sd : cs_repr cs st → create_valid (blockNumber cs) st o →
  let a := keyAddress (create_EntityKey o) in
  let id := (abs_count st + 1)%N in
  (∀ k, staging_reader sd k = upd (addrKey a) (encodeUint64 id) (upd (idKey id) a (rd cs)) k) →
  db_wf (staging_reader sd) ∧ grows (rd cs) (staging_reader sd).
Proof.
  intros R (_ & _ & _ & Hid & _) a id Hrd. pose proof (cr_db _ _ R) as D.
  assert (write_ok (KID id) a) as Hw by (split; [done|by eexists]).
  pose proof (db_wf_upd _ (KID id) a Hw D) as D'. split.
  - eapply db_wf_ext; [exact Hrd|]. by apply (db_wf_upd _ (KAddr a)).
  - eapply grows_trans; [|by apply grows_eq]. eapply grows_trans; [by apply (grows_upd _ (KID id) a)|].
    by apply (grows_upd _ (KAddr a)).
Qed.

(** The cache store of a creation, before the bitmaps are updated. *)
Lemma create_pre cs st o sd : cs_repr cs st → create_valid (blockNumber cs) st o →
  let a := keyAddress (create_EntityKey o) in
  let id := (abs_count st + 1)%N in
  let s := setIDSlot (CreateAccount (incrementEntityCount (stateDB cs)).2 a) id a in
  live sd → (∀ k, staging_reader sd k = upd (addrKey a) (encodeUint64 id) (upd (idKey id) a (rd cs)) k) →
  bm_pre (set_dirtyEntities (<[a := created (blockNumber cs) o]> (dirtyEntities cs))
    (set_stagingDB sd (set_stateDB s cs))) (indexed st).
Proof.
  intros R V a id s Hl Hrd. destruct (create_grows cs st o sd R V Hrd) as [_ Hgr].
  destruct V as (Hf & Hs & Hz & Hid & He). destruct R as [R1 R2 R3 R4 [T1 T2 T3 T4] [P1 P2 P3] R7 R8 R9 R10].
  assert (∀ p, tracked p → slot_of s p = slot_of (stateDB cs) p) as Hslot.
  { intros p Hp. unfold s, slot_of, setIDSlot. rewrite GetState_SetState, decide_False.
    2:{ intros [_ Ek]. by eapply idSlotKey_annotSlotKey. }
    rewrite GetState_CreateAccount, decide_False by done. unfold incrementEntityCount. cbn [snd].
    rewrite GetState_SetState, decide_False; [done|]. intros [_ Ek]. by eapply count_annot_slot. }
  split; simpl; try done.
  - intros p Hp. rewrite Hslot, <-P1 by done. rewrite Hrd, !upd_ne; [done|key_ne..].
  - by eapply bitmaps_ok_frame; [exact Hgr|exact Hslot|exact T4].
Qed.

Lemma cs_repr_create cs st o sd db : cs_repr cs st → create_valid (blockNumber cs) st o →
  let a := keyAddress (create_EntityKey o) in
  let id := (abs_count st + 1)%N in
  let s := setIDSlot (CreateAccount (incrementEntityCount (stateDB cs)).2 a) id a in
  live sd → sd_Database sd = sd_Database (stagingDB cs) →
  (∀ k, staging_reader sd k = upd (addrKey a) (encodeUint64 id) (upd (idKey id) a (rd cs)) k) →
  let cs' := set_dirtyEntities (<[a := created (blockNumber cs) o]> (dirtyEntities cs))
    (set_stagingDB sd (set_stateDB s cs)) in
  bm_pre (set_dirtyBitmaps db cs') (indexed (abs_create (blockNumber cs) st o)) →
  cs_repr (set_dirtyBitmaps db cs') (abs_create (blockNumber cs) st o).
Proof.
  intros R V a id s Hl Hdb Hrd cs' [B1 B2 B3 B4]. destruct (create_grows cs st o sd R V Hrd) as [D' _].
  assert (abs_wf (abs_create (blockNumber cs) st o)) as W' by (apply abs_wf_create; [by apply R|done]).
  destruct V as (Hf & Hs & Hz & Hid & He).
  destruct R as [R1 R2 R3 R4 [T1 T2 T3 T4] [P1 P2 P3] R7 R8 R9 R10].
  assert (is_u64 (readEntityCount (stateDB cs) + 1)) as Hu by (rewrite T1; apply Hid).
  pose proof (readEntityCount_increment _ Hu) as [Hinc1 Hinc2].
  split; try done.
  - (* system account *)
    destruct R2 as [Hex Hno]. simpl. unfold s, setIDSlot, incrementEntityCount, sys_ok. cbn [snd].
    rewrite Exist_SetState, Exist_CreateAccount, Exist_SetState, GetNonce_SetState, GetNonce_CreateAccount,
      GetNonce_SetState, Hex, !orb_true_r, decide_False by done. done.
  - (* trie *) split; [| | |exact B3].
    + simpl. unfold s, setIDSlot, readEntityCount. rewrite GetState_SetState, decide_False.
      2:{ intros [_ Ek]. by eapply count_id_slot. }
      rewrite GetState_CreateAccount, decide_False by done.
      fold (readEntityCount (incrementEntityCount (stateDB cs)).2). by rewrite Hinc2, T1.
    + intros x Hx. simpl. unfold s, setIDSlot. rewrite GetState_SetState.
      destruct (decide _) as [[_ Ek]|Hne].
      * apply idSlotKey_inj in Ek as <-; [|done..]. left. exists a. eexists. by rewrite lookup_insert_eq.
      * rewrite GetState_CreateAccount, decide_False by done. unfold incrementEntityCount. cbn [snd].
        rewrite GetState_SetState, decide_False by (intros [_ Ek]; by eapply count_id_slot).
        assert (id ≠ x) as Hnx by (intros ->; by apply Hne).
        destruct (T2 x Hx) as [(a' & e & H & ->)|[Hn ->]]; [left|right].
        -- exists a', e. split; [|done]. rewrite lookup_insert_ne; [done|]. intros <-. by rewrite Hf in H.
        -- split; [|done]. intros (a' & e & H). simpl in H.
           apply lookup_insert_Some in H as [[_ [= E1 _]]|[_ H]]; [done|]. apply Hn. by eexists _, _.
    + intros a'. specialize (T3 a'). simpl. unfold code_ok, s, setIDSlot, incrementEntityCount in *. cbn [snd].
      rewrite GetCode_SetState, GetCode_CreateAccount, GetCode_SetState, !lookup_insert. fold a.
      destruct (decide (a = a')) as [<-|Hne]; [done|]. by destruct (abs_ents st !! a') as [[]|].
  - (* caches *) split; [exact B2|..]; simpl; intros a' x e' [[<- [= <- <-]]|[Hne H]]%lookup_insert_Some;
      rewrite Hrd.
    + rewrite upd_ne by key_ne. apply upd_eq.
    + rewrite upd_ne by key_ne. rewrite upd_ne; [eauto|]. intros Ek.
      destruct (wf_id _ R3 _ _ _ H) as [Hle [Hx _]]. apply app_inv_head, PutUint64_inj in Ek; [lia|apply Hid|done].
    + apply upd_eq.
    + rewrite upd_ne; [|intros Ek; by apply app_inv_head, array_bytes_inj in Ek].
      rewrite upd_ne by key_ne. eauto.
  - simpl. rewrite Hdb. unfold s, setIDSlot, incrementEntityCount. cbn [snd].
    by apply opened_SetState, opened_CreateAccount, opened_SetState.
  - simpl. rewrite Hdb. eapply agree_on_trie_ext; [exact Hrd|].
    apply (agree_on_trie_upd (KAddr a)), (agree_on_trie_upd (KID id)), R9.
Qed.

Lemma processCreate_ok cs st o : cs_repr cs st → create_valid (blockNumber cs) st o →
  ∃ cs', processCreate cs o = Ok cs' ∧ cs_repr cs' (abs_create (blockNumber cs) st o) ∧
    cs_frame (create_touched st o) cs cs'.
Proof.
  intros R V. pose proof V as (Hf & _ & _ & Hid & He).
  set (a := keyAddress (create_EntityKey o)) in *. set (id := (abs_count st + 1)%N) in *.
  unfold processCreate. fold a.
  assert (incrementEntityCount (stateDB cs) = (id, (incrementEntityCount (stateDB cs)).2)) as Einc.
  { destruct (readEntityCount_increment (stateDB cs)) as [E1 _]; rewrite (tr_count _ _ _ _ _ (cr_trie _ _ R)) in *.
    - apply Hid.
    - rewrite (surjective_pairing (incrementEntityCount (stateDB cs))) at 1. by rewrite E1. }
  rewrite Einc. set (s := setIDSlot _ id a).
  destruct (cs_Put_ok (set_stateDB s cs) (idKey id) a) as (sd1 & -> & Hl1 & Hd1 & Hr1); [apply R|]. bind_step.
  destruct (cs_Put_ok (set_stagingDB sd1 (set_stateDB s cs)) (addrKey a) (encodeUint64 id)) as (sd2 & -> & Hl2 & Hd2 & Hr2); [done|].
  bind_step. rewrite newEntity_created.
  assert (∀ k, staging_reader sd2 k = upd (addrKey a) (encodeUint64 id) (upd (idKey id) a (rd cs)) k) as Hrd.
  { intros k. rewrite Hr2. unfold upd at 1. unfold upd at 1. destruct (decide (addrKey a = k)); [done|]. apply Hr1. }
  pose proof (create_pre cs st o sd2 R V Hl2 Hrd) as Hpre.
  destruct (bitmapAddAll_ok _ _ _ id Hpre (proj2 He)) as (db & Hadd & Hpre').
  eexists. split; [exact Hadd|]. split.
  - apply cs_repr_create; try done; [by rewrite Hd2|].
    eapply bm_pre_ext; [|exact Hpre']. intros q x _. simpl. symmetry. by apply indexed_create.
  - split; try done; [by simpl; rewrite Hd2|by apply (create_grows cs st o sd2)|..].
    + intros k Hk. simpl. rewrite Hrd. unfold create_touched in Hk. rewrite !upd_ne; [done|intros <-; by auto..].
    + intros k v Hk. simpl in Hk. rewrite Hrd, upd_ne in Hk by key_ne. unfold upd in Hk.
      destruct (decide _); [injection Hk as <-; right; by right|by left].
Qed.

(** An entity is missing exactly when the abstract operation fails. *)
Lemma abs_modify_cases cs st a f : cs_repr cs st →
  (abs_modify st a f = None ∧ ∃ err, getEntity cs a = Err err) ∨
  (∃ id e de, abs_ents st !! a = Some (id, e) ∧ abs_modify st a f = Some (abs_put st a id (f e)) ∧
     getEntity cs a = Ok (e, set_dirtyEntities de cs) ∧ cs_repr (set_dirtyEntities de cs) st ∧
     lookupEntityID (set_dirtyEntities de cs) a = Ok id).
Proof.
  intros R. unfold abs_modify. destruct (abs_ents st !! a) as [[id e]|] eqn:Ea; simpl.
  - right. destruct (getEntity_ok _ _ _ _ _ R Ea) as (de & Hg & R'). exists id, e, de.
    by rewrite (lookupEntityID_ok _ _ _ _ _ R' Ea).
  - left. split; [done|]. by eapply getEntity_missing.
Qed.

(** A built-in pair is moved by a removal and an addition. *)
Lemma bitmap_move_ok cs st a id e e' p q : cs_repr cs st → abs_ents st !! a = Some (id, e) →
  tracked p → tracked q →
  (∀ x, x ∈ allAnnotations e' ↔ (x ∈ allAnnotations e ∧ x ≠ p) ∨ x = q) →
  ∃ db db', bitmapRemove cs (pair_key p) (pair_val p) id = Ok (set_dirtyBitmaps db cs) ∧
    ∀ de, bitmapAdd (set_dirtyEntities de (set_dirtyBitmaps db cs)) (pair_key q) (pair_val q) id =
      Ok (set_dirtyEntities de (set_dirtyBitmaps db' cs)) ∧
      bm_pre (set_dirtyBitmaps db' cs) (indexed (abs_put st a id e')).
Proof.
  intros R Ha Hp Hq Hann. pose proof (cr_wf _ _ R) as W.
  destruct (bitmapRemove_ok _ _ p id (cs_repr_bm_pre _ _ R) Hp) as (db & Hr & Hpre).
  destruct (bitmapAdd_ok _ _ q id Hpre Hq) as (db' & Hadd & Hpre'). exists db, db'. split; [done|].
  intros de. split.
  - unfold bitmapAdd, mutateBitmap in *. cbn [dirtyBitmaps set_dirtyEntities set_dirtyBitmaps stagingDB] in *.
    destruct (match _ with Some bm => Ok bm | None => _ end); cbn in *; [|done|done]. by injection Hadd as <-.
  - eapply bm_pre_ext; [|exact Hpre']. intros r x _. simpl. rewrite (indexed_put _ _ _ _ _ _ _ W Ha), Hann.
    destruct (decide (x = id)) as [->|Hne]; [|tauto].
    rewrite (indexed_self _ _ _ _ _ W Ha). tauto.
Qed.

Lemma processUpdate_ok cs st o : cs_repr cs st →
  let a := keyAddress (update_EntityKey o) in
  let f e := updated (blockNumber cs) e o in
  modify_valid st a f →
  match abs_modify st a f with
  | Some st' => ∃ cs', processUpdate cs o = Ok cs' ∧ cs_repr cs' st' ∧ cs_frame (λ _, False) cs cs'
  | None => ∃ err, processUpdate cs o = Err err
  end.
Proof.
  intros R a f V. unfold processUpdate. fold a.
  destruct (abs_modify_cases cs st a f R) as [[-> [err ->]]|(id & e & de & Ha & -> & -> & R' & Hid)]; [by eexists|].
  bind_step. rewrite Hid. bind_step.
  rewrite updatedEntity_updated. change (updated (blockNumber (set_dirtyEntities de cs)) e o) with (f e).
  pose proof (modify_valid_elim _ _ _ _ _ V Ha) as He. pose proof (cr_wf _ _ R) as W. pose proof (wf_ent _ W _ _ _ Ha) as He0.
  assert (∀ l1 l2, Forall tracked l1 → Forall tracked (keys_not_in (annotPairSet l1) (annotPairSet l2))) as Hsub.
  { intros l1 l2. rewrite !Forall_forall. intros Hl x [Hx _]%elem_of_keys_not_in. by apply Hl. }
  destruct (bitmapRemoveAll_ok _ _ _ id (cs_repr_bm_pre _ _ R') (Hsub _ (allAnnotations (f e)) (proj2 He0))) as (db & -> & Hpre).
  bind_step.
  destruct (bitmapAddAll_ok _ _ _ id Hpre (Hsub _ (allAnnotations e) (proj2 He))) as (db' & -> & Hpre').
  bind_step. eexists. split; [done|]. split; [|split; auto using grows_refl].
  apply (cs_repr_put _ _ _ _ _ (f e) db' R' Ha He). eapply bm_pre_ext; [|exact Hpre'].
  intros q x _. simpl. rewrite (indexed_put _ _ _ _ _ _ _ W Ha), !elem_of_keys_not_in.
  destruct (decide (x = id)) as [->|Hne]; [|tauto].
  rewrite (indexed_self _ _ _ _ _ W Ha).
  destruct (decide (q ∈ allAnnotations e)), (decide (q ∈ allAnnotations (f e))); tauto.
Qed.

Lemma tracked_elem e p : entity_ok e → p ∈ allAnnotations e → tracked p.
Proof. intros [_ Hf] Hp. rewrite Forall_forall in Hf. by apply Hf. Qed.

Lemma expiration_elem e : mkAnnotPair (str "$expiration") (numericVal (ExpiresAt e)) ∈ allAnnotations e.
Proof. unfold allAnnotations. apply elem_of_app. left. unfold builtinAnnotations. rewrite !elem_of_cons. auto 10. Qed.

Lemma owner_elem e : mkAnnotPair (str "$owner") (ToLower (Address_Hex (Owner e))) ∈ allAnnotations e.
Proof. unfold allAnnotations. apply elem_of_app. left. unfold builtinAnnotations. rewrite !elem_of_cons. auto 10. Qed.

Lemma processExtend_ok cs st o : cs_repr cs st →
  let a := keyAddress (extend_EntityKey o) in
  let f := extended (extend_ExpiresAt o) in
  modify_valid st a f →
  match abs_modify st a f with
  | Some st' => ∃ cs', processExtend cs o = Ok cs' ∧ cs_repr cs' st' ∧ cs_frame (λ _, False) cs cs'
  | None => ∃ err, processExtend cs o = Err err
  end.
Proof.
  intros R a f V. unfold processExtend. fold a.
  destruct (abs_modify_cases cs st a f R) as [[-> [err ->]]|(id & e & de & Ha & -> & -> & R' & Hid)]; [by eexists|].
  bind_step. rewrite Hid. bind_step.
  pose proof (modify_valid_elim _ _ _ _ _ V Ha) as He. pose proof (wf_ent _ (cr_wf _ _ R) _ _ _ Ha) as He0.
  destruct (bitmap_move_ok _ _ _ _ _ (f e) _ _ R' Ha (tracked_elem _ _ He0 (expiration_elem e))
    (tracked_elem _ _ He (expiration_elem (f e)))) as (db & db' & Hr & Hadd).
  { intros q. by apply allAnnotations_extended, He0. }
  cbn [pair_key pair_val] in Hr, Hadd. rewrite Hr. bind_step.
  destruct (Hadd (<[a := f e]> de)) as [Hadd' Hpre]. eexists. split; [exact Hadd'|]. split; [|split; auto using grows_refl].
  by apply (cs_repr_put _ _ _ _ _ (f e) db' R' Ha He).
Qed.

Lemma processTransfer_ok cs st o : cs_repr cs st →
  let a := keyAddress (transfer_EntityKey o) in
  let f := transferred (transfer_Owner o) in
  modify_valid st a f →
  match abs_modify st a f with
  | Some st' => ∃ cs', processTransfer cs o = Ok cs' ∧ cs_repr cs' st' ∧ cs_frame (λ _, False) cs cs'
  | None => ∃ err, processTransfer cs o = Err err
  end.
Proof.
  intros R a f V. unfold processTransfer. fold a.
  destruct (abs_modify_cases cs st a f R) as [[-> [err ->]]|(id & e & de & Ha & -> & -> & R' & Hid)]; [by eexists|].
  bind_step. rewrite Hid. bind_step.
  pose proof (modify_valid_elim _ _ _ _ _ V Ha) as He. pose proof (wf_ent _ (cr_wf _ _ R) _ _ _ Ha) as He0.
  destruct (bitmap_move_ok _ _ _ _ _ (f e) _ _ R' Ha (tracked_elem _ _ He0 (owner_elem e))
    (tracked_elem _ _ He (owner_elem (f e)))) as (db & db' & Hr & Hadd).
  { intros q. by apply allAnnotations_transferred, He0. }
  cbn [pair_key pair_val] in Hr, Hadd. rewrite Hr. bind_step.
  destruct (Hadd (<[a := f e]> de)) as [Hadd' Hpre]. eexists. split; [exact Hadd'|]. split; [|split; auto using grows_refl].
  by apply (cs_repr_put _ _ _ _ _ (f e) db' R' Ha He).
Qed.

(** The cache store after a deletion. *)
Lemma cs_repr_delete cs st a id e db : cs_repr cs st → abs_ents st !! a = Some (id, e) →
  let st' := mkAbs (delete a (abs_ents st)) (abs_count st) in
  bm_pre (set_dirtyBitmaps db cs) (indexed st') →
  cs_repr (set_stateDB (SetCode (clearIDSlot (stateDB cs) id) a [])
    (set_dirtyEntities (delete a (dirtyEntities cs)) (set_dirtyBitmaps db cs))) st'.
Proof.
  intros R Ha st' [B1 B2 B3 B4]. assert (abs_wf st') as W' by apply abs_wf_delete, R.
  destruct R as [R1 [R2 R2'] R3 R4 [T1 T2 T3 T4] [P1 P2 P3] R7 R8 R9 R10].
  destruct (wf_id _ R3 _ _ _ Ha) as [_ Hid].
  assert (∀ p, tracked p → slot_of (SetCode (clearIDSlot (stateDB cs) id) a []) p = slot_of (stateDB cs) p) as Hslot.
  { intros p Hp. unfold slot_of, clearIDSlot. rewrite GetState_SetCode, GetState_SetState, decide_False; [done|].
    intros [_ Ek]. by eapply idSlotKey_annotSlotKey. }
  split; simpl; try done.
  - unfold sys_ok, clearIDSlot. by rewrite Exist_SetCode, Exist_SetState, R2, GetNonce_SetCode, GetNonce_SetState, !orb_true_r.
  - split; simpl.
    + unfold readEntityCount, clearIDSlot. rewrite GetState_SetCode, GetState_SetState, decide_False; [done|].
      intros [_ Ek]. by eapply count_id_slot.
    + intros x Hx. unfold clearIDSlot. rewrite GetState_SetCode, GetState_SetState.
      destruct (decide _) as [[_ Ek]|Hne].
      * apply idSlotKey_inj in Ek as <-; [|done..]. right. split; [|done].
        intros (a' & e' & H). simpl in H. apply lookup_delete_Some in H as [Hn H]. by pose proof (wf_inj _ R3 _ _ _ _ _ H Ha).
      * assert (id ≠ x) as Hnx by (intros ->; by apply Hne).
        destruct (T2 x Hx) as [(a' & e' & H & ->)|[Hn ->]]; [left|right].
        -- exists a', e'. rewrite lookup_delete_ne; [done|]. intros <-. by simplify_eq.
        -- split; [|done]. intros (a' & e' & H). simpl in H. apply lookup_delete_Some in H as [_ H]. apply Hn. by eexists _, _.
    + intros a'. specialize (T3 a'). unfold code_ok, clearIDSlot in *. rewrite GetCode_SetCode, GetCode_SetState.
      destruct (decide (a = a')) as [<-|Hne]; [by rewrite !lookup_delete_eq|]. by rewrite !lookup_delete_ne.
    + by eapply bitmaps_ok_frame; [apply grows_refl| |exact B3].
  - split; simpl.
    + intros p Hp. rewrite Hslot by done. by apply P1.
    + intros a' x e' [_ H]%lookup_delete_Some. eauto.
    + intros a' x e' [_ H]%lookup_delete_Some. eauto.
  - by apply opened_SetCode, opened_SetState.
Qed.

Lemma deleteEntity_ok cs st a : cs_repr cs st →
  match abs_delete st a with
  | Some st' => ∃ cs', deleteEntity cs a = Ok cs' ∧ cs_repr cs' st' ∧ cs_frame (λ _, False) cs cs'
  | None => ∃ err, deleteEntity cs a = Err err
  end.
Proof.
  intros R. unfold abs_delete, deleteEntity. destruct (abs_ents st !! a) as [[id e]|] eqn:Ha; simpl.
  2:{ destruct (getEntity_missing _ _ _ R Ha) as [err ->]. by eexists. }
  destruct (getEntity_ok _ _ _ _ _ R Ha) as (de & -> & R'). bind_step.
  rewrite (lookupEntityID_ok _ _ _ _ _ R' Ha). bind_step.
  pose proof (wf_ent _ (cr_wf _ _ R) _ _ _ Ha) as [_ He].
  destruct (bitmapRemoveAll_ok _ _ _ id (cs_repr_bm_pre _ _ R') He) as (db & -> & Hpre).
  bind_step. eexists. split; [done|]. split; [|split; auto using grows_refl].
  apply (cs_repr_delete _ _ _ _ _ db R' Ha). eapply bm_pre_ext; [|exact Hpre].
  intros q x _. simpl. symmetry. apply indexed_delete; [apply R|done].
Qed.

Lemma applyOp_ok cs st op : cs_repr cs st → op_valid (blockNumber cs) st op →
  match abs_op (blockNumber cs) st op with
  | Some st' => ∃ cs', applyOp cs op = Ok cs' ∧ cs_repr cs' st' ∧ cs_frame (op_touched st op) cs cs'
  | None => ∃ err, applyOp cs op = Err err
  end.
Proof.
  intros R. unfold op_valid, abs_op, applyOp, op_touched.
  destruct (op_Create op) as [o|]; [intros V; by apply processCreate_ok|].
  destruct (op_Update op) as [o|]; [intros V; by apply processUpdate_ok|].
  destruct (op_Delete op) as [o|]; [intros _; by apply deleteEntity_ok|].
  destruct (op_Extend op) as [o|]; [intros V; by apply processExtend_ok|].
  destruct (op_Transfer op) as [o|]; [intros V; by apply processTransfer_ok|].
  destruct (op_Expire op) as [o|]; [intros _; by apply deleteEntity_ok|].
  intros _. by eexists.
Qed.

End OpsProofs.
