(* ===== verification/CommitProofs.v ===== *)
(** The commit of a block: flushing the dirty entities and bitmaps, committing
    the state, and the atomic flush (src/store/staging.go,
    src/store/bitmap.go). *)
From S2P Require Export OpsProofs.

Section CommitProofs.
Context {E : Env} {EO : EnvOk} {CF : CollisionFree}.

(** The rest of a map after some of its keys were dealt with. *)
Definition without {K A} `{Countable K} (ks : list K) (m : gmap K A) : gmap K A :=
  filter (λ kv, kv.1 ∉ ks) m.

Lemma lookup_without {K A} `{Countable K} ks (m : gmap K A) i :
  without ks m !! i = if decide (i ∈ ks) then None else m !! i.
Proof.
  unfold without. rewrite map_lookup_filter. destruct (m !! i) as [x|]; simpl; [|by destruct (decide _)].
  case_guard; simpl in *; by destruct (decide (i ∈ ks)).
Qed.

Lemma without_nil {K A} `{Countable K} (m : gmap K A) : without [] m = m.
Proof. apply map_eq. intros i. rewrite lookup_without. by rewrite decide_False by apply not_elem_of_nil. Qed.

Lemma without_snoc {K A} `{Countable K} ks k (m : gmap K A) : without (ks ++ [k]) m = delete k (without ks m).
Proof.
  apply map_eq. intros i. rewrite lookup_delete, !lookup_without.
  destruct (decide (k = i)) as [->|], (decide (i ∈ ks)), (decide (i ∈ ks ++ [_])) as [Hi|Hi]; try done;
    rewrite elem_of_app, list_elem_of_singleton in Hi; exfalso; intuition congruence.
Qed.

Lemma without_all {K A} `{Countable K} (m : gmap K A) : without (go_range m).*1 m = ∅.
Proof.
  apply map_eq. intros i. rewrite lookup_without, lookup_empty. destruct (decide _) as [|Hn]; [done|].
  destruct (m !! i) as [x|] eqn:Em; [|done]. destruct Hn. apply list_elem_of_fmap. exists (i, x). split; [done|].
  rewrite (go_range_perm m). by apply elem_of_map_to_list.
Qed.

(** The entry a range loop is at. *)
Lemma go_range_entry {K A} `{Countable K} (m : gmap K A) done k x rest :
  go_range m = done ++ (k, x) :: rest → m !! k = Some x ∧ without done.*1 m !! k = Some x.
Proof.
  intros El. assert (NoDup (go_range m).*1) as Hd.
  { rewrite (go_range_perm m). apply NoDup_fst_map_to_list. }
  assert (m !! k = Some x) as Hk.
  { apply elem_of_map_to_list. rewrite <-(go_range_perm m), El. apply elem_of_app. right. apply elem_of_cons. by left. }
  split; [done|]. rewrite lookup_without, decide_False; [done|].
  intros Hin. rewrite El, fmap_app in Hd. apply NoDup_app in Hd as (_ & Hd & _).
  apply (Hd _ Hin). rewrite fmap_cons. apply elem_of_cons. by left.
Qed.

(** ** Entities *)

Lemma flushEntity_ok cs st a e d : cs_repr cs st → dirtyEntities cs !! a = Some e →
  rlp_EncodeToBytes e = Ok d →
  cs_repr (set_dirtyEntities (delete a (dirtyEntities cs)) (set_stateDB (SetCode (stateDB cs) a d) cs)) st.
Proof.
  intros [R1 [R2 R2'] R3 R4 R5 [P1 P2 P3] R7 R8 R9 R10] Ha Hd. split; simpl; try done.
  - unfold sys_ok. by rewrite Exist_SetCode, GetNonce_SetCode, R2, orb_true_r.
  - destruct R5 as [T1 T2 T3 T4]. split; simpl.
    + unfold readEntityCount. by rewrite GetState_SetCode.
    + intros id. rewrite GetState_SetCode. apply T2.
    + intros a'. specialize (T3 a'). unfold code_ok in *. rewrite GetCode_SetCode, lookup_delete.
      destruct (decide (a = a')) as [<-|]; [|done]. rewrite Ha in T3.
      destruct (abs_ents st !! a) as [[id e']|]; [|by destruct T3]. subst e'.
      split; [by eapply rlp_nonempty|by apply rlp_roundtrip].
    + eapply bitmaps_ok_frame; [apply grows_refl| |exact T4]. intros p _. apply GetState_SetCode.
  - split; [|done..]. intros p Hp. unfold slot_of. rewrite GetState_SetCode. by apply P1.
  - by apply opened_SetCode.
Qed.

(** The ways the environment can make the commit of a state fail: an entity
    does not encode, the state or its trie does not commit, the database refuses
    the batch. *)
Definition encode_failure (st : AbsState) : Prop :=
  ∃ a id e err, abs_ents st !! a = Some (id, e) ∧ rlp_EncodeToBytes e = Err err.
Definition io_failure (d : Database) (st : AbsState) : Prop :=
  encode_failure st ∨
  (∃ g s n err, snapshot g s st ∧ state_Commit s triedb_New n true false = Err err) ∨
  (∃ s n root tdb codes err, state_Commit s triedb_New n true false = Ok (root, tdb, codes) ∧
     triedb_Commit tdb root false = Err err) ∨
  (∃ b err, kv_Write d b = Err err).

(** The same, at the calls a commit makes: the entity, state, trie or batch that
    was refused. *)
Definition refused (cs : CacheStore) : Prop :=
  (∃ e err, rlp_EncodeToBytes e = Err err) ∨
  (∃ c1 c2, flushEntities cs = Ok c1 ∧ flushBitmaps c1 = Ok c2 ∧
     ((∃ err, state_Commit (stateDB c2) (trieDB c2) (blockNumber c2) true false = Err err) ∨
      (∃ root tdb codes err, state_Commit (stateDB c2) (trieDB c2) (blockNumber c2) true false = Ok (root, tdb, codes) ∧
         triedb_Commit tdb root false = Err err))) ∨
  (∃ b err, kv_Write (sd_Database (stagingDB cs)) b = Err err).

Lemma flushEntities_ok cs st : cs_repr cs st →
  match flushEntities cs with
  | Ok cs' => ∃ s', cs' = set_stateDB s' cs ∧ cs_repr (set_dirtyEntities ∅ cs') st
  | Err _ => encode_failure st
  | Panic => False
  end.
Proof.
  intros R. enough (match flushEntities cs with
    | Ok cs' => ∃ s', cs' = set_stateDB s' cs ∧
        cs_repr (set_dirtyEntities (without (go_range (dirtyEntities cs)).*1 (dirtyEntities cs)) cs') st
    | Err _ => encode_failure st
    | Panic => False end) as Hout by (by rewrite without_all in Hout).
  apply (foldM_outcome (λ done cs', ∃ s', cs' = set_stateDB s' cs ∧
    cs_repr (set_dirtyEntities (without done.*1 (dirtyEntities cs)) cs') st)).
  - exists (stateDB cs). rewrite fmap_nil, without_nil. by destruct cs.
  - intros done [a e] rest cs1 El (s1 & -> & R1). apply go_range_entry in El as [_ Hw]. unfold flushEntity, encodeEntity.
    destruct (rlp_EncodeToBytes e) as [d|err|] eqn:Ed; bind_step; [| |by apply rlp_Encode_no_panic in Ed].
    2:{ pose proof (tr_code _ _ _ _ _ (cr_trie _ _ R1) a) as Hc. unfold code_ok in Hc. simpl in Hc. rewrite Hw in Hc.
        destruct (abs_ents st !! a) as [[id e']|] eqn:Ea; [subst e'; by exists a, id, e, err|by destruct Hc]. }
    eexists. split; [done|]. rewrite fmap_app. change [(a, e)].*1 with [a]. rewrite without_snoc. by apply (flushEntity_ok _ _ _ _ _ R1 Hw Ed).
Qed.

(** ** Bitmaps *)

(** The keys a block writes besides those of its operations. *)
Definition bitmap_key (k : bytes) : Prop :=
  ∃ dk, k = key_bytes dk ∧ match dk with KBitmap _ | KAnnot _ _ | KPairs _ _ => True | _ => False end.

(** The staging layer and the state after a pair was flushed. *)
Lemma flushBitmap_put cs st p B d g1 s1 : cs_repr cs st → dirtyBitmaps cs !! p = Some B →
  bm_MarshalBinary B = Ok d → hashed d →
  let h := Keccak256Hash d in
  (∀ k, g1 k = upd (annotKey (pair_key p) (pair_val p)) h (upd (bitmapKey h) d (rd cs)) k) →
  s1 = setAnnotSlot (stateDB cs) (pair_key p) (pair_val p) h →
  db_wf g1 ∧ grows (rd cs) g1 ∧ agree_on_trie g1 (kv_lookup (sd_Database (stagingDB cs))) ∧
  pebble_repr g1 s1 st ∧ blob_ok g1 h (indexed st p).
Proof.
  intros [R1 R2 R3 R4 [T1 T2 T3 T4] [P1 P2 P3] R7 R8 R9 R10] Hp Hd Hh h Hg Hs.
  assert (tracked p) as Ht by (apply R7; by rewrite Hp).
  assert (tracked (mkAnnotPair (pair_key p) (pair_val p))) as Ht' by (by destruct p).
  assert (write_ok (KBitmap h) d) as Hw by done.
  pose proof (db_wf_upd _ (KBitmap h) d Hw R4) as D1.
  assert (write_ok (KAnnot (pair_key p) (pair_val p)) h) as Hw' by done.
  split; [by eapply db_wf_ext; [exact Hg|]; apply (db_wf_upd _ (KAnnot _ _))|].
  split.
  { eapply grows_trans; [|by apply grows_eq]. eapply grows_trans; [by apply (grows_upd _ (KBitmap h) d)|].
    by apply (grows_upd _ (KAnnot _ _)). }
  split.
  { eapply agree_on_trie_ext; [exact Hg|]. apply (agree_on_trie_upd (KAnnot _ _)), (agree_on_trie_upd (KBitmap h)), R9. }
  split.
  - split.
    + intros q Hq. rewrite Hg, Hs. unfold slot_of, setAnnotSlot. rewrite GetState_SetState.
      destruct (decide (p = q)) as [<-|Hne].
      * rewrite upd_eq. destruct (decide (_ ∧ _)) as [_|[]]; [|done].
        rewrite decide_False; [done|by apply keccak_nonzero].
      * rewrite upd_ne by (by intros Ek; apply annotKey_inj in Ek). rewrite upd_ne by key_ne.
        destruct (decide (_ ∧ _)) as [[_ Ek]|_]; [by apply annotSlotKey_inj in Ek|]. by apply P1.
    + intros a id e He. rewrite Hg, !upd_ne by key_ne. eauto.
    + intros a id e He. rewrite Hg, !upd_ne by key_ne. eauto.
  - destruct (Unmarshal_Marshal _ _ Hd) as (B' & HB' & Hsame). exists d, B'. rewrite Hg, upd_ne, upd_eq by key_ne.
    split; [done|]. split; [by eapply Marshal_nonempty|]. split; [done|].
    specialize (T4 p Ht). rewrite Hp in T4. intros x. rewrite Hsame. apply T4.
Qed.

Lemma pair_put g2 g3 p : tracked p →
  (∀ k, g3 k = g2 k) ∨ (∀ k, g3 k = upd (pairsKey (pair_key p) (pair_val p)) [x01] g2 k) →
  db_wf g2 → db_wf g3 ∧ grows g2 g3 ∧ ∀ k, k ≠ pairsKey (pair_key p) (pair_val p) → g3 k = g2 k.
Proof.
  intros Ht Hr D. assert (tracked (mkAnnotPair (pair_key p) (pair_val p))) as Ht' by (by destruct p).
  destruct Hr as [Hr|Hr].
  - split; [by eapply db_wf_ext|]. split; [by apply grows_eq|done].
  - split; [by eapply db_wf_ext; [exact Hr|]; apply (db_wf_upd _ (KPairs _ _))|].
    split; [by eapply grows_trans; [|by apply grows_eq]; apply (grows_upd _ (KPairs _ _))|].
    intros k Hk. rewrite Hr. by apply upd_ne.
Qed.

Lemma flushBitmap_repr cs st p B d g2 sd (h : Hash) s1 : cs_repr cs st → dirtyBitmaps cs !! p = Some B →
  live sd → sd_Database sd = sd_Database (stagingDB cs) →
  (∀ k, g2 k = upd (annotKey (pair_key p) (pair_val p)) h (upd (bitmapKey h) d (rd cs)) k) →
  s1 = setAnnotSlot (stateDB cs) (pair_key p) (pair_val p) h → h ≠ zeroHash →
  db_wf g2 ∧ grows (rd cs) g2 ∧ agree_on_trie g2 (kv_lookup (sd_Database (stagingDB cs))) ∧
    pebble_repr g2 s1 st ∧ blob_ok g2 h (indexed st p) →
  has_pair (staging_reader sd) p →
  (∀ k, staging_reader sd k = g2 k) ∨
    (∀ k, staging_reader sd k = upd (pairsKey (pair_key p) (pair_val p)) [x01] g2 k) →
  let cs' := set_stagingDB sd (set_stateDB s1 cs) in
  cs_frame bitmap_key cs cs' ∧ cs_repr (set_dirtyBitmaps (delete p (dirtyBitmaps cs)) cs') st.
Proof.
  intros [R1 [R2 R2'] R3 R4 [T1 T2 T3 T4] R6 R7 R8 R9 R10] Hp Hl Hdb Hg2 -> Hz (D & G & A & P & Hb) Hpair Hr cs'.
  assert (tracked p) as Ht by (apply R7; by rewrite Hp).
  destruct (pair_put _ _ _ Ht Hr D) as (D3 & G3 & F3).
  assert (grows (rd cs) (staging_reader sd)) as G13 by by eapply grows_trans.
  assert (∀ k, ¬ bitmap_key k → staging_reader sd k = rd cs k) as Hframe.
  { intros k Hk. rewrite F3 by (intros ->; apply Hk; by exists (KPairs (pair_key p) (pair_val p))).
    rewrite Hg2, !upd_ne; [done|intros <-; apply Hk; by exists (KBitmap h)|
      intros <-; apply Hk; by exists (KAnnot (pair_key p) (pair_val p))]. }
  split.
  { split; try done. intros k v Hk. left. rewrite <-Hframe; [done|]. intros (dk & Ek & ?). by destruct dk. }
  split; try done.
  - simpl. unfold sys_ok, setAnnotSlot. by rewrite Exist_SetState, GetNonce_SetState, R2, orb_true_r.
  - split; simpl.
    + unfold readEntityCount, setAnnotSlot. rewrite GetState_SetState, decide_False; [done|].
      intros [_ Ek]. by eapply count_annot_slot.
    + intros id Hid. unfold setAnnotSlot. rewrite GetState_SetState, decide_False; [by apply T2|].
      intros [_ Ek]. by eapply idSlotKey_annotSlotKey.
    + intros a. specialize (T3 a). unfold code_ok, setAnnotSlot in *. by rewrite !GetCode_SetState.
    + intros q Hq. unfold slot_of, setAnnotSlot. rewrite GetState_SetState, lookup_delete.
      destruct (decide (p = q)) as [<-|Hne].
      * rewrite decide_True by done. right. split; [done|]. split; [|done].
        destruct Hb as (d' & B' & Hd' & ?). exists d', B'. split; [by apply G3|done].
      * rewrite decide_False by (by intros [_ Ek]; apply annotSlotKey_inj in Ek).
        specialize (T4 q Hq). destruct (dirtyBitmaps cs !! q); [done|]. by eapply slot_ok_grows.
  - destruct P as [P1 P2 P3]. split; simpl.
    + intros q Hq. rewrite F3 by key_ne. by apply P1.
    + intros a id e He. rewrite F3 by key_ne. eauto.
    + intros a id e He. rewrite F3 by key_ne. eauto.
  - simpl. intros q [x [_ Hx]%lookup_delete_Some]. apply R7. by eexists.
  - simpl. rewrite Hdb. by apply opened_SetState.
  - simpl. rewrite Hdb. intros k Hk. rewrite F3; [by apply A|]. intros ->.
    eapply trie_key_disjoint; [done|apply (arkiv_prefix (KPairs _ _))].
Qed.

Lemma flushBitmap_ok cs st p B : cs_repr cs st → dirtyBitmaps cs !! p = Some B →
  (∀ d, bm_MarshalBinary B = Ok d → hashed d) →
  ∃ sd s', flushBitmap cs (p, B) = Ok (set_stagingDB sd (set_stateDB s' cs)) ∧
    (let cs' := set_stagingDB sd (set_stateDB s' cs) in
     cs_frame bitmap_key cs cs' ∧ cs_repr (set_dirtyBitmaps (delete p (dirtyBitmaps cs)) cs') st).
Proof.
  intros R Hp Hh. unfold flushBitmap. destruct (Marshal_ok B) as [d Hd]. rewrite Hd. wrap_step.
  set (h := Keccak256Hash d). set (s1 := setAnnotSlot (stateDB cs) (pair_key p) (pair_val p) h).
  destruct (cs_Put_ok cs (bitmapKey h) d) as (sd1 & -> & Hl1 & Hd1 & Hr1); [apply R|]. bind_step.
  destruct (cs_Put_ok (set_stagingDB sd1 cs) (annotKey (pair_key p) (pair_val p)) h) as (sd2 & -> & Hl2 & Hd2 & Hr2); [done|].
  bind_step. cbn [stagingDB set_stagingDB set_stateDB stateDB].
  rewrite staging_Has_spec by done. bind_step.
  assert (∀ k, staging_reader sd2 k = upd (annotKey (pair_key p) (pair_val p)) h (upd (bitmapKey h) d (rd cs)) k) as Hrd.
  { intros k. rewrite Hr2. unfold upd at 1. unfold upd at 1. destruct (decide _); [done|]. apply Hr1. }
  destruct (flushBitmap_put cs st p B d _ s1 R Hp Hd (Hh _ Hd) Hrd eq_refl) as (D & G & A & P & Hb).
  assert (∃ sd, (if bool_decide (is_Some (staging_reader sd2 (pairsKey (pair_key p) (pair_val p))))
     then Ok (set_stateDB s1 (set_stagingDB sd2 cs))
     else cs_Put (set_stateDB s1 (set_stagingDB sd2 cs)) (pairsKey (pair_key p) (pair_val p)) [x01]) =
     Ok (set_stagingDB sd (set_stateDB s1 cs)) ∧ live sd ∧ sd_Database sd = sd_Database (stagingDB cs) ∧
     has_pair (staging_reader sd) p ∧
     ((∀ k, staging_reader sd k = staging_reader sd2 k) ∨
      (∀ k, staging_reader sd k = upd (pairsKey (pair_key p) (pair_val p)) [x01] (staging_reader sd2) k))) as Hfin.
  { destruct (bool_decide _) eqn:Eb.
    - exists sd2. apply bool_decide_eq_true in Eb. rewrite Hd2. split_and!; try done. by left.
    - destruct (cs_Put_ok (set_stateDB s1 (set_stagingDB sd2 cs)) (pairsKey (pair_key p) (pair_val p)) [x01])
        as (sd3 & -> & Hl3 & Hd3 & Hr3); [done|]. exists sd3. split; [done|]. split; [done|].
      split; [by rewrite Hd3; simpl; rewrite Hd2|]. split; [|by right]. unfold has_pair. by rewrite Hr3, upd_eq. }
  destruct Hfin as (sd & Hsd & Hl & Hdb & Hpair & Hr). exists sd, s1. split; [exact Hsd|].
  apply (flushBitmap_repr cs st p B d _ sd h s1 R Hp Hl Hdb Hrd); try done. by apply keccak_nonzero, Hh.
Qed.

(** The flush of one pair does not look at the dirty maps. *)
Lemma flushBitmap_dirty de db cs p :
  let f c := set_dirtyBitmaps db (set_dirtyEntities de c) in
  flushBitmap (f cs) p = f <$> flushBitmap cs p.
Proof.
  intros f. destruct p as [p B]. unfold flushBitmap. destruct (bm_MarshalBinary B) as [d| |]; [|done..].
  unfold cs_Put. cbn [wrap mbind result_bind stagingDB set_dirtyBitmaps set_dirtyEntities f].
  destruct (staging_Put _ _ _) as [sd1| |]; [|done..]. cbn [mbind result_bind stagingDB set_stagingDB].
  destruct (staging_Put _ _ _) as [sd2| |]; [|done..].
  cbn [mbind result_bind stagingDB set_stagingDB set_stateDB set_dirtyBitmaps set_dirtyEntities].
  destruct (ignore_err _ _) as [[|]| |]; cbn; [done| |done..].
  by destruct (staging_Put _ _ _) as [sd3| |].
Qed.

(** The bitmaps a block writes are among the hashed strings. *)
Definition bitmaps_hashed (cs : CacheStore) : Prop :=
  ∀ p B d, dirtyBitmaps cs !! p = Some B → bm_MarshalBinary B = Ok d → hashed d.

Lemma flushBitmaps_ok cs st : cs_repr (set_dirtyEntities ∅ cs) st → bitmaps_hashed cs →
  ∃ cs', flushBitmaps cs = Ok cs' ∧ cs_frame bitmap_key cs cs' ∧ trieDB cs' = trieDB cs ∧
    cs_repr (set_dirtyBitmaps ∅ (set_dirtyEntities ∅ cs')) st.
Proof.
  intros R Hh. unfold flushBitmaps.
  destruct (foldM_total (λ done cs', cs_frame bitmap_key cs cs' ∧ trieDB cs' = trieDB cs ∧
      cs_repr (set_dirtyBitmaps (without done.*1 (dirtyBitmaps cs)) (set_dirtyEntities ∅ cs')) st)
    flushBitmap cs (go_range (dirtyBitmaps cs))) as (cs' & Hf & HP).
  - split; [apply cs_frame_refl|]. split; [done|]. rewrite fmap_nil, without_nil. exact R.
  - intros done [p B] rest cs1 El (F1 & Ht & R1). apply go_range_entry in El as [Hp Hw].
    destruct (flushBitmap_ok _ _ _ _ R1 Hw) as (sd & s' & Hfl & F & R'); [by eauto|].
    rewrite flushBitmap_dirty in Hfl. destruct (flushBitmap cs1 (p, B)) as [cs2| |] eqn:E2; [|done..].
    exists cs2. split; [done|]. injection Hfl as Hfl.
    assert (cs2 = set_stagingDB sd (set_stateDB s' (set_dirtyBitmaps (dirtyBitmaps cs2)
      (set_dirtyEntities (dirtyEntities cs2) cs1)))) as E3.
    { destruct cs2. unfold set_dirtyBitmaps, set_dirtyEntities, set_stagingDB, set_stateDB in *. simpl in *. congruence. }
    rewrite E3. split_and!; try done.
    + eapply cs_frame_trans; [exact F1|]. by destruct F; split.
    + rewrite fmap_app. change [(p, B)].*1 with [p]. rewrite without_snoc. exact R'.
  - destruct HP as (F & Ht & R'). rewrite without_all in R'. by exists cs'.
Qed.

(** ** Writes outside the model's caches *)

(** Two readers with the same service entries. *)
Definition arkiv_same (g g' : reader) : Prop := ∀ k, str "arkiv_" `prefix_of` k → g' k = g k.

Lemma arkiv_same_trans g1 g2 g3 : arkiv_same g1 g2 → arkiv_same g2 g3 → arkiv_same g1 g3.
Proof. intros H1 H2 k Hk. by rewrite H2, H1. Qed.

Lemma prefix_arkiv (p k : bytes) : str "arkiv_" `prefix_of` p → p `prefix_of` k → str "arkiv_" `prefix_of` k.
Proof. intros. by etrans. Qed.

Lemma db_wf_arkiv g g' : arkiv_same g g' → db_wf g → db_wf g'.
Proof.
  intros H [D1 D2 D3 D4]. split.
  - intros k Hk. rewrite H; [by apply D1|]. eapply prefix_arkiv; [|done]. by eexists.
  - intros k Hk. rewrite H; [by apply D2|]. eapply prefix_arkiv; [|done]. by eexists.
  - intros k v Hk. rewrite H; [by apply D3|]. eapply prefix_arkiv; [|done]. by eexists.
  - intros h d. rewrite H; [by apply D4|]. apply (arkiv_prefix (KBitmap h)).
Qed.

Lemma grows_arkiv g g' : arkiv_same g g' → grows g g'.
Proof.
  intros H. split.
  - intros h d. rewrite H; [done|]. apply (arkiv_prefix (KBitmap h)).
  - intros p. unfold has_pair. rewrite H; [done|]. apply (arkiv_prefix (KPairs _ _)).
Qed.

Lemma pebble_repr_arkiv g g' s st : arkiv_same g g' → pebble_repr g s st → pebble_repr g' s st.
Proof.
  intros H. apply pebble_repr_frame; [|intros; split|done].
  - intros p _. apply H, (arkiv_prefix (KAnnot _ _)).
  - apply H, (arkiv_prefix (KID _)).
  - apply H, (arkiv_prefix (KAddr _)).
Qed.

(** Nodes and code are outside the service's name space. *)
Lemma overlay_trie_arkiv b g : Forall trie_put b → arkiv_same g (overlay b g).
Proof.
  intros Hb k Hk. apply (overlay_not_in trie_key).
  - eapply Forall_impl; [exact Hb|]. by intros [].
  - intros Ht. by eapply trie_key_disjoint.
Qed.

Lemma agree_on_trie_overlay b g g' : agree_on_trie g g' → agree_on_trie (overlay b g) (overlay b g').
Proof. intros H k Hk. unfold overlay. destruct (batch_lookup b k); [done|]. by apply H. Qed.

(** The block index entries. *)
Definition index_key (k : db_key) : Prop :=
  match k with KRoot _ | KParent _ | KBlockNumber _ | KHead => True | _ => False end.

Lemma pebble_repr_index g s st k v : index_key k → pebble_repr g s st → pebble_repr (upd (key_bytes k) v g) s st.
Proof.
  intros Hk. apply pebble_repr_frame; [intros; apply upd_ne|intros; split; apply upd_ne|done];
    destruct k; try done; key_ne.
Qed.

(** A commit keeps what the trie says about the entities. *)
Lemma state_pruned_code s s' a : state_pruned s s' → GetCode s' a = GetCode s a.
Proof.
  intros H. destruct (H a) as [He Hn]. destruct (decide (GetNonce s a = 0%N)), (decide (GetCode s a = [])) as [Ec|].
  - rewrite Ec. by apply He.
  - apply Hn. by intros [].
  - apply Hn. by intros [].
  - apply Hn. by intros [].
Qed.

Lemma snapshot_pruned g s s' st : sys_ok s → state_pruned s s' → snapshot g s st → snapshot g s' st.
Proof.
  intros [Hex Hno] H [W _ T]. destruct (H systemAddress) as [_ Hn].
  destruct Hn as (Hex' & Hno' & _ & Hst); [by intros []|]. split; [done| |].
  - left. unfold sys_ok. by rewrite Hex', Hno'.
  - eapply trie_repr_frame; [apply grows_refl|exact Hst| |exact T]. intros a. by apply state_pruned_code.
Qed.

Lemma snapshot_same g s s' st : state_same s s' → snapshot g s st → snapshot g s' st.
Proof.
  intros H [W S T]. destruct (H systemAddress) as (Hex & Hno & Hc & Hst). split; [done| |].
  - unfold sys_ok, account_absent. rewrite <-Hex, <-Hno, <-Hc. destruct S as [?|(?&?&?&?)]; [by left|right].
    split_and!; try done. intros k. by rewrite <-Hst.
  - eapply trie_repr_frame; [apply grows_refl|intros k; symmetry; apply Hst| |exact T]. intros a. symmetry. apply H.
Qed.

Lemma snapshot_grows g g' s st : grows g g' → snapshot g s st → snapshot g' s st.
Proof. intros H [W S T]. split; [done..|]. by eapply trie_repr_frame. Qed.

(** ** The commit *)

(** The keys a commit writes. *)
Definition commit_key (number : N) (hash : Hash) (k : bytes) : Prop :=
  bitmap_key k ∨ k = rootKey hash ∨ k = parentKey hash ∨ k = blockNumberKey number ∨ k = headKey.

(** What the database holds after the commit of [cs], with reader [g]. *)
Record commit_post (cs : CacheStore) (st : AbsState) (root : Hash) (g : reader) : Prop := {
  cp_db : db_wf g;
  cp_state : ∃ s, state_New g root = Ok s ∧ snapshot g s st ∧ pebble_repr g s st;
  cp_roots r t : state_New (kv_lookup (sd_Database (stagingDB cs))) r = Ok t →
    ∃ t', state_New g r = Ok t' ∧ state_same t t';
  cp_grows : grows (rd cs) g;
  cp_head : g headKey = Some (encodeHead (blockNumber cs) (blockHash cs) root);
  cp_root : g (rootKey (blockHash cs)) = Some (array_bytes root);
  cp_parent : g (parentKey (blockHash cs)) = Some (array_bytes (parentHash cs));
  cp_number : g (blockNumberKey (blockNumber cs)) = Some (array_bytes (blockHash cs));
  cp_rd k : str "arkiv_" `prefix_of` k → ¬ commit_key (blockNumber cs) (blockHash cs) k → g k = rd cs k;
}.

Lemma commit_key_id number hash k : ¬ commit_key number hash (prefixID ++ k).
Proof. by intros [(dk & Ek & ?)|[Ek|[Ek|[Ek|Ek]]]]; [destruct dk|..]. Qed.

(** The last four writes, on top of a reader [g] that holds nodes and code. *)
Definition index_writes (number : N) (hash parent root : Hash) (g : reader) : reader :=
  upd headKey (encodeHead number hash root) (upd (blockNumberKey number) hash
    (upd (parentKey hash) parent (upd (rootKey hash) root g))).

Lemma index_writes_other number hash parent root g k :
  k ≠ headKey → k ≠ blockNumberKey number → k ≠ parentKey hash → k ≠ rootKey hash →
  index_writes number hash parent root g k = g k.
Proof. intros. unfold index_writes. by rewrite !upd_ne by congruence. Qed.

Lemma index_writes_db_wf number hash parent root g : db_wf g → db_wf (index_writes number hash parent root g).
Proof.
  intros D. by apply (db_wf_upd _ KHead), (db_wf_upd _ (KBlockNumber _)), (db_wf_upd _ (KParent _)),
    (db_wf_upd _ (KRoot _)).
Qed.

Lemma index_writes_grows number hash parent root g : grows g (index_writes number hash parent root g).
Proof.
  split.
  - intros h d. rewrite index_writes_other; [done|key_ne..].
  - intros p. unfold has_pair. rewrite index_writes_other; [done|key_ne..].
Qed.

Lemma index_writes_pebble number hash parent root g s st :
  pebble_repr g s st → pebble_repr (index_writes number hash parent root g) s st.
Proof.
  intros P. by apply (pebble_repr_index _ _ _ KHead), (pebble_repr_index _ _ _ (KBlockNumber _)),
    (pebble_repr_index _ _ _ (KParent _)), (pebble_repr_index _ _ _ (KRoot _)).
Qed.

Lemma index_writes_trie number hash parent root g g0 :
  agree_on_trie g g0 → agree_on_trie (index_writes number hash parent root g) g0.
Proof.
  intros H. by apply (agree_on_trie_upd KHead), (agree_on_trie_upd (KBlockNumber _)), (agree_on_trie_upd (KParent _)),
    (agree_on_trie_upd (KRoot _)).
Qed.

Lemma index_writes_values number hash parent root g :
  let g' := index_writes number hash parent root g in
  g' headKey = Some (encodeHead number hash root) ∧ g' (rootKey hash) = Some (array_bytes root) ∧
  g' (parentKey hash) = Some (array_bytes parent) ∧ g' (blockNumberKey number) = Some (array_bytes hash).
Proof.
  unfold index_writes. split; [apply upd_eq|]. split; [|split].
  - rewrite !upd_ne by key_ne. apply upd_eq.
  - rewrite (upd_ne headKey), (upd_ne (blockNumberKey number)) by key_ne. apply upd_eq.
  - rewrite upd_ne by key_ne. apply upd_eq.
Qed.

(** The reader after the flushed cache store [c] is committed. *)
Lemma commit_reader cs c st root tdb codes nodes g :
  cs_frame bitmap_key cs c →
  cs_repr (set_dirtyBitmaps ∅ (set_dirtyEntities ∅ c)) st →
  state_Commit (stateDB c) triedb_New (blockNumber c) true false = Ok (root, tdb, codes) →
  triedb_Commit tdb root false = Ok nodes →
  (∀ k, g k = index_writes (blockNumber c) (blockHash c) (parentHash c) root (overlay (codes ++ nodes) (rd c)) k) →
  commit_post cs st root g.
Proof.
  intros [F1 F2 F3 F4 F5 F6 F7] [R1 R2 R3 R4 R5 R6 R7 R8 R9 R10] Hc Hn Hg. simpl in *. rewrite F2, F3, F4 in Hg.
  destruct (Commit_spec _ _ _ _ _ _ _ R8 Hc Hn) as [Hput Hspec].
  pose proof (overlay_trie_arkiv _ (rd c) Hput) as Hark.
  pose proof (index_writes_values (blockNumber cs) (blockHash cs) (parentHash cs) root (overlay (codes ++ nodes) (rd c)))
    as (V1 & V2 & V3 & V4).
  assert (grows (rd c) g) as G.
  { eapply grows_trans; [by apply grows_arkiv|]. eapply grows_trans; [apply index_writes_grows|by apply grows_eq]. }
  destruct (Hspec g) as [(s & Hs & Hpr) Hroots].
  { eapply agree_on_trie_ext; [exact Hg|]. by apply index_writes_trie, agree_on_trie_overlay. }
  split.
  - eapply db_wf_ext; [exact Hg|]. apply index_writes_db_wf. by eapply db_wf_arkiv.
  - exists s. split; [done|]. assert (snapshot (rd c) (stateDB c) st) as Sn by (split; [done|by left|done]). split.
    + eapply snapshot_grows; [exact G|]. by eapply snapshot_pruned.
    + assert (storage_same (stateDB c) s) as Hst.
      { destruct (Hpr systemAddress) as [_ Hne]. intros k. apply Hne. intros [? _]. by destruct R2. }
      eapply (pebble_repr_frame _ _ (stateDB c) s); [intros; apply Hg|intros; split; apply Hg|intros p _; apply Hst|].
      apply index_writes_pebble. by eapply pebble_repr_arkiv.
  - rewrite <-F1. exact Hroots.
  - by eapply grows_trans.
  - by rewrite Hg.
  - by rewrite Hg.
  - by rewrite Hg.
  - by rewrite Hg.
  - intros k Hk Hnk. unfold commit_key in Hnk. rewrite Hg, index_writes_other by tauto. rewrite Hark by done. apply F6. tauto.
Qed.

Lemma cs_WriteBatch_ok cs b : live (stagingDB cs) → ∃ sd, cs_WriteBatch cs b = Ok (set_stagingDB sd cs) ∧
  live sd ∧ sd_Database sd = sd_Database (stagingDB cs) ∧
  (Forall trie_put b → ∀ k, staging_reader sd k = overlay b (rd cs) k).
Proof.
  intros Hl. unfold cs_WriteBatch. destruct (staging_WriteBatch_ok (stagingDB cs) b Hl) as (sd & -> & Hl' & Hd & Hr).
  exists sd. split_and!; try done. intros Hb. apply Hr. eapply Forall_impl; [exact Hb|]. intros [k v|k]; [by eauto|done].
Qed.

Lemma overlay_ext b g g' k : (∀ k, g' k = g k) → overlay b g' k = overlay b g k.
Proof. intros H. unfold overlay. by rewrite H. Qed.

Lemma upd_ext k v g g' k' : (∀ k, g' k = g k) → upd k v g' k' = upd k v g k'.
Proof. intros H. unfold upd. by rewrite H. Qed.

(** The four index writes, as the staging layer does them. *)
Lemma index_writes_ok cs root : live (stagingDB cs) → ∃ sd,
  (c ← cs_Put cs (rootKey (blockHash cs)) root;
   c ← cs_Put c (parentKey (blockHash c)) (parentHash c);
   c ← cs_Put c (blockNumberKey (blockNumber c)) (blockHash c);
   c ← wrap "stage head" (cs_Put c headKey (encodeHead (blockNumber c) (blockHash c) root));
   Ok (root, c)) = Ok (root, set_stagingDB sd cs) ∧ live sd ∧ sd_Database sd = sd_Database (stagingDB cs) ∧
  ∀ k, staging_reader sd k = index_writes (blockNumber cs) (blockHash cs) (parentHash cs) root (rd cs) k.
Proof.
  intros Hl. destruct (cs_Put_ok cs (rootKey (blockHash cs)) root Hl) as (s1 & -> & L1 & D1 & H1). bind_step.
  set (c1 := set_stagingDB s1 cs).
  destruct (cs_Put_ok c1 (parentKey (blockHash c1)) (parentHash c1) L1) as (s2 & -> & L2 & D2 & H2). bind_step.
  set (c2 := set_stagingDB s2 c1).
  destruct (cs_Put_ok c2 (blockNumberKey (blockNumber c2)) (blockHash c2) L2) as (s3 & -> & L3 & D3 & H3). bind_step.
  set (c3 := set_stagingDB s3 c2).
  destruct (cs_Put_ok c3 headKey (encodeHead (blockNumber c3) (blockHash c3) root) L3) as (s4 & -> & L4 & D4 & H4).
  wrap_step. exists s4. split; [done|]. split; [done|]. simpl in *. split; [congruence|].
  intros k. rewrite H4. apply upd_ext. intros k1. rewrite H3. apply upd_ext. intros k2. rewrite H2. by apply upd_ext.
Qed.

(** Every outcome of [Commit]. *)
Lemma Commit_ok cs st : cs_repr cs st → bitmaps_hashed cs →
  match Commit cs with
  | (Ok root, d) => commit_post cs st root (kv_lookup d)
  | (Err _, d) => d = sd_Database (stagingDB cs) ∧ io_failure (sd_Database (stagingDB cs)) st ∧ refused cs
  | (Panic, _) => False
  end.
Proof.
  intros R Hh. unfold Commit, stageCommit.
  pose proof (flushEntities_ok _ _ R) as He. destruct (flushEntities cs) as [c1|err|] eqn:E1; wrap_step;
    [| |done].
  2:{ split; [done|]. split; [by left|]. destruct He as (a & id & e & err' & _ & He). left. by eauto. }
  destruct He as (s1 & -> & R1).
  destruct (flushBitmaps_ok _ _ R1 Hh) as (c2 & E2 & F2 & T2 & R2). rewrite E2. wrap_step.
  assert (cs_frame bitmap_key cs c2) as F by (by destruct F2; split).
  assert (trieDB c2 = triedb_New) as Et by apply R2. rewrite Et.
  destruct (state_Commit _ _ _ _ _) as [[[root tdb] codes]|err|] eqn:Ec; wrap_step;
    [| |by apply state_Commit_no_panic in Ec].
  2:{ split; [done|]. split.
      - right; left. exists (rd c2), (stateDB c2), (blockNumber c2), err. split; [|done].
        split; [apply R2|left; apply R2|apply R2].
      - right; left. eexists _, c2. split; [done|]. split; [done|]. rewrite Et. left. by exists err. }
  set (c3 := set_trieDB tdb c2). assert (live (stagingDB c3)) as L3 by apply R2.
  destruct (cs_WriteBatch_ok c3 codes L3) as (s4 & -> & L4 & D4 & H4). bind_step.
  change (trieDB (set_stagingDB s4 c3)) with tdb.
  destruct (triedb_Commit tdb root false) as [nodes|err|] eqn:En; wrap_step;
    [| |by apply triedb_Commit_no_panic in En].
  2:{ split; [done|]. split; [right; right; left; by eauto 10|].
      right; left. eexists _, c2. split; [done|]. split; [done|]. rewrite Et. right. by exists root, tdb, codes, err. }
  destruct (Commit_spec _ _ _ _ _ _ _ (cr_opened _ _ R2) Ec En) as [[Hp1 Hp2]%Forall_app _].
  set (c4 := set_stagingDB s4 c3).
  destruct (cs_WriteBatch_ok c4 nodes L4) as (s5 & -> & L5 & D5 & H5). wrap_step.
  destruct (index_writes_ok (set_stagingDB s5 c4) root L5) as (s6 & -> & L6 & D6 & H6).
  assert (sd_Database s6 = sd_Database (stagingDB cs)) as Edb.
  { rewrite D6. simpl. rewrite D5. simpl. rewrite D4. apply F. }
  destruct (staging_commit _) as [r d] eqn:Es. pose proof (staging_commit_spec _ _ _ L6 Es) as Hs.
  assert (r ≠ Panic ∧ (∀ e, r = Err e → ∃ b err, kv_Write (sd_Database s6) b = Err err)) as [Hnp Her].
  { unfold staging_commit in Es. cbn [stagingDB set_stagingDB] in Es. destruct L6 as [m Hm]. rewrite Hm in Es.
    destruct (kv_Write _ _) eqn:Ew; injection Es as <- <-; [done| |by apply kv_Write_no_panic in Ew].
    split; [done|]. eauto. }
  destruct r as [[]|err|]; wrap_step; [| |done].
  - eapply commit_reader; [exact F|exact R2|exact Ec|exact En|]. intros k. rewrite Hs. simpl. rewrite H6.
    unfold index_writes. do 4 (apply upd_ext; intros). simpl. rewrite H5 by done. rewrite overlay_app.
    apply overlay_ext. intros. simpl. by rewrite H4.
  - rewrite Edb in Her. split; [by rewrite Hs; simpl|]. split; [right; right; right|right; right]; by apply (Her err).
Qed.

End CommitProofs.
