(* ===== verification/BlockProofs.v ===== *)
(** Block processing refines the abstract block, and fails without a trace
    (src/store/store.go: New, ProcessBlock). *)
From S2P Require Export CommitProofs.

Section BlockProofs.
Context {E : Env} {EO : EnvOk} {CF : CollisionFree}.

(** ** Opening *)

Lemma newStagingDB_live d : live (newStagingDB d).
Proof. by eexists. Qed.

Lemma newStagingDB_reader d k : staging_reader (newStagingDB d) k = kv_lookup d k.
Proof. rewrite (staging_reader_eq _ memorydb_New) by done. by rewrite memorydb_New_empty. Qed.

(** The system account, created on first use. *)
Lemma initSystemAccount_ok s : sys_ok s ∨ account_absent s systemAddress →
  let s' := initSystemAccount s in
  sys_ok s' ∧ storage_same s s' ∧ (∀ a, GetCode s' a = GetCode s a) ∧ ∀ g, opened_on s g → opened_on s' g.
Proof.
  intros H s'. unfold s', initSystemAccount. destruct (Exist s systemAddress) eqn:Ex.
  - destruct H as [H|[H _]]; [|congruence]. by split_and!.
  - destruct H as [[H _]|(_ & _ & Hc & Hs)]; [congruence|]. split_and!.
    + unfold sys_ok. by rewrite Exist_SetNonce, bool_decide_true, GetNonce_SetNonce, decide_True.
    + intros k. by rewrite GetState_SetNonce, GetState_CreateAccount, decide_True, Hs.
    + intros a. rewrite GetCode_SetNonce, GetCode_CreateAccount. by destruct (decide _) as [<-|].
    + intros g Hg. by apply opened_SetNonce, opened_CreateAccount.
Qed.

Lemma openBlock_ok σ st block : head_repr σ st → ∃ cs, openBlock σ block = Ok cs ∧ cs_repr cs st ∧
  sd_Database (stagingDB cs) = rawDB σ ∧ (∀ k, rd cs k = store_reader σ k) ∧
  blockNumber cs = header_Number (block_Header block) ∧ blockHash cs = header_Hash (block_Header block) ∧
  parentHash cs = header_ParentHash (block_Header block).
Proof.
  intros [D (s & Hs & Sn & P)].
  assert (∀ k, staging_reader (newStagingDB (rawDB σ)) k = store_reader σ k) as Hr by apply newStagingDB_reader.
  destruct (state_New_ext (store_reader σ) (staging_reader (newStagingDB (rawDB σ))) (headRoot σ) s)
    as (s1 & Hs1 & Hsame); [intros k _; by rewrite Hr|done|].
  apply (snapshot_same _ _ _ _ Hsame) in Sn. destruct Sn as [W S T].
  destruct (initSystemAccount_ok s1 S) as (Hsys & Hst & Hc & Hop).
  unfold openBlock, newCacheStore. rewrite Hs1. wrap_step. eexists. split; [done|].
  split; [|by split_and!]. split; simpl; try done.
  - apply newStagingDB_live.
  - by eapply db_wf_ext.
  - eapply trie_repr_frame; [by apply grows_eq|exact Hst|exact Hc|exact T].
  - eapply (pebble_repr_frame _ _ s); [intros; apply Hr|intros; split; apply Hr| |exact P].
    intros p _. unfold slot_of. rewrite Hst. symmetry. apply Hsame.
  - intros p [x Hx]. by rewrite lookup_empty in Hx.
  - apply Hop. eapply opened_ext; [exact Hr|]. by eapply state_New_opened.
  - intros k _. apply Hr.
Qed.

(** ** The operations of a block *)

Definition ops_touched (n : N) (ops : list ArkivOperation) (k : bytes) : Prop :=
  (∃ id, (n < id)%N ∧ is_u64 id ∧ k = idKey id) ∨
  (∃ op o, op ∈ ops ∧ op_Create op = Some o ∧ k = addrKey (keyAddress (create_EntityKey o))).

Lemma applyOps_ok number ops cs st : cs_repr cs st → blockNumber cs = number → ops_valid number st ops →
  match abs_ops number st ops with
  | Some st' => ∃ cs', foldM (λ cs op, wrap "tx op" (ApplyOp cs op)) cs ops = Ok cs' ∧ cs_repr cs' st' ∧
      cs_frame (ops_touched (abs_count st) ops) cs cs'
  | None => ∃ err, foldM (λ cs op, wrap "tx op" (ApplyOp cs op)) cs ops = Err err
  end.
Proof.
  unfold ApplyOp. revert cs st. induction ops as [|op ops IH]; intros cs st R Hn V; cbn [foldM abs_ops].
  - exists cs. split; [done|]. split; [done|apply cs_frame_refl].
  - destruct V as [V Vs]. subst number. pose proof (applyOp_ok _ _ _ R V) as Hop.
    destruct (abs_op (blockNumber cs) st op) as [st1|] eqn:Eop; cbn [mbind option_bind].
    2:{ destruct Hop as [err ->]. cbn. by eexists. }
    destruct Hop as (cs1 & -> & R1 & F1). wrap_step.
    pose proof (abs_op_count _ _ _ _ Eop) as Hle.
    specialize (IH cs1 st1 R1 (cf_number _ _ _ F1) Vs).
    destruct (abs_ops _ st1 ops) as [st2|]; [|exact IH].
    destruct IH as (cs2 & -> & R2 & F2). exists cs2. split; [done|]. split; [done|].
    eapply (cs_frame_trans _ _ cs1); eapply cs_frame_mono; [|exact F1| |exact F2].
    + intros k. unfold op_touched. destruct (op_Create op) as [o|] eqn:Ec; [|done].
      unfold op_valid in V. rewrite Ec in V. destruct V as (_ & _ & _ & [Hid _] & _). intros [->| ->].
      * left. eexists. split; [|split; [exact Hid|done]]. lia.
      * right. exists op, o. split; [apply elem_of_cons; by left|done].
    + intros k [(id & ? & ? & ->)|(op' & o & Hin & ? & ->)].
      * left. exists id. split; [lia|done].
      * right. exists op', o. split; [apply elem_of_cons; by right|done].
Qed.

Lemma applyTransactions_ops cs txs :
  foldM applyTransaction cs txs =
  foldM (λ cs op, wrap "tx op" (ApplyOp cs op)) cs (concat (map tx_ops txs)).
Proof.
  rewrite <-foldM_concat, <-foldM_map. apply foldM_ext. intros c tx.
  unfold applyTransaction, tx_ops. by rewrite <-foldM_map.
Qed.

(** ** Blocks *)

(** The cache store a block commits. *)
Definition runBlock (σ : Store) (block : ArkivBlock) : result CacheStore :=
  cs ← openBlock σ block; foldM applyTransaction cs (block_Transactions block).

(** The bitmaps a block writes are among the hashed strings. *)
Definition block_hashed (σ : Store) (block : ArkivBlock) : Prop :=
  ∀ cs, runBlock σ block = Ok cs → bitmaps_hashed cs.

(** The keys a block may change. *)
Definition block_key (st : AbsState) (block : ArkivBlock) (k : bytes) : Prop :=
  commit_key (header_Number (block_Header block)) (header_Hash (block_Header block)) k ∨
  ops_touched (abs_count st) (block_ops block) k.

Record block_post (σ : Store) (block : ArkivBlock) (st st' : AbsState) (root : Hash) (σ' : Store) : Prop := {
  bk_head : headRoot σ' = root ∧ headHash σ' = header_Hash (block_Header block) ∧
    headNumber σ' = header_Number (block_Header block);
  bk_repr : head_repr σ' st';
  bk_roots r t : state_New (store_reader σ) r = Ok t →
    ∃ t', state_New (store_reader σ') r = Ok t' ∧ state_same t t';
  bk_grows : grows (store_reader σ) (store_reader σ');
  bk_headKey : store_reader σ' headKey = Some (encodeHead (headNumber σ') (headHash σ') root);
  bk_root : store_reader σ' (rootKey (headHash σ')) = Some (array_bytes root);
  bk_parent : store_reader σ' (parentKey (headHash σ')) = Some (array_bytes (header_ParentHash (block_Header block)));
  bk_number : store_reader σ' (blockNumberKey (headNumber σ')) = Some (array_bytes (headHash σ'));
  bk_rd k : str "arkiv_" `prefix_of` k → ¬ block_key st block k → store_reader σ' k = store_reader σ k;
  bk_id k v : store_reader σ' (prefixID ++ k) = Some v →
    store_reader σ (prefixID ++ k) = Some v ∨ ops_touched (abs_count st) (block_ops block) (prefixAddr ++ v);
}.

Lemma runBlock_ok σ st block : head_repr σ st → block_valid st block →
  match abs_block st block with
  | Some st' => ∃ cs, runBlock σ block = Ok cs ∧ cs_repr cs st' ∧ sd_Database (stagingDB cs) = rawDB σ ∧
      blockNumber cs = header_Number (block_Header block) ∧ blockHash cs = header_Hash (block_Header block) ∧
      parentHash cs = header_ParentHash (block_Header block) ∧ grows (store_reader σ) (rd cs) ∧
      (∀ k, ¬ ops_touched (abs_count st) (block_ops block) k → rd cs k = store_reader σ k) ∧
      ∀ k v, rd cs (prefixID ++ k) = Some v →
        store_reader σ (prefixID ++ k) = Some v ∨ ops_touched (abs_count st) (block_ops block) (prefixAddr ++ v)
  | None => ∃ err, runBlock σ block = Err err
  end.
Proof.
  intros R V. unfold runBlock. destruct (openBlock_ok σ st block R) as (cs & -> & Rc & Hd & Hr & Hn & Hh & Hp).
  bind_step. rewrite applyTransactions_ops. fold (block_ops block).
  pose proof (applyOps_ok _ _ _ _ Rc Hn V) as H. unfold abs_block.
  destruct (abs_ops _ st (block_ops block)) as [st'|]; [|exact H].
  destruct H as (cs' & -> & R' & [F1 F2 F3 F4 F5 F6 F7]). exists cs'.
  do 6 (split; [congruence || exact R'|]). split; [by eapply grows_trans; [apply grows_eq|]|].
  split; [intros k Hk; by rewrite F6, Hr|]. intros k v Hk. rewrite <-Hr. by apply F7.
Qed.

Lemma processBlock_ok σ st block : head_repr σ st → block_valid st block → block_hashed σ block →
  match abs_block st block with
  | Some st' =>
      match processBlock σ block with
      | (Ok root, σ') => block_post σ block st st' root σ'
      | (Err _, σ') => σ' = σ ∧ io_failure (rawDB σ) st'
      | (Panic, _) => False
      end
  | None => ∃ err, processBlock σ block = (Err err, σ)
  end.
Proof.
  intros R V Hh. pose proof (runBlock_ok σ st block R V) as Hrun. unfold processBlock. fold (runBlock σ block).
  destruct (abs_block st block) as [st'|].
  2:{ destruct Hrun as [err ->]. by eexists. }
  destruct Hrun as (cs & Hcs & Rc & Hd & Hn & Hb & Hp & Hg & Hr & Hi). rewrite Hcs.
  pose proof (Commit_ok _ _ Rc (Hh _ Hcs)) as HC. rewrite Hd in HC. destruct (Commit cs) as [[root|err|] d].
  - destruct HC as [C1 C2 C3 C4 C5 C6 C7 C8 C9]. rewrite ?Hn, ?Hb, ?Hp, ?Hd in *. split; simpl; try done.
    + exact (grows_trans _ _ _ Hg C4).
    + intros k Hk Hnk. unfold store_reader. simpl. rewrite C9; [|done|by intros ?; apply Hnk; left].
      apply Hr. intros ?. apply Hnk. by right.
    + intros k v Hk. apply Hi. rewrite <-C9; [done|by eexists|apply commit_key_id].
  - destruct HC as (-> & ? & _). split; [by destruct σ|done].
  - done.
Qed.

(** An environment that answers: the calls the commit of a block makes succeed. *)
Record responsive (σ : Store) (block : ArkivBlock) : Prop := {
  rs_encode e : ∃ d, rlp_EncodeToBytes e = Ok d;
  rs_commit cs c1 c2 : runBlock σ block = Ok cs → flushEntities cs = Ok c1 → flushBitmaps c1 = Ok c2 →
    ∃ root tdb codes nodes,
      state_Commit (stateDB c2) (trieDB c2) (blockNumber c2) true false = Ok (root, tdb, codes) ∧
      triedb_Commit tdb root false = Ok nodes;
  rs_write b : ∃ d, kv_Write (rawDB σ) b = Ok d;
}.

Lemma processBlock_progress σ st block st' : head_repr σ st → block_valid st block → block_hashed σ block →
  responsive σ block → abs_block st block = Some st' →
  ∃ root σ', processBlock σ block = (Ok root, σ') ∧ block_post σ block st st' root σ'.
Proof.
  intros R V Hh Hup Ha. pose proof (processBlock_ok _ _ _ R V Hh) as Hp. pose proof (runBlock_ok σ st block R V) as Hrun.
  rewrite Ha in Hp, Hrun. destruct Hrun as (cs & Hcs & Rc & Hd & _). pose proof (Commit_ok _ _ Rc (Hh _ Hcs)) as HC.
  destruct (processBlock σ block) as [[root|err|] σ'] eqn:Ep; [by eauto| |done]. exfalso.
  unfold processBlock in Ep. fold (runBlock σ block) in Ep. rewrite Hcs in Ep.
  destruct (Commit cs) as [[root|e|] d]; [done| |done].
  destruct HC as (_ & _ & [(e' & err' & He)|[(c1 & c2 & E1 & E2 & Hf)|(b & err' & Hw)] ]).
  - destruct (rs_encode _ _ Hup e') as [? ?]. congruence.
  - destruct (rs_commit _ _ Hup _ _ _ Hcs E1 E2) as (r1 & t1 & k1 & n1 & Hs & Ht).
    destruct Hf as [[? ?]|(? & ? & ? & ? & Hs' & ?)]; [congruence|]. rewrite Hs in Hs'. injection Hs' as -> -> ->. congruence.
  - rewrite Hd in Hw. destruct (rs_write _ _ Hup b) as [? ?]. congruence.
Qed.

(** An empty database represents the empty state. *)
Lemma head_repr_empty σ : (∀ k, store_reader σ k = None) → headRoot σ = EmptyRootHash → head_repr σ abs_empty.
Proof.
  intros Hg Hr. assert (∀ a id e, abs_ents abs_empty !! a ≠ Some (id, e)) as Hno.
  { intros a id e. simpl. by rewrite lookup_empty. }
  destruct (state_New_empty (store_reader σ)) as (s & Hs & Ha). split.
  - split; intros *; rewrite Hg; [by intros _ [? [=]]|by intros _ [? [=]]|done|done].
  - exists s. rewrite Hr. split; [done|]. split.
    + split; [apply abs_wf_empty|right; apply Ha|]. split; simpl.
      * unfold readEntityCount. by rewrite (proj2 (proj2 (proj2 (Ha systemAddress)))).
      * intros id _. right. split; [|apply Ha]. intros (a & e & He). by apply Hno in He.
      * intros a. rewrite lookup_empty. split; [apply lookup_empty|apply Ha].
      * intros p _. rewrite lookup_empty. left. split; [apply Ha|].
        intros x (a & e & He & _). by apply Hno in He.
    + split; simpl; [|intros a id e He; by apply Hno in He..].
      intros p _. rewrite Hg, decide_True; [done|]. apply Ha.
Qed.

(** ** The head record *)

Lemma encodeHead_length number hash root : length (encodeHead number hash root) = 72%nat.
Proof. unfold encodeHead. lengths. Qed.

Lemma decodeHead_encodeHead number hash root : is_u64 number →
  decodeHead (encodeHead number hash root) = Ok (number, hash, root).
Proof.
  intros Hn. unfold decodeHead. rewrite encodeHead_length. cbn [Nat.ltb Nat.leb]. unfold encodeHead.
  rewrite take_app_length' by lengths.
  pose proof (Uint64_PutUint64 number [] Hn) as Hu. rewrite app_nil_r in Hu. rewrite Hu. bind_step.
  rewrite drop_app_length' by lengths. rewrite take_app_length' by (by rewrite array_length).
  rewrite app_assoc, drop_app_length' by lengths.
  rewrite take_ge by lengths. by rewrite !BytesToHash_bytes.
Qed.

(** The store that [New] opens on its own head record. *)
Lemma New_ok σ : store_reader σ headKey = Some (encodeHead (headNumber σ) (headHash σ) (headRoot σ)) →
  is_u64 (headNumber σ) → New (rawDB σ) = Ok σ.
Proof.
  intros Hg%kv_Get_lookup Hn. unfold New. rewrite Hg, encodeHead_length. cbn [Nat.eqb].
  rewrite decodeHead_encodeHead by done. cbn. by destruct σ.
Qed.

End BlockProofs.
