(* ===== verification/Atomicity.v ===== *)
(** No failed block leaves a trace: every step before the final flush works on
    the staging layer only, whatever the inputs and the environment do
    (src/store/staging.go, src/store/store.go). *)
From S2P Require Export BlockProofs.

Section Atomicity.
Context {E : Env}.

(** What the operations of a block leave alone: the real database, and the
    block's number and hash. *)
Definition block_ident (cs : CacheStore) : Database * N * Hash :=
  (sd_Database (stagingDB cs), blockNumber cs, blockHash cs).

(** An outcome that leaves them in place. *)
Definition keeps_db (cs : CacheStore) (r : result CacheStore) : Prop :=
  ∀ cs', r = Ok cs' → block_ident cs' = block_ident cs.

Lemma keeps_db_Ok cs cs' : block_ident cs' = block_ident cs → keeps_db cs (Ok cs').
Proof. by intros H ? [= <-]. Qed.
Lemma keeps_db_Err cs e : keeps_db cs (Err e).
Proof. done. Qed.
Lemma keeps_db_Panic cs : keeps_db cs Panic.
Proof. done. Qed.

Lemma keeps_db_bind cs r k : keeps_db cs r → (∀ c, block_ident c = block_ident cs → keeps_db cs (k c)) →
  keeps_db cs (r ≫= k).
Proof. intros Hr Hk cs' (c & Hc & Hk')%bind_Ok. eapply Hk; [|exact Hk']. by apply Hr. Qed.

(** A bind on a value that is no cache store. *)
Lemma keeps_db_let {A} cs (r : result A) k : (∀ a, keeps_db cs (k a)) → keeps_db cs (r ≫= k).
Proof. intros Hk cs' (a & _ & Hk')%bind_Ok. by eapply Hk. Qed.

Lemma keeps_db_wrap cs msg r : keeps_db cs r → keeps_db cs (wrap msg r).
Proof. intros H cs' Hw%wrap_Ok. by apply H. Qed.

Lemma keeps_db_via cs c r : block_ident c = block_ident cs → keeps_db c r → keeps_db cs r.
Proof. intros Hc H cs' Hr. by rewrite (H _ Hr). Qed.

Lemma keeps_db_foldM {A} (f : CacheStore → A → result CacheStore) cs l :
  (∀ c x, keeps_db c (f c x)) → keeps_db cs (foldM f cs l).
Proof.
  intros Hf cs' Hl. apply (foldM_inv (λ _ c, block_ident c = block_ident cs) f cs l); [done| |done].
  intros _ x _ st st' _ Hst Hx. by rewrite (Hf _ _ _ Hx).
Qed.

Lemma keeps_db_Put cs c k v : block_ident c = block_ident cs → keeps_db cs (cs_Put c k v).
Proof.
  intros Hc cs' (sd & Hs & [= <-])%bind_Ok. unfold staging_Put, with_staging in Hs.
  destruct (sd_staging _); [|done]. by apply bind_Ok in Hs as (m' & _ & [= <-]).
Qed.
Lemma keeps_db_WriteBatch cs c b : block_ident c = block_ident cs → keeps_db cs (cs_WriteBatch c b).
Proof.
  intros Hc cs' (sd & Hs & [= <-])%bind_Ok. unfold staging_WriteBatch, with_staging in Hs.
  destruct (sd_staging _); [|done]. by apply bind_Ok in Hs as (m' & _ & [= <-]).
Qed.

Lemma keeps_db_mutate cs c key val f : block_ident c = block_ident cs →
  keeps_db cs (mutateBitmap c key val f).
Proof. intros Hc. unfold mutateBitmap. apply keeps_db_let. intros bm. by apply keeps_db_Ok. Qed.

Lemma keeps_db_getEntity cs addr k :
  (∀ e c, block_ident c = block_ident cs → keeps_db cs (k (e, c))) →
  keeps_db cs (getEntity cs addr ≫= k).
Proof.
  intros Hk. unfold getEntity. destruct (dirtyEntities cs !! addr); [by apply Hk|].
  destruct (_ =? 0)%nat; [done|]. intros cs' ([e c] & Hg & Hc)%bind_Ok.
  apply bind_Ok in Hg as (? & _ & [= -> <-]). by refine (Hk _ _ _ _ Hc).
Qed.

Lemma keeps_db_loop cs c (f : CacheStore → annotPair → result CacheStore) l :
  block_ident c = block_ident cs → (∀ c x, keeps_db c (f c x)) → keeps_db cs (foldM f c l).
Proof. intros Hc Hf. eapply keeps_db_via; [exact Hc|]. by apply keeps_db_foldM. Qed.

#[local] Hint Resolve keeps_db_Ok keeps_db_Err keeps_db_Panic keeps_db_wrap keeps_db_Put keeps_db_mutate
  keeps_db_WriteBatch : core.

Ltac keeps :=
  repeat first
    [ solve [eauto] | progress cbv zeta | apply keeps_db_getEntity; intros | apply keeps_db_bind; [|intros ? ?]
    | apply keeps_db_loop; [|intros; apply keeps_db_wrap] | apply keeps_db_let; intros ? ].

Lemma applyOp_keeps cs op : keeps_db cs (applyOp cs op).
Proof.
  unfold applyOp, processCreate, processUpdate, processDelete, processExpire, processExtend, processTransfer,
    deleteEntity, bitmapAddAll, bitmapRemoveAll, bitmapAdd, bitmapRemove.
  repeat case_match; keeps.
Qed.


Lemma flushEntities_keeps cs : keeps_db cs (flushEntities cs).
Proof.
  apply keeps_db_foldM. intros c [a e]. unfold flushEntity. intros c' ([d h] & _ & [= <-])%bind_Ok. done.
Qed.

Lemma flushBitmaps_keeps cs : keeps_db cs (flushBitmaps cs).
Proof.
  apply keeps_db_foldM. intros c [p B]. unfold flushBitmap. apply keeps_db_let. intros d.
  apply keeps_db_bind; [by apply keeps_db_Put|]. intros c1 H1. apply keeps_db_bind; [by apply keeps_db_Put|].
  intros c2 H2. apply keeps_db_let. intros [|]; [by apply keeps_db_Ok|by apply keeps_db_Put].
Qed.

(** Staging ends with the head record of the block and its new root. *)
Lemma stageCommit_keeps cs root cs' : stageCommit cs = Ok (root, cs') → block_ident cs' = block_ident cs ∧
  ∃ c, cs_Put c headKey (encodeHead (blockNumber cs) (blockHash cs) root) = Ok cs'.
Proof.
  unfold stageCommit. intros H.
  apply bind_Ok in H as (c1 & H1%wrap_Ok & H). apply flushEntities_keeps in H1.
  apply bind_Ok in H as (c2 & H2%wrap_Ok & H). apply flushBitmaps_keeps in H2.
  apply bind_Ok in H as ([[r tdb] codes] & _ & H).
  apply bind_Ok in H as (c3 & H3 & H). apply (keeps_db_WriteBatch (set_trieDB tdb c2)) in H3; [|done].
  change (block_ident (set_trieDB tdb c2)) with (block_ident c2) in H3.
  apply bind_Ok in H as (nodes & _ & H).
  apply bind_Ok in H as (c4 & H4%wrap_Ok & H). apply (keeps_db_WriteBatch c3) in H4; [|done].
  apply bind_Ok in H as (c5 & H5 & H). apply (keeps_db_Put c4) in H5; [|done].
  apply bind_Ok in H as (c6 & H6 & H). apply (keeps_db_Put c5) in H6; [|done].
  apply bind_Ok in H as (c7 & H7 & H). apply (keeps_db_Put c6) in H7; [|done].
  apply bind_Ok in H as (c8 & H8%wrap_Ok & [= <- <-]). pose proof H8 as H9. apply (keeps_db_Put c7) in H9; [|done].
  assert (block_ident c7 = block_ident cs) as E7 by congruence. split; [congruence|].
  exists c7. injection E7 as _ <- <-. exact H8.
Qed.

Lemma Commit_keeps cs r d : Commit cs = (r, d) → (∃ root, r = Ok root) ∨ d = sd_Database (stagingDB cs).
Proof.
  unfold Commit. destruct (stageCommit cs) as [[root c]|e|] eqn:Es; [|intros [= <- <-]; by right..].
  apply stageCommit_keeps in Es as [Es _]. injection Es as Es _ _. unfold staging_commit. destruct (sd_staging (stagingDB c)) as [m|].
  2:{ intros [= <- <-]. by right. }
  destruct (kv_Write _ _) as [d'|e|]; intros [= <- <-]; [left; by eexists|by right..].
Qed.

Lemma runBlock_keeps σ block cs : runBlock σ block = Ok cs →
  block_ident cs = (rawDB σ, header_Number (block_Header block), header_Hash (block_Header block)).
Proof.
  unfold runBlock, openBlock, newCacheStore. intros (c & Hc & H)%bind_Ok.
  apply bind_Ok in Hc as (c0 & Hc0 & [= <-]). apply bind_Ok in Hc0 as (s & _ & [= <-]).
  apply (keeps_db_foldM applyTransaction) in H; [exact H|]. intros c tx. apply keeps_db_foldM. intros c' op. apply keeps_db_wrap, applyOp_keeps.
Qed.

Lemma processBlock_keeps σ block r σ' : processBlock σ block = (r, σ') → (∃ root, r = Ok root) ∨ σ' = σ.
Proof.
  unfold processBlock. fold (runBlock σ block). destruct (runBlock σ block) as [cs|e|] eqn:Er; [|intros [= <- <-]; by right..].
  apply runBlock_keeps in Er. injection Er as Er _ _. destruct (Commit cs) as [r' d] eqn:Ec. apply Commit_keeps in Ec as [[root ->]| ->].
  - intros [= <- <-]. left. by eexists.
  - rewrite Er. destruct r'; intros [= <- <-]; [left; by eexists|right; by destruct σ..].
Qed.

End Atomicity.
