(* ===== verification/RevertProofs.v ===== *)
(** Reverts and reorgs: the head comes back to the entities of the ancestor,
    caches included (src/store/store.go, src/store/revert.go). *)
From S2P Require Export BlockProofs.

Section RevertProofs.
Context {E : Env} {EO : EnvOk} {CF : CollisionFree}.

(** ** What a revert batch may contain *)

Definition revert_put (k : bytes) : Prop := k = headKey ∨ ∃ p, tracked p ∧ k = annotKey (pair_key p) (pair_val p).
Definition revert_key (k : bytes) : Prop :=
  ∃ dk, k = key_bytes dk ∧ match dk with KBitmap _ | KPairs _ _ => False | _ => True end.
Definition revert_op (op : batch_op) : Prop :=
  match op with BatchPut k _ => revert_put k | BatchDelete k => revert_key k end.

Lemma revert_put_key k : revert_put k → revert_key k.
Proof. intros [->|(p & _ & ->)]; [by exists KHead|by exists (KAnnot (pair_key p) (pair_val p))]. Qed.

Lemma revert_batch_other b g k : Forall revert_op b → ¬ revert_key k → overlay b g k = g k.
Proof.
  intros Hb Hk. apply (overlay_not_in revert_key); [|done].
  eapply Forall_impl; [exact Hb|]. intros [k' v|k']; [apply revert_put_key|done].
Qed.

Lemma revert_batch_grows b g : Forall revert_op b → grows g (overlay b g).
Proof.
  intros Hb. split.
  - intros h d. rewrite revert_batch_other; [done|done|]. intros (dk & Ek & ?). by destruct dk.
  - intros p. unfold has_pair. rewrite revert_batch_other; [done|done|]. intros (dk & Ek & ?). by destruct dk.
Qed.

Lemma revert_batch_trie b g : Forall revert_op b → agree_on_trie g (overlay b g).
Proof.
  intros Hb k Hk. rewrite revert_batch_other; [done|done|]. intros (dk & -> & _).
  eapply trie_key_disjoint; [done|apply arkiv_prefix].
Qed.

(** A value seen through the batch is an old one or one of its puts. *)
Lemma revert_batch_value b g k v : Forall revert_op b → overlay b g k = Some v → g k = Some v ∨ revert_put k.
Proof.
  intros Hb. unfold overlay. destruct (batch_lookup b k) as [[w|]|] eqn:El; [|done|by left].
  intros _. right. induction b as [|op b IH] using rev_ind; [done|].
  apply Forall_app in Hb as [Hb Hop]. rewrite Forall_singleton in Hop.
  rewrite batch_lookup_app in El. unfold batch_lookup in El at 1. destruct op as [k' w'|k']; simpl in *;
    (destruct (decide (k' = k)) as [->|]; [|by apply IH]); [exact Hop|done].
Qed.

Lemma revert_batch_db_wf b g : Forall revert_op b → db_wf g → db_wf (overlay b g).
Proof.
  intros Hb [D1 D2 D3 D4]. split.
  - intros k Hk [v Hv]. destruct (revert_batch_value _ _ _ _ Hb Hv) as [H|[->|?]]; [by apply D1|by destruct Hk|done].
  - intros k Hk [v Hv]. destruct (revert_batch_value _ _ _ _ Hb Hv) as [H|[->|(p & _ & ->)]]; [by apply D2|by destruct Hk..].
  - intros k v Hk Hv. destruct (revert_batch_value _ _ _ _ Hb Hv) as [H|[->|(p & _ & ->)]]; [by apply D3|by destruct Hk..].
  - intros h d Hd. destruct (revert_batch_value _ _ _ _ Hb Hd) as [H|[H|(p & _ & H)]]; [by apply D4|discriminate H..].
Qed.

(** ** Annotation pointers *)

Definition annot_value (s : StateDB) (p : annotPair) : option bytes :=
  if decide (slot_of s p = zeroHash) then None else Some (array_bytes (slot_of s p)).

Lemma batch_lookup_annot s b p k :
  batch_lookup (if decide (slot_of s p = zeroHash) then batch_Delete b (annotKey (pair_key p) (pair_val p))
    else batch_Put b (annotKey (pair_key p) (pair_val p)) (slot_of s p)) k =
  if decide (annotKey (pair_key p) (pair_val p) = k) then Some (annot_value s p) else batch_lookup b k.
Proof.
  unfold annot_value. destruct (decide (slot_of s p = zeroHash)).
  - apply batch_lookup_Delete.
  - apply batch_lookup_Put.
Qed.

(** One entry of [arkiv_pairs]: the pointer is set from the slot. *)
Lemma repopulateAnnotEntry_eq s b p v : tracked p →
  repopulateAnnotEntry s b (pairsKey (pair_key p) (pair_val p), v) =
  if decide (slot_of s p = zeroHash) then batch_Delete b (annotKey (pair_key p) (pair_val p))
  else batch_Put b (annotKey (pair_key p) (pair_val p)) (slot_of s p).
Proof.
  intros [Hp _]. unfold repopulateAnnotEntry, pairsKey. cbn [fst]. rewrite drop_app_length.
  rewrite IndexByte_app by done. rewrite take_app_length.
  replace (drop (length (pair_key p) + 1) (pair_key p ++ x00 :: pair_val p)) with (pair_val p); [done|].
  rewrite cons_middle, app_assoc, drop_app_length'; [done|]. by rewrite length_app.
Qed.

(** The pairs whose entries were visited. *)
Definition visited (l : list (bytes * bytes)) (p : annotPair) : Prop := pairsKey (pair_key p) (pair_val p) ∈ l.*1.

Lemma visited_snoc l k v p : visited (l ++ [(k, v)]) p ↔ visited l p ∨ pairsKey (pair_key p) (pair_val p) = k.
Proof. unfold visited. rewrite fmap_app, elem_of_app. cbn. by rewrite list_elem_of_singleton. Qed.

Lemma pairsKey_inj p q : tracked p → tracked q →
  pairsKey (pair_key p) (pair_val p) = pairsKey (pair_key q) (pair_val q) → p = q.
Proof. intros Hp Hq Ek. apply annotKey_inj; try done. apply app_inv_head in Ek. unfold annotKey. by rewrite Ek. Qed.

Lemma repopulateAnnot_fold s b l : (∀ k v, (k, v) ∈ l → ∃ p, tracked p ∧ k = pairsKey (pair_key p) (pair_val p)) →
  Forall revert_op b →
  let b' := foldl (repopulateAnnotEntry s) b l in
  Forall revert_op b' ∧
  (∀ p, tracked p → visited l p → batch_lookup b' (annotKey (pair_key p) (pair_val p)) = Some (annot_value s p)) ∧
  (∀ k, (∀ p, tracked p → visited l p → k ≠ annotKey (pair_key p) (pair_val p)) → batch_lookup b' k = batch_lookup b k).
Proof.
  intros Hl Hb. induction l as [|[k v] l IH] using rev_ind; simpl.
  { split; [done|]. split; [|done]. intros p _ Hv. by apply elem_of_nil in Hv. }
  destruct IH as (I1 & I2 & I3); [intros; eapply Hl; by apply elem_of_app; left|].
  destruct (Hl k v) as (q & Hq & ->); [apply elem_of_app; right; by apply list_elem_of_singleton|].
  rewrite foldl_app. cbn [foldl]. rewrite repopulateAnnotEntry_eq by done.
  split_and!.
  - destruct (decide _); apply Forall_app; (split; [done|]); apply Forall_singleton; simpl.
    + by exists (KAnnot (pair_key q) (pair_val q)).
    + right. by exists q.
  - intros p Hp Hv. rewrite batch_lookup_annot. destruct (decide _) as [Ek|Hne].
    + by apply annotKey_inj in Ek as ->.
    + apply I2; [done|]. apply visited_snoc in Hv as [Hv|Ek]; [done|]. by apply pairsKey_inj in Ek as ->.
  - intros k Hk. rewrite batch_lookup_annot, decide_False.
    + apply I3. intros p Hp Hv. apply Hk; [done|]. apply visited_snoc. by left.
    + intros <-. eapply (Hk q); [done| |done]. apply visited_snoc. by right.
Qed.

(** ** ID entries *)

Definition dead_id (s : StateDB) (id : N) : Prop := GetState s systemAddress (idSlotKey id) = zeroHash.

Lemma repopulateIDEntry_eq s b id (a : Address) : is_u64 id →
  repopulateIDEntry s b (idKey id, array_bytes a) =
  Ok (if decide (GetState s systemAddress (idSlotKey id) = zeroHash)
      then batch_Delete (batch_Delete b (addrKey a)) (idKey id) else b).
Proof.
  intros Hid. unfold repopulateIDEntry, idKey. rewrite length_app, PutUint64_length, Nat.eqb_refl. cbn [negb].
  rewrite drop_app_length. unfold decodeUint64.
  pose proof (Uint64_PutUint64 id [] Hid) as Hu. rewrite app_nil_r in Hu. rewrite Hu. bind_step.
  rewrite array_length. cbn [Nat.eqb AddressLength]. rewrite BytesToAddress_bytes. by destruct (decide _).
Qed.

(** The entry of an ID that is dead in the target state. *)
Definition dead_entry (s : StateDB) (l : list (bytes * bytes)) (k : bytes) : Prop :=
  ∃ id (a : Address), (idKey id, array_bytes a) ∈ l ∧ tracked_id id ∧ dead_id s id ∧ (k = idKey id ∨ k = addrKey a).

Lemma dead_entry_snoc s l x k : dead_entry s l k → dead_entry s (l ++ [x]) k.
Proof. intros (id & a & Hin & ?). exists id, a. split; [apply elem_of_app; by left|done]. Qed.

Lemma repopulateIDs_fold s b l :
  (∀ k v, (k, v) ∈ l → ∃ id (a : Address), tracked_id id ∧ k = idKey id ∧ v = array_bytes a) → Forall revert_op b →
  ∃ b', foldM (repopulateIDEntry s) b l = Ok b' ∧ Forall revert_op b' ∧
    (∀ k, batch_lookup b' k = batch_lookup b k ∧ ¬ dead_entry s l k ∨ batch_lookup b' k = Some None ∧ dead_entry s l k).
Proof.
  intros Hl Hb. apply (foldM_total (λ done b', Forall revert_op b' ∧
    ∀ k, batch_lookup b' k = batch_lookup b k ∧ ¬ dead_entry s done k ∨ batch_lookup b' k = Some None ∧ dead_entry s done k)).
  - split; [done|]. intros k. left. split; [done|]. intros (id & a & Hin & _). by apply elem_of_nil in Hin.
  - intros done [k0 v0] rest b1 El [Hb1 Hk1].
    destruct (Hl k0 v0) as (id & a & Hid & -> & ->); [rewrite El; apply elem_of_app; right; apply elem_of_cons; by left|].
    rewrite repopulateIDEntry_eq by apply Hid. eexists. split; [done|].
    assert (∀ k, dead_entry s (done ++ [(idKey id, array_bytes a)]) k →
      dead_entry s done k ∨ dead_id s id ∧ (k = idKey id ∨ k = addrKey a)) as Hsnoc.
    { intros k (i & a' & Hin & Hi & Hd & Hk). apply elem_of_app in Hin as [Hin|Hin]; [left; by exists i, a'|right].
      apply list_elem_of_singleton in Hin. apply pair_equal_spec in Hin as [Ei Ea]. apply idKey_inj in Ei as ->; [|apply Hi|apply Hid].
      apply array_bytes_inj in Ea as ->. done. }
    destruct (decide _) as [Hd|Hd].
    + split.
      { unfold batch_Delete. rewrite !Forall_app, !Forall_singleton. split_and!; [done|by exists (KAddr a)|by exists (KID id)]. }
      assert (∀ k, k = idKey id ∨ k = addrKey a → dead_entry s (done ++ [(idKey id, array_bytes a)]) k) as Hnew.
      { intros k Hk. exists id, a. split; [apply elem_of_app; right; by apply list_elem_of_singleton|done]. }
      intros k. rewrite !batch_lookup_Delete. destruct (decide (idKey id = k)) as [<-|H1]; [right; split; [done|apply Hnew; by left]|].
      destruct (decide (addrKey a = k)) as [<-|H2]; [right; split; [done|apply Hnew; by right]|].
      destruct (Hk1 k) as [[-> Hn]|[-> Hy]]; [left|right].
      * split; [done|]. intros [?|[_ [->| ->]]]%Hsnoc; done.
      * split; [done|]. by apply dead_entry_snoc.
    + split; [done|]. intros k. destruct (Hk1 k) as [[-> Hn]|[-> Hy]]; [left|right].
      * split; [done|]. intros [?|[? _]]%Hsnoc; done.
      * split; [done|]. by apply dead_entry_snoc.
Qed.

(** ** The block index of the reverted blocks *)

Definition ref_keys (refs : list ArkivBlockRef) (k : bytes) : Prop :=
  ∃ r, r ∈ refs ∧ (k = rootKey (ref_Hash r) ∨ k = parentKey (ref_Hash r) ∨ k = blockNumberKey (ref_Number r)).

Lemma deleteBlockIndex_fold b refs : Forall revert_op b →
  let b' := foldl deleteBlockIndex b refs in
  Forall revert_op b' ∧
  ∀ k, batch_lookup b' k = batch_lookup b k ∧ ¬ ref_keys refs k ∨ batch_lookup b' k = Some None ∧ ref_keys refs k.
Proof.
  intros Hb. induction refs as [|r refs IH] using rev_ind; simpl.
  { split; [done|]. intros k. left. split; [done|]. intros (r & Hr & _). by apply elem_of_nil in Hr. }
  destruct IH as [I1 I2]. rewrite foldl_app. cbn [foldl]. set (b1 := foldl deleteBlockIndex b refs) in *. unfold deleteBlockIndex.
  assert (∀ k, ref_keys (refs ++ [r]) k ↔ ref_keys refs k ∨
    (k = rootKey (ref_Hash r) ∨ k = parentKey (ref_Hash r) ∨ k = blockNumberKey (ref_Number r))) as Hsnoc.
  { intros k. unfold ref_keys. split.
    - intros (r' & [?|Hr]%elem_of_app & ?); [left; by eauto|right]. apply list_elem_of_singleton in Hr. by subst r'.
    - intros [(r' & ? & ?)|?]; [exists r'|exists r]; (split; [apply elem_of_app|done]); [by left|right; by apply list_elem_of_singleton]. }
  split.
  - unfold batch_Delete. rewrite !Forall_app, !Forall_singleton.
    split_and!; [done|by exists (KRoot (ref_Hash r))|by exists (KParent (ref_Hash r))|by exists (KBlockNumber (ref_Number r))].
  - intros k. rewrite !batch_lookup_Delete, Hsnoc.
    destruct (decide (blockNumberKey (ref_Number r) = k)) as [<-|]; [right; split; [done|by auto 10]|].
    destruct (decide (parentKey (ref_Hash r) = k)) as [<-|]; [right; split; [done|by auto 10]|].
    destruct (decide (rootKey (ref_Hash r) = k)) as [<-|]; [right; split; [done|by auto 10]|].
    destruct (I2 k) as [[-> ?]|[-> ?]]; [left|right]; (split; [done|]); [|by left]. intros [?|[?|[?|?]]]; congruence.
Qed.

(** ** The whole batch *)

(** The entry of an ID that is dead in the target state, as the database has it. *)
Definition dead_key (g : reader) (s : StateDB) (k : bytes) : Prop :=
  ∃ id (a : Address), g (idKey id) = Some (array_bytes a) ∧ tracked_id id ∧ dead_id s id ∧ (k = idKey id ∨ k = addrKey a).

Definition iterator_failure (d : Database) : Prop := ∃ p err, (kv_NewIterator d p []).2 = Some err.

(** What the repopulation batch does to the caches. *)
Record repopulated (g : reader) (s : StateDB) (b : Batch) : Prop := {
  rp_ops : Forall revert_op b;
  rp_annot p : tracked p → has_pair g p →
    batch_lookup b (annotKey (pair_key p) (pair_val p)) = Some (annot_value s p);
  rp_dead k : dead_key g s k → batch_lookup b k = Some None;
  rp_other k : ¬ dead_key g s k → (∀ p, tracked p → has_pair g p → k ≠ annotKey (pair_key p) (pair_val p)) →
    batch_lookup b k = None;
}.

Lemma dead_key_annot g s p : ¬ dead_key g s (annotKey (pair_key p) (pair_val p)).
Proof. intros (id & a & _ & _ & _ & [Ek|Ek]); discriminate Ek. Qed.

Lemma repopulatePebbleDB_ok d s : db_wf (kv_lookup d) →
  match repopulatePebbleDB d [] s with
  | Ok b => repopulated (kv_lookup d) s b
  | Err _ => iterator_failure d
  | Panic => False
  end.
Proof.
  intros [D1 D2 D3 D4]. unfold repopulatePebbleDB, repopulateAnnot.
  destruct (kv_NewIterator d prefixPairs []) as [l err] eqn:El.
  pose proof (kv_iter_sound d prefixPairs []) as Hso. pose proof (kv_iter_complete d prefixPairs []) as Hco.
  rewrite El in Hso, Hco. cbn [fst snd] in Hso, Hco.
  destruct err as [err|]; bind_step; [by exists prefixPairs, err; rewrite El|].
  destruct (repopulateAnnot_fold s [] l) as (I1 & I2 & I3); [|constructor|].
  { intros k v (Hg & Hp & _)%Hso. apply D2; [done|by eexists]. }
  unfold repopulateIDs. destruct (kv_NewIterator d prefixID []) as [l' err] eqn:El'.
  pose proof (kv_iter_sound d prefixID []) as Hso'. pose proof (kv_iter_complete d prefixID []) as Hco'.
  rewrite El' in Hso', Hco'. cbn [fst snd] in Hso', Hco'.
  destruct (repopulateIDs_fold s (foldl (repopulateAnnotEntry s) [] l) l') as (b & -> & J1 & J2);
    [intros k v (Hg & Hp & _)%Hso'; by apply D3|done|].
  bind_step. destruct err as [err|]; [by exists prefixID, err; rewrite El'|].
  assert (∀ k, dead_entry s l' k ↔ dead_key (kv_lookup d) s k) as Hdead.
  { intros k. split; intros (id & a & Hin & ?); exists id, a; (split; [|done]).
    - by apply Hso'.
    - apply Hco'; [done|done|by eexists|]. rewrite app_nil_r. apply bytes_le_prefix. }
  assert (∀ p, visited l p ↔ has_pair (kv_lookup d) p) as Hvis.
  { intros p. unfold visited, has_pair. split.
    - intros ([k v] & Ek & Hin)%list_elem_of_fmap. simpl in Ek. subst k. apply Hso in Hin as [-> _]. by eexists.
    - intros [v Hv]. apply list_elem_of_fmap. exists (pairsKey (pair_key p) (pair_val p), v). split; [done|].
      apply Hco; [done|done|by eexists|]. rewrite app_nil_r. apply bytes_le_prefix. }
  split; [done|..].
  - intros p Hp Hv. destruct (J2 (annotKey (pair_key p) (pair_val p))) as [[-> _]|[_ Hd]].
    + apply I2; [done|]. by apply Hvis.
    + apply Hdead in Hd. by apply dead_key_annot in Hd.
  - intros k Hk%Hdead. by destruct (J2 k) as [[_ ?]|[? _]].
  - intros k Hk Hn. destruct (J2 k) as [[-> _]|[_ ?%Hdead]]; [|done]. apply I3. intros p Hp Hv%Hvis. by apply Hn.
Qed.

(** ** The head after a revert *)

(** The caches still hold the entries of the entities live in a state, and no
    older ID of the same address. *)
Record caches_cover (g : reader) (st : AbsState) : Prop := {
  cc_id a id e : abs_ents st !! a = Some (id, e) → g (idKey id) = Some (array_bytes a);
  cc_addr a id e : abs_ents st !! a = Some (id, e) → g (addrKey a) = Some (PutUint64 id);
  cc_unique a id e i : abs_ents st !! a = Some (id, e) → is_u64 i → g (idKey i) = Some (array_bytes a) → i = id;
}.

Lemma addressSlot_nonzero a : a ≠ zeroAddress → addressSlot a ≠ zeroHash.
Proof.
  intros Ha Ek. apply Ha. apply (f_equal array_bytes) in Ek. unfold addressSlot, zeroHash in Ek.
  rewrite array_copy_exact, array_zero_bytes in Ek.
  - apply array_bytes_inj. unfold zeroAddress. rewrite array_zero_bytes. by apply (app_inv_head (zeros 12)).
  - rewrite length_app, array_length. unfold zeros. by rewrite length_replicate.
Qed.

Lemma live_not_dead g s st a id e : snapshot g s st → abs_ents st !! a = Some (id, e) → ¬ dead_id s id.
Proof.
  intros Sn Ha. destruct (wf_id _ (sn_wf _ _ _ Sn) _ _ _ Ha) as [_ Hid]. unfold dead_id.
  destruct (tr_id _ _ _ _ _ (sn_trie _ _ _ Sn) id Hid) as [(a' & e' & Ha' & ->)|[Hn _]].
  - apply addressSlot_nonzero. by apply (wf_addr _ (sn_wf _ _ _ Sn) _ _ _ Ha').
  - destruct Hn. by eexists _, _.
Qed.

Lemma has_pair_slot g s st p : snapshot g s st → tracked p → slot_of s p ≠ zeroHash → has_pair g p.
Proof.
  intros Sn Hp Hz. pose proof (tr_bitmaps _ _ _ _ _ (sn_trie _ _ _ Sn) p Hp) as H.
  rewrite lookup_empty in H. by destruct H as [[? _]|(_ & _ & ?)].
Qed.

#[local] Instance has_pair_dec g p : Decision (has_pair g p).
Proof. unfold has_pair. apply _. Defined.

(** The caches of the ancestor, seen through a batch that repopulates them. *)
Lemma repopulated_pebble g s0 st s st' b : snapshot g s0 st → pebble_repr g s0 st →
  snapshot g s st' → caches_cover g st' → repopulated g s b → pebble_repr (overlay b g) s st'.
Proof.
  intros Sn0 P0 Sn C [R1 R2 R3 R4]. split.
  - intros p Hp. unfold overlay. destruct (decide (has_pair g p)) as [Hv|Hv].
    + by rewrite R2.
    + rewrite R4.
      * rewrite (pb_annot _ _ _ P0 p Hp).
        assert (∀ s st, snapshot g s st → slot_of s p = zeroHash) as Hz.
        { intros s1 st1 Sn1. apply dec_stable. intros Hz. apply Hv. by eapply has_pair_slot. }
        by rewrite (Hz _ _ Sn0), (Hz _ _ Sn).
      * apply dead_key_annot.
      * intros q Hq Hvq Ek. apply annotKey_inj in Ek as ->; done.
  - intros a id e Ha. unfold overlay. rewrite R4; [by eapply cc_id| |intros; key_ne].
    intros (i & a' & Hi & Hti & Hd & [Ek|Ek]); [|discriminate Ek].
    apply idKey_inj in Ek as <-; [by eapply live_not_dead|by apply (wf_id _ (sn_wf _ _ _ Sn) _ _ _ Ha)|apply Hti].
  - intros a id e Ha. unfold overlay. rewrite R4; [by eapply cc_addr| |intros; key_ne].
    intros (i & a' & Hi & Hti & Hd & [Ek|Ek]); [discriminate Ek|]. apply addrKey_inj in Ek as <-.
    rewrite (cc_unique _ _ C _ _ _ i Ha) in Hd; [by eapply live_not_dead|apply Hti|done].
Qed.

(** The root recorded for a block hash, or the empty root of genesis, stands
    for a state. *)
Record ancestor_repr (g : reader) (hash root : Hash) (st : AbsState) : Prop := {
  an_root : g (rootKey hash) = Some (array_bytes root) ∨ (g (rootKey hash) = None ∧ root = EmptyRootHash);
  an_repr : root_repr g root st;
}.

Lemma ancestorRootOf_ok σ hash root st : ancestor_repr (store_reader σ) hash root st → ancestorRootOf σ hash = Ok root.
Proof.
  intros [[Hr|[Hr ->]] _]; unfold ancestorRootOf.
  - apply kv_Get_lookup in Hr as ->. by rewrite BytesToHash_bytes.
  - by destruct (kv_Get_None _ _ Hr) as [e ->].
Qed.

(** The entries that a revert drops: those of IDs that are dead in the target
    state. *)
Definition cache_key (dk : db_key) : Prop := match dk with KID _ | KAddr _ => True | _ => False end.
Definition dead_cache (g : reader) (st : AbsState) (k : bytes) : Prop :=
  ∃ id (a : Address), g (idKey id) = Some (array_bytes a) ∧ tracked_id id ∧ ¬ live_id st id ∧ (k = idKey id ∨ k = addrKey a).

Lemma dead_key_cache g s st k : snapshot g s st → dead_key g s k → dead_cache g st k.
Proof.
  intros Sn (id & a & Hg & Hid & Hd & Hk). exists id, a. split_and!; try done. intros (a' & e & Ha). by eapply live_not_dead.
Qed.

(** What a successful revert to the parent [anc] of the oldest block leaves. *)
Record revert_post (σ : Store) (refs : list ArkivBlockRef) (number : N) (anc root : Hash) (st : AbsState) (σ' : Store) : Prop := {
  rv_head : headRoot σ' = root ∧ headHash σ' = anc ∧ headNumber σ' = number;
  rv_repr : head_repr σ' st;
  rv_headKey : store_reader σ' headKey = Some (encodeHead number anc root);
  rv_refs k : ref_keys refs k → store_reader σ' k = None;
  rv_other k : k ≠ headKey → ¬ ref_keys refs k → (∃ dk, k = key_bytes dk ∧ index_key dk) →
    store_reader σ' k = store_reader σ k;
  rv_grows : grows (store_reader σ) (store_reader σ');
  rv_roots r t : state_New (store_reader σ) r = Ok t → ∃ t', state_New (store_reader σ') r = Ok t' ∧ state_same t t';
  rv_dead id a : tracked_id id → ¬ live_id st id → store_reader σ (idKey id) = Some (array_bytes a) →
    store_reader σ' (idKey id) = None ∧ store_reader σ' (addrKey a) = None;
  rv_cache dk : cache_key dk → ¬ dead_cache (store_reader σ) st (key_bytes dk) →
    store_reader σ' (key_bytes dk) = store_reader σ (key_bytes dk);
}.

Lemma pred_guard n : (if (0 <? n)%N then n - 1 else 0)%N = (n - 1)%N.
Proof. destruct (N.ltb_spec 0 n); lia. Qed.

(** The batch of a revert, as the reader it leaves. *)
Lemma revert_batch_post σ st refs oldest anc root st' s b0 d :
  head_repr σ st → ancestor_repr (store_reader σ) anc root st' → caches_cover (store_reader σ) st' →
  state_New (store_reader σ) root = Ok s → snapshot (store_reader σ) s st' →
  repopulated (store_reader σ) s b0 →
  let number := (ref_Number oldest - 1)%N in
  let b := batch_Put (foldl deleteBlockIndex b0 refs) headKey (encodeHead number anc root) in
  (∀ k, kv_lookup d k = overlay b (store_reader σ) k) →
  revert_post σ refs number anc root st' (mkStore d root anc number).
Proof.
  intros [D (s0 & Hs0 & Sn0 & P0)] An C Hs Sn Rp number b Hd.
  destruct (deleteBlockIndex_fold b0 refs (rp_ops _ _ _ Rp)) as [Hops Hdel].
  assert (Forall revert_op b) as Hb.
  { unfold b, batch_Put. apply Forall_app. split; [done|]. apply Forall_singleton. by left. }
  assert (∀ k, batch_lookup b k = if decide (headKey = k) then Some (Some (encodeHead number anc root))
    else batch_lookup (foldl deleteBlockIndex b0 refs) k) as Hbk by (intros; apply batch_lookup_Put).
  assert (∀ dk, index_key dk → ¬ dead_key (store_reader σ) s (key_bytes dk)) as Hnd.
  { intros dk Hdk (? & ? & _ & _ & _ & [Ek|Ek]); destruct dk; done || discriminate Ek. }
  assert (∀ k, ref_keys refs k → headKey ≠ k) as Hhr by (intros k (r & _ & [->|[->| ->]]); key_ne).
  (* outside the block index the whole batch reads as the repopulation *)
  assert (∀ k, ¬ ref_keys refs k → k ≠ headKey → overlay b (store_reader σ) k = overlay b0 (store_reader σ) k) as Hov.
  { intros k Hk Hh. unfold overlay. rewrite Hbk, decide_False by congruence. by destruct (Hdel k) as [[-> _]|[_ ?]]. }
  assert (pebble_repr (overlay b (store_reader σ)) s st') as P.
  { eapply (pebble_repr_frame (overlay b0 (store_reader σ)) _ s); [| |done|].
    3:{ by apply (repopulated_pebble _ s0 st _ _ _ Sn0 P0 Sn C). }
    - intros p _. apply Hov; [intros (r & _ & [Ek|[Ek|Ek]]); discriminate Ek|key_ne].
    - intros id a e _. split; (apply Hov; [intros (r & _ & [Ek|[Ek|Ek]]); discriminate Ek|key_ne]). }
  assert (∀ r t, state_New (store_reader σ) r = Ok t → ∃ t', state_New (kv_lookup d) r = Ok t' ∧ state_same t t') as Hroots.
  { intros r t. apply state_New_ext. intros k Hk. rewrite Hd. by apply revert_batch_trie. }
  assert (grows (store_reader σ) (kv_lookup d)) as G
    by exact (grows_trans _ _ _ (revert_batch_grows b _ Hb) (grows_eq _ _ Hd)).
  split; simpl; try done.
  - split; [eapply db_wf_ext; [exact Hd|]; by apply revert_batch_db_wf|]. simpl.
    destruct (Hroots _ _ Hs) as (s' & Hs' & Hsame). exists s'. split; [done|]. split.
    + eapply snapshot_same; [done|]. by eapply snapshot_grows.
    + eapply pebble_repr_frame; [intros; apply Hd|intros; split; apply Hd| |exact P].
      intros p _. symmetry. apply Hsame.
  - unfold store_reader. simpl. rewrite Hd. unfold overlay. by rewrite Hbk, decide_True.
  - intros k Hk. unfold store_reader. simpl. rewrite Hd. unfold overlay. rewrite Hbk, decide_False by auto.
    by destruct (Hdel k) as [[_ ?]|[-> _]].
  - intros k Hk Hn (dk & -> & Hdk). unfold store_reader at 1. simpl. rewrite Hd, Hov by done. unfold overlay.
    rewrite (rp_other _ _ _ Rp); [done|by apply Hnd|]. intros p _ _ Ek. destruct dk; done || discriminate Ek.
  - intros id a Hid Hn Ha. assert (dead_id s id) as Hdead.
    { destruct (tr_id _ _ _ _ _ (sn_trie _ _ _ Sn) id Hid) as [(a' & e' & Ha' & _)|[_ ?]]; [|done].
      destruct Hn. by eexists _, _. }
    unfold store_reader. simpl. rewrite !Hd, !Hov; [|intros (r & _ & [Ek|[Ek|Ek]]); discriminate Ek|key_ne..|
      intros (r & _ & [Ek|[Ek|Ek]]); discriminate Ek|key_ne]. unfold overlay.
    rewrite !(rp_dead _ _ _ Rp); [done|exists id, a; by auto|exists id, a; by auto].
  - intros dk Hc Hn. unfold store_reader at 1. simpl. rewrite Hd, Hov; [|intros (r & _ & [Ek|[Ek|Ek]]); destruct dk; done || discriminate Ek|destruct dk; done || key_ne].
    unfold overlay. rewrite (rp_other _ _ _ Rp); [done|intros Hk; apply Hn; by eapply dead_key_cache|].
    intros p _ _ Ek. destruct dk; done || discriminate Ek.
Qed.

Definition revert_failure (d : Database) : Prop := iterator_failure d ∨ ∃ b err, kv_Write d b = Err err.

(** Every outcome of a revert. *)
Lemma applyRevert_ok σ st refs oldest anc root st' :
  head_repr σ st → store_reader σ (parentKey (ref_Hash oldest)) = Some (array_bytes anc) →
  ancestor_repr (store_reader σ) anc root st' → caches_cover (store_reader σ) st' →
  match applyRevert σ (revertBatch σ oldest refs) with
  | (Ok _, σ') => revert_post σ refs (ref_Number oldest - 1) anc root st' σ'
  | (Err _, σ') => σ' = σ ∧ revert_failure (rawDB σ)
  | (Panic, _) => False
  end.
Proof.
  intros R Hp An C. unfold revertBatch. apply kv_Get_lookup in Hp as ->. wrap_step.
  rewrite BytesToHash_bytes, (ancestorRootOf_ok _ _ _ _ An). bind_step.
  destruct (an_repr _ _ _ _ An) as (s & Hs & Sn). rewrite Hs. wrap_step.
  pose proof (repopulatePebbleDB_ok (rawDB σ) s (hr_db _ _ R)) as Hrp.
  destruct (repopulatePebbleDB (rawDB σ) [] s) as [b0|err|]; cbn [wrap mbind result_bind applyRevert];
    [|split; [done|by left]|done].
  rewrite pred_guard. destruct (kv_Write _ _) as [d|err|] eqn:Ew.
  - eapply revert_batch_post; [exact R|exact An|exact C|exact Hs|exact Sn|exact Hrp|]. by apply kv_Write_spec.
  - split; [done|]. right. eauto.
  - by apply kv_Write_no_panic in Ew.
Qed.

End RevertProofs.
