(* ===== verification/ReorgProofs.v ===== *)
(** Sequences of blocks, reverts of processed blocks and reorgs
    (src/store/store.go, src/chain/server.go). *)
From S2P Require Export RevertProofs Chain.

Section ReorgProofs.
Context {E : Env} {EO : EnvOk} {CF : CollisionFree}.

Lemma revertToAncestor_ok σ st refs oldest anc root st' :
  head_repr σ st → last refs = Some oldest → store_reader σ (parentKey (ref_Hash oldest)) = Some (array_bytes anc) →
  ancestor_repr (store_reader σ) anc root st' → caches_cover (store_reader σ) st' →
  match revertToAncestor σ refs with
  | (Ok _, σ') => revert_post σ refs (ref_Number oldest - 1) anc root st' σ'
  | (Err _, σ') => σ' = σ ∧ revert_failure (rawDB σ)
  | (Panic, _) => False
  end.
Proof. intros R Hl Hp An C. unfold revertToAncestor. rewrite Hl. exact (applyRevert_ok _ _ refs _ _ _ _ R Hp An C). Qed.

(** ** History through a block *)

Lemma root_repr_block σ block st st' root σ' r st0 : block_post σ block st st' root σ' →
  root_repr (store_reader σ) r st0 → root_repr (store_reader σ') r st0.
Proof.
  intros B (s & Hs & Sn). destruct (bk_roots _ _ _ _ _ _ B _ _ Hs) as (s' & Hs' & Hsame).
  exists s'. split; [done|]. eapply snapshot_same; [done|]. eapply snapshot_grows; [|done]. apply B.
Qed.

Definition creates (block : ArkivBlock) (a : Address) : Prop :=
  ∃ op o, op ∈ block_ops block ∧ op_Create op = Some o ∧ a = keyAddress (create_EntityKey o).

(** Which entries a block may change. *)
Lemma block_key_cases st block dk : block_key st block (key_bytes dk) →
  match dk with
  | KRoot h | KParent h => h = header_Hash (block_Header block)
  | KBlockNumber n => is_u64 n → is_u64 (header_Number (block_Header block)) → n = header_Number (block_Header block)
  | KID id => is_u64 id → (abs_count st < id)%N
  | KAddr a => creates block a
  | _ => True
  end.
Proof.
  intros [[(d & Ek & Hd)|[Ek|[Ek|[Ek|Ek]]]]|[(id & Hlt & Hid & Ek)|(op & o & Hop & Ho & Ek)]];
    destruct dk; try done; try discriminate Ek; try (by destruct d).
  - by apply app_inv_head, array_bytes_inj in Ek.
  - by apply app_inv_head, array_bytes_inj in Ek.
  - intros ? ?. by apply app_inv_head, PutUint64_inj in Ek.
  - intros ?. by apply idKey_inj in Ek as ->.
  - apply addrKey_inj in Ek. by exists op, o.
Qed.

Lemma block_other σ block st st' root σ' dk : block_post σ block st st' root σ' →
  ¬ block_key st block (key_bytes dk) → store_reader σ' (key_bytes dk) = store_reader σ (key_bytes dk).
Proof. intros B Hk. apply (bk_rd _ _ _ _ _ _ B); [apply arkiv_prefix|done]. Qed.

Lemma ancestor_repr_block σ block st st' root σ' h r st0 : block_post σ block st st' root σ' →
  h ≠ header_Hash (block_Header block) →
  ancestor_repr (store_reader σ) h r st0 → ancestor_repr (store_reader σ') h r st0.
Proof.
  intros B Hh [Hr An]. split.
  - change (rootKey h) with (key_bytes (KRoot h)). by rewrite (block_other _ _ _ _ _ _ _ B) by (by intros ?%block_key_cases).
  - by eapply root_repr_block.
Qed.

(** The caches of an earlier state survive blocks that do not create its
    addresses again. *)
Lemma caches_cover_block σ block st st' root σ' st0 : block_post σ block st st' root σ' →
  abs_wf st0 → (abs_count st0 ≤ abs_count st)%N →
  (∀ a, creates block a → abs_ents st0 !! a = None) →
  caches_cover (store_reader σ) st0 → caches_cover (store_reader σ') st0.
Proof.
  intros B W Hle Hcr [C1 C2 C3].
  assert (∀ a id e, abs_ents st0 !! a = Some (id, e) → ¬ creates block a) as Haddr.
  { intros a id e Ha Hc. by rewrite (Hcr a Hc) in Ha. }
  split.
  - intros a id e Ha. change (idKey id) with (key_bytes (KID id)).
    rewrite (block_other _ _ _ _ _ _ _ B); [by eapply C1|].
    intros Hk%block_key_cases. destruct (wf_id _ W _ _ _ Ha) as [? [Hid _]]. specialize (Hk Hid). lia.
  - intros a id e Ha. change (addrKey a) with (key_bytes (KAddr a)).
    rewrite (block_other _ _ _ _ _ _ _ B); [by eapply C2|].
    intros Hk%block_key_cases. by eapply Haddr.
  - intros a id e i Ha Hi Hg. destruct (bk_id _ _ _ _ _ _ B _ _ Hg) as [Hg'|Ht]; [by eapply C3|].
    exfalso. eapply Haddr; [exact Ha|]. apply (block_key_cases st block (KAddr a)). by right.
Qed.

(** The caches of the head cover its own state, but for aliases. *)
Definition no_alias (g : reader) (st : AbsState) : Prop :=
  ∀ a id e i, abs_ents st !! a = Some (id, e) → is_u64 i → g (idKey i) = Some (array_bytes a) → i = id.

Lemma caches_cover_head σ st : head_repr σ st → no_alias (store_reader σ) st → caches_cover (store_reader σ) st.
Proof. intros [_ (s & _ & _ & [_ P2 P3])] Hn. by split. Qed.

(** ** Sequences of blocks *)

(** The inputs a run of blocks needs, at each store it reaches. *)
Fixpoint blocks_valid (σ : Store) (st : AbsState) (blocks : list ArkivBlock) : Prop :=
  match blocks with
  | [] => True
  | b :: blocks => block_valid st b ∧ block_hashed σ b ∧
      ∀ root σ' st', processBlock σ b = (Ok root, σ') → abs_block st b = Some st' → blocks_valid σ' st' blocks
  end.

Lemma blocks_valid_cons σ st b root1 σ1 st1 blocks :
  block_valid st b → block_hashed σ b → processBlock σ b = (Ok root1, σ1) → abs_block st b = Some st1 →
  blocks_valid σ1 st1 blocks → blocks_valid σ st (b :: blocks).
Proof. intros V H Hp Ha Vs. split; [done|]. split; [done|]. intros root σ' st'. rewrite Hp, Ha. by intros [= _ <-] [= <-]. Qed.

(** A run stops after some prefix of the blocks, and the head represents it. *)
Lemma processBlocks_ok blocks σ st : head_repr σ st → blocks_valid σ st blocks →
  match processBlocks σ blocks with
  | (Ok _, σ') => ∃ st', abs_blocks st blocks = Some st' ∧ head_repr σ' st'
  | (Err _, σ') => ∃ done rest st', blocks = done ++ rest ∧ rest ≠ [] ∧ abs_blocks st done = Some st' ∧ head_repr σ' st'
  | (Panic, _) => False
  end.
Proof.
  revert σ st. induction blocks as [|b blocks IH]; intros σ st R V; cbn [processBlocks abs_blocks]; [by exists st|].
  destruct V as (V & Hh & Vs). pose proof (processBlock_ok _ _ _ R V Hh) as H.
  destruct (abs_block st b) as [st1|] eqn:Eb; cbn [mbind option_bind].
  2:{ destruct H as [err ->]. by exists [], (b :: blocks), st. }
  destruct (processBlock σ b) as [[root|err|] σ1] eqn:Ep; [|destruct H as [-> _]; by exists [], (b :: blocks), st|done].
  specialize (IH σ1 st1 (bk_repr _ _ _ _ _ _ H) (Vs _ _ _ eq_refl eq_refl)).
  destruct (processBlocks σ1 blocks) as [[|e|] σ']; [exact IH| |done].
  destruct IH as (dn & rest & st' & -> & Hr & Ha & R'). exists (b :: dn), rest, st'. cbn [abs_blocks]. rewrite Eb. done.
Qed.

(** An environment that answers at every store a run reaches. *)
Fixpoint responsive_run (σ : Store) (blocks : list ArkivBlock) : Prop :=
  match blocks with
  | [] => True
  | b :: blocks => responsive σ b ∧
      ∀ root σ', processBlock σ b = (Ok root, σ') → responsive_run σ' blocks
  end.

Lemma processBlocks_progress blocks σ st st' : head_repr σ st → blocks_valid σ st blocks → responsive_run σ blocks →
  abs_blocks st blocks = Some st' → ∃ σ', processBlocks σ blocks = (Ok tt, σ') ∧ head_repr σ' st'.
Proof.
  revert σ st. induction blocks as [|b blocks IH]; intros σ st R V U; cbn [abs_blocks processBlocks].
  { intros [= <-]. by exists σ. }
  destruct V as (V & Hh & Vs), U as [U Us]. destruct (abs_block st b) as [st1|] eqn:Ea; [|done].
  cbn [mbind option_bind]. destruct (processBlock_progress _ _ _ _ R V Hh U Ea) as (root & σ1 & Hp & B). rewrite Hp.
  apply (IH σ1 st1); [exact (bk_repr _ _ _ _ _ _ B)|by eapply Vs|by eapply Us].
Qed.

Lemma RevertBlocks_last σ refs oldest : last refs = Some oldest →
  RevertBlocks σ refs = let '(r, σ') := revertToAncestor σ refs in (_ ← r; Ok (headRoot σ'), σ').
Proof. by destruct refs. Qed.

(** A reorg is a revert followed by a run of the new blocks. *)
Lemma Reorg_ok σ st refs oldest anc root st0 blocks :
  head_repr σ st → last refs = Some oldest →
  store_reader σ (parentKey (ref_Hash oldest)) = Some (array_bytes anc) →
  ancestor_repr (store_reader σ) anc root st0 → caches_cover (store_reader σ) st0 →
  (∀ σ1, revertToAncestor σ refs = (Ok tt, σ1) → blocks_valid σ1 st0 blocks) →
  match Reorg σ refs blocks with
  | (Ok r, σ') => ∃ st', abs_blocks st0 blocks = Some st' ∧ head_repr σ' st' ∧ r = headRoot σ'
  | (Err _, σ') => σ' = σ ∨
      ∃ done rest st', blocks = done ++ rest ∧ rest ≠ [] ∧ abs_blocks st0 done = Some st' ∧ head_repr σ' st'
  | (Panic, _) => False
  end.
Proof.
  intros R Hl Hp An C Hv. pose proof (revertToAncestor_ok _ _ _ _ _ _ _ R Hl Hp An C) as H.
  destruct refs as [|r0 refs]; [done|]. unfold Reorg. destruct (revertToAncestor _ _) as [[[]|e|] σ1]; cbn; [|by left; apply H|done].
  pose proof (processBlocks_ok blocks σ1 st0 (rv_repr _ _ _ _ _ _ _ H) (Hv _ eq_refl)) as Hb.
  destruct (processBlocks σ1 blocks) as [[[]|e|] σ']; cbn; [|by right|done].
  destruct Hb as (st' & ? & ?). by exists st'.
Qed.

(** The head of a store reverts to its parent. *)
Lemma revert_after_block σ block st st' root σ1 :
  head_repr σ st → block_post σ block st st' root σ1 →
  header_ParentHash (block_Header block) = headHash σ → headHash σ ≠ header_Hash (block_Header block) →
  ancestor_repr (store_reader σ) (headHash σ) (headRoot σ) st → no_alias (store_reader σ) st →
  (∀ a, creates block a → abs_ents st !! a = None) →
  let ref := mkArkivBlockRef (header_Number (block_Header block)) (header_Hash (block_Header block)) in
  match applyRevert σ1 (revertBatch σ1 ref [ref]) with
  | (Ok _, σ2) => revert_post σ1 [ref] (ref_Number ref - 1) (headHash σ) (headRoot σ) st σ2
  | (Err _, σ2) => σ2 = σ1 ∧ revert_failure (rawDB σ1)
  | (Panic, _) => False
  end.
Proof.
  intros R B Hpar Hne An Hal Hcr ref. destruct (bk_head _ _ _ _ _ _ B) as (_ & Hh & _).
  eapply applyRevert_ok.
  - exact (bk_repr _ _ _ _ _ _ B).
  - cbn [ref_Hash ref]. rewrite <-Hh, <-Hpar. exact (bk_parent _ _ _ _ _ _ B).
  - eapply ancestor_repr_block; [exact B|done|done].
  - destruct (hr_state _ _ R) as (s & _ & Sn & _).
    eapply caches_cover_block; [exact B|apply Sn|done|done|]. by apply caches_cover_head.
Qed.

(** The loop of [CommitChain] is the loop of [Reorg] with the last root. *)
Lemma commitLoop_processBlocks σ root blocks :
  match processBlocks σ blocks with
  | (Ok _, σ') => commitLoop σ root blocks = (Ok (match blocks with [] => root | _ => headRoot σ' end), σ')
  | (Err _, σ') => ∃ e, commitLoop σ root blocks = (Err e, σ')
  | (Panic, σ') => commitLoop σ root blocks = (Panic, σ')
  end.
Proof.
  revert σ root. induction blocks as [|b blocks IH]; intros σ root; cbn [commitLoop processBlocks]; [done|].
  unfold ProcessBlock. destruct (processBlock σ b) as [[r|e|] σ1] eqn:Ep; [|by eexists|done].
  apply processBlock_root in Ep as Hr. specialize (IH σ1 r).
  destruct (processBlocks σ1 blocks) as [[[]|e|] σ2] eqn:E2; [|done..]. rewrite IH.
  destruct blocks; [|done]. cbn in E2. injection E2 as <-. by rewrite Hr.
Qed.

End ReorgProofs.
