(* ===== verification/IdProofs.v ===== *)
(** The ID and address entries, exactly: what the operations of a block add, and
    what a revert leaves (src/store/ops.go: processCreate, src/store/revert.go:
    repopulateIDs). *)
From S2P Require Export ReorgProofs.

Section IdProofs.
Context {E : Env} {EO : EnvOk} {CF : CollisionFree}.

(** The IDs that a list of operations gives out, and the addresses it creates. *)
Fixpoint ops_ids (count : N) (ops : list ArkivOperation) : gmap N Address :=
  match ops with
  | [] => ∅
  | op :: ops =>
      match op_Create op with
      | Some o => <[(count + 1)%N := keyAddress (create_EntityKey o)]> (ops_ids (count + 1) ops)
      | None => ops_ids count ops
      end
  end.
Definition ops_creates (ops : list ArkivOperation) : list Address :=
  omap (λ op, (λ o, keyAddress (create_EntityKey o)) <$> op_Create op) ops.

Lemma ops_ids_bounds count ops id a : ops_ids count ops !! id = Some a → (count < id)%N ∧ a ∈ ops_creates ops.
Proof.
  revert count. induction ops as [|op ops IH]; intros count; cbn [ops_ids]; [by rewrite lookup_empty|].
  unfold ops_creates. cbn [omap list_omap]. destruct (op_Create op) as [o|]; cbn.
  - intros [[<- <-]|[_ H]]%lookup_insert_Some; [split; [lia|apply elem_of_cons; by left]|].
    apply IH in H as [? ?]. split; [lia|]. apply elem_of_cons. by right.
  - apply IH.
Qed.

Lemma ops_ids_inj count ops i j a : NoDup (ops_creates ops) →
  ops_ids count ops !! i = Some a → ops_ids count ops !! j = Some a → i = j.
Proof.
  revert count. induction ops as [|op ops IH]; intros count; cbn [ops_ids]; [by rewrite lookup_empty|].
  unfold ops_creates. cbn [omap list_omap]. destruct (op_Create op) as [o|]; cbn; [|apply IH].
  intros [Hn Hd]%NoDup_cons [[<- Ha]|[? Hi]]%lookup_insert_Some [[<- Hb]|[? Hj]]%lookup_insert_Some; [done| | |by eapply IH].
  - apply ops_ids_bounds in Hj as [_ Hj]. by rewrite <-Ha in Hj.
  - apply ops_ids_bounds in Hi as [_ Hi]. by rewrite <-Hb in Hi.
Qed.

(** Other operations give out no ID. *)
Lemma abs_op_count_same n st op st' : op_Create op = None → abs_op n st op = Some st' → abs_count st' = abs_count st.
Proof.
  unfold abs_op. intros ->. repeat case_match; intros Hop; simplify_eq;
    first [apply abs_modify_Some in Hop as (?&?&?&->)|apply abs_delete_Some in Hop as [_ ->]]; done.
Qed.

(** The entries after the operations, given those before. *)
Record ids_written (g g' : reader) (count : N) (ops : list ArkivOperation) : Prop := {
  iw_id x : is_u64 x → g' (idKey x) = match ops_ids count ops !! x with Some a => Some (array_bytes a) | None => g (idKey x) end;
  iw_addr x a : NoDup (ops_creates ops) → ops_ids count ops !! x = Some a → g' (addrKey a) = Some (PutUint64 x);
  iw_other a : a ∉ ops_creates ops → g' (addrKey a) = g (addrKey a);
}.

(** A creation writes the two entries of its ID. *)
Lemma create_written cs st op o cs' : cs_frame (op_touched st op) cs cs' → op_Create op = Some o →
  cs_repr cs' (abs_create (blockNumber cs) st o) → is_u64 (abs_count st + 1) →
  let a := keyAddress (create_EntityKey o) in
  (∀ x, is_u64 x → rd cs' (idKey x) = if decide (x = abs_count st + 1)%N then Some (array_bytes a) else rd cs (idKey x)) ∧
  rd cs' (addrKey a) = Some (PutUint64 (abs_count st + 1)) ∧
  ∀ b, b ≠ a → rd cs' (addrKey b) = rd cs (addrKey b).
Proof.
  intros F Ho R Hu a. assert (abs_ents (abs_create (blockNumber cs) st o) !! a = Some ((abs_count st + 1)%N, created (blockNumber cs) o)) as Ha.
  { unfold abs_create. cbn. apply lookup_insert_eq. }
  split_and!.
  - intros x Hx. destruct (decide _) as [->|Hne]; [by apply (pb_id _ _ _ (cr_pebble _ _ R) _ _ _ Ha)|].
    apply (cf_rd _ _ _ F). unfold op_touched, create_touched. rewrite Ho. intros [Ek|Ek]; [|discriminate Ek].
    by apply idKey_inj in Ek.
  - by apply (pb_addr _ _ _ (cr_pebble _ _ R) _ _ _ Ha).
  - intros b Hb. apply (cf_rd _ _ _ F). unfold op_touched, create_touched. rewrite Ho.
    intros [Ek|Ek]; [discriminate Ek|]. by apply addrKey_inj in Ek.
Qed.

Lemma applyOps_ids number ops cs st cs' st' : cs_repr cs st → blockNumber cs = number → ops_valid number st ops →
  abs_ops number st ops = Some st' → foldM (λ cs op, wrap "tx op" (ApplyOp cs op)) cs ops = Ok cs' →
  ids_written (rd cs) (rd cs') (abs_count st) ops.
Proof.
  unfold ApplyOp. revert cs st. induction ops as [|op ops IH]; intros cs st R Hn V; cbn [foldM abs_ops].
  { intros _ [= <-]. split; [done|by intros x a _ [=]|done]. }
  destruct V as [V Vs]. subst number. pose proof (applyOp_ok _ _ _ R V) as Hop.
  destruct (abs_op (blockNumber cs) st op) as [st1|] eqn:Eop; [|done]. cbn [mbind option_bind].
  destruct Hop as (cs1 & -> & R1 & F1). wrap_step. intros Ha Hf.
  destruct (IH cs1 st1 R1 (cf_number _ _ _ F1) Vs Ha Hf) as [I1 I2 I3]. destruct (op_Create op) as [o|] eqn:Ho.
  - assert (st1 = abs_create (blockNumber cs) st o) as -> by (unfold abs_op in Eop; rewrite Ho in Eop; congruence).
    unfold op_valid in V. rewrite Ho in V. destruct V as (_ & _ & _ & [Hu _] & _).
    destruct (create_written _ _ _ _ _ F1 Ho R1 Hu) as (W1 & W2 & W3). change (abs_count (abs_create _ st o)) with (abs_count st + 1)%N in *.
    split; unfold ops_creates; cbn [ops_ids omap list_omap]; rewrite Ho; cbn.
    + intros x Hx. rewrite I1, W1, lookup_insert by done.
      destruct (decide (abs_count st + 1 = x)%N) as [<-|Hne].
      * destruct (ops_ids _ ops !! _) as [b|] eqn:Eb; [apply ops_ids_bounds in Eb; lia|]. by rewrite decide_True by done.
      * destruct (ops_ids _ ops !! x); [done|]. by rewrite decide_False.
    + intros x a [Hnin Hd]%NoDup_cons [[<- <-]|[_ Hx]]%lookup_insert_Some; [by rewrite I3|by apply I2].
    + intros a [Hne Hnin]%not_elem_of_cons. rewrite I3 by done. by apply W3.
  - assert (∀ k, rd cs1 k = rd cs k) as Hsame.
    { intros k. apply (cf_rd _ _ _ F1). unfold op_touched. rewrite Ho. by intros []. }
    rewrite (abs_op_count_same _ _ _ _ Ho Eop) in *. split; unfold ops_creates; cbn [ops_ids omap list_omap]; rewrite Ho; cbn.
    + intros x Hx. rewrite I1 by done. by rewrite Hsame.
    + done.
    + intros a Hnin. by rewrite I3.
Qed.

Lemma processBlock_ids σ st b root σ' st' : head_repr σ st → block_valid st b → block_hashed σ b →
  abs_block st b = Some st' → processBlock σ b = (Ok root, σ') →
  ids_written (store_reader σ) (store_reader σ') (abs_count st) (block_ops b).
Proof.
  intros R V Hh Ha. pose proof (runBlock_ok σ st b R V) as Hrun. rewrite Ha in Hrun.
  destruct Hrun as (cs & Hcs & Rc & _). unfold processBlock. fold (runBlock σ b). rewrite Hcs.
  pose proof (Commit_ok _ _ Rc (Hh _ Hcs)) as HC. destruct (Commit cs) as [[r|e|] d]; [|done..]. intros [= _ <-].
  unfold runBlock in Hcs. destruct (openBlock_ok σ st b R) as (cs0 & Ho & R0 & _ & Hr & Hn & _). rewrite Ho in Hcs.
  cbn [mbind result_bind] in Hcs. rewrite applyTransactions_ops in Hcs. fold (block_ops b) in Hcs.
  destruct (applyOps_ids _ _ _ _ _ _ R0 Hn V Ha Hcs) as [I1 I2 I3].
  assert (∀ dk, cache_key dk → kv_lookup d (key_bytes dk) = rd cs (key_bytes dk)) as Hd.
  { intros dk Hdk. apply (cp_rd _ _ _ _ HC); [apply arkiv_prefix|].
    intros [(x & Ek & Hx)|[Ek|[Ek|[Ek|Ek]]]]; destruct dk; try done; try discriminate Ek; by destruct x. }
  split.
  - intros x Hx. etrans; [exact (Hd (KID x) I)|]. cbn [key_bytes]. rewrite (I1 x Hx). by rewrite Hr.
  - intros x a Hnd Hx. etrans; [exact (Hd (KAddr a) I)|]. by apply I2.
  - intros a Hnin. etrans; [exact (Hd (KAddr a) I)|]. cbn [key_bytes]. rewrite (I3 a Hnin). by rewrite Hr.
Qed.

End IdProofs.
