(* ===== verification/HistoryProofs.v ===== *)
(** Histories: what a run of blocks keeps of the block it started from, so that
    the run can be undone and replayed (src/store/store.go: RevertBlocks,
    Reorg). *)
From S2P Require Export ReorgProofs.

Section HistoryProofs.
Context {E : Env} {EO : EnvOk} {CF : CollisionFree}.

(** Rule for runs: a relation between the store and the state that every
    committed block keeps. *)
Lemma processBlocks_inv (P : Store → AbsState → Prop) blocks σ st σ' :
  (∀ σ st b st' root σ', b ∈ blocks → abs_block st b = Some st' → head_repr σ st → P σ st → block_post σ b st st' root σ' → P σ' st') →
  head_repr σ st → blocks_valid σ st blocks → P σ st → processBlocks σ blocks = (Ok tt, σ') →
  ∃ st', abs_blocks st blocks = Some st' ∧ head_repr σ' st' ∧ P σ' st'.
Proof.
  revert σ st. induction blocks as [|b blocks IH]; intros σ st Hstep R V HP; cbn [processBlocks abs_blocks].
  { intros [= <-]. by exists st. }
  destruct V as (V & Hh & Vs). pose proof (processBlock_ok _ _ _ R V Hh) as H.
  destruct (abs_block st b) as [st1|] eqn:Eb.
  2:{ destruct H as [err ->]. done. }
  destruct (processBlock σ b) as [[root|err|] σ1] eqn:Ep; [|done..]. intros Hrun. cbn [mbind option_bind].
  apply (IH σ1 st1); [|exact (bk_repr _ _ _ _ _ _ H)|by eapply Vs| |exact Hrun].
  - intros. eapply Hstep; [apply elem_of_cons; by right|done..].
  - eapply Hstep; [apply elem_of_cons; by left|done..].
Qed.

Definition block_hash (b : ArkivBlock) : Hash := header_Hash (block_Header b).
Definition block_ref (b : ArkivBlock) : ArkivBlockRef :=
  mkArkivBlockRef (header_Number (block_Header b)) (header_Hash (block_Header b)).

(** What a later block needs to know of the block a run started from: its root
    and its caches, and where the parent pointer of the run's first block
    leads. *)
Record origin (h0 r0 first : Hash) (st0 : AbsState) (σ : Store) (st : AbsState) : Prop := {
  og_repr : ancestor_repr (store_reader σ) h0 r0 st0;
  og_caches : caches_cover (store_reader σ) st0;
  og_count : (abs_count st0 ≤ abs_count st)%N;
  og_wf : abs_wf st0;
  og_parent : store_reader σ (parentKey first) = Some (array_bytes h0);
}.

(** A block with new hashes and fresh entity keys keeps the origin. *)
Lemma origin_block h0 r0 first st0 σ b st st' root σ' :
  block_hash b ≠ h0 → block_hash b ≠ first → (∀ a, creates b a → abs_ents st0 !! a = None) →
  (abs_count st ≤ abs_count st')%N → block_post σ b st st' root σ' → origin h0 r0 first st0 σ st → origin h0 r0 first st0 σ' st'.
Proof.
  intros Hh Hf Hc Hle B [O1 O2 O3 O4 O5]. split.
  - eapply ancestor_repr_block; [exact B|intros Hx; by apply Hh|exact O1].
  - eapply caches_cover_block; [exact B|exact O4|exact O3|exact Hc|exact O2].
  - lia.
  - exact O4.
  - change (parentKey first) with (key_bytes (KParent first)). rewrite (block_other _ _ _ _ _ _ _ B); [exact O5|].
    intros Hk%block_key_cases. by apply Hf.
Qed.

(** The first block of a run makes the head its origin. *)
Lemma origin_start σ st b st' root σ' :
  head_repr σ st → ancestor_repr (store_reader σ) (headHash σ) (headRoot σ) st → no_alias (store_reader σ) st →
  header_ParentHash (block_Header b) = headHash σ → block_hash b ≠ headHash σ →
  (∀ a, creates b a → abs_ents st !! a = None) → (abs_count st ≤ abs_count st')%N →
  block_post σ b st st' root σ' → origin (headHash σ) (headRoot σ) (block_hash b) st σ' st'.
Proof.
  intros R An Hal Hpar Hne Hc Hle B. destruct (hr_state _ _ R) as (s & _ & Sn & _). split.
  - eapply ancestor_repr_block; [exact B|intros Hx; by apply Hne|exact An].
  - eapply caches_cover_block; [exact B|apply Sn|done|exact Hc|]. by apply caches_cover_head.
  - exact Hle.
  - apply Sn.
  - pose proof (bk_parent _ _ _ _ _ _ B) as Hp. destruct (bk_head _ _ _ _ _ _ B) as (_ & Hh & _).
    rewrite Hh, Hpar in Hp. exact Hp.
Qed.

(** A run of blocks from a store: linked to its head, with hashes of its own
    and entity keys that are fresh at its start. *)
Record run_from (σ : Store) (st : AbsState) (b : ArkivBlock) (blocks : list ArkivBlock) : Prop := {
  rf_repr : head_repr σ st;
  rf_root : ancestor_repr (store_reader σ) (headHash σ) (headRoot σ) st;
  rf_alias : no_alias (store_reader σ) st;
  rf_valid : blocks_valid σ st (b :: blocks);
  rf_parent : header_ParentHash (block_Header b) = headHash σ;
  rf_hashes : Forall (λ b', block_hash b' ≠ headHash σ) (b :: blocks);
  rf_first : Forall (λ b', block_hash b' ≠ block_hash b) blocks;
  rf_fresh : Forall (λ b', ∀ a, creates b' a → abs_ents st !! a = None) (b :: blocks);
}.

(** A run after its first block: the block is committed, and the rest runs from
    there. *)
Lemma run_first σ st b blocks σ' : run_from σ st b blocks → processBlocks σ (b :: blocks) = (Ok tt, σ') →
  ∃ root σ1 st1, block_post σ b st st1 root σ1 ∧ abs_block st b = Some st1 ∧
    blocks_valid σ1 st1 blocks ∧ processBlocks σ1 blocks = (Ok tt, σ').
Proof.
  intros [R _ _ (V & Hh & Vs) _ _ _ _]. cbn [processBlocks]. pose proof (processBlock_ok _ _ _ R V Hh) as H.
  destruct (abs_block st b) as [st1|]; [|by destruct H as [err ->]].
  destruct (processBlock σ b) as [[root|err|] σ1] eqn:Ep; [|done..]. intros Hrun. exists root, σ1, st1.
  split; [done|]. split; [done|]. split; [by eapply Vs|done].
Qed.

(** The end of a run still knows its origin. *)
Lemma run_origin σ st b blocks σ' : run_from σ st b blocks → processBlocks σ (b :: blocks) = (Ok tt, σ') →
  ∃ st', abs_blocks st (b :: blocks) = Some st' ∧ head_repr σ' st' ∧
    origin (headHash σ) (headRoot σ) (block_hash b) st σ' st'.
Proof.
  intros Hrf Hrun. destruct (run_first _ _ _ _ _ Hrf Hrun) as (root & σ1 & st1 & B & Ha & V1 & Hrun1).
  destruct Hrf as [R An Hal _ Hpar Hhs Hfs Hcs]. apply Forall_cons in Hhs as [Hh Hhs], Hcs as [Hc Hcs].
  assert (origin (headHash σ) (headRoot σ) (block_hash b) st σ1 st1) as O1.
  { eapply origin_start; [exact R|exact An|exact Hal|exact Hpar|exact Hh|exact Hc| |exact B]. by eapply abs_ops_count. }
  destruct (processBlocks_inv (origin (headHash σ) (headRoot σ) (block_hash b) st) blocks σ1 st1 σ') as (st' & Hb & R' & O');
    [|exact (bk_repr _ _ _ _ _ _ B)|exact V1|exact O1|exact Hrun1|].
  - rewrite Forall_forall in Hhs, Hfs, Hcs. intros ? ? b' ? ? ? Hin Hab _ O B'. eapply origin_block; [by apply Hhs|by apply Hfs|by apply Hcs| |exact B'|exact O].
    by eapply abs_ops_count.
  - exists st'. split; [|done]. cbn [abs_blocks]. by rewrite Ha.
Qed.

(** The references of a run, newest first, and what a revert finds at the
    oldest of them. *)
Definition run_refs (blocks : list ArkivBlock) : list ArkivBlockRef := rev (map block_ref blocks).

Lemma run_refs_last b blocks : last (run_refs (b :: blocks)) = Some (block_ref b).
Proof. unfold run_refs. cbn [map rev]. apply last_snoc. Qed.

Lemma run_reverts σ st b blocks σ' : run_from σ st b blocks → processBlocks σ (b :: blocks) = (Ok tt, σ') →
  ∃ st', abs_blocks st (b :: blocks) = Some st' ∧ head_repr σ' st' ∧
    last (run_refs (b :: blocks)) = Some (block_ref b) ∧
    store_reader σ' (parentKey (ref_Hash (block_ref b))) = Some (array_bytes (headHash σ)) ∧
    ancestor_repr (store_reader σ') (headHash σ) (headRoot σ) st ∧ caches_cover (store_reader σ') st.
Proof.
  intros Hrf Hrun. destruct (run_origin _ _ _ _ _ Hrf Hrun) as (st' & Ha & R' & [O1 O2 _ _ O5]).
  exists st'. split_and!; try done. apply run_refs_last.
Qed.

Lemma run_refs_keys blocks b : b ∈ blocks → ref_keys (run_refs blocks) (rootKey (block_hash b)).
Proof.
  intros Hb. exists (block_ref b). split; [|by left]. apply list_elem_of_In, in_rev, list_elem_of_In. unfold run_refs. rewrite rev_involutive.
  apply list_elem_of_fmap. by exists b.
Qed.
End HistoryProofs.
