(* ===== verification/Ingest.v ===== *)
(** The ingest interface as a transition system: the stores a node goes through
    under any interleaving of requests, at the granularity of the store's lock
    (src/chain/server.go, src/store/store.go).  [CommitChain] takes the lock once
    per block, so other requests may come between its blocks. *)
From S2P Require Export Atomicity WireProofs.

Section Ingest.
Context {E : Env} {EO : EnvOk} `{HexJson} `{!HexJsonOk}.

(** One critical section of a decoded request, whatever its outcome. *)
Inductive ingest_step (σ σ' : Store) : Prop :=
  | ingest_commit j req b r : decode_CommitChainRequest j = Ok req → b ∈ cc_Blocks req →
      ProcessBlock σ b = (r, σ') → ingest_step σ σ'
  | ingest_revert j req r : decode_RevertRequest j = Ok req → Chain_Revert σ req = (r, σ') → ingest_step σ σ'
  | ingest_reorg j req r : decode_ReorgRequest j = Ok req → Chain_Reorg σ req = (r, σ') → ingest_step σ σ'.

(** A whole [CommitChain] is a run of such steps. *)
Lemma CommitChain_steps σ j req r σ' : decode_CommitChainRequest j = Ok req → CommitChain σ req = (r, σ') →
  rtc ingest_step σ σ'.
Proof.
  intros Hd. unfold CommitChain. destruct (commitLoop σ zeroHash (cc_Blocks req)) as [r1 σ1] eqn:El. intros [= _ <-].
  assert (cc_Blocks req ⊆ cc_Blocks req) as Hsub by done. revert El Hsub. generalize zeroHash.
  generalize (cc_Blocks req) at 1 2 as blocks. intros blocks. revert σ.
  induction blocks as [|b blocks IH]; intros σ root; cbn [commitLoop]; [by intros [= _ <-]|].
  intros El Hsub. assert (b ∈ cc_Blocks req) as Hb by (apply Hsub, elem_of_cons; by left).
  destruct (ProcessBlock σ b) as [[root'|e|] σ2] eqn:Ep.
  - eapply rtc_l; [by eapply ingest_commit|]. eapply IH; [exact El|]. intros x Hx. apply Hsub, elem_of_cons. by right.
  - injection El as _ <-. apply rtc_once. by eapply ingest_commit.
  - injection El as _ <-. apply rtc_once. by eapply ingest_commit.
Qed.

(** ** What is in memory is what a restart would load *)

Definition persisted (σ : Store) : Prop := New (rawDB σ) = Ok σ.

Lemma New_persisted raw σ : New raw = Ok σ → persisted σ.
Proof.
  unfold persisted. intros Hn. enough (rawDB σ = raw) as -> by done. revert Hn. unfold New.
  destruct (kv_Get raw headKey) as [b|e|]; [|by intros [= <-]|done].
  destruct (length b =? 72)%nat; [|by intros [= <-]]. by intros ([[n h] r] & _ & [= <-])%bind_Ok.
Qed.

Lemma cs_Put_reader cs k v cs' : cs_Put cs k v = Ok cs' →
  live (stagingDB cs') ∧ rd cs' k = Some v.
Proof.
  intros Hp. assert (live (stagingDB cs)) as Hl.
  { unfold cs_Put, staging_Put, with_staging in Hp. unfold live. by destruct (sd_staging (stagingDB cs)). }
  destruct (cs_Put_ok cs k v Hl) as (sd & Hp' & L & _ & Hr). rewrite Hp' in Hp. injection Hp as <-.
  split; [done|]. cbn [stagingDB set_stagingDB]. by rewrite Hr, upd_eq.
Qed.

Lemma processBlock_persisted σ b r σ' : is_u64 (header_Number (block_Header b)) → persisted σ →
  processBlock σ b = (r, σ') → persisted σ'.
Proof.
  intros Hn Hσ Hp. pose proof Hp as Hk. apply processBlock_keeps in Hk as [[root Hr0]| ->]; [|done].
  subst r.
  unfold processBlock in Hp. fold (runBlock σ b) in Hp. destruct (runBlock σ b) as [cs| |] eqn:Er; [|done..].
  apply runBlock_keeps in Er. destruct (Commit cs) as [[r| |] d] eqn:Ec; [injection Hp as _ <-|discriminate Hp..].
  unfold Commit in Ec. destruct (stageCommit cs) as [[root1 c]| |] eqn:Es; [|done..].
  apply stageCommit_keeps in Es as [_ [c0 [L Hr]%cs_Put_reader] ].
  destruct (staging_commit (stagingDB c)) as [[[]| |] d'] eqn:Ed; cbn in Ec; [injection Ec as <- <-|discriminate Ec..].
  pose proof (staging_commit_spec _ _ _ L Ed) as Hs. cbn in Hs.
  injection Er as _ En Eh. apply New_ok; [|done]. cbn [headNumber headHash headRoot store_reader rawDB].
  rewrite <-En, <-Eh. unfold store_reader. cbn [rawDB]. by rewrite Hs.
Qed.

Lemma applyRevert_persisted σ oldest refs r σ' : is_u64 (ref_Number oldest) → persisted σ →
  applyRevert σ (revertBatch σ oldest refs) = (r, σ') → persisted σ'.
Proof.
  intros Hn Hσ. unfold applyRevert. destruct (revertBatch σ oldest refs) as [[batch [[number hash] root] ]|e|] eqn:Eb;
    [|by intros [= _ <-]..].
  destruct (kv_Write (rawDB σ) batch) as [d|e|] eqn:Ew; intros [= _ <-]; [|done..].
  unfold revertBatch in Eb.
  apply bind_Ok in Eb as (pb & _ & Eb). apply bind_Ok in Eb as (ar & _ & Eb). apply bind_Ok in Eb as (sdb & _ & Eb).
  apply bind_Ok in Eb as (b0 & _ & [= <- <- <- <-]).
  apply New_ok; cbn [headNumber headHash headRoot].
  - unfold store_reader. cbn [rawDB]. rewrite (kv_Write_spec _ _ _ Ew). unfold overlay.
    by rewrite batch_lookup_Put, decide_True.
  - unfold is_u64 in *. destruct (N.ltb_spec 0 (ref_Number oldest)); lia.
Qed.

Lemma revertToAncestor_persisted σ refs r σ' : Forall (λ r, is_u64 (ref_Number r)) refs → persisted σ →
  revertToAncestor σ refs = (r, σ') → persisted σ'.
Proof.
  intros Hr Hσ. unfold revertToAncestor. destruct (last refs) as [oldest|] eqn:El; [|by intros [= _ <-]].
  apply applyRevert_persisted; [|done]. rewrite Forall_forall in Hr. apply Hr. by apply last_Some_elem_of.
Qed.

Lemma processBlocks_persisted bs σ r σ' : Forall block_typed bs → persisted σ → processBlocks σ bs = (r, σ') → persisted σ'.
Proof.
  intros Hb. revert σ. induction Hb as [|b bs [Hn _] _ IH]; intros σ Hσ; cbn [processBlocks]; [by intros [= _ <-]|].
  destruct (processBlock σ b) as [[root|e|] σ1] eqn:Ep; apply processBlock_persisted in Ep; try done;
    [by apply IH|by intros [= _ <-]..].
Qed.

Lemma ingest_step_persisted σ σ' : persisted σ → ingest_step σ σ' → persisted σ'.
Proof.
  intros Hσ [j req b r Hd Hb Hp|j req r Hd Hp|j req r Hd Hp].
  - unfold decode_CommitChainRequest in Hd. run_Ok Hd. apply decoded_blocks in Hx0. cbn [cc_Blocks] in Hb.
    rewrite Forall_forall in Hx0. eapply processBlock_persisted; [apply (Hx0 _ Hb)|exact Hσ|exact Hp].
  - unfold decode_RevertRequest in Hd. run_Ok Hd. apply decoded_refs in Hx0. unfold Chain_Revert, RevertBlocks in Hp.
    cbn [rv_Blocks] in Hp. destruct x0 as [|r0 refs]; [by injection Hp as _ <-|].
    destruct (revertToAncestor _ _) as [r1 σ1] eqn:Er. injection Hp as _ <-. by eapply revertToAncestor_persisted.
  - unfold decode_ReorgRequest in Hd. run_Ok Hd. apply decoded_refs in Hx0. apply decoded_blocks in Hx1.
    unfold Chain_Reorg, Reorg in Hp. cbn [ro_RevertedBlocks ro_NewBlocks] in Hp.
    destruct (match x0 with [] => _ | _ => _ end) as [r1 σ1] eqn:Er.
    assert (persisted σ1) as H1.
    { destruct x0; [by injection Er as _ <-|]. by eapply revertToAncestor_persisted. }
    destruct r1 as [[]|e|]; [|by injection Hp as _ <-..].
    destruct (processBlocks σ1 x1) as [r2 σ2] eqn:Ep. injection Hp as _ <-. by eapply processBlocks_persisted.
Qed.

Lemma ingest_persisted σ σ' : rtc ingest_step σ σ' → persisted σ → persisted σ'.
Proof. induction 1 as [|σ1 σ2 σ3 Hs _ IH]; [done|]. intros. by eapply IH, ingest_step_persisted. Qed.

End Ingest.
