(* ===== verification/Session.v ===== *)
(** The abstract service: the chain of blocks a node has committed and not
    undone, each with the state after it, and the IDs the caches can resolve;
    and the sessions of a store, any sequence of commits, reverts, failures and
    restarts on an empty database.

    The cached IDs are part of the specification because a revert drops the
    entries of every ID that is dead in its target (src/store/revert.go:
    repopulateIDs): a state further back can be restored only while the IDs of
    its entities are cached. *)
From S2P Require Export IdProofs HistoryProofs Ingest.

Section Session.
Context {E : Env} {CF : CollisionFree}.

Record Link := mkLink {
  ln_number : N;
  ln_hash : Hash;
  ln_state : AbsState;
}.

(** The newest link first; the oldest one, the base, is where the database was
    empty. *)
Record Chain := mkChain {
  ch_head : Link;
  ch_older : list Link;
  ch_cached : gmap N Address;
}.
Definition ch_links (c : Chain) : list Link := ch_head c :: ch_older c.
Definition ch_state (c : Chain) : AbsState := ln_state (ch_head c).

(** The base: the parent of the first block. *)
Definition ch_base (number : N) (hash : Hash) : Chain := mkChain (mkLink number hash abs_empty) [] ∅.

(** ** Commits *)

Definition abs_commit (c : Chain) (b : ArkivBlock) : option Chain :=
  st ← abs_block (ch_state c) b;
  Some (mkChain (mkLink (header_Number (block_Header b)) (header_Hash (block_Header b)) st) (ch_links c)
    (ops_ids (abs_count (ch_state c)) (block_ops b) ∪ ch_cached c)).

Fixpoint abs_commits (c : Chain) (bs : list ArkivBlock) : option Chain :=
  match bs with
  | [] => Some c
  | b :: bs => c' ← abs_commit c b; abs_commits c' bs
  end.

(** ** Reverts *)

(** The live IDs of a state, with their addresses. *)
Definition abs_ids (st : AbsState) : gmap N Address :=
  list_to_map (map (λ x, (x.2.1, x.1)) (map_to_list (abs_ents st))).

Definition abs_undo (k : nat) (c : Chain) : option Chain :=
  match drop k (ch_links c) with
  | [] => None
  | l :: rest => Some (mkChain l rest (filter (λ x, is_Some (abs_ids (ln_state l) !! x.1)) (ch_cached c)))
  end.

(** The request that undoes the newest blocks. *)
Definition undo_refs (k : nat) (c : Chain) : list ArkivBlockRef :=
  map (λ l, mkArkivBlockRef (ln_number l) (ln_hash l)) (take k (ch_links c)).

(** A state that a revert can restore: the IDs of its entities are cached. *)
Definition covered (cached : gmap N Address) (st : AbsState) : Prop :=
  ∀ a id e, abs_ents st !! a = Some (id, e) → cached !! id = Some a.

Definition can_undo (k : nat) (c : Chain) : Prop :=
  k ≠ O ∧ ∃ c', abs_undo k c = Some c' ∧ covered (ch_cached c) (ch_state c').

(** ** What the service relies on its peer for

    A block extends the head by one, has a hash of its own, creates keys that
    were not used before, and is valid in the state of the head. *)
Record block_fits (σ : Store) (c : Chain) (b : ArkivBlock) : Prop := {
  bf_number : header_Number (block_Header b) = (ln_number (ch_head c) + 1)%N;
  bf_u64 : is_u64 (header_Number (block_Header b));
  bf_parent : header_ParentHash (block_Header b) = ln_hash (ch_head c);
  bf_hash : block_hash b ∉ map ln_hash (ch_links c);
  bf_valid : block_valid (ch_state c) b;
  bf_hashed : block_hashed σ b;
  bf_keys : NoDup (ops_creates (block_ops b));
  bf_fresh a id : a ∈ ops_creates (block_ops b) → ch_cached c !! id ≠ Some a;
}.

(** Blocks that fit at every store a run of them reaches. *)
Fixpoint run_fits (σ : Store) (c : Chain) (bs : list ArkivBlock) : Prop :=
  match bs with
  | [] => True
  | b :: bs => block_fits σ c b ∧
      ∀ root σ' c', ProcessBlock σ b = (Ok root, σ') → abs_commit c b = Some c' → run_fits σ' c' bs
  end.

(** ** Sessions *)

(** The chain after a call, given its outcome. *)
Definition on_success {A} (r : result A) (c : Chain) (c' : option Chain) : Chain :=
  match r with Ok _ => default c c' | _ => c end.

Inductive session (number : N) (hash : Hash) : Store → Chain → Prop :=
  | session_open raw σ : (∀ k, kv_lookup raw k = None) → New raw = Ok σ →
      session number hash σ (ch_base number hash)
  | session_commit σ c b r σ' : session number hash σ c → block_fits σ c b →
      ProcessBlock σ b = (r, σ') → session number hash σ' (on_success r c (abs_commit c b))
  | session_revert σ c k r σ' : session number hash σ c → can_undo k c →
      RevertBlocks σ (undo_refs k c) = (r, σ') → session number hash σ' (on_success r c (abs_undo k c))
  | session_restart σ c σ' : session number hash σ c → New (rawDB σ) = Ok σ' → session number hash σ' c.

End Session.
