(* ===== verification/SessionProofs.v ===== *)
(** Sessions keep the store in step with the chain: every link is recorded and
    its root stands for its state, the cached IDs are the ones the chain says,
    and a restart finds the same store. *)
From S2P Require Export Session.

Section SessionProofs.
Context {E : Env} {EO : EnvOk} {CF : CollisionFree}.

(** ** The links *)

Fixpoint linked (g : reader) (l : Link) (older : list Link) : Prop :=
  match older with
  | [] => True
  | p :: rest =>
      ln_number l = (ln_number p + 1)%N ∧ is_u64 (ln_number l) ∧
      g (blockNumberKey (ln_number l)) = Some (array_bytes (ln_hash l)) ∧
      g (parentKey (ln_hash l)) = Some (array_bytes (ln_hash p)) ∧
      is_Some (g (rootKey (ln_hash l))) ∧
      (∃ root, ancestor_repr g (ln_hash p) root (ln_state p)) ∧
      (abs_count (ln_state p) ≤ abs_count (ln_state l))%N ∧ linked g p rest
  end.

(** Two databases with the same entries of a link. *)
Definition same_index (g g' : reader) (l : Link) : Prop :=
  g' (rootKey (ln_hash l)) = g (rootKey (ln_hash l)) ∧ g' (parentKey (ln_hash l)) = g (parentKey (ln_hash l)) ∧
  g' (blockNumberKey (ln_number l)) = g (blockNumberKey (ln_number l)).
Definition keeps_roots (g g' : reader) : Prop := ∀ r st, root_repr g r st → root_repr g' r st.

Lemma ancestor_frame g g' l root : same_index g g' l → keeps_roots g g' →
  ancestor_repr g (ln_hash l) root (ln_state l) → ancestor_repr g' (ln_hash l) root (ln_state l).
Proof. intros (Hr & _) H [An Hs]. split; [by rewrite Hr|by apply H]. Qed.

Lemma linked_frame g g' l older : (∀ x, x ∈ l :: older → same_index g g' x) → keeps_roots g g' →
  linked g l older → linked g' l older.
Proof.
  intros Hs Hk. revert l Hs. induction older as [|p rest IH]; intros l Hs; [done|]. cbn [linked].
  destruct (Hs l) as (E1 & E2 & E3); [apply elem_of_cons; by left|]. rewrite E1, E2, E3.
  assert (∀ x, x ∈ p :: rest → same_index g g' x) as Hs' by (intros x Hx; apply Hs, elem_of_cons; by right).
  intros (? & ? & ? & ? & ? & (root & An) & ? & Hl). split_and!; try done; [|by apply IH].
  exists root. eapply ancestor_frame; [apply Hs', elem_of_cons; by left|done|done].
Qed.

Lemma linked_below g l older x : linked g l older → x ∈ older → (ln_number x < ln_number l)%N ∧ is_u64 (ln_number x) ∧
  (abs_count (ln_state x) ≤ abs_count (ln_state l))%N.
Proof.
  revert l. induction older as [|p rest IH]; intros l; cbn [linked]; [by intros _ ?%elem_of_nil|].
  intros (Hn & Hu & _ & _ & _ & _ & Hc & Hl) Hx. unfold is_u64 in *. apply elem_of_cons in Hx as [->|Hx]; [lia|].
  destruct (IH _ Hl Hx) as (? & ? & ?). lia.
Qed.

Lemma linked_u64 g l older : linked g l older → older ≠ [] → is_u64 (ln_number l).
Proof. destruct older; [done|]. by intros (_ & ? & _). Qed.

(** The oldest of the links above a link, and the links from there on. *)
Lemma linked_split g h older ls p rest : linked g h older → h :: older = ls ++ p :: rest → ls ≠ [] →
  ∃ o, last ls = Some o ∧ g (parentKey (ln_hash o)) = Some (array_bytes (ln_hash p)) ∧
    ln_number o = (ln_number p + 1)%N ∧ is_u64 (ln_number o) ∧
    (∃ root, ancestor_repr g (ln_hash p) root (ln_state p)) ∧ linked g p rest.
Proof.
  revert h older. induction ls as [|x ls IH]; intros h older Hl Heq Hne; [done|]. injection Heq as -> Ho.
  destruct ls as [|y ls]; cbn in Ho; subst older; cbn [linked] in Hl.
  - destruct Hl as (Hn & Hu & _ & Hp & _ & Hr & _ & Hl). exists x. done.
  - destruct Hl as (_ & _ & _ & _ & _ & _ & _ & Hl). destruct (IH y _ Hl eq_refl) as (o & Hlast & H); [done|].
    exists o. split; [|done]. by rewrite last_cons_cons.
Qed.

(** The numbers above a link are larger, so their entries are different. *)
Lemma linked_above g h older ls p rest x y : linked g h older → h :: older = ls ++ p :: rest →
  x ∈ ls → y ∈ p :: rest → (ln_number y < ln_number x)%N ∧ is_u64 (ln_number x).
Proof.
  revert h older. induction ls as [|z ls IH]; intros h older Hl Heq Hx Hy; [by apply elem_of_nil in Hx|].
  injection Heq as -> Ho. assert (y ∈ older) as Hyo by (rewrite Ho; apply elem_of_app; by right).
  apply elem_of_cons in Hx as [->|Hx].
  - destruct (linked_below _ _ _ _ Hl Hyo) as [? _]. split; [done|]. eapply linked_u64; [done|]. intros ->. by apply elem_of_nil in Hyo.
  - destruct older as [|z' older]; [by apply elem_of_nil in Hyo|]. destruct Hl as (_ & _ & _ & _ & _ & _ & _ & Hl). by eapply IH.
Qed.

(** ** The invariant *)

Record served (σ : Store) (c : Chain) : Prop := {
  sv_repr : head_repr σ (ch_state c);
  sv_head : ch_older c ≠ [] → headHash σ = ln_hash (ch_head c) ∧ headNumber σ = ln_number (ch_head c);
  sv_root : ancestor_repr (store_reader σ) (ln_hash (ch_head c)) (headRoot σ) (ch_state c);
  sv_persisted : persisted σ;
  sv_linked : linked (store_reader σ) (ch_head c) (ch_older c);
  sv_hashes : NoDup (map ln_hash (ch_links c));
  sv_ids id a : is_u64 id → (store_reader σ (idKey id) = Some (array_bytes a) ↔ ch_cached c !! id = Some a);
  sv_cached id a : ch_cached c !! id = Some a →
    is_u64 id ∧ (id ≤ abs_count (ch_state c))%N ∧ store_reader σ (addrKey a) = Some (PutUint64 id);
  sv_inj i j a : ch_cached c !! i = Some a → ch_cached c !! j = Some a → i = j;
  sv_agree l a b id e : l ∈ ch_links c → abs_ents (ln_state l) !! a = Some (id, e) → ch_cached c !! id = Some b → b = a;
}.

Lemma served_wf σ c : served σ c → abs_wf (ch_state c).
Proof. intros S. destruct (hr_state _ _ (sv_repr _ _ S)) as (s & _ & Sn & _). apply Sn. Qed.

(** Every link's root stands for its state. *)
Lemma link_repr σ c l : served σ c → l ∈ ch_links c → ∃ root, ancestor_repr (store_reader σ) (ln_hash l) root (ln_state l).
Proof.
  intros S Hl. unfold ch_links in Hl. apply elem_of_cons in Hl as [->|Hl]; [eexists; apply S|].
  pose proof (sv_linked _ _ S) as Hk. revert Hk Hl. generalize (ch_head c). induction (ch_older c) as [|p rest IH]; intros h; [by intros _ ?%elem_of_nil|].
  intros (_ & _ & _ & _ & _ & Hr & _ & Hk) [->|Hl]%elem_of_cons; [done|]. by eapply IH.
Qed.

Lemma link_wf σ c l : served σ c → l ∈ ch_links c → abs_wf (ln_state l).
Proof. intros S Hl. destruct (link_repr _ _ _ S Hl) as (root & _ & (s & _ & Sn)). apply Sn. Qed.

(** What is covered can be restored. *)
Lemma served_cover σ c st : served σ c → abs_wf st → covered (ch_cached c) st → caches_cover (store_reader σ) st.
Proof.
  intros S W C. split.
  - intros a id e Ha. apply (sv_ids _ _ S); [by destruct (wf_id _ W _ _ _ Ha) as [_ [? _]]|by eapply C].
  - intros a id e Ha. apply (sv_cached _ _ S). by eapply C.
  - intros a id e i Ha Hi Hg. eapply (sv_inj _ _ S); [|by eapply C]. by apply (sv_ids _ _ S).
Qed.

Lemma served_tracked σ c id a : served σ c → ch_cached c !! id = Some a → tracked_id id.
Proof.
  intros S Ha. destruct (sv_cached _ _ S _ _ Ha) as (Hu & _). apply (sv_ids _ _ S) in Ha; [|done].
  destruct (dw_id _ (hr_db _ _ (sv_repr _ _ S)) (idKey id) _ (prefix_app_r _ _ _ (reflexivity _)) Ha) as (i & b & Hi & Ek & _).
  by apply idKey_inj in Ek as ->; [|done|apply Hi].
Qed.

(** The IDs that are live at the head are cached. *)
Lemma served_covered σ c : served σ c → covered (ch_cached c) (ch_state c).
Proof.
  intros S a id e Ha. destruct (hr_state _ _ (sv_repr _ _ S)) as (s & _ & Sn & P).
  apply (sv_ids _ _ S); [|by eapply pb_id]. by destruct (wf_id _ (sn_wf _ _ _ Sn) _ _ _ Ha) as [_ [? _]].
Qed.

Lemma abs_ids_live st id : is_Some (abs_ids st !! id) ↔ live_id st id.
Proof.
  unfold abs_ids. split.
  - intros [a Ha%elem_of_list_to_map_2]. apply list_elem_of_fmap in Ha as ([a' [i e]] & [= -> ->] & Hin).
    apply elem_of_map_to_list in Hin. by exists a', e.
  - intros (a & e & Ha). apply not_eq_None_Some. intros Hn%not_elem_of_list_to_map. apply Hn.
    apply list_elem_of_fmap. exists (id, a). split; [done|]. apply list_elem_of_fmap. exists (a, (id, e)).
    split; [done|]. by apply elem_of_map_to_list.
Qed.

Lemma ops_ids_top n ops st st' id a : abs_ops n st ops = Some st' → ops_ids (abs_count st) ops !! id = Some a →
  (id ≤ abs_count st')%N.
Proof.
  revert st. induction ops as [|op ops IH]; intros st; cbn [abs_ops ops_ids]; [by rewrite lookup_empty|].
  destruct (abs_op n st op) as [st1|] eqn:Eo; [|done]. cbn [mbind option_bind]. intros Ha.
  destruct (op_Create op) as [o|] eqn:Ho.
  - assert (st1 = abs_create n st o) as -> by (unfold abs_op in Eo; rewrite Ho in Eo; congruence).
    intros [[<- _]|[_ Hi]]%lookup_insert_Some; [apply abs_ops_count in Ha; exact Ha|]. by eapply IH.
  - rewrite <-(abs_op_count_same _ _ _ _ Ho Eo). by apply IH.
Qed.

#[export] Instance covered_dec cached st : Decision (covered cached st).
Proof.
  refine (cast_if (decide (map_Forall (λ a x, cached !! x.1 = Some a) (abs_ents st)))); unfold covered.
  - intros a id e Ha. by apply (m a (id, e)).
  - intros H. apply n. intros a [id e] Ha. by eapply H.
Defined.

(** ** Opening and committing *)

Lemma open_served number hash raw σ : (∀ k, kv_lookup raw k = None) → New raw = Ok σ → served σ (ch_base number hash).
Proof.
  intros Hg Hn. assert (store_reader σ = kv_lookup raw ∧ headRoot σ = EmptyRootHash) as [Hr He].
  { unfold New in Hn. destruct (kv_Get_None _ _ (Hg headKey)) as [e Hk]. rewrite Hk in Hn. by injection Hn as <-. }
  assert (∀ k, store_reader σ k = None) as Hnone by (intros k; by rewrite Hr).
  pose proof (head_repr_empty _ Hnone He) as R. split.
  - exact R.
  - done.
  - split; [right; by split|]. destruct (hr_state _ _ R) as (s & Hs & Sn & _). by exists s.
  - by eapply New_persisted.
  - done.
  - apply NoDup_singleton.
  - intros id a _. by rewrite Hnone.
  - by intros id a [=].
  - by intros i j a [=].
  - by intros l a b id e _ _ [=].
Qed.

(** The entries of the links survive a block with a hash and a number of its
    own. *)
Lemma block_index σ b st st' root σ' x : block_post σ b st st' root σ' → ln_hash x ≠ block_hash b →
  (ln_number x < header_Number (block_Header b))%N → is_u64 (header_Number (block_Header b)) →
  same_index (store_reader σ) (store_reader σ') x.
Proof.
  intros B Hh Hn Hu. unfold is_u64 in *. split_and!.
  - apply (block_other _ _ _ _ _ _ (KRoot (ln_hash x)) B). by intros ?%block_key_cases.
  - apply (block_other _ _ _ _ _ _ (KParent (ln_hash x)) B). by intros ?%block_key_cases.
  - apply (block_other _ _ _ _ _ _ (KBlockNumber (ln_number x)) B). intros Hk%block_key_cases. unfold is_u64 in Hk. lia.
Qed.

Lemma block_keeps_roots σ b st st' root σ' : block_post σ b st st' root σ' → keeps_roots (store_reader σ) (store_reader σ').
Proof. intros B r s. by eapply root_repr_block. Qed.

Lemma commit_linked σ c b st' root σ' : served σ c → block_fits σ c b → abs_block (ch_state c) b = Some st' →
  block_post σ b (ch_state c) st' root σ' →
  linked (store_reader σ') (mkLink (header_Number (block_Header b)) (block_hash b) st') (ch_links c).
Proof.
  intros S F Ha B. destruct (bk_head _ _ _ _ _ _ B) as (Hr & Hh & Hn). pose proof (bf_number _ _ _ F) as Hnum.
  assert (∀ x, x ∈ ch_links c → same_index (store_reader σ) (store_reader σ') x) as Hsame.
  { intros x Hx. eapply block_index; [exact B| | |apply F].
    - intros E1. apply (bf_hash _ _ _ F). rewrite <-E1. by apply list_elem_of_fmap_2.
    - apply elem_of_cons in Hx as [->|Hx]; [lia|]. destruct (linked_below _ _ _ _ (sv_linked _ _ S) Hx) as [? _]. lia. }
  pose proof (block_keeps_roots _ _ _ _ _ _ B) as Hk.
  unfold ch_links in *. cbn [linked ln_number ln_hash]. unfold block_hash in *. rewrite <-Hh, <-Hn. split_and!.
  - by rewrite Hn.
  - rewrite Hn. apply F.
  - apply B.
  - rewrite (bk_parent _ _ _ _ _ _ B). by rewrite (bf_parent _ _ _ F).
  - eexists. apply B.
  - exists (headRoot σ). eapply ancestor_frame; [apply Hsame, elem_of_cons; by left|done|apply S].
  - by apply abs_ops_count in Ha.
  - eapply linked_frame; [exact Hsame|done|apply S].
Qed.

(** The cached IDs after a block. *)
Lemma commit_cached σ c b st' root σ' : served σ c → block_fits σ c b → abs_block (ch_state c) b = Some st' →
  processBlock σ b = (Ok root, σ') → abs_wf st' →
  let cached := ops_ids (abs_count (ch_state c)) (block_ops b) ∪ ch_cached c in
  (∀ id a, is_u64 id → (store_reader σ' (idKey id) = Some (array_bytes a) ↔ cached !! id = Some a)) ∧
  (∀ id a, cached !! id = Some a → is_u64 id ∧ (id ≤ abs_count st')%N ∧ store_reader σ' (addrKey a) = Some (PutUint64 id)) ∧
  (∀ i j a, cached !! i = Some a → cached !! j = Some a → i = j).
Proof.
  intros S F Ha Hp W cached. set (new := ops_ids _ _) in *.
  destruct (processBlock_ids _ _ _ _ _ _ (sv_repr _ _ S) (bf_valid _ _ _ F) (bf_hashed _ _ _ F) Ha Hp) as [I1 I2 I3].
  pose proof (abs_ops_count _ _ _ _ Ha) as Hle.
  assert (∀ id a, cached !! id = Some a → new !! id = Some a ∨ new !! id = None ∧ ch_cached c !! id = Some a) as Hcases.
  { intros id a Hc. apply lookup_union_Some_raw in Hc as [?|[? ?]]; [by left|by right]. }
  assert (∀ i j a, new !! i = Some a → ch_cached c !! j ≠ Some a) as Hfresh.
  { intros i j a Hi. apply ops_ids_bounds in Hi as [_ Hi]. by apply (bf_fresh _ _ _ F). }
  split_and!.
  - intros id a Hu. rewrite (I1 id Hu). fold new. unfold cached. destruct (new !! id) as [b'|] eqn:En.
    + rewrite (lookup_union_Some_l _ _ _ _ En). split; [intros [= Hb%array_bytes_inj]; by subst|by intros [= ->]].
    + rewrite lookup_union_r by done. by apply (sv_ids _ _ S).
  - intros id a [Hi|[_ Hi]]%Hcases.
    + pose proof (ops_ids_top _ _ _ _ _ _ Ha Hi) as Ht. split_and!; [|done|by eapply I2, Hi; apply F].
      pose proof (wf_count _ W). unfold is_u64 in *. lia.
    + destruct (sv_cached _ _ S _ _ Hi) as (Hu & Hc & Hg). split_and!; [done|lia|].
      rewrite I3; [done|]. intros Hin. by eapply (bf_fresh _ _ _ F).
  - intros i j a [Hi|[_ Hi]]%Hcases [Hj|[_ Hj]]%Hcases; [|by destruct (Hfresh _ _ _ Hi Hj)|by destruct (Hfresh _ _ _ Hj Hi)|by eapply (sv_inj _ _ S)].
    eapply ops_ids_inj; [apply F|exact Hi|exact Hj].
Qed.

(** What the cache holds of an ID of any link is the address of its entity. *)
Lemma commit_agree σ c b st' root σ' l a b' id e : served σ c → block_fits σ c b →
  abs_block (ch_state c) b = Some st' → block_post σ b (ch_state c) st' root σ' → processBlock σ b = (Ok root, σ') →
  l ∈ mkLink (header_Number (block_Header b)) (header_Hash (block_Header b)) st' :: ch_links c →
  abs_ents (ln_state l) !! a = Some (id, e) →
  (ops_ids (abs_count (ch_state c)) (block_ops b) ∪ ch_cached c) !! id = Some b' → b' = a.
Proof.
  intros S F Ha B Hp Hl He Hc. apply elem_of_cons in Hl as [->|Hl]; cbn [ln_state] in He.
  - destruct (hr_state _ _ (bk_repr _ _ _ _ _ _ B)) as (s & _ & Sn & P).
    assert (is_u64 id) as Hu by (by destruct (wf_id _ (sn_wf _ _ _ Sn) _ _ _ He) as [_ [? _]]).
    destruct (commit_cached _ _ _ _ _ _ S F Ha Hp (sn_wf _ _ _ Sn)) as (C1 & _). apply C1 in Hc; [|done].
    rewrite (pb_id _ _ _ P _ _ _ He) in Hc. injection Hc as Hc. by apply array_bytes_inj in Hc.
  - apply lookup_union_Some_raw in Hc as [Hn|[_ Hc]]; [|by eapply (sv_agree _ _ S)].
    apply ops_ids_bounds in Hn as [Hlt _]. exfalso.
    assert (abs_count (ln_state l) ≤ abs_count (ch_state c))%N as Hle.
    { unfold ch_links in Hl. apply elem_of_cons in Hl as [->|Hl]; [done|]. by apply (linked_below _ _ _ _ (sv_linked _ _ S)) in Hl as (_ & _ & ?). }
    destruct (wf_id _ (link_wf _ _ _ S Hl) _ _ _ He) as [? _]. lia.
Qed.

Lemma commit_served σ c b : served σ c → block_fits σ c b →
  match ProcessBlock σ b with
  | (Ok root, σ') => ∃ c', abs_commit c b = Some c' ∧ served σ' c' ∧ root = headRoot σ'
  | (Err _, σ') => σ' = σ
  | (Panic, _) => False
  end.
Proof.
  intros S F. pose proof (processBlock_ok _ _ _ (sv_repr _ _ S) (bf_valid _ _ _ F) (bf_hashed _ _ _ F)) as H.
  unfold ProcessBlock, abs_commit. destruct (abs_block (ch_state c) b) as [st'|] eqn:Ha.
  2:{ destruct H as [err ->]. done. }
  destruct (processBlock σ b) as [[root|err|] σ'] eqn:Ep; [|by destruct H|done].
  rename H into B. destruct (bk_head _ _ _ _ _ _ B) as (Hr & Hh & Hn). cbn [mbind option_bind].
  assert (abs_wf st') as W by (destruct (hr_state _ _ (bk_repr _ _ _ _ _ _ B)) as (s & _ & Sn & _); apply Sn).
  destruct (commit_cached _ _ _ _ _ _ S F Ha Ep W) as (C1 & C2 & C3).
  eexists. split; [done|]. split; [|done]. split; cbn [ch_head ch_older ch_cached ln_hash ln_number ch_state ln_state]; try done.
  - apply B.
  - pose proof (bk_root _ _ _ _ _ _ B) as Hroot. rewrite Hh in Hroot. split; [left; by rewrite Hr|].
    destruct (hr_state _ _ (bk_repr _ _ _ _ _ _ B)) as (s & Hs & Sn & _). by exists s.
  - apply New_ok; [|rewrite Hn; apply F]. rewrite Hr. apply B.
  - by eapply commit_linked.
  - unfold ch_links. cbn [ch_head ch_older map ln_hash]. apply NoDup_cons. split; [apply F|apply S].
  - intros l a b' id e Hl He Hc. by eapply (commit_agree σ c b st' root σ').
Qed.

(** ** Reverting *)

Lemma abs_undo_split k c c' : abs_undo k c = Some c' →
  ch_links c = take k (ch_links c) ++ ch_head c' :: ch_older c' ∧
  ch_cached c' = filter (λ x, is_Some (abs_ids (ch_state c') !! x.1)) (ch_cached c).
Proof.
  unfold abs_undo. destruct (drop k (ch_links c)) as [|l rest] eqn:Hd; [done|]. intros [= <-].
  split; [|done]. cbn [ch_head ch_older]. by rewrite <-Hd, take_drop.
Qed.

Lemma undo_cached k c c' id a : abs_undo k c = Some c' →
  ch_cached c' !! id = Some a ↔ ch_cached c !! id = Some a ∧ live_id (ch_state c') id.
Proof. intros [_ ->]%abs_undo_split. by rewrite map_lookup_filter_Some, abs_ids_live. Qed.

Lemma revert_keeps_roots σ refs n anc root st σ' : revert_post σ refs n anc root st σ' →
  keeps_roots (store_reader σ) (store_reader σ').
Proof.
  intros V r st0 (s & Hs & Sn). destruct (rv_roots _ _ _ _ _ _ _ V _ _ Hs) as (s' & Hs' & Hsame).
  exists s'. split; [done|]. eapply snapshot_same; [done|]. eapply snapshot_grows; [apply V|done].
Qed.

(** The entries of a link survive a revert of links above it. *)
Lemma revert_index σ refs n anc root st σ' x : revert_post σ refs n anc root st σ' →
  (∀ r, r ∈ refs → ref_Hash r ≠ ln_hash x ∧ (ln_number x < ref_Number r)%N ∧ is_u64 (ref_Number r)) →
  same_index (store_reader σ) (store_reader σ') x.
Proof.
  intros V Hr.
  assert (¬ ref_keys refs (rootKey (ln_hash x)) ∧ ¬ ref_keys refs (parentKey (ln_hash x)) ∧
    ¬ ref_keys refs (blockNumberKey (ln_number x))) as (H1 & H2 & H3).
  { split_and!; intros (r & Hin & [Ek|[Ek|Ek]]); try discriminate Ek; destruct (Hr r Hin) as (Hne & Hlt & Hu).
    - by apply app_inv_head, array_bytes_inj in Ek.
    - by apply app_inv_head, array_bytes_inj in Ek.
    - unfold is_u64 in *. apply app_inv_head, PutUint64_inj in Ek; unfold is_u64; lia. }
  split_and!; (apply (rv_other _ _ _ _ _ _ _ V); [done|done|]).
  - by exists (KRoot (ln_hash x)).
  - by exists (KParent (ln_hash x)).
  - by exists (KBlockNumber (ln_number x)).
Qed.

Lemma undo_refs_elem k c r : r ∈ undo_refs k c → ∃ l, l ∈ take k (ch_links c) ∧ r = mkArkivBlockRef (ln_number l) (ln_hash l).
Proof. intros (l & -> & Hl)%list_elem_of_fmap. by exists l. Qed.

Lemma undo_index σ c k c' n anc root st σ' x : served σ c → abs_undo k c = Some c' →
  revert_post σ (undo_refs k c) n anc root st σ' → x ∈ ch_links c' → same_index (store_reader σ) (store_reader σ') x.
Proof.
  intros S Hu V Hx. apply abs_undo_split in Hu as [Hl _]. eapply revert_index; [exact V|].
  intros r (l & Hin & ->)%undo_refs_elem. cbn [ref_Hash ref_Number].
  destruct (linked_above _ _ _ _ _ _ l x (sv_linked _ _ S) Hl Hin Hx). split_and!; try done.
  pose proof (sv_hashes _ _ S) as Hnd. rewrite Hl, map_app in Hnd. apply NoDup_app in Hnd as (_ & Hd & _).
  intros Heq. apply (Hd (ln_hash l)); [by apply list_elem_of_fmap_2|]. rewrite Heq. by apply (list_elem_of_fmap_2 ln_hash).
Qed.

(** The cached IDs after a revert. *)
Lemma undo_served_cached σ c k c' n anc root σ' : served σ c → abs_undo k c = Some c' → abs_wf (ch_state c') →
  revert_post σ (undo_refs k c) n anc root (ch_state c') σ' →
  (∀ id a, is_u64 id → (store_reader σ' (idKey id) = Some (array_bytes a) ↔ ch_cached c' !! id = Some a)) ∧
  (∀ id a, ch_cached c' !! id = Some a → is_u64 id ∧ (id ≤ abs_count (ch_state c'))%N ∧ store_reader σ' (addrKey a) = Some (PutUint64 id)).
Proof.
  intros S Hu W V. set (st := ch_state c') in *.
  assert (∀ id, is_u64 id → live_id st id → store_reader σ' (idKey id) = store_reader σ (idKey id)) as Hlive.
  { intros id Hid Hl. apply (rv_cache _ _ _ _ _ _ _ V (KID id) I). intros (i & a & _ & Hi & Hn & [Ek|Ek]); [|discriminate Ek].
    cbn [key_bytes] in Ek. apply idKey_inj in Ek as ->; [done|done|apply Hi]. }
  assert (∀ id, is_u64 id → ¬ live_id st id → ∀ a : Address, store_reader σ' (idKey id) ≠ Some (array_bytes a)) as Hdead.
  { intros id Hid Hn a Hg. assert (∀ b : Address, store_reader σ (idKey id) = Some (array_bytes b) → False) as Hno.
    { intros b Hb. pose proof Hb as Hc. apply (sv_ids _ _ S) in Hc; [|done].
      destruct (rv_dead _ _ _ _ _ _ _ V id b (served_tracked _ _ _ _ S Hc) Hn Hb) as [H _]. congruence. }
    change (idKey id) with (key_bytes (KID id)) in Hg. rewrite (rv_cache _ _ _ _ _ _ _ V (KID id) I) in Hg; [by eapply Hno|].
    intros (i & b & Hb & Hi & _ & [Ek|Ek]); [|discriminate Ek]. cbn [key_bytes] in Ek.
    apply idKey_inj in Ek as ->; [by eapply Hno|done|apply Hi]. }
  split.
  - intros id a Hid. rewrite (undo_cached _ _ _ _ _ Hu), <-(sv_ids _ _ S) by done. fold st. split.
    + intros Hg. destruct (decide (is_Some (abs_ids st !! id))) as [Hl%abs_ids_live|Hl].
      * rewrite <-Hlive by done. done.
      * rewrite abs_ids_live in Hl. by apply Hdead in Hg.
    + intros [Hg Hl]. by rewrite Hlive.
  - intros id a [Hc Hl]%(undo_cached _ _ _ _ _ Hu). fold st in Hl. destruct (sv_cached _ _ S _ _ Hc) as (Hid & _ & Hg).
    split_and!; [done| |].
    + destruct Hl as (a' & e & Ha). by destruct (wf_id _ W _ _ _ Ha) as [[_ ?] _].
    + etrans; [|exact Hg]. apply (rv_cache _ _ _ _ _ _ _ V (KAddr a) I).
      intros (i & b & Hb & Hi & Hn & [Ek|Ek]); [discriminate Ek|]. cbn [key_bytes] in Ek. apply addrKey_inj in Ek as <-.
      apply (sv_ids _ _ S) in Hb; [|apply Hi]. by rewrite (sv_inj _ _ S _ _ _ Hb Hc) in Hn.
Qed.

Lemma undo_target σ c k c' : served σ c → k ≠ O → abs_undo k c = Some c' →
  ∃ o root, last (undo_refs k c) = Some o ∧
    store_reader σ (parentKey (ref_Hash o)) = Some (array_bytes (ln_hash (ch_head c'))) ∧
    ref_Number o = (ln_number (ch_head c') + 1)%N ∧ is_u64 (ref_Number o) ∧
    ancestor_repr (store_reader σ) (ln_hash (ch_head c')) root (ch_state c') ∧
    linked (store_reader σ) (ch_head c') (ch_older c').
Proof.
  intros S Hk Hu. apply abs_undo_split in Hu as [Hl _].
  destruct (linked_split _ _ _ _ _ _ (sv_linked _ _ S) Hl) as (o & Hlast & Hp & Hn & Hu & (root & An) & Hlk).
  { by destruct k. }
  exists (mkArkivBlockRef (ln_number o) (ln_hash o)), root. split_and!; try done.
  unfold undo_refs. rewrite fmap_last. by rewrite Hlast.
Qed.

Lemma undo_served σ c k c' : served σ c → k ≠ O → abs_undo k c = Some c' → covered (ch_cached c) (ch_state c') →
  match revertToAncestor σ (undo_refs k c) with
  | (Ok _, σ') => served σ' c'
  | (Err _, σ') => σ' = σ
  | (Panic, _) => False
  end.
Proof.
  intros S Hk Hu C. destruct (undo_target _ _ _ _ S Hk Hu) as (o & root & Hlast & Hp & Hn & Hu64 & An & Hlk).
  assert (abs_wf (ch_state c')) as W by (destruct (an_repr _ _ _ _ An) as (s & _ & Sn); apply Sn).
  pose proof (revertToAncestor_ok _ _ _ _ _ _ _ (sv_repr _ _ S) Hlast Hp An (served_cover _ _ _ S W C)) as H.
  destruct (revertToAncestor _ _) as [[[]|e|] σ']; [|by destruct H|done]. rename H into V.
  destruct (rv_head _ _ _ _ _ _ _ V) as (Hr & Hh & Hnum). rewrite Hn in Hnum, V. replace (_ + 1 - 1)%N with (ln_number (ch_head c')) in Hnum, V by lia.
  pose proof (revert_keeps_roots _ _ _ _ _ _ _ V) as Hroots.
  destruct (undo_served_cached _ _ _ _ _ _ _ _ S Hu W V) as [C1 C2]. split; try done.
  - apply V.
  - rewrite Hr. eapply ancestor_frame; [|exact Hroots|exact An]. eapply undo_index; [done..|apply elem_of_cons; by left].
  - apply New_ok; [|rewrite Hnum; unfold is_u64 in *; lia]. rewrite Hr, Hh, Hnum. apply V.
  - eapply linked_frame; [|exact Hroots|exact Hlk]. intros x Hx. by eapply undo_index.
  - pose proof (sv_hashes _ _ S) as Hnd. destruct (abs_undo_split _ _ _ Hu) as [Hl _]. rewrite Hl, map_app in Hnd. by apply NoDup_app in Hnd as (_ & _ & ?).
  - intros i j a [Hi _]%(undo_cached _ _ _ _ _ Hu) [Hj _]%(undo_cached _ _ _ _ _ Hu). by eapply (sv_inj _ _ S).
  - intros l a b id e Hl He [Hc _]%(undo_cached _ _ _ _ _ Hu). eapply (sv_agree _ _ S); [|exact He|exact Hc].
    destruct (abs_undo_split _ _ _ Hu) as [Hsp _]. rewrite Hsp. apply elem_of_app. by right.
Qed.

(** ** Sessions *)

Lemma session_served number hash σ c : session number hash σ c → served σ c.
Proof.
  induction 1 as [raw σ Hg Hn|σ c b r σ' _ S F Hp|σ c k r σ' _ S (Hk & c' & Hu & C) Hp|σ c σ' _ S Hn].
  - by eapply open_served.
  - pose proof (commit_served _ _ _ S F) as H. rewrite Hp in H. destruct r as [root|e|]; cbn; [|by subst|done].
    destruct H as (c' & -> & S' & _). exact S'.
  - pose proof (undo_served _ _ _ _ S Hk Hu C) as H. destruct (undo_target _ _ _ _ S Hk Hu) as (o & _ & Hlast & _).
    rewrite (RevertBlocks_last _ _ _ Hlast) in Hp. destruct (revertToAncestor _ _) as [[[]|e|] σ1]; cbn in Hp; injection Hp as <- <-; cbn.
    + by rewrite Hu.
    + by subst.
    + done.
  - assert (σ' = σ) as ->; [|done]. pose proof (sv_persisted _ _ S) as P. unfold persisted in P. congruence.
Qed.

(** ** The handlers are runs of such calls *)

Lemma processBlocks_session number hash bs σ c r σ' : session number hash σ c → run_fits σ c bs →
  processBlocks σ bs = (r, σ') →
  ∃ c', session number hash σ' c' ∧
    match r with
    | Ok _ => abs_commits c bs = Some c'
    | Err _ => ∃ done rest, bs = done ++ rest ∧ rest ≠ [] ∧ abs_commits c done = Some c'
    | Panic => False
    end.
Proof.
  revert σ c. induction bs as [|b bs IH]; intros σ c Hs; cbn [run_fits processBlocks abs_commits].
  { intros _ [= <- <-]. by exists c. }
  intros [F Fs]. pose proof (commit_served _ _ _ (session_served _ _ _ _ Hs) F) as H. unfold ProcessBlock in H.
  destruct (processBlock σ b) as [[root|e|] σ1] eqn:Ep; [|intros [= <- <-]|done].
  - destruct H as (c1 & Hc & _ & _). pose proof (session_commit _ _ _ _ _ _ _ Hs F Ep) as Hs1. rewrite Hc in Hs1. cbn in Hs1.
    intros Hp. destruct (IH σ1 c1 Hs1 (Fs _ _ _ Ep Hc) Hp) as (c' & Hs' & H'). exists c'. split; [done|]. rewrite Hc. cbn.
    destruct r as [u|e|]; [done| |done]. destruct H' as (dn & rest & -> & Hne & Ha).
    exists (b :: dn), rest. split; [done|]. split; [done|]. cbn [abs_commits]. by rewrite Hc.
  - exists c. split; [by subst|]. by exists [], (b :: bs).
Qed.

Lemma revertToAncestor_session number hash σ c k c' r σ' : session number hash σ c → can_undo k c →
  abs_undo k c = Some c' → revertToAncestor σ (undo_refs k c) = (r, σ') →
  match r with Ok _ => session number hash σ' c' | Err _ => σ' = σ | Panic => False end.
Proof.
  intros Hs Hk Hu Hr. pose proof Hk as (Hk0 & c1 & Hu1 & C). rewrite Hu in Hu1. injection Hu1 as <-.
  pose proof (session_served _ _ _ _ Hs) as S. destruct (undo_target _ _ _ _ S Hk0 Hu) as (o & _ & Hlast & _).
  pose proof (undo_served _ _ _ _ S Hk0 Hu C) as H. rewrite Hr in H. destruct r as [[]|e|]; [|done..].
  pose proof (RevertBlocks_last σ _ _ Hlast) as He. rewrite Hr in He. cbn in He.
  pose proof (session_revert _ _ _ _ _ _ _ Hs Hk He) as Hs'. by rewrite Hu in Hs'.
Qed.

End SessionProofs.
