(* ===== verification/QueryProofs.v ===== *)
(** The read path answers from the abstract state, at the head and at
    historical blocks (src/store/query.go). *)
From S2P Require Export ReorgProofs.

Section QueryProofs.
Context {E : Env} {EO : EnvOk} {CF : CollisionFree}.

(** The state a query at block [n] reads ([n = 0] is the head). *)
Definition state_at (σ : Store) (n : N) (st : AbsState) : Prop :=
  ∃ s, openStateAt σ n = Ok s ∧ snapshot (store_reader σ) s st.

Lemma state_at_head σ st : head_repr σ st → state_at σ 0 st.
Proof. intros [_ (s & Hs & Sn & _)]. by exists s. Qed.

Lemma state_at_block σ n hash root st : n ≠ 0%N →
  store_reader σ (blockNumberKey n) = Some (array_bytes hash) → store_reader σ (rootKey hash) = Some (array_bytes root) →
  root_repr (store_reader σ) root st → state_at σ n st.
Proof.
  intros Hn Hh%kv_Get_lookup Hr%kv_Get_lookup (s & Hs & Sn). exists s. split; [|done]. unfold openStateAt.
  apply N.eqb_neq in Hn as ->. rewrite Hh. wrap_step. rewrite BytesToHash_bytes, Hr.
  wrap_step. by rewrite BytesToHash_bytes.
Qed.

Lemma blob_Get σ h X : blob_ok (store_reader σ) h X →
  ∃ d B, kv_Get (rawDB σ) (bitmapKey h) = Ok d ∧ (length d =? 0)%nat = false ∧ bm_UnmarshalBinary d = Ok B ∧ bitmap_repr B X.
Proof.
  intros (d & B & Hd%kv_Get_lookup & Hne & HB & HX). exists d, B. split; [done|]. split; [by destruct d|done].
Qed.

Lemma ReadAnnotBitmap_ok σ n st p : state_at σ n st → tracked p →
  ∃ B, ReadAnnotBitmap σ n (pair_key p) (pair_val p) = Ok B ∧ bitmap_repr B (indexed st p).
Proof.
  intros (s & Hs & Sn) Hp. unfold ReadAnnotBitmap. rewrite Hs. bind_step. fold (slot_of s p).
  pose proof (tr_bitmaps _ _ _ _ _ (sn_trie _ _ _ Sn) p Hp) as H. rewrite lookup_empty in H.
  destruct H as [[Hz He]|(Hz & Hb & _)].
  - rewrite decide_True by done. exists roaring_New. split; [done|]. intros x. rewrite Contains_New.
    split; [done|]. intros Hx. by destruct (He x).
  - rewrite decide_False by done. destruct (blob_Get _ _ _ Hb) as (d & B & -> & -> & -> & HX). by exists B.
Qed.

Lemma GetEntity_ok σ n st a : state_at σ n st →
  match abs_ents st !! a with
  | Some (_, e) => GetEntity σ n a = Ok e
  | None => ∃ err, GetEntity σ n a = Err err
  end.
Proof.
  intros (s & Hs & Sn). unfold GetEntity. rewrite Hs. bind_step.
  pose proof (tr_code _ _ _ _ _ (sn_trie _ _ _ Sn) a) as Hc. unfold code_ok in Hc.
  destruct (abs_ents st !! a) as [[id e]|].
  - rewrite lookup_empty in Hc. destruct Hc as [Hne Hd]. by destruct (GetCode s a).
  - destruct Hc as [_ ->]. cbn. by eexists.
Qed.

Lemma IDToAddress_ok σ st a id e : head_repr σ st → abs_ents st !! a = Some (id, e) → IDToAddress σ id = Some a.
Proof.
  intros [_ (s & _ & _ & P)] Ha. unfold IDToAddress.
  pose proof (pb_id _ _ _ P _ _ _ Ha) as Hg. apply kv_Get_lookup in Hg as ->. cbn.
  rewrite array_length. cbn. by rewrite BytesToAddress_bytes.
Qed.

(** ** Scans of the annotation pointers *)

Lemma orPointer_Contains σ res v x : bm_Contains (orPointer σ res v) x = true ↔
  bm_Contains res x = true ∨ ∃ B, loadBitmapFromPointer σ v = Some B ∧ bm_Contains B x = true.
Proof.
  unfold orPointer. destruct (loadBitmapFromPointer σ v) as [B|].
  - rewrite Contains_Or, orb_true_iff. split; intros [?|H]; auto; [right; by exists B|].
    destruct H as (B' & [= <-] & ?). by right.
  - split; [by left|]. intros [?|(B & ? & _)]; done.
Qed.

(** A scan ORs every entry it accepts, if no accepted entry lies beyond the one
    it stops at. *)
Lemma scan_Contains σ act res l x :
  (∀ l1 k v l2, l = l1 ++ (k, v) :: l2 → act k = ScanStop → ∀ k' v', (k', v') ∈ l2 → act k' ≠ ScanOr) →
  bm_Contains (scan σ act res l) x = true ↔
  bm_Contains res x = true ∨
    ∃ k v B, (k, v) ∈ l ∧ act k = ScanOr ∧ loadBitmapFromPointer σ v = Some B ∧ bm_Contains B x = true.
Proof.
  revert res. induction l as [|[k v] l IH]; intros res Hstop; cbn [scan].
  - split; [by left|]. intros [?|(k & v & B & Hin & _)]; [done|]. by apply elem_of_nil in Hin.
  - assert (∀ l1 k0 v0 l2, l = l1 ++ (k0, v0) :: l2 → act k0 = ScanStop → ∀ k' v', (k', v') ∈ l2 → act k' ≠ ScanOr) as Hstop'.
    { intros l1 k0 v0 l2 ->. exact (Hstop ((k, v) :: l1) k0 v0 l2 eq_refl). }
    destruct (act k) eqn:Ea.
    + rewrite IH by done. split; intros [?|(k' & v' & B & Hin & Ha & ?)]; auto; right; exists k', v', B; (split; [|done]).
      * apply elem_of_cons. by right.
      * apply elem_of_cons in Hin as [[= -> ->]|Hin]; [congruence|done].
    + split; [by left|]. intros [?|(k' & v' & B & Hin & Ha & _)]; [done|].
      apply elem_of_cons in Hin as [[= -> ->]|Hin]; [congruence|]. by apply (Hstop [] k v l eq_refl Ea k' v' Hin) in Ha.
    + rewrite IH, orPointer_Contains by done. split.
      * intros [[?|(B & ? & ?)]|(k' & v' & B & Hin & ?)]; [by left| |].
        -- right. exists k, v, B. split; [apply elem_of_cons; by left|done].
        -- right. exists k', v', B. split; [apply elem_of_cons; by right|done].
      * intros [?|(k' & v' & B & Hin & Ha & Hl & Hx)]; [by left; left|].
        apply elem_of_cons in Hin as [[= -> ->]|Hin]; [left; right; by exists B|right; by exists k', v', B].
Qed.

(** The pointer entries of one annotation key are its indexed pairs. *)
Lemma annot_entry_ok σ st key k v : head_repr σ st → x00 ∉ key →
  annotKeyPrefix key `prefix_of` k → store_reader σ k = Some v →
  ∃ val, k = annotKeyPrefix key ++ val ∧ tracked (mkAnnotPair key val) ∧
    ∃ B, loadBitmapFromPointer σ v = Some B ∧ bitmap_repr B (indexed st (mkAnnotPair key val)).
Proof.
  intros [D (s & _ & Sn & P)] Hk [val Hp] Hg.
  destruct (dw_annot _ D k) as (p & Ht & Ek); [|by eexists|].
  { rewrite Hp. unfold annotKeyPrefix. rewrite <-!app_assoc. by eexists. }
  exists val. split; [done|].
  assert (p = mkAnnotPair key val) as ->.
  { rewrite Ek in Hp. unfold annotKeyPrefix, annotKey in Hp. rewrite <-!app_assoc in Hp. apply app_inv_head in Hp.
    destruct (sep_inj (pair_key p) (pair_val p) key val) as [E1 E2]; [apply Ht|done|done|]. destruct p. simpl in *. by subst. }
  split; [done|]. pose proof (pb_annot _ _ _ P _ Ht) as Hann. cbn [pair_key pair_val] in Hann, Ek. rewrite <-Ek, Hg in Hann.
  destruct (decide _) as [|Hz]; [done|]. injection Hann as ->.
  pose proof (tr_bitmaps _ _ _ _ _ (sn_trie _ _ _ Sn) _ Ht) as H. rewrite lookup_empty in H.
  destruct H as [[? _]|(_ & Hb & _)]; [done|]. destruct (blob_Get _ _ _ Hb) as (d & B & Hd & Hl & HB & HX).
  exists B. split; [|done]. unfold loadBitmapFromPointer. rewrite array_length. cbn. rewrite BytesToHash_bytes, Hd. cbn.
  destruct d; [done|]. by rewrite HB.
Qed.

(** Conversely an indexed pair has its entry. *)
Lemma annot_entry_complete σ st key val x : head_repr σ st → indexed st (mkAnnotPair key val) x →
  tracked (mkAnnotPair key val) ∧ is_Some (store_reader σ (annotKeyPrefix key ++ val)).
Proof.
  intros [D (s & _ & Sn & P)] Hx. assert (tracked (mkAnnotPair key val)) as Ht.
  { destruct Hx as (a & e & Ha & Hp). destruct (wf_ent _ (sn_wf _ _ _ Sn) _ _ _ Ha) as [_ Hall].
    rewrite Forall_forall in Hall. by apply Hall. }
  split; [done|]. replace (annotKeyPrefix key ++ val) with (annotKey key val).
  2:{ unfold annotKeyPrefix, annotKey. by rewrite <-!app_assoc. }
  pose proof (pb_annot _ _ _ P _ Ht) as Hann. cbn [pair_key pair_val] in Hann. rewrite Hann.
  pose proof (tr_bitmaps _ _ _ _ _ (sn_trie _ _ _ Sn) _ Ht) as H. rewrite lookup_empty in H.
  destruct H as [[_ Hn]|(Hz & _)]; [by destruct (Hn x)|]. rewrite decide_False by done. by eexists.
Qed.

(** A scan of one annotation key from [start] on, whose action on a value [val]
    is [wanted]. *)
Lemma annot_scan_ok σ st key start act (wanted : bytes → Prop) x :
  head_repr σ st → x00 ∉ key → let prefix := annotKeyPrefix key in
  (kv_NewIterator (rawDB σ) prefix start).2 = None →
  (∀ val, act (prefix ++ val) = ScanOr ∧ bytes_le start val ↔ wanted val) →
  (∀ v v', act (prefix ++ v) = ScanStop → bytes_lt v v' → act (prefix ++ v') ≠ ScanOr) →
  bm_Contains (scan σ act roaring_New (kv_NewIterator (rawDB σ) prefix start).1) x = true ↔
  ∃ val, wanted val ∧ indexed st (mkAnnotPair key val) x.
Proof.
  intros R Hk prefix Herr Hw Hstop.
  assert (∀ k v, (k, v) ∈ (kv_NewIterator (rawDB σ) prefix start).1 → ∃ val, k = prefix ++ val ∧ bytes_le start val ∧
    ∃ B, loadBitmapFromPointer σ v = Some B ∧ bitmap_repr B (indexed st (mkAnnotPair key val))) as Hent.
  { intros k v (Hg & Hp & Hle)%kv_iter_sound. destruct (annot_entry_ok _ _ _ _ _ R Hk Hp Hg) as (val & -> & _ & HB).
    exists val. split; [done|]. by apply bytes_le_app in Hle. }
  rewrite scan_Contains.
  - rewrite Contains_New. split.
    + intros [?|(k & v & B & Hin & Ha & Hl & Hx)]; [done|].
      destruct (Hent _ _ Hin) as (val & -> & Hle & B' & Hl' & HB'). exists val. split; [by apply Hw|].
      apply HB'. congruence.
    + intros (val & [Ha Hle]%Hw & Hx). right. destruct (annot_entry_complete _ _ _ _ _ R Hx) as [Ht [v Hv]].
      destruct (annot_entry_ok σ st key (prefix ++ val) v R Hk) as (val' & Ek & _ & B & HB & HX); [by eexists|done|].
      apply app_inv_head in Ek as <-. exists (prefix ++ val), v, B. split; [|split_and!; [done|done|by apply HX]].
      apply kv_iter_complete; [done|done|by eexists|by apply bytes_le_app].
  - intros l1 k v l2 El Hs k' v' Hin.
    assert ((k, v) ∈ (kv_NewIterator (rawDB σ) prefix start).1) as Hin1 by (rewrite El; apply elem_of_app; right; apply elem_of_cons; by left).
    assert ((k', v') ∈ (kv_NewIterator (rawDB σ) prefix start).1) as Hin2 by (rewrite El; apply elem_of_app; right; apply elem_of_cons; by right).
    destruct (Hent _ _ Hin1) as (val & -> & _), (Hent _ _ Hin2) as (val' & -> & _).
    apply (Hstop val); [done|]. pose proof (kv_iter_sorted (rawDB σ) prefix start) as Hsort. rewrite El in Hsort.
    apply StronglySorted_app in Hsort as (_ & _ & Hsort). apply StronglySorted_inv in Hsort as [_ Hall].
    rewrite Forall_forall in Hall. specialize (Hall _ Hin). by apply bytes_lt_app in Hall.
Qed.

(** ** Queries across a block *)

Lemma state_at_own σ block st st' root σ' : block_post σ block st st' root σ' →
  header_Number (block_Header block) ≠ 0%N → state_at σ' (header_Number (block_Header block)) st'.
Proof.
  intros B Hn. destruct (bk_head _ _ _ _ _ _ B) as (Hr & Hh & Hnum). destruct (bk_repr _ _ _ _ _ _ B) as [_ (s & Hs & Sn & _)].
  pose proof (bk_number _ _ _ _ _ _ B) as H1. pose proof (bk_root _ _ _ _ _ _ B) as H2. rewrite Hnum in H1.
  eapply state_at_block; [done|exact H1|exact H2|]. exists s. split; [|done]. by rewrite <-Hr.
Qed.

Lemma state_at_older σ block st st' root σ' n stn : block_post σ block st st' root σ' →
  is_u64 (header_Number (block_Header block)) → is_u64 n → n ≠ 0%N → n ≠ header_Number (block_Header block) →
  (∀ hb, store_reader σ (blockNumberKey n) = Some hb → BytesToHash hb ≠ header_Hash (block_Header block)) →
  state_at σ n stn → state_at σ' n stn.
Proof.
  intros B Hu Hn Hz Hne Hhash (s & Hs & Sn). unfold openStateAt in Hs. pose proof Hz as Hz'. apply N.eqb_neq in Hz'. rewrite Hz' in Hs.
  apply bind_Ok in Hs as (root0 & Hr0 & Hs). apply bind_Ok in Hr0 as (hb & Hhb%wrap_Ok & Hr0).
  apply bind_Ok in Hr0 as (rb & Hrb%wrap_Ok & [= <-]). apply kv_Get_lookup in Hhb, Hrb. specialize (Hhash _ Hhb).
  assert (store_reader σ' (blockNumberKey n) = Some hb) as H1.
  { etrans; [apply (block_other _ _ _ _ _ _ (KBlockNumber n) B)|done]. intros Hk%block_key_cases. by specialize (Hk Hn Hu). }
  assert (store_reader σ' (rootKey (BytesToHash hb)) = Some rb) as H2.
  { etrans; [apply (block_other _ _ _ _ _ _ (KRoot (BytesToHash hb)) B)|done]. by intros Hk%block_key_cases. }
  destruct (root_repr_block _ _ _ _ _ _ _ _ B (ex_intro _ s (conj Hs Sn))) as (s' & Hs' & Sn').
  exists s'. split; [|done]. unfold openStateAt. rewrite Hz'.
  apply kv_Get_lookup in H1 as ->. wrap_step. apply kv_Get_lookup in H2 as ->.
  wrap_step. done.
Qed.

Lemma head_repr_wf σ st : head_repr σ st → abs_wf st.
Proof. intros [_ (s & _ & Sn & _)]. apply Sn. Qed.

(** ** Counting *)

Lemma ReverseIterator_NoDup B : NoDup (bm_ReverseIterator B).
Proof.
  induction (ReverseIterator_sorted B) as [|x l Hs IH Hx]; constructor; [|done].
  intros Hin. rewrite Forall_forall in Hx. specialize (Hx x Hin). lia.
Qed.

(** The live IDs are as many as the entities. *)
Lemma card_live st l : abs_wf st → NoDup l → (∀ x, x ∈ l ↔ live_id st x) → length l = size (abs_ents st).
Proof.
  intros W Hd Hl. transitivity (length (map (λ kv, kv.2.1) (map_to_list (abs_ents st)))); [|by rewrite length_map, length_map_to_list].
  apply Permutation_length, NoDup_Permutation; [done| |].
  - apply (NoDup_fmap_2_strong (λ kv : Address * (N * Entity), kv.2.1)); [|apply NoDup_map_to_list].
    intros [a [i e]] [a' [i' e']] H1%elem_of_map_to_list H2%elem_of_map_to_list. simpl. intros <-.
    pose proof (wf_inj _ W _ _ _ _ _ H1 H2) as <-. congruence.
  - intros x. rewrite Hl. unfold live_id. split.
    + intros (a & e & Ha). apply (list_elem_of_fmap_2 (λ kv : Address * (N * Entity), kv.2.1) _ (a, (x, e))).
      by apply elem_of_map_to_list.
    + intros ([a [i e]] & -> & Hin)%list_elem_of_fmap. apply elem_of_map_to_list in Hin. by exists a, e.
Qed.

End QueryProofs.
