(* ===== verification/ScanProofs.v ===== *)
(** The range, prefix and pattern scans over the annotation pointers return
    exactly the IDs of the indexed values in range (src/store/query.go). *)
From S2P Require Export QueryProofs.

(** A value between optional bounds. *)
Definition above (lo : option bytes) (loIncl : bool) (v : bytes) : Prop :=
  match lo with Some l => if loIncl then bytes_le l v else bytes_lt l v | None => True end.
Definition below (hi : option bytes) (hiIncl : bool) (v : bytes) : Prop :=
  match hi with Some h => if hiIncl then bytes_le v h else bytes_lt v h | None => True end.

Section ScanProofs.
Context {E : Env} {EO : EnvOk} {CF : CollisionFree}.

Lemma length_prefix_add (p v : bytes) n : (length (p ++ v) =? length p + n)%nat = (length v =? n)%nat.
Proof. rewrite length_app. apply eq_true_iff_eq. rewrite !Nat.eqb_eq. lia. Qed.
Lemma length_prefix_le (p v : bytes) : (length (p ++ v) <=? length p)%nat = bool_decide (v = []).
Proof.
  rewrite length_app. apply eq_true_iff_eq. rewrite Nat.leb_le, bool_decide_eq_true, <-length_zero_iff_nil. lia.
Qed.

(** ** Numbers *)

Lemma numericAction_app prefix hi v : numericAction prefix hi (prefix ++ v) =
  if negb (length v =? 8)%nat then ScanSkip else if (hi <? be_decode v)%N then ScanStop else ScanOr.
Proof. unfold numericAction. by rewrite length_prefix_add, drop_app_length. Qed.

Lemma be_le v w : length v = length w → bytes_le v w ↔ (be_decode v ≤ be_decode w)%N.
Proof. intros Hl. unfold bytes_le. by rewrite bytes_compare_be. Qed.
Lemma be_lt v w : length v = length w → bytes_lt v w ↔ (be_decode v < be_decode w)%N.
Proof. intros Hl. unfold bytes_lt. rewrite bytes_compare_be by done. by rewrite N.compare_lt_iff. Qed.

Lemma numeric_start lo v : is_u64 lo → length v = 8%nat →
  bytes_le (if (0 <? lo)%N then PutUint64 lo else []) v ↔ (lo ≤ be_decode v)%N.
Proof.
  intros Hlo Hv. destruct (N.ltb_spec 0 lo).
  - rewrite be_le by (by rewrite PutUint64_length). by rewrite be_decode_PutUint64.
  - split; [lia|]. intros _. apply bytes_le_nil.
Qed.

Lemma IterateNumeric_ok σ st key lo hi x : head_repr σ st → x00 ∉ key → is_u64 lo →
  (∀ p s, (kv_NewIterator (rawDB σ) p s).2 = None) →
  bm_Contains (IterateNumericAnnotBitmaps σ key lo hi) x = true ↔
  ∃ v, is_u64 v ∧ (lo ≤ v ≤ hi)%N ∧ indexed st (mkAnnotPair key (numericVal v)) x.
Proof.
  intros R Hk Hlo Herr. unfold IterateNumericAnnotBitmaps.
  rewrite (annot_scan_ok σ st key _ _ (λ v, length v = 8%nat ∧ (lo ≤ be_decode v ≤ hi)%N) x R Hk); [|done|..].
  - split.
    + intros (v & [Hv Hr] & Hx). exists (be_decode v). split; [by apply be_decode_u64|]. split; [done|].
      unfold numericVal. by rewrite PutUint64_be_decode.
    + intros (v & Hu & Hr & Hx). exists (PutUint64 v). rewrite be_decode_PutUint64, PutUint64_length by done. done.
  - intros v. rewrite numericAction_app. destruct (Nat.eqb_spec (length v) 8) as [Hv|Hv]; cbn [negb].
    + rewrite numeric_start by done. destruct (N.ltb_spec hi (be_decode v)); split; intros [? ?]; (done || lia || (split; [done|lia])).
    + split; [by intros [? _]|by intros [? _]].
  - intros v v'. rewrite !numericAction_app. destruct (Nat.eqb_spec (length v) 8) as [Hv|]; [|done]. cbn [negb].
    destruct (N.ltb_spec hi (be_decode v)); [|done]. intros _ Hlt.
    destruct (Nat.eqb_spec (length v') 8) as [Hv'|]; [|done]. cbn [negb].
    apply be_lt in Hlt; [|congruence]. destruct (N.ltb_spec hi (be_decode v')); [done|lia].
Qed.

(** ** Strings *)

Lemma bytes_ltb_lt a b : bytes_ltb a b = true ↔ bytes_lt a b.
Proof. unfold bytes_ltb, bytes_lt. by destruct (bytes_compare a b). Qed.

Definition beyond (hi : option bytes) (hiIncl : bool) (v : bytes) : bool :=
  match hi with Some h => bytes_ltb h v || (bool_decide (v = h) && negb hiIncl) | None => false end.

Lemma beyond_below hi hiIncl v : beyond hi hiIncl v = false ↔ below hi hiIncl v.
Proof.
  unfold beyond, below. destruct hi as [h|]; [|done].
  rewrite orb_false_iff, <-not_true_iff_false, bytes_ltb_lt, bytes_not_lt, andb_false_iff, bool_decide_eq_false, negb_false_iff.
  destruct hiIncl; [intuition|]. rewrite bytes_le_lt_eq. split; [intuition congruence|]. intros H.
  split; [by left|]. left. intros ->. by apply bytes_lt_irrefl in H.
Qed.

Lemma stringAction_app prefix lo loIncl hi hiIncl v : stringAction prefix lo loIncl hi hiIncl (prefix ++ v) =
  if bool_decide (v = []) then ScanSkip
  else if match lo with Some l => negb loIncl && bool_decide (v = l) | None => false end then ScanSkip
  else if beyond hi hiIncl v then ScanStop else ScanOr.
Proof. unfold stringAction. by rewrite length_prefix_le, drop_app_length. Qed.

Lemma IterateString_ok σ st key lo loIncl hi hiIncl x : head_repr σ st → x00 ∉ key →
  (∀ p s, (kv_NewIterator (rawDB σ) p s).2 = None) →
  bm_Contains (IterateStringAnnotBitmaps σ key lo loIncl hi hiIncl) x = true ↔
  ∃ v, v ≠ [] ∧ above lo loIncl v ∧ below hi hiIncl v ∧ indexed st (mkAnnotPair key v) x.
Proof.
  intros R Hk Herr. unfold IterateStringAnnotBitmaps.
  rewrite (annot_scan_ok σ st key _ _ (λ v, v ≠ [] ∧ above lo loIncl v ∧ below hi hiIncl v) x R Hk); [|done|..].
  - split; intros (v & H); exists v; tauto.
  - intros v. rewrite stringAction_app. destruct (bool_decide_reflect (v = [])) as [?|Hv]; [by split; intros [? _]|].
    assert (bytes_le (default [] lo) v ∧ match lo with Some l => negb loIncl && bool_decide (v = l) | None => false end = false
      ↔ above lo loIncl v) as Hlo.
    { unfold above. destruct lo as [l|]; simpl; [|by split; [|split; [apply bytes_le_nil|]]].
      destruct loIncl; simpl; [tauto|]. rewrite bool_decide_eq_false, bytes_le_lt_eq. split; [intuition congruence|].
      intros H. split; [by left|]. intros ->. by apply bytes_lt_irrefl in H. }
    rewrite <-Hlo, <-beyond_below. destruct (match lo with Some l => _ | None => false end); [split; [by intros [? _]|]; by intros (_ & [_ ?] & _)|].
    destruct (beyond hi hiIncl v); [split; [by intros [? _]|]; by intros (_ & _ & ?)|]. tauto.
  - intros v v'. rewrite !stringAction_app. intros Hs Hlt.
    assert (beyond hi hiIncl v = true) as Hb by (repeat case_match; done).
    assert (beyond hi hiIncl v' = true) as ->; [|repeat case_match; done].
    unfold beyond in *. destruct hi as [h|]; [|done]. apply orb_true_iff. left. apply bytes_ltb_lt.
    apply orb_true_iff in Hb as [Hb%bytes_ltb_lt|[->%bool_decide_eq_true _]%andb_true_iff]; [|done].
    by eapply bytes_lt_trans.
Qed.

Lemma IteratePrefix_ok σ st key p x : head_repr σ st → x00 ∉ key →
  (∀ p s, (kv_NewIterator (rawDB σ) p s).2 = None) →
  bm_Contains (IteratePrefixAnnotBitmaps σ key p) x = true ↔
  ∃ v, v ≠ [] ∧ p `prefix_of` v ∧ indexed st (mkAnnotPair key v) x.
Proof.
  intros R Hk Herr. unfold IteratePrefixAnnotBitmaps. rewrite (IterateString_ok _ st) by done.
  split; intros (v & Hv & H); exists v; (split; [done|]); rewrite prefixSuccessor_bound in *; unfold above, below in *.
  - destruct H as (? & Hb & ?). split; [|done]. split; [done|]. by intros h Hh; rewrite Hh in Hb.
  - destruct H as ([? Hb] & ?). split_and!; try done. destruct (prefixSuccessor p); [by apply Hb|done].
Qed.

(** ** Patterns *)

Lemma globAction_app prefix pattern v : globAction prefix pattern (prefix ++ v) =
  if bool_decide (v = []) then ScanSkip else if globMatch pattern v then ScanOr else ScanSkip.
Proof. unfold globAction. by rewrite length_prefix_le, drop_app_length. Qed.

Lemma IterateGlob_ok σ st key pattern x : head_repr σ st → x00 ∉ key →
  (∀ p s, (kv_NewIterator (rawDB σ) p s).2 = None) →
  bm_Contains (IterateGlobAnnotBitmaps σ key pattern) x = true ↔
  ∃ v, v ≠ [] ∧ glob pattern v ∧ indexed st (mkAnnotPair key v) x.
Proof.
  intros R Hk Herr. unfold IterateGlobAnnotBitmaps.
  rewrite (annot_scan_ok σ st key _ _ (λ v, v ≠ [] ∧ glob pattern v) x R Hk); [|done|..].
  - split; intros (v & H); exists v; tauto.
  - intros v. rewrite globAction_app. destruct (bool_decide_reflect (v = [])) as [?|Hv]; [by split; intros [? _]|].
    rewrite <-globMatch_glob. destruct (globMatch pattern v).
    + split; [done|]. intros _. split; [done|apply bytes_le_nil].
    + by split; intros [? ?].
  - intros v v'. rewrite !globAction_app. by repeat case_match.
Qed.

End ScanProofs.
