(* ===== verification/Evaluate.v ===== *)
(** Evaluation of a normalised query against a bitmap index
    (src/query/evaluate.go).

    [StoreQuerier] is the interface of the source; the store implements it
    ([store_querier]).  Every bitmap a querier returns is freshly allocated, so
    the in-place [Or], [And], [AndNot] of the source are value updates here. *)
From S2P Require Export Normalize StoreQuery.

Class StoreQuerier `{Roaring} (Q : Type) := {
  q_ReadAnnotBitmap : Q → N → bytes → bytes → result Bitmap;
  q_AllEntities : Q → N → result Bitmap;
  q_IterateNumeric : Q → bytes → N → N → Bitmap;
  q_IterateString : Q → bytes → option bytes → bool → option bytes → bool → Bitmap;
  q_IteratePrefix : Q → bytes → bytes → Bitmap;
  q_IterateGlob : Q → bytes → bytes → Bitmap;
}.

#[export] Instance store_querier `{E : Env} : StoreQuerier Store := {
  q_ReadAnnotBitmap := ReadAnnotBitmap;
  q_AllEntities := AllEntities;
  q_IterateNumeric := IterateNumericAnnotBitmaps;
  q_IterateString := IterateStringAnnotBitmaps;
  q_IteratePrefix := IteratePrefixAnnotBitmaps;
  q_IterateGlob := IterateGlobAnnotBitmaps;
}.

Definition numericAnnotVal (v : N) : bytes := PutUint64 v.

(** A value with neither pointer set dereferences a nil number. *)
Definition annotVal (v : Value) : result bytes :=
  match v_String v with
  | Some s => Ok s
  | None => match v_Number v with Some n => Ok (numericAnnotVal n) | None => Panic end
  end.

Section Evaluate.
Context `{Roaring} {Q : Type} `{!StoreQuerier Q}.
Implicit Types (q : Q) (atBlockNumber : N).

(** [all.AndNot(bm)] when the operator is negated. *)
Definition subtractIf (isNot : bool) q atBlockNumber (bm : Bitmap) : result Bitmap :=
  if isNot then all ← q_AllEntities q atBlockNumber; Ok (bm_AndNot all bm) else Ok bm.

Definition numberOf (v : Value) : result N :=
  match v_Number v with Some n => Ok n | None => Panic end.

Definition LessThan_Evaluate (e : LessThan) q : result Bitmap :=
  match v_String (lt_Value e) with
  | Some s => Ok (q_IterateString q (lt_Var e) None false (Some s) false)
  | None =>
      n ← numberOf (lt_Value e);
      if (n =? 0)%N then Ok roaring_New else Ok (q_IterateNumeric q (lt_Var e) 0 (n - 1))
  end.

Definition LessOrEqualThan_Evaluate (e : LessOrEqualThan) q : result Bitmap :=
  match v_String (le_Value e) with
  | Some s => Ok (q_IterateString q (le_Var e) None false (Some s) true)
  | None => n ← numberOf (le_Value e); Ok (q_IterateNumeric q (le_Var e) 0 n)
  end.

Definition GreaterThan_Evaluate (e : GreaterThan) q : result Bitmap :=
  match v_String (gt_Value e) with
  | Some s => Ok (q_IterateString q (gt_Var e) (Some s) false None false)
  | None =>
      n ← numberOf (gt_Value e);
      if (n =? MaxUint64)%N then Ok roaring_New
      else Ok (q_IterateNumeric q (gt_Var e) (n + 1) MaxUint64)
  end.

Definition GreaterOrEqualThan_Evaluate (e : GreaterOrEqualThan) q : result Bitmap :=
  match v_String (ge_Value e) with
  | Some s => Ok (q_IterateString q (ge_Var e) (Some s) true None false)
  | None => n ← numberOf (ge_Value e); Ok (q_IterateNumeric q (ge_Var e) n MaxUint64)
  end.

Definition Equality_Evaluate (e : Equality) q atBlockNumber : result Bitmap :=
  v ← annotVal (eq_Value e);
  bm ← q_ReadAnnotBitmap q atBlockNumber (eq_Var e) v;
  subtractIf (eq_IsNot e) q atBlockNumber bm.

Definition GlobExpr_Evaluate (e : GlobExpr) q atBlockNumber : result Bitmap :=
  let bm := match isPrefixGlob (glob_Value e) with
            | Some prefix => q_IteratePrefix q (glob_Var e) prefix
            | None => q_IterateGlob q (glob_Var e) (glob_Value e)
            end in
  subtractIf (glob_IsNot e) q atBlockNumber bm.

(** The values an inclusion looks up: its strings, or its numbers encoded. *)
Definition inclusionVals (v : Values) : list bytes :=
  match vs_Strings v with [] => map numericAnnotVal (vs_Numbers v) | ss => ss end.

Definition unionOf q atBlockNumber (var : bytes) (vals : list bytes) : result Bitmap :=
  foldM (λ union val, bm ← q_ReadAnnotBitmap q atBlockNumber var val; Ok (bm_Or union bm)) roaring_New vals.

Definition Inclusion_Evaluate (e : Inclusion) q atBlockNumber : result Bitmap :=
  union ← unionOf q atBlockNumber (in_Var e) (inclusionVals (in_Values e));
  subtractIf (in_IsNot e) q atBlockNumber union.

Definition ASTTerm_Evaluate (t : ASTTerm) q atBlockNumber : result Bitmap :=
  let 'mkASTTerm assign incl lt le gt ge glob := t in
  match assign with Some e => Equality_Evaluate e q atBlockNumber | None =>
  match incl with Some e => Inclusion_Evaluate e q atBlockNumber | None =>
  match lt with Some e => LessThan_Evaluate e q | None =>
  match le with Some e => LessOrEqualThan_Evaluate e q | None =>
  match gt with Some e => GreaterThan_Evaluate e q | None =>
  match ge with Some e => GreaterOrEqualThan_Evaluate e q | None =>
  match glob with Some e => GlobExpr_Evaluate e q atBlockNumber | None =>
    Err (Errorf "unknown AST term")
  end end end end end end end.

(** [result] is nil until the first term. *)
Definition ASTAnd_step q atBlockNumber (res : option Bitmap) (t : ASTTerm) : result (option Bitmap) :=
  bm ← ASTTerm_Evaluate t q atBlockNumber;
  Ok (Some (match res with None => bm | Some r => bm_And r bm end)).

Definition ASTAnd_Evaluate (e : ASTAnd) q atBlockNumber : result Bitmap :=
  res ← foldM (ASTAnd_step q atBlockNumber) None (a_Terms e);
  Ok (default roaring_New res).

Definition ASTOr_Evaluate (e : ASTOr) q atBlockNumber : result Bitmap :=
  foldM (λ res t, bm ← ASTAnd_Evaluate t q atBlockNumber; Ok (bm_Or res bm)) roaring_New (o_Terms e).

Definition ASTExpr_Evaluate (e : ASTExpr) q atBlockNumber : result Bitmap :=
  ASTOr_Evaluate (x_Or e) q atBlockNumber.

Definition AST_Evaluate (t : AST) q atBlockNumber : result Bitmap :=
  match ast_Expr t with
  | None => q_AllEntities q atBlockNumber
  | Some e => ASTExpr_Evaluate e q atBlockNumber
  end.

End Evaluate.
