(* ===== verification/EvaluateProofs.v ===== *)
(** Evaluation of a normal form, proved against an interface of the bitmap
    index: what [StoreQuerier] promises (src/query/evaluate.go). *)
From S2P Require Export NormalizeProofs Evaluate ScanProofs.

(** ** The interface

    An index over entities that have annotation pairs: [has x l] says that the
    entity with ID [x] is live and has the pairs [l]; [dom] are the pairs the
    index may be asked for, and [scanned] the keys it may be scanned for. *)
Class IndexOk `{Roaring} {Q} `{!StoreQuerier Q} (q : Q) (atBlockNumber : N)
    (dom : annotPair → Prop) (scanned : bytes → Prop) (has : N → list annotPair → Prop) : Prop := {
  ix_fun x l l' : has x l → has x l' → l = l';
  ix_all : ∃ B, q_AllEntities q atBlockNumber = Ok B ∧ ∀ x, bm_Contains B x = true ↔ ∃ l, has x l;
  ix_read k v : dom (mkAnnotPair k v) → ∃ B, q_ReadAnnotBitmap q atBlockNumber k v = Ok B ∧
    ∀ x, bm_Contains B x = true ↔ ∃ l, has x l ∧ mkAnnotPair k v ∈ l;
  ix_numeric k lo hi x : scanned k → is_u64 lo → bm_Contains (q_IterateNumeric q k lo hi) x = true ↔
    ∃ v l, is_u64 v ∧ (lo ≤ v ≤ hi)%N ∧ has x l ∧ mkAnnotPair k (numericVal v) ∈ l;
  ix_string k lo loIncl hi hiIncl x : scanned k → bm_Contains (q_IterateString q k lo loIncl hi hiIncl) x = true ↔
    ∃ v l, v ≠ [] ∧ above lo loIncl v ∧ below hi hiIncl v ∧ has x l ∧ mkAnnotPair k v ∈ l;
  ix_prefix k p x : scanned k → bm_Contains (q_IteratePrefix q k p) x = true ↔
    ∃ v l, v ≠ [] ∧ p `prefix_of` v ∧ has x l ∧ mkAnnotPair k v ∈ l;
  ix_glob k p x : scanned k → bm_Contains (q_IterateGlob q k p) x = true ↔
    ∃ v l, v ≠ [] ∧ glob p v ∧ has x l ∧ mkAnnotPair k v ∈ l;
}.

(** ** The meaning of a term for an entity with the pairs [l] *)

Definition term_sem (l : list annotPair) (t : ASTTerm) : bool :=
  match t_Assign t with
  | Some e => xorb (eq_IsNot e) (match annotVal (eq_Value e) with Ok v => bool_decide (mkAnnotPair (eq_Var e) v ∈ l) | _ => false end) | None =>
  match t_Inclusion t with
  | Some e => xorb (in_IsNot e) (existsb (λ v, bool_decide (mkAnnotPair (in_Var e) v ∈ l)) (inclusionVals (in_Values e))) | None =>
  match t_LessThan t with Some e => value_sem l (lt_Var e) (lt_Value e) bytes_ltb N.ltb | None =>
  match t_LessOrEqualThan t with Some e => value_sem l (le_Var e) (le_Value e) bytes_leb N.leb | None =>
  match t_GreaterThan t with Some e => value_sem l (gt_Var e) (gt_Value e) (flip bytes_ltb) (flip N.ltb) | None =>
  match t_GreaterOrEqualThan t with Some e => value_sem l (ge_Var e) (ge_Value e) (flip bytes_leb) (flip N.leb) | None =>
  match t_Glob t with Some e => xorb (glob_IsNot e) (has_val l (glob_Var e) (str_val (globMatch (glob_Value e)))) | None => false
  end end end end end end end.

(** It is the meaning of the term for the comparisons of [Meaning]. *)
Lemma term_sem_means l t : term_sem l t = term_means (pair_atoms l) t.
Proof.
  unfold term_sem, term_means.
  destruct (t_Assign t) as [e|].
  { f_equal. cbn. unfold annotVal, literal_bytes. by destruct (eq_Value e) as [[s|] [n|] ]. }
  destruct (t_Inclusion t) as [e|].
  { f_equal. unfold inclusionVals, listed. destruct (in_Values e) as [[|s ss] ns]; cbn [vs_Strings vs_Numbers];
      rewrite !existsb_map; by apply existsb_ext_in. }
  destruct (t_LessThan t), (t_LessOrEqualThan t), (t_GreaterThan t), (t_GreaterOrEqualThan t); try reflexivity.
  destruct (t_Glob t) as [e|]; [|done]. f_equal. cbn. unfold has_val. apply existsb_ext_in. intros q _. unfold str_val.
  do 2 f_equal. apply eq_true_iff_eq. by rewrite bool_decide_eq_true, globMatch_glob.
Qed.

Lemma sem_AST_means l t : sem_AST (term_sem l) true t = sem_AST (term_means (pair_atoms l)) true t.
Proof.
  unfold sem_AST, sem_dnf. destruct (ast_Expr t); [|done]. apply existsb_ext_in. intros c _.
  apply forallb_ext_in. intros u _. apply term_sem_means.
Qed.

(** What evaluating a normalised query finds out about the pairs of an entity. *)
Lemma TopLevel_Normalize_pairs `{GoRuntime} t ast l : TopLevel_ok t = true → TopLevel_Normalize t = Ok ast →
  sem_AST (term_sem l) true ast = sem_top (pair_atoms l) true t.
Proof.
  intros Ht Hn. destruct (TopLevel_Normalize_ok (pair_atoms l) true t Ht) as (ast' & Hast' & <-).
  rewrite sem_AST_means. congruence.
Qed.

Section EvaluateProofs.
Context {HR : Roaring} {RO : RoaringOk} {Q : Type} `{!StoreQuerier Q} (q : Q) (n : N).
Context (dom : annotPair → Prop) (scanned : bytes → Prop) (has : N → list annotPair → Prop) `{!IndexOk q n dom scanned has}.

(** A value that is present, with numbers in range, on a variable that may be
    scanned. *)
Definition scan_ok (k : bytes) (v : Value) : Prop :=
  scanned k ∧ match v_String v with Some _ => True | None => match v_Number v with Some m => is_u64 m | None => False end end.

Definition term_ok (t : ASTTerm) : Prop :=
  match t_Assign t with
  | Some e => ∃ v, annotVal (eq_Value e) = Ok v ∧ dom (mkAnnotPair (eq_Var e) v) | None =>
  match t_Inclusion t with
  | Some e => Forall (λ v, dom (mkAnnotPair (in_Var e) v)) (inclusionVals (in_Values e)) | None =>
  match t_LessThan t with Some e => scan_ok (lt_Var e) (lt_Value e) | None =>
  match t_LessOrEqualThan t with Some e => scan_ok (le_Var e) (le_Value e) | None =>
  match t_GreaterThan t with Some e => scan_ok (gt_Var e) (gt_Value e) | None =>
  match t_GreaterOrEqualThan t with Some e => scan_ok (ge_Var e) (ge_Value e) | None =>
  match t_Glob t with Some e => scanned (glob_Var e) | None => False
  end end end end end end end.

Definition AST_ok (t : AST) : Prop :=
  match ast_Expr t with
  | Some x => Forall (λ c, a_Terms c ≠ [] ∧ Forall term_ok (a_Terms c)) (o_Terms (x_Or x))
  | None => True
  end.

(** A bitmap of the entities whose pairs satisfy a test. *)
Definition selects (B : Bitmap) (f : list annotPair → bool) : Prop :=
  ∀ x, bm_Contains B x = true ↔ ∃ l, has x l ∧ f l = true.

Lemma selects_ext B f g : (∀ l, f l = g l) → selects B f → selects B g.
Proof. intros Hfg HB x. rewrite (HB x). by setoid_rewrite Hfg. Qed.

Lemma selects_New f : (∀ l, f l = false) → selects roaring_New f.
Proof. intros Hf x. rewrite Contains_New. split; [done|]. intros (l & _ & H). by rewrite Hf in H. Qed.

Lemma selects_Or A B f g : selects A f → selects B g → selects (bm_Or A B) (λ l, f l || g l).
Proof.
  intros HA HB x. rewrite Contains_Or, orb_true_iff, (HA x), (HB x). split.
  - intros [(l & ? & Hf)|(l & ? & Hg)]; exists l; (split; [done|]); apply orb_true_iff; auto.
  - intros (l & ? & [?|?]%orb_true_iff); eauto.
Qed.

Lemma selects_And A B f g : selects A f → selects B g → selects (bm_And A B) (λ l, f l && g l).
Proof.
  intros HA HB x. rewrite Contains_And, andb_true_iff, (HA x), (HB x). split.
  - intros [(l & Hl & Hf) (l' & Hl' & Hg)]. pose proof (ix_fun _ _ _ Hl Hl') as <-. exists l. by rewrite Hf, Hg.
  - intros (l & ? & [? ?]%andb_true_iff). split; by exists l.
Qed.

Lemma subtractIf_ok b B f : selects B f → ∃ C, subtractIf b q n B = Ok C ∧ selects C (λ l, xorb b (f l)).
Proof.
  intros HB. unfold subtractIf. destruct b; [|exists B; split; [done|]; eapply selects_ext; [|exact HB]; intros l; by destruct (f l)].
  destruct ix_all as (A & -> & HA). cbn. eexists. split; [done|]. intros x.
  rewrite Contains_AndNot, andb_true_iff, negb_true_iff, (HA x), <-not_true_iff_false, (HB x). split.
  - intros [[l Hl] Hn]. exists l. split; [done|]. destruct (f l) eqn:E; [|done]. destruct Hn. eauto.
  - intros (l & Hl & Hf). split; [eauto|]. intros (l' & Hl' & Hf'). rewrite (ix_fun _ _ _ Hl Hl') in Hf. by rewrite Hf' in Hf.
Qed.

(** ** Scans *)

Lemma has_val_true l k f : has_val l k f = true ↔ ∃ v, f v = true ∧ mkAnnotPair k v ∈ l.
Proof.
  unfold has_val. rewrite existsb_exists. split.
  - intros ([k' v] & Hin%list_elem_of_In & [Hk%bool_decide_eq_true Hf]%andb_true_iff). simpl in *. subst. eauto.
  - intros (v & Hf & Hin). exists (mkAnnotPair k v). split; [by apply list_elem_of_In|]. simpl.
    by rewrite bool_decide_true.
Qed.

(** A scan whose hits are the values that satisfy a test. *)
Lemma selects_scan B k f (P : bytes → Prop) : (∀ v, f v = true ↔ P v) →
  (∀ x, bm_Contains B x = true ↔ ∃ v l, P v ∧ has x l ∧ mkAnnotPair k v ∈ l) → selects B (λ l, has_val l k f).
Proof.
  intros Hf HB x. rewrite HB. setoid_rewrite has_val_true. split.
  - intros (v & l & Hp & Hl & Hin). exists l. split; [done|]. exists v. by rewrite Hf.
  - intros (l & Hl & v & Hv & Hin). exists v, l. by rewrite <-Hf.
Qed.

Lemma selects_string k lo loIncl hi hiIncl f : scanned k →
  (∀ v, f v = true ↔ above lo loIncl v ∧ below hi hiIncl v) →
  selects (q_IterateString q k lo loIncl hi hiIncl) (λ l, has_val l k (str_val f)).
Proof.
  intros Hk Hf. apply (selects_scan _ _ _ (λ v, v ≠ [] ∧ above lo loIncl v ∧ below hi hiIncl v)).
  - intros v. unfold str_val. by rewrite andb_true_iff, negb_true_iff, bool_decide_eq_false, Hf.
  - intros x. rewrite ix_string by done. split; intros (v & l & H); exists v, l; tauto.
Qed.

Lemma selects_numeric k lo hi f : scanned k → is_u64 lo → (∀ v, is_u64 v → f v = true ↔ (lo ≤ v ≤ hi)%N) →
  selects (q_IterateNumeric q k lo hi) (λ l, has_val l k (num_val f)).
Proof.
  intros Hk Hlo Hf. apply (selects_scan _ _ _ (λ v, length v = 8%nat ∧ (lo ≤ be_decode v ≤ hi)%N)).
  - intros v. unfold num_val. rewrite andb_true_iff, Nat.eqb_eq. split; intros [Hl H]; (split; [done|]); apply Hf; try done;
      by apply be_decode_u64.
  - intros x. rewrite ix_numeric by done. split.
    + intros (v & l & Hu & Hr & H). exists (numericVal v), l. unfold numericVal in *. rewrite be_decode_PutUint64, PutUint64_length by done. done.
    + intros (v & l & [Hl Hr] & H). exists (be_decode v), l. split; [by apply be_decode_u64|]. unfold numericVal.
      by rewrite PutUint64_be_decode.
Qed.

Lemma numberOf_ok k v m : scan_ok k v → v_String v = None → v_Number v = Some m → numberOf v = Ok m ∧ is_u64 m.
Proof. intros [_ H] Hs Hm. rewrite Hs, Hm in H. unfold numberOf. by rewrite Hm. Qed.

Lemma bytes_leb_le a b : bytes_leb a b = true ↔ bytes_le a b.
Proof. unfold bytes_leb, bytes_le. destruct (bytes_compare a b); split; congruence. Qed.

(** The four comparisons share the split on the literal. *)
Lemma comparison_ok k v fs fn (r : result Bitmap) : scan_ok k v →
  (∀ s, v_String v = Some s → ∃ B, r = Ok B ∧ selects B (λ l, has_val l k (str_val (λ w, fs w s)))) →
  (∀ m, v_String v = None → v_Number v = Some m → is_u64 m → ∃ B, r = Ok B ∧ selects B (λ l, has_val l k (num_val (λ w, fn w m)))) →
  ∃ B, r = Ok B ∧ selects B (λ l, value_sem l k v fs fn).
Proof.
  intros [Hk Hv] Hs Hm. unfold value_sem. destruct (v_String v) as [s|]; [by apply Hs|].
  destruct (v_Number v) as [m|]; [by apply Hm|done].
Qed.

Lemma num_val_false l k m (f : N → N → bool) : (∀ w, is_u64 w → f w m = false) → has_val l k (num_val (λ w, f w m)) = false.
Proof.
  intros Hf. apply not_true_iff_false. rewrite has_val_true. intros (v & [Hl%Nat.eqb_eq Hv]%andb_true_iff & _).
  by rewrite Hf in Hv by (by apply be_decode_u64).
Qed.

Lemma LessThan_ok e : scan_ok (lt_Var e) (lt_Value e) →
  ∃ B, LessThan_Evaluate e q = Ok B ∧ selects B (λ l, value_sem l (lt_Var e) (lt_Value e) bytes_ltb N.ltb).
Proof.
  intros Hok. apply comparison_ok; [done|..]; unfold LessThan_Evaluate.
  - intros s ->. eexists. split; [done|]. apply selects_string; [apply Hok|]. intros v. cbn. rewrite bytes_ltb_lt. tauto.
  - intros m Hs Hm Hu. destruct (numberOf_ok _ _ _ Hok Hs Hm) as [-> _]. rewrite Hs. bind_step.
    destruct (N.eqb_spec m 0) as [->|Hz]; eexists; (split; [done|]).
    + apply selects_New. intros l. apply num_val_false. intros w _. apply N.ltb_ge. lia.
    + apply selects_numeric; [apply Hok|done|]. intros v _. rewrite N.ltb_lt. lia.
Qed.

Lemma LessOrEqualThan_ok e : scan_ok (le_Var e) (le_Value e) →
  ∃ B, LessOrEqualThan_Evaluate e q = Ok B ∧ selects B (λ l, value_sem l (le_Var e) (le_Value e) bytes_leb N.leb).
Proof.
  intros Hok. apply comparison_ok; [done|..]; unfold LessOrEqualThan_Evaluate.
  - intros s ->. eexists. split; [done|]. apply selects_string; [apply Hok|]. intros v. cbn. rewrite bytes_leb_le. tauto.
  - intros m Hs Hm Hu. destruct (numberOf_ok _ _ _ Hok Hs Hm) as [-> _]. rewrite Hs. bind_step.
    eexists. split; [done|]. apply selects_numeric; [apply Hok|done|]. intros v _. rewrite N.leb_le. lia.
Qed.

Lemma GreaterThan_ok e : scan_ok (gt_Var e) (gt_Value e) →
  ∃ B, GreaterThan_Evaluate e q = Ok B ∧ selects B (λ l, value_sem l (gt_Var e) (gt_Value e) (flip bytes_ltb) (flip N.ltb)).
Proof.
  intros Hok. apply comparison_ok; [done|..]; unfold GreaterThan_Evaluate.
  - intros s ->. eexists. split; [done|]. apply selects_string; [apply Hok|]. intros v. cbn. rewrite bytes_ltb_lt. tauto.
  - intros m Hs Hm Hu. destruct (numberOf_ok _ _ _ Hok Hs Hm) as [-> _]. rewrite Hs. bind_step.
    unfold is_u64 in *. destruct (N.eqb_spec m MaxUint64) as [->|Hz]; eexists; (split; [done|]).
    + apply selects_New. intros l. apply (num_val_false _ _ _ (flip N.ltb)). intros w Hw. apply N.ltb_ge. unfold MaxUint64, is_u64 in *. lia.
    + apply selects_numeric; [apply Hok|unfold is_u64, MaxUint64 in *; lia|]. intros v Hv. cbn. rewrite N.ltb_lt.
      unfold MaxUint64, is_u64 in *. lia.
Qed.

Lemma GreaterOrEqualThan_ok e : scan_ok (ge_Var e) (ge_Value e) →
  ∃ B, GreaterOrEqualThan_Evaluate e q = Ok B ∧ selects B (λ l, value_sem l (ge_Var e) (ge_Value e) (flip bytes_leb) (flip N.leb)).
Proof.
  intros Hok. apply comparison_ok; [done|..]; unfold GreaterOrEqualThan_Evaluate.
  - intros s ->. eexists. split; [done|]. apply selects_string; [apply Hok|]. intros v. cbn. rewrite bytes_leb_le. tauto.
  - intros m Hs Hm Hu. destruct (numberOf_ok _ _ _ Hok Hs Hm) as [-> _]. rewrite Hs. bind_step.
    eexists. split; [done|]. apply selects_numeric; [apply Hok|done|]. intros v Hv. cbn. rewrite N.leb_le.
    unfold MaxUint64, is_u64 in *. lia.
Qed.

(** ** Lookups and patterns *)

Lemma selects_read k v : dom (mkAnnotPair k v) →
  ∃ B, q_ReadAnnotBitmap q n k v = Ok B ∧ selects B (λ l, bool_decide (mkAnnotPair k v ∈ l)).
Proof.
  intros Hd. destruct (ix_read k v Hd) as (B & HB & Hx). exists B. split; [done|]. intros x. rewrite Hx.
  by setoid_rewrite bool_decide_eq_true.
Qed.

Lemma unionOf_ok k vals : Forall (λ v, dom (mkAnnotPair k v)) vals →
  ∃ B, unionOf q n k vals = Ok B ∧ selects B (λ l, existsb (λ v, bool_decide (mkAnnotPair k v ∈ l)) vals).
Proof.
  intros Hd. apply (foldM_total (λ done B, selects B (λ l, existsb (λ v, bool_decide (mkAnnotPair k v ∈ l)) done))).
  - by apply selects_New.
  - intros done v rest B -> HB. apply Forall_app in Hd as [_ [Hv _]%Forall_cons].
    destruct (selects_read k v Hv) as (C & -> & HC). cbn. eexists. split; [done|].
    eapply selects_ext; [|by eapply selects_Or]. intros l. rewrite existsb_app. cbn. by rewrite orb_false_r.
Qed.

Lemma GlobExpr_ok e : scanned (glob_Var e) →
  ∃ B, GlobExpr_Evaluate e q n = Ok B ∧ selects B (λ l, xorb (glob_IsNot e) (has_val l (glob_Var e) (str_val (globMatch (glob_Value e))))).
Proof.
  intros Hk. apply subtractIf_ok. apply (selects_scan _ _ _ (λ v, v ≠ [] ∧ glob (glob_Value e) v)).
  - intros v. unfold str_val. by rewrite andb_true_iff, negb_true_iff, bool_decide_eq_false, globMatch_glob.
  - intros x. destruct (isPrefixGlob (glob_Value e)) as [p|] eqn:Ep.
    + rewrite ix_prefix by done. split; intros (v & l & H); exists v, l; rewrite (isPrefixGlob_glob _ _ v Ep) in *; tauto.
    + rewrite ix_glob by done. split; intros (v & l & H); exists v, l; tauto.
Qed.

Lemma term_Evaluate_ok t : term_ok t → ∃ B, ASTTerm_Evaluate t q n = Ok B ∧ selects B (λ l, term_sem l t).
Proof.
  destruct t as [a i lt le gt ge g]. unfold term_ok, term_sem, ASTTerm_Evaluate. cbn [t_Assign t_Inclusion t_LessThan
    t_LessOrEqualThan t_GreaterThan t_GreaterOrEqualThan t_Glob].
  destruct a as [e|].
  { intros (v & Hv & Hd). unfold Equality_Evaluate. rewrite Hv. bind_step.
    destruct (selects_read _ _ Hd) as (B & -> & HB). bind_step. by apply subtractIf_ok. }
  destruct i as [e|].
  { intros Hd. unfold Inclusion_Evaluate. destruct (unionOf_ok _ _ Hd) as (B & -> & HB). bind_step. by apply subtractIf_ok. }
  destruct lt as [e|]; [apply LessThan_ok|]. destruct le as [e|]; [apply LessOrEqualThan_ok|].
  destruct gt as [e|]; [apply GreaterThan_ok|]. destruct ge as [e|]; [apply GreaterOrEqualThan_ok|].
  destruct g as [e|]; [apply GlobExpr_ok|done].
Qed.

(** ** The tree *)

Lemma ASTAnd_ok c : a_Terms c ≠ [] → Forall term_ok (a_Terms c) →
  ∃ B, ASTAnd_Evaluate c q n = Ok B ∧ selects B (λ l, forallb (term_sem l) (a_Terms c)).
Proof.
  intros Hne Hok. unfold ASTAnd_Evaluate.
  destruct (foldM_total (λ done res, match res with
      | None => done = []
      | Some B => selects B (λ l, forallb (term_sem l) done) end)
    (ASTAnd_step q n) None (a_Terms c)) as (res & -> & HP); [done| |].
  - intros done t rest res Et HP. rewrite Et in Hok. apply Forall_app in Hok as [_ [Ht _]%Forall_cons].
    destruct (term_Evaluate_ok t Ht) as (B & HB & HsB). unfold ASTAnd_step. rewrite HB. bind_step.
    eexists. split; [done|]. cbn. destruct res as [A|].
    + eapply selects_ext; [|by apply selects_And]. intros l. rewrite forallb_app. cbn. by rewrite andb_true_r.
    + subst done. cbn. eapply selects_ext; [|exact HsB]. intros l. by rewrite andb_true_r.
  - cbn. eexists. split; [done|]. by destruct res.
Qed.

Lemma AST_Evaluate_ok t : AST_ok t → ∃ B, AST_Evaluate t q n = Ok B ∧ selects B (λ l, sem_AST (term_sem l) true t).
Proof.
  unfold AST_ok, AST_Evaluate, sem_AST. destruct (ast_Expr t) as [[[cs]]|].
  - intros Hok. unfold ASTExpr_Evaluate, ASTOr_Evaluate, sem_dnf. cbn [x_Or o_Terms] in *.
    apply (foldM_total (λ done B, selects B (λ l, existsb (λ c, forallb (term_sem l) (a_Terms c)) done))).
    + by apply selects_New.
    + intros done c rest B -> HB. apply Forall_app in Hok as [_ [[Hne Hc] _]%Forall_cons].
      destruct (ASTAnd_ok c Hne Hc) as (C & -> & HC). cbn. eexists. split; [done|].
      eapply selects_ext; [|by eapply selects_Or]. intros l. rewrite existsb_app. cbn. by rewrite orb_false_r.
  - intros _. destruct ix_all as (B & HB & Hx). exists B. split; [done|]. intros x. rewrite Hx.
    split; [intros [l Hl]; by exists l|]. intros (l & Hl & _). by exists l.
Qed.

End EvaluateProofs.
