(* ===== verification/QueryLeaves.v ===== *)
(** The terms of a normal form come from the leaves of the query: what holds of
    every leaf, and is kept by negating a leaf, holds of every term
    (src/query/normalize.go). *)
From S2P Require Export EvaluateProofs.

(** A tree all of whose leaves satisfy a proposition. *)
Section Every.
Variable P : EqualExpr → Prop.

Definition every {A} (f : A → Prop) : list A → Prop :=
  fix go l := match l with [] => True | x :: l => f x ∧ go l end.

Fixpoint EqualExpr_every (e : EqualExpr) : Prop :=
  match e with
  | mkEqualExpr (Some p) _ _ _ _ _ _ _ => Paren_every p
  | _ => P e
  end
with AndRHS_every (e : AndRHS) : Prop := let 'mkAndRHS x := e in EqualExpr_every x
with AndExpression_every (e : AndExpression) : Prop :=
  let 'mkAndExpression l r := e in EqualExpr_every l ∧ every AndRHS_every r
with OrRHS_every (e : OrRHS) : Prop := let 'mkOrRHS x := e in AndExpression_every x
with OrExpression_every (e : OrExpression) : Prop :=
  let 'mkOrExpression l r := e in AndExpression_every l ∧ every OrRHS_every r
with Expression_every (e : Expression) : Prop := let 'mkExpression o := e in OrExpression_every o
with Paren_every (p : Paren) : Prop := let 'mkParen _ n := p in Expression_every n.

Definition TopLevel_every (t : TopLevel) : Prop :=
  match top_Expression t with Some e => Expression_every e | None => True end.

Lemma every_Forall {A} (f : A → Prop) l : every f l ↔ Forall f l.
Proof. induction l as [|x l IH]; cbn; [by split|]. by rewrite Forall_cons, IH. Qed.

Lemma AndExpression_every_operands c : AndExpression_every c ↔ Forall EqualExpr_every (and_operands c).
Proof.
  destruct c as [l r]. unfold and_operands. cbn [and_Left and_Right]. rewrite Forall_cons, Forall_map.
  change (AndExpression_every (mkAndExpression l r)) with (EqualExpr_every l ∧ every AndRHS_every r).
  rewrite every_Forall. apply and_iff_compat_l. apply Forall_iff. by intros [x].
Qed.

Lemma OrExpression_every_operands o : OrExpression_every o ↔ Forall AndExpression_every (or_operands o).
Proof.
  destruct o as [l r]. unfold or_operands. cbn [or_Left or_Right]. rewrite Forall_cons, Forall_map.
  change (OrExpression_every (mkOrExpression l r)) with (AndExpression_every l ∧ every OrRHS_every r).
  rewrite every_Forall. apply and_iff_compat_l. apply Forall_iff. by intros [x].
Qed.

Lemma leaf_every x : eqe_Paren x = None → EqualExpr_every x ↔ P x.
Proof. by destruct x as [[p|] ? ? ? ? ? ? ?]. Qed.
End Every.

Lemma mapM_result_Forall {A B} (P : A → Prop) (Q : B → Prop) (f : A → result B) l l' :
  (∀ x y, P x → f x = Ok y → Q y) → Forall P l → mapM_result f l = Ok l' → Forall Q l'.
Proof.
  intros Hf Hl. revert l'. induction Hl as [|x l Hx _ IH]; intros l'; cbn; [by intros [= <-]|].
  intros (y & Hy & H)%bind_Ok. apply bind_Ok in H as (ys & Hys & [= <-]). constructor; eauto.
Qed.

Section Leaves.
Context `{GoRuntime}.
(** A property of leaves that negation keeps, and what it says of the term. *)
Variable P : EqualExpr → Prop.
Variable T : ASTTerm → Prop.
Hypothesis P_invert : ∀ x y, eqe_Paren x = None → P x → EqualExpr_invert x = Ok y → eqe_Paren y = None ∧ P y.
Hypothesis P_term : ∀ x t, P x → EqualExpr_Normalize x = Ok t → T t.

(** ** Inversion *)

Lemma EqualExpr_invert_every x y : EqualExpr_every P x → EqualExpr_invert x = Ok y → EqualExpr_every P y.
Proof.
  intros Hx Hy. destruct (eqe_Paren x) as [p|] eqn:Ep.
  - destruct x as [[p'|] ? ? ? ? ? ? ?]; [|done]. injection Hy as <-. by destruct p'.
  - apply (leaf_every P) in Hx; [|done]. destruct (P_invert _ _ Ep Hx Hy). by apply leaf_every.
Qed.

Lemma AndExpression_invert_every c o : AndExpression_every P c → AndExpression_invert c = Ok o → OrExpression_every P o.
Proof.
  destruct c as [l r]. intros Hc%AndExpression_every_operands. unfold and_operands in Hc. cbn [and_Left and_Right] in Hc.
  apply Forall_cons in Hc as [Hl Hr]. rewrite Forall_map in Hr. unfold AndExpression_invert. cbn [and_Left and_Right].
  intros (l' & Hl' & Ho)%bind_Ok. apply bind_Ok in Ho as (r' & Hr' & [= <-]).
  apply OrExpression_every_operands. unfold or_operands. cbn [or_Left or_Right]. constructor.
  - apply AndExpression_every_operands, Forall_singleton. by eapply EqualExpr_invert_every.
  - apply Forall_map. eapply (mapM_result_Forall _ _ AndRHS_invert); [|exact Hr|exact Hr'].
    intros [x] y Hx. unfold AndRHS_invert. intros (z & Hz & [= <-])%bind_Ok.
    split; [by eapply EqualExpr_invert_every|done].
Qed.

Lemma wrap_inverted_every c q : AndExpression_every P c → wrap_inverted c = Ok q → EqualExpr_every P q.
Proof. intros Hc. unfold wrap_inverted. intros (o & Ho & [= <-])%bind_Ok. by eapply (AndExpression_invert_every c). Qed.

Lemma OrExpression_invert_every o c : OrExpression_every P o → OrExpression_invert o = Ok c → AndExpression_every P c.
Proof.
  destruct o as [l r]. intros Hc%OrExpression_every_operands. unfold or_operands in Hc. cbn [or_Left or_Right] in Hc.
  apply Forall_cons in Hc as [Hl Hr]. rewrite Forall_map in Hr. unfold OrExpression_invert. cbn [or_Left or_Right].
  intros (l' & Hl' & Ho)%bind_Ok. apply bind_Ok in Ho as (r' & Hr' & [= <-]).
  apply AndExpression_every_operands. unfold and_operands. cbn [and_Left and_Right]. constructor; [by eapply wrap_inverted_every|].
  apply Forall_map. eapply (mapM_result_Forall _ _ OrRHS_invert); [|exact Hr|exact Hr'].
  intros [x] y Hx. unfold OrRHS_invert. intros (z & Hz & [= <-])%bind_Ok.
    change (EqualExpr_every P z). eapply wrap_inverted_every; [exact Hx|exact Hz].
Qed.

Lemma Expression_invert_every e e' : Expression_every P e → Expression_invert e = Ok e' → Expression_every P e'.
Proof.
  destruct e as [o]. intros He. unfold Expression_invert. intros (c & Hc & He')%bind_Ok.
  apply (OrExpression_invert_every o) in Hc; [|done]. destruct (and_Right c) as [|y r] eqn:Er.
  - destruct c as [l r]. cbn in Er, He'. subst r. destruct Hc as [Hc _].
    destruct l as [[p|] ? ? ? ? ? ? ?]; cbn in He'; [|done]. injection He' as <-. by destruct p.
  - injection He' as <-. by split.
Qed.

(** ** Normal forms *)

Definition clause_ok (c : list ASTTerm) : Prop := c ≠ [] ∧ Forall T c.
Definition dnf_ok (o : ASTOr) : Prop := Forall (λ c, clause_ok (a_Terms c)) (o_Terms o).

Lemma distribute_ok ast disj : Forall (λ c, clause_ok (a_Terms c) ∨ a_Terms c = []) ast → Forall clause_ok disj →
  Forall (λ c, clause_ok (a_Terms c)) (distribute ast disj).
Proof.
  intros Ha Hd. unfold distribute. apply Forall_forall. intros c Hc. apply list_elem_of_In, in_flat_map in Hc as (a & Hin & Hc).
  apply in_map_iff in Hc as (t & <- & Ht). apply list_elem_of_In in Hin, Ht. rewrite Forall_forall in Ha. rewrite Forall_forall in Hd.
  destruct (Hd t Ht) as [Hne Hts]. cbn [a_Terms]. split; [by destruct (a_Terms a)|]. apply Forall_app. split; [|done].
  destruct (Ha a Hin) as [[_ ?]| ->]; [done|constructor].
Qed.

Lemma cross_product_ok terms : terms ≠ [] → Forall (Forall clause_ok) terms →
  Forall (λ c, clause_ok (a_Terms c)) (cross_product terms).
Proof.
  intros Hne Ht. destruct Ht as [|d ds Hd Hds]; [done|]. unfold cross_product. cbn [foldl].
  assert (Forall (λ c, clause_ok (a_Terms c)) (distribute [mkASTAnd []] d)) as Hacc.
  { apply distribute_ok; [|done]. apply Forall_singleton. by right. }
  revert Hacc. generalize (distribute [mkASTAnd []] d). clear Hne Hd d.
  induction Hds as [|d ds Hd _ IH]; intros acc Hacc; cbn [foldl]; [done|].
  apply IH, distribute_ok; [|done]. eapply Forall_impl; [exact Hacc|]. intros c. by left.
Qed.

Lemma Expression_Normalize_every PN e x :
  (∀ p r, Paren_every P p → PN p = Ok r → dnf_ok (x_Or r)) → Expression_every P e →
  Expression_Normalize PN e = Ok x → dnf_ok (x_Or x).
Proof.
  intros HPN He. unfold Expression_Normalize, OrExpression_Normalize. intros (o & Ho & [= <-])%bind_Ok.
  apply bind_Ok in Ho as (tss & Hts & [= <-]). cbn [x_Or]. unfold dnf_ok. cbn [o_Terms]. destruct e as [o]. cbn [e_Or] in Hts.
  apply OrExpression_every_operands in He. apply Forall_concat.
  eapply (mapM_result_Forall _ _ (AndExpression_Normalize PN)); [|exact He|exact Hts].
  intros c ts Hc. unfold AndExpression_Normalize. intros (terms & Hterms & [= <-])%bind_Ok.
  apply AndExpression_every_operands in Hc. apply cross_product_ok.
  - intros ->. unfold and_operands in Hterms. cbn in Hterms. apply bind_Ok in Hterms as (? & _ & Hterms).
    by apply bind_Ok in Hterms as (? & _ & [=]).
  - eapply (mapM_result_Forall _ _ (convertToTerms PN)); [|exact Hc|exact Hterms]. intros y ts' Hy. unfold convertToTerms.
    destruct (eqe_Paren y) as [p|] eqn:Ep.
    + intros (r & Hr & [= <-])%bind_Ok. apply Forall_map. eapply HPN; [|exact Hr]. destruct y as [[p'|] ? ? ? ? ? ? ?]; [|done].
      by injection Ep as <-.
    + intros (t & Ht & [= <-])%bind_Ok. apply Forall_singleton. split; [done|]. apply Forall_singleton.
      eapply P_term; [|exact Ht]. by apply (leaf_every P).
Qed.

Lemma Paren_Normalize_every fuel p x : Paren_every P p → Paren_Normalize fuel p = Ok x → dnf_ok (x_Or x).
Proof.
  revert p x. induction fuel as [|fuel IH]; intros [b n] x Hp; cbn; [done|]. intros (n' & Hn & Hx)%bind_Ok.
  eapply Expression_Normalize_every; [exact IH| |exact Hx]. destruct b; [by eapply Expression_invert_every|].
  by injection Hn as <-.
Qed.

Lemma TopLevel_Normalize_every t ast : TopLevel_every P t → TopLevel_Normalize t = Ok ast →
  match ast_Expr ast with Some x => dnf_ok (x_Or x) | None => True end.
Proof.
  unfold TopLevel_every, TopLevel_Normalize. destruct (top_Expression t) as [e|]; [|by intros _ [= <-]].
  intros He (x & Hx & [= <-])%bind_Ok. cbn. eapply Expression_Normalize_every; [|exact He|exact Hx].
  intros p r. apply Paren_Normalize_every.
Qed.
End Leaves.

(** ** Leaves that the index can answer *)

Section Ready.
Context `{GoRuntime} (dom : annotPair → Prop) (scanned : bytes → Prop).

(** A leaf whose term, once normalised, asks for pairs and keys in the domain
    of the index. *)
Definition leaf_ready (e : EqualExpr) : Prop := ∀ t, EqualExpr_Normalize e = Ok t → term_ok dom scanned t.

Lemma leaf_ready_invert x y : eqe_Paren x = None → leaf_ready x → EqualExpr_invert x = Ok y →
  eqe_Paren y = None ∧ leaf_ready y.
Proof.
  destruct x as [p a i lt le gt ge g]. cbn [eqe_Paren]. intros ->. unfold leaf_ready. cbn [EqualExpr_invert EqualExpr_Normalize].
  unfold LessThan_Normalize, LessOrEqualThan_Normalize, GreaterThan_Normalize, GreaterOrEqualThan_Normalize, Equality_Normalize, Inclusion_Normalize.
  destruct lt as [[v w]|], le as [[v1 w1]|], gt as [[v2 w2]|], ge as [[v3 w3]|], g as [[v4 b4 w4]|], a as [[v5 b5 w5]|], i as [[v6 b6 w6]|];
    try done; intros Hr [= <-]; split; try done; intros t; cbn [ge_expr gt_expr le_expr lt_expr glob_expr assign_expr inclusion_expr
      EqualExpr_Normalize GlobExpr_Normalize LessThan_invert LessOrEqualThan_invert GreaterThan_invert GreaterOrEqualThan_invert];
    unfold LessThan_Normalize, LessOrEqualThan_Normalize, GreaterThan_Normalize, GreaterOrEqualThan_Normalize, Equality_Normalize, Inclusion_Normalize, Equality_invert, Inclusion_invert;
    cbn [lt_Var lt_Value le_Var le_Value gt_Var gt_Value ge_Var ge_Value eq_Var eq_IsNot eq_Value in_Var in_IsNot in_Values] in *;
    first [ destruct (lowerValue _ _) as [z| |]; cbn [mbind result_bind] in *; [|done..] | destruct (address_var _) | idtac ];
    intros [= <-]; exact (Hr _ eq_refl).
Qed.

Lemma AST_ready t ast : TopLevel_every leaf_ready t → TopLevel_Normalize t = Ok ast → AST_ok dom scanned ast.
Proof.
  intros Ht Hn. pose proof (TopLevel_Normalize_every leaf_ready (term_ok dom scanned) leaf_ready_invert
    (λ x t Hx Hxt, Hx t Hxt) t ast Ht Hn) as H1. exact H1.
Qed.
End Ready.
