(* ===== verification/StoreIndex.v ===== *)
(** The store discharges the interface of the query evaluator, for every query
    at its head and for point queries at its earlier blocks, and a query means
    what it says there. *)
From S2P Require Export QueryLeaves RevertProofs.

Section StoreIndex.
Context {E : Env} {EO : EnvOk} {CF : CollisionFree}.

Lemma all_elem e : mkAnnotPair (str "$all") (str "true") ∈ allAnnotations e.
Proof. unfold allAnnotations. apply elem_of_app. left. apply elem_of_cons. by left. Qed.

Lemma AllEntities_ok σ n st : state_at σ n st → tracked (mkAnnotPair (str "$all") (str "true")) →
  ∃ B, AllEntities σ n = Ok B ∧ ∀ x, bm_Contains B x = true ↔ live_id st x.
Proof.
  intros S Ht. destruct (ReadAnnotBitmap_ok _ _ _ _ S Ht) as (B & HB & Hx). exists B. split; [exact HB|].
  intros x. rewrite (Hx x). split; [intros (a & e & Ha & _); by exists a, e|]. intros (a & e & Ha).
  exists a, e. split; [done|apply all_elem].
Qed.

(** The pairs of the entity with an ID. *)
Definition store_has (st : AbsState) (x : N) (l : list annotPair) : Prop :=
  ∃ a e, abs_ents st !! a = Some (x, e) ∧ l = allAnnotations e.

Lemma indexed_has st p x : indexed st p x ↔ ∃ l, store_has st x l ∧ p ∈ l.
Proof.
  split.
  - intros (a & e & Ha & Hp). exists (allAnnotations e). split; [by exists a, e|done].
  - intros (l & (a & e & Ha & ->) & Hp). by exists a, e.
Qed.

(** What a block can be scanned for: the range, prefix and pattern scans read the
    head index whatever the block, so only block 0, the head, is served. *)
Definition scannable (n : N) (k : bytes) : Prop := n = 0%N ∧ x00 ∉ k.

Lemma state_at_wf σ n st : state_at σ n st → abs_wf st.
Proof. intros (s & _ & Sn). apply Sn. Qed.

(** A block that can be queried: its state opens, and the ID mappings of its
    entities are cached; iterators do not fail. *)
Record readable (σ : Store) (n : N) (st : AbsState) : Prop := {
  rb_state : state_at σ n st;
  rb_head : n = 0%N → head_repr σ st;
  rb_ids a id e : abs_ents st !! a = Some (id, e) → store_reader σ (idKey id) = Some (array_bytes a);
  rb_iter p s : (kv_NewIterator (rawDB σ) p s).2 = None;
}.

Lemma readable_head σ st : head_repr σ st → (∀ p s, (kv_NewIterator (rawDB σ) p s).2 = None) → readable σ 0 st.
Proof. intros R Herr. split; [by apply state_at_head|done| |done]. intros a id e. destruct R as [_ (s & _ & _ & P)]. apply P. Qed.

(** An earlier block stays readable as long as its state opens and its IDs are
    cached. *)
Lemma readable_cached σ n st : n ≠ 0%N → state_at σ n st → caches_cover (store_reader σ) st →
  (∀ p s, (kv_NewIterator (rawDB σ) p s).2 = None) → readable σ n st.
Proof. intros Hn S C Herr. split; [done|done|apply C|done]. Qed.

Lemma readable_ID σ n st a id e : readable σ n st → abs_ents st !! a = Some (id, e) → IDToAddress σ id = Some a.
Proof.
  intros R Ha. unfold IDToAddress. apply (rb_ids _ _ _ R), kv_Get_lookup in Ha as ->. cbn.
  rewrite array_length. cbn. by rewrite BytesToAddress_bytes.
Qed.

(** The store discharges the interface of the evaluator. *)
Lemma state_index_ok σ n st : state_at σ n st → (n = 0%N → head_repr σ st) →
  (∀ p s, (kv_NewIterator (rawDB σ) p s).2 = None) →
  tracked (mkAnnotPair (str "$all") (str "true")) → IndexOk σ n tracked (scannable n) (store_has st).
Proof.
  intros S R Herr Hall. pose proof (state_at_wf _ _ _ S) as W. split.
  - intros x l l' (a & e & Ha & ->) (a' & e' & Ha' & ->). pose proof (wf_inj _ W _ _ _ _ _ Ha Ha') as <-. congruence.
  - destruct (AllEntities_ok _ _ _ S Hall) as (B & HB & Hx). exists B. split; [exact HB|]. intros x. rewrite Hx. split.
    + intros (a & e & Ha). exists (allAnnotations e). by exists a, e.
    + intros (l & a & e & Ha & _). by exists a, e.
  - intros k v Ht. destruct (ReadAnnotBitmap_ok _ _ _ _ S Ht) as (B & HB & Hx). exists B. split; [exact HB|].
    intros x. rewrite (Hx x). apply indexed_has.
  - intros k lo hi x [Hn Hk] Hlo. cbn. rewrite (IterateNumeric_ok _ st) by auto. setoid_rewrite indexed_has. split; [intros (v & ? & ? & l & ? & ?)|intros (v & l & ? & ? & ? & ?)]; eauto 8.
  - intros k lo li hi hi' x [Hn Hk]. cbn. rewrite (IterateString_ok _ st) by auto. setoid_rewrite indexed_has. split; [intros (v & ? & ? & ? & l & ? & ?)|intros (v & l & ? & ? & ? & ?)]; eauto 10.
  - intros k p x [Hn Hk]. cbn. rewrite (IteratePrefix_ok _ st) by auto. setoid_rewrite indexed_has. split; [intros (v & ? & ? & l & ? & ?)|intros (v & l & ? & ? & ? & ?)]; eauto 8.
  - intros k p x [Hn Hk]. cbn. rewrite (IterateGlob_ok _ st) by auto. setoid_rewrite indexed_has. split; [intros (v & ? & ? & l & ? & ?)|intros (v & l & ? & ? & ? & ?)]; eauto 8.
Qed.

Lemma store_index_ok σ n st : readable σ n st →
  tracked (mkAnnotPair (str "$all") (str "true")) → IndexOk σ n tracked (scannable n) (store_has st).
Proof. intros [S R _ Herr]. by apply state_index_ok. Qed.

(** From the parse tree to the bitmap, on any index that serves the pairs of the
    live entities. *)
Lemma index_query_ok `{!StoreQuerier Q} (q : Q) n st t :
  IndexOk q n tracked (scannable n) (store_has st) →
  TopLevel_ok t = true → TopLevel_every (leaf_ready tracked (scannable n)) t →
  ∃ ast B, TopLevel_Normalize t = Ok ast ∧ AST_Evaluate ast q n = Ok B ∧
    ∀ x, bm_Contains B x = true ↔
      ∃ a e, abs_ents st !! a = Some (x, e) ∧ satisfies e t.
Proof.
  intros HI Ht Hready. destruct (TopLevel_Normalize_Ok t Ht) as (ast & Hn). exists ast.
  destruct (AST_Evaluate_ok q n tracked (scannable n) (store_has st) ast (AST_ready _ _ _ _ Hready Hn)) as (B & HB & Hx).
  exists B. split; [done|]. split; [done|].
  intros x. rewrite (Hx x). pose proof (λ l, TopLevel_Normalize_pairs t ast l Ht Hn) as Hsem. unfold satisfies. split.
  - intros (l & (a & e & Ha & ->) & H). exists a, e. by rewrite <-allAnnotations_pairs, <-Hsem.
  - intros (a & e & Ha & H). exists (allAnnotations e). rewrite Hsem, allAnnotations_pairs. split; [by exists a, e|done].
Qed.

Lemma query_ok σ n st t :
  readable σ n st → tracked (mkAnnotPair (str "$all") (str "true")) →
  TopLevel_ok t = true → TopLevel_every (leaf_ready tracked (scannable n)) t →
  ∃ ast B, TopLevel_Normalize t = Ok ast ∧ AST_Evaluate ast σ n = Ok B ∧
    ∀ x, bm_Contains B x = true ↔
      ∃ a e, abs_ents st !! a = Some (x, e) ∧ satisfies e t.
Proof. intros R Hall. by apply index_query_ok, store_index_ok. Qed.

End StoreIndex.
