(* ===== verification/Server.v ===== *)
(** The query server (src/query/server.go): options, pagination, and the
    projection of entities to responses.

    JSON encoding is Go's: a response holds the [EntityData] values themselves,
    not their bytes ([json.Marshal] of an [EntityData] does not fail).  The
    participle parser and [hexutil]'s codec of cursors are parameters. *)
From S2P Require Export Evaluate.

Definition queryResultCountLimit : N := 200.

Record IncludeData := mkIncludeData {
  inc_Key : bool;
  inc_Attributes : bool;
  inc_SyntheticAttributes : bool;
  inc_Payload : bool;
  inc_ContentType : bool;
  inc_Expiration : bool;
  inc_Owner : bool;
  inc_Creator : bool;
  inc_CreatedAtBlock : bool;
  inc_LastModifiedAtBlock : bool;
  inc_TransactionIndexInBlock : bool;
  inc_OperationIndexInTransaction : bool;
}.

Record Options := mkOptions {
  opt_AtBlock : option N;
  opt_IncludeData : option IncludeData;
  opt_ResultsPerPage : option N;
  opt_Cursor : bytes;
}.

(** The receiver may be a nil pointer. *)
Definition getResultsPerPage (o : option Options) : N :=
  match o with
  | None => queryResultCountLimit
  | Some o =>
      match opt_ResultsPerPage o with
      | None => queryResultCountLimit
      | Some n => if (queryResultCountLimit <? n)%N then queryResultCountLimit else n
      end
  end.

Definition defaultIncludeData : IncludeData := {|
  inc_Key := true; inc_ContentType := true; inc_Payload := true; inc_Owner := true;
  inc_Creator := true; inc_Attributes := true; inc_Expiration := true;
  inc_CreatedAtBlock := true; inc_LastModifiedAtBlock := true;
  inc_SyntheticAttributes := false; inc_TransactionIndexInBlock := false;
  inc_OperationIndexInTransaction := false |}.

Definition getIncludeData (o : option Options) : IncludeData :=
  match o with
  | None => defaultIncludeData
  | Some o => default defaultIncludeData (opt_IncludeData o)
  end.

(** [hexutil.EncodeUint64] and [hexutil.DecodeUint64]. *)
Class Hexutil := {
  hexutil_EncodeUint64 : N → bytes;
  hexutil_DecodeUint64 : bytes → result N;
}.
Class HexutilOk `{Hexutil} : Prop := {
  hexutil_roundtrip n : is_u64 n → hexutil_DecodeUint64 (hexutil_EncodeUint64 n) = Ok n;
  hexutil_nonempty n : hexutil_EncodeUint64 n ≠ [];
}.

Definition getCursor `{Hexutil} (o : option Options) : result (option N) :=
  match o with
  | None => Ok None
  | Some o =>
      match opt_Cursor o with
      | [] => Ok None
      | c => v ← wrap "error decoding cursor" (hexutil_DecodeUint64 c); Ok (Some v)
      end
  end.

Record QueryAttribute (T : Type) := mkQueryAttribute { qa_Key : bytes; qa_Value : T }.
Arguments mkQueryAttribute {_} _ _.
Arguments qa_Key {_} _.
Arguments qa_Value {_} _.

Record EntityData := mkEntityData {
  ed_Key : option Hash;
  ed_Value : bytes;
  ed_ContentType : option bytes;
  ed_ExpiresAt : option N;
  ed_Owner : option Address;
  ed_Creator : option Address;
  ed_CreatedAtBlock : option N;
  ed_LastModifiedAtBlock : option N;
  ed_TransactionIndexInBlock : option N;
  ed_OperationIndexInTransaction : option N;
  ed_StringAttributes : list (QueryAttribute bytes);
  ed_NumericAttributes : list (QueryAttribute N);
}.

Record QueryResponse := mkQueryResponse {
  qr_Data : list EntityData;
  qr_BlockNumber : N;
  qr_Cursor : option bytes;
}.

Definition syntheticAnnot (key : bytes) : bool := HasPrefix key (str "$").
Definition userAnnot (key : bytes) : bool := negb (HasPrefix key (str "$")).
Definition anyAnnot (key : bytes) : bool := true.

(** [slices.SortFunc] by key.  It promises a sorted permutation and nothing of
    the order of equal keys: the model fixes a merge sort, and the theorems use
    sortedness and permutation only. *)
Definition attr_le {T} (a b : QueryAttribute T) : Prop := bytes_le (qa_Key a) (qa_Key b).
#[export] Instance attr_le_dec {T} : RelDecision (@attr_le T).
Proof. intros a b. unfold attr_le. apply _. Defined.

Section Attrs.
Context `{EthCommon}.

Definition stringAttrs (e : Entity) (keep : bytes → bool) : list (QueryAttribute bytes) :=
  map (λ a, mkQueryAttribute (sa_Key a) (sa_Value a)) (filter (λ a, keep (sa_Key a) = true) (StringAnnotations e)) ++
  (if keep (str "$owner") then [mkQueryAttribute (str "$owner") (Address_Hex (Owner e))] else []) ++
  (if keep (str "$creator") then [mkQueryAttribute (str "$creator") (Address_Hex (Creator e))] else []) ++
  (if keep (str "$key") then [mkQueryAttribute (str "$key") (Hash_Hex (Key e))] else []) ++
  (if keep (str "$contentType") && negb (bool_decide (ContentType e = []))
   then [mkQueryAttribute (str "$contentType") (ContentType e)] else []).

Definition numericAttrs (e : Entity) (keep : bytes → bool) : list (QueryAttribute N) :=
  map (λ a, mkQueryAttribute (na_Key a) (na_Value a)) (filter (λ a, keep (na_Key a) = true) (NumericAnnotations e)) ++
  (if keep (str "$expiration") then [mkQueryAttribute (str "$expiration") (ExpiresAt e)] else []) ++
  (if keep (str "$createdAtBlock") then [mkQueryAttribute (str "$createdAtBlock") (CreatedAtBlock e)] else []).

Definition sortedStringAttrs (e : Entity) (keep : bytes → bool) : list (QueryAttribute bytes) :=
  merge_sort attr_le (stringAttrs e keep).
Definition sortedNumericAttrs (e : Entity) (keep : bytes → bool) : list (QueryAttribute N) :=
  merge_sort attr_le (numericAttrs e keep).

(** The switch that picks the annotations to return. *)
Definition keptAnnot (inc : IncludeData) : option (bytes → bool) :=
  if inc_Attributes inc && inc_SyntheticAttributes inc then Some anyAnnot
  else if inc_Attributes inc then Some userAnnot
  else if inc_SyntheticAttributes inc then Some syntheticAnnot
  else None.

Definition when {A} (b : bool) (a : A) : option A := if b then Some a else None.

Definition entityData (e : Entity) (inc : IncludeData) : EntityData := {|
  ed_Key := when (inc_Key inc) (Key e);
  ed_Value := if inc_Payload inc then Payload e else [];
  ed_ContentType := when (inc_ContentType inc) (ContentType e);
  ed_ExpiresAt := when (inc_Expiration inc) (ExpiresAt e);
  ed_Owner := when (inc_Owner inc) (Owner e);
  ed_Creator := when (inc_Creator inc) (Creator e);
  ed_CreatedAtBlock := when (inc_CreatedAtBlock inc) (CreatedAtBlock e);
  ed_LastModifiedAtBlock := when (inc_LastModifiedAtBlock inc) (LastModifiedAtBlock e);
  ed_TransactionIndexInBlock := when (inc_TransactionIndexInBlock inc) (TransactionIndexInBlock e);
  ed_OperationIndexInTransaction := when (inc_OperationIndexInTransaction inc) (OperationIndexInTransaction e);
  ed_StringAttributes := match keptAnnot inc with Some keep => sortedStringAttrs e keep | None => [] end;
  ed_NumericAttributes := match keptAnnot inc with Some keep => sortedNumericAttrs e keep | None => [] end |}.
End Attrs.

(** ** The backend interface and the handler *)

Class Backend `{Roaring} (B : Type) := {
  backend_querier :: StoreQuerier B;
  b_HeadNumber : B → N;
  b_IDToAddress : B → N → option Address;
  b_GetEntityBytes : B → N → Address → result bytes;
}.

#[export] Instance store_backend `{E : Env} : Backend Store := {
  b_HeadNumber := HeadNumber;
  b_IDToAddress := IDToAddress;
  b_GetEntityBytes := GetEntityBytes;
}.

Section Handler.
Context `{E : Env} `{Hexutil} {B : Type} `{!Backend B}.
Variable ParseString : bytes → result TopLevel.

(** [Parse] of language.go: the generated parser, then the normaliser. *)
Definition Parse (s : bytes) : result AST :=
  v ← ParseString s; TopLevel_Normalize v.

Definition atBlockOf (options : option Options) : N :=
  match options with None => 0 | Some o => default 0%N (opt_AtBlock o) end.

Definition fetchEntityData (backend : B) (atBlockNumber : N) (addr : Address) (inc : IncludeData) : result EntityData :=
  data ← b_GetEntityBytes backend atBlockNumber addr;
  e ← wrap "decode entity" (DecodeEntity data);
  Ok (entityData e inc).

(** An ID whose address or entity is missing is skipped. *)
Definition fetchID (backend : B) (atBlockNumber : N) (inc : IncludeData) (id : N) : result (option EntityData) :=
  match b_IDToAddress backend id with
  | None => Ok None
  | Some addr =>
      match fetchEntityData backend atBlockNumber addr inc with
      | Ok ed => Ok (Some ed)
      | Err _ => Ok None
      | Panic => Panic
      end
  end.

(** The inner loop over one batch of IDs. *)
Fixpoint fetchBatch (fetch : N → result (option EntityData)) (ids : list N) (data : list EntityData) : result (list EntityData) :=
  match ids with
  | [] => Ok data
  | id :: ids =>
      d ← fetch id;
      fetchBatch fetch ids (match d with Some ed => data ++ [ed] | None => data end)
  end.

(** The outer loop: batches of at most ten IDs while the page is not full.
    Each round consumes an ID, so the number of IDs is fuel enough. *)
Fixpoint fetchPage (fetch : N → result (option EntityData)) (fuel : nat) (maxResults : N)
    (it : list N) (lastID : option N) (data : list EntityData) : result (list EntityData * list N * option N) :=
  match fuel with
  | O => Ok (data, it, lastID)
  | S fuel =>
      match it with
      | [] => Ok (data, it, lastID)
      | _ =>
          if (maxResults <=? N.of_nat (length data))%N then Ok (data, it, lastID) else
          let batchSize := N.to_nat (N.min (maxResults - N.of_nat (length data)) 10) in
          let ids := take batchSize it in
          data' ← fetchBatch fetch ids data;
          fetchPage fetch fuel maxResults (drop batchSize it)
            (match last ids with Some id => Some id | None => lastID end) data'
      end
  end.

(** [ids.And(mask)] with [mask.AddRange(0, *cursor)]. *)
Definition applyCursor (ids : Bitmap) (cursor : option N) : Bitmap :=
  match cursor with
  | None => ids
  | Some c => bm_And ids (bm_AddRange 0 c roaring_New)
  end.

Definition nextCursor (it : list N) (lastID : option N) : option bytes :=
  match it, lastID with
  | _ :: _, Some id => Some (hexutil_EncodeUint64 id)
  | _, _ => None
  end.

(** What [Query] does with the IDs of the evaluation: the page below the cursor. *)
Definition respond (backend : B) (options : option Options) (responseBlockNumber : N) (ids : Bitmap) : result QueryResponse :=
  cursor ← getCursor options;
  let it := bm_ReverseIterator (applyCursor ids cursor) in
  '(data, rest, lastID) ← fetchPage (fetchID backend (atBlockOf options) (getIncludeData options))
      (length it) (getResultsPerPage options) it None [];
  Ok (mkQueryResponse data responseBlockNumber (nextCursor rest lastID)).

Definition Query (backend : B) (queryStr : bytes) (options : option Options) : result QueryResponse :=
  ast ← wrap "failed to parse query" (Parse queryStr);
  let atBlockNumber := atBlockOf options in
  let responseBlockNumber := if (atBlockNumber =? 0)%N then b_HeadNumber backend else atBlockNumber in
  ids ← wrap "failed to evaluate query" (AST_Evaluate ast backend atBlockNumber);
  respond backend options responseBlockNumber ids.

Definition GetEntityByAddress (backend : B) (addr : Address) (options : option Options) : result EntityData :=
  fetchEntityData backend (atBlockOf options) addr (getIncludeData options).

Definition GetEntityCount (backend : B) : result N :=
  bm ← q_AllEntities backend 0;
  Ok (bm_GetCardinality bm).

End Handler.
