(* ===== verification/Version.v ===== *)
(** Build metadata and its HTTP handler (src/version/version.go,
    src/version/http.go).  What the toolchain embeds in the binary
    ([debug.ReadBuildInfo], [runtime.Version]) and the linker flags are inputs. *)
From S2P Require Export GoStrings.

Definition unknown : bytes := str "unknown".

(** The package variables that the linker sets. *)
Record LdFlags := mkLdFlags { Tag : bytes; Commit_ : bytes; Dirty : bytes; BuildTime : bytes }.

(** [debug.BuildInfo], of which the main module's version and the settings are
    used. *)
Record BuildInfo := mkBuildInfo { bi_MainVersion : bytes; bi_Settings : list (bytes * bytes) }.

Record Info := mkInfo {
  info_Tag : bytes;
  info_Commit : bytes;
  info_CommitShort : bytes;
  info_Dirty : option bool;
  info_BuildTime : bytes;
  info_GoVersion : bytes;
  info_ModuleVersion : bytes;
  info_VCSRevision : bytes;
  info_VCSTime : bytes;
  info_VCSModified : option bool;
}.

Section Version.
Context `{GoRuntime}.

Definition clean (value : bytes) : bytes :=
  let value := TrimSpace value in if decide (value = []) then unknown else value.

(** The value and whether it was recognised. *)
Definition parseBool (value : bytes) : option bool :=
  let v := ToLower (TrimSpace value) in
  if decide (v ∈ [str "true"; str "1"; str "yes"; str "dirty"]) then Some true
  else if decide (v ∈ [str "false"; str "0"; str "no"; str "clean"]) then Some false
  else None.

Definition shortCommit (commit : bytes) : bytes :=
  let commit := clean commit in
  if decide (commit = unknown) then unknown
  else if (length commit <=? 12)%nat then commit else take 12 commit.

(** [if v := buildInfo.Main.Version; v != "" && v != "(devel)"]. *)
Definition applyModule (v : bytes) (i : Info) : Info :=
  if decide (v = [] ∨ v = str "(devel)") then i else
  mkInfo (if decide (info_Tag i = unknown) then v else info_Tag i) (info_Commit i) (info_CommitShort i) (info_Dirty i)
    (info_BuildTime i) (info_GoVersion i) v (info_VCSRevision i) (info_VCSTime i) (info_VCSModified i).

(** One round of the loop over the settings. *)
Definition applySetting (i : Info) (s : bytes * bytes) : Info :=
  let '(key, value) := s in
  if decide (key = str "vcs.revision") then
    mkInfo (info_Tag i) (if decide (info_Commit i = unknown) then value else info_Commit i) (info_CommitShort i) (info_Dirty i)
      (info_BuildTime i) (info_GoVersion i) (info_ModuleVersion i) value (info_VCSTime i) (info_VCSModified i)
  else if decide (key = str "vcs.time") then
    mkInfo (info_Tag i) (info_Commit i) (info_CommitShort i) (info_Dirty i)
      (if decide (info_BuildTime i = unknown) then value else info_BuildTime i) (info_GoVersion i) (info_ModuleVersion i)
      (info_VCSRevision i) value (info_VCSModified i)
  else if decide (key = str "vcs.modified") then
    match parseBool value with
    | None => i
    | Some modified =>
        mkInfo (info_Tag i) (info_Commit i) (info_CommitShort i) (match info_Dirty i with None => Some modified | d => d end)
          (info_BuildTime i) (info_GoVersion i) (info_ModuleVersion i) (info_VCSRevision i) (info_VCSTime i) (Some modified)
    end
  else i.

Definition Current (ld : LdFlags) (goVersion : bytes) (build : option BuildInfo) : Info :=
  let info := mkInfo (clean (Tag ld)) (clean (Commit_ ld)) [] (parseBool (Dirty ld)) (clean (BuildTime ld)) goVersion
    [] [] [] None in
  let info := match build with
              | None => info
              | Some b => foldl applySetting (applyModule (bi_MainVersion b) info) (bi_Settings b)
              end in
  let short := shortCommit (info_Commit info) in
  mkInfo (info_Tag info) (info_Commit info) (if decide (short = unknown) then info_CommitShort info else short)
    (info_Dirty info) (if decide (info_BuildTime info = unknown) then [] else info_BuildTime info) (info_GoVersion info)
    (info_ModuleVersion info) (info_VCSRevision info) (info_VCSTime info) (info_VCSModified info).

End Version.

(** ** The handler *)

Record Request := mkRequest { rq_Path : bytes; rq_Method : bytes }.

(** The body of a response: none, a text, or the JSON of a build description. *)
Inductive body := NoBody | TextBody (s : bytes) | InfoBody (i : Info).
Record Response := mkResponse { rs_Status : N; rs_Header : list (bytes * bytes); rs_Body : body }.

(** [http.Error]. *)
Definition http_Error (header : list (bytes * bytes)) (msg : bytes) (code : N) : Response :=
  mkResponse code (header ++ [(str "Content-Type", str "text/plain; charset=utf-8"); (str "X-Content-Type-Options", str "nosniff")])
    (TextBody (msg ++ [x0a])).

Definition Handler (current : Info) (next : Request → Response) (r : Request) : Response :=
  if decide (rq_Path r ≠ str "/version") then next r
  else if decide (rq_Method r ≠ str "GET" ∧ rq_Method r ≠ str "HEAD") then
    http_Error [(str "Allow", str "GET, HEAD")] (str "method not allowed") 405
  else
    let header := [(str "Content-Type", str "application/json"); (str "Cache-Control", str "no-store")] in
    if decide (rq_Method r = str "HEAD") then mkResponse 200 header NoBody
    else mkResponse 200 header (InfoBody current).
