(* ===== verification/GoFlag.v ===== *)
(** What the source uses of Go's [flag] package: [flag.String], [flag.Bool],
    [flag.Parse] on a flag set that exits on errors, and [flag.Visit]. *)
From S2P Require Export GoStrings.

(** The kinds of flags that are defined. *)
Inductive flag_kind := StringFlag | BoolFlag.

(** [strconv.ParseBool]. *)
Definition strconv_ParseBool (s : bytes) : option bool :=
  if decide (s ∈ [str "1"; str "t"; str "T"; str "TRUE"; str "true"; str "True"]) then Some true
  else if decide (s ∈ [str "0"; str "f"; str "F"; str "FALSE"; str "false"; str "False"]) then Some false
  else None.

(** Parsing ends at an argument that is no flag, or the process exits: with 0
    when help was asked for, with 2 on an error. *)
Inductive parsed := Parsed (settings : list (bytes * bytes)) | Exited (code : N).

Definition minus : byte := x2d.
Definition equals : byte := x3d.

(** The name and, after the first [=] that is not at its start, the value. *)
Fixpoint split_value (name : bytes) (first : bool) : bytes * option bytes :=
  match name with
  | [] => ([], None)
  | c :: s =>
      if negb first && bool_decide (c = equals) then ([], Some s)
      else let '(n, v) := split_value s false in (c :: n, v)
  end.

(** The name of a flag argument: one or two dashes are dropped. *)
Inductive arg_form := NotAFlag | Terminator | BadSyntax | FlagArg (name : bytes) (value : option bytes).
Definition flag_form (s : bytes) : arg_form :=
  match s with
  | c :: d :: s' =>
      if decide (c ≠ minus) then NotAFlag
      else if decide (d = minus ∧ s' = []) then Terminator
      else
        let name := if decide (d = minus) then s' else d :: s' in
        match name with
        | [] => BadSyntax
        | c :: _ =>
            if decide (c = minus ∨ c = equals) then BadSyntax
            else let '(n, v) := split_value name true in FlagArg n v
        end
  | _ => NotAFlag
  end.

(** [FlagSet.Parse]: the settings made, in order.  The value of a boolean flag
    that was set without one is ["true"]. *)
Fixpoint flag_Parse (defined : bytes → option flag_kind) (args : list bytes) (acc : list (bytes * bytes)) : parsed :=
  match args with
  | [] => Parsed acc
  | s :: args =>
      match flag_form s with
      | NotAFlag | Terminator => Parsed acc
      | BadSyntax => Exited 2
      | FlagArg name value =>
          match defined name with
          | None => if decide (name = str "help" ∨ name = str "h") then Exited 0 else Exited 2
          | Some BoolFlag =>
              match value with
              | None => flag_Parse defined args (acc ++ [(name, str "true")])
              | Some v =>
                  match strconv_ParseBool v with
                  | Some _ => flag_Parse defined args (acc ++ [(name, v)])
                  | None => Exited 2
                  end
              end
          | Some StringFlag =>
              match value, args with
              | Some v, _ => flag_Parse defined args (acc ++ [(name, v)])
              | None, v :: args => flag_Parse defined args (acc ++ [(name, v)])
              | None, [] => Exited 2
              end
          end
      end
  end.

(** The value of a flag after parsing: the last one set, or its default; and
    whether [flag.Visit] visits it. *)
Definition setting (settings : list (bytes * bytes)) (name : bytes) : option bytes :=
  snd <$> last (filter (λ s, s.1 = name) settings).
Definition flag_String (settings : list (bytes * bytes)) (name dflt : bytes) : bytes := default dflt (setting settings name).
Definition flag_Bool (settings : list (bytes * bytes)) (name : bytes) (dflt : bool) : bool :=
  match setting settings name with
  | Some v => default dflt (strconv_ParseBool v)
  | None => dflt
  end.
Definition flag_Visit (settings : list (bytes * bytes)) (name : bytes) : bool :=
  bool_decide (is_Some (setting settings name)).
