(* ===== verification/Daemon.v ===== *)
(** The daemon's configuration and start-up (src/cmd/arkiv-storaged/main.go).

    The file system, the YAML decoder, Pebble, the RPC registration and
    [filepath.Join] (whose result depends on the platform) are parameters.
    [startup] stops where the two servers listen; [Process] goes on from there. *)
From S2P Require Export Server Chain Version GoFlag.

Record config := mkConfig { cfg_ChainAddr : bytes; cfg_QueryAddr : bytes }.
Definition zero_config : config := mkConfig [] [].

(** The flags [main] defines, and their values after parsing. *)
Definition defined (name : bytes) : option flag_kind :=
  if decide (name ∈ [str "chain-addr"; str "query-addr"; str "data-dir"]) then Some StringFlag
  else if decide (name = str "version") then Some BoolFlag else None.

Record flags := mkFlags {
  fl_chainAddr : bytes;
  fl_queryAddr : bytes;
  fl_dataDir : bytes;
  fl_showVersion : bool;
  fl_explicit : bytes → bool;
}.

Definition defaultChainAddr : bytes := str "127.0.0.1:2704".
Definition defaultQueryAddr : bytes := str "127.0.0.1:2705".

Definition readFlags (dataDir : bytes) (settings : list (bytes * bytes)) : flags :=
  mkFlags (flag_String settings (str "chain-addr") defaultChainAddr)
    (flag_String settings (str "query-addr") defaultQueryAddr)
    (flag_String settings (str "data-dir") dataDir)
    (flag_Bool settings (str "version") false)
    (flag_Visit settings).

(** What [os.Open] finds. *)
Inductive opened := NotExist | OpenError (e : error) | Opened (content : bytes) (close : option error).

Section Daemon.
Context {E : Env}.
Variable filepath_Join : bytes → bytes → bytes.
Variable yaml_Decode : bytes → config → config * option error.

Definition configFileName : bytes := str "config.yaml".

Definition defaultDataDir (UserHomeDir : result bytes) : bytes :=
  match UserHomeDir with
  | Ok home => filepath_Join home (str ".arkiv-storaged")
  | _ => str ".arkiv-storaged"
  end.

(** The deferred close reports its error when decoding had none; the partly
    decoded configuration is returned with either. *)
Definition loadConfig (os_Open : bytes → opened) (dataDir : bytes) : config * option error :=
  match os_Open (filepath_Join dataDir configFileName) with
  | NotExist => (zero_config, None)
  | OpenError e => (zero_config, Some e)
  | Opened content close =>
      let '(cfg, err) := yaml_Decode content zero_config in
      (cfg, match err with Some e => Some e | None => close end)
  end.

(** [if !explicit[name] && cfg.X != "" { *x = cfg.X }]. *)
Definition override (f : flags) (name value fromFile : bytes) : bytes :=
  if negb (fl_explicit f name) && bool_decide (fromFile ≠ []) then fromFile else value.

Definition resolveAddrs (f : flags) (cfg : config) : bytes * bytes :=
  (override f (str "chain-addr") (fl_chainAddr f) (cfg_ChainAddr cfg),
   override f (str "query-addr") (fl_queryAddr f) (cfg_QueryAddr cfg)).

(** What the process has come to: it exited while parsing its flags, printed
    its version, failed at some step, or serves. *)
Inductive started :=
  | Usage (code : N)
  | Printed (i : Info)
  | Failed (step : string) (e : error)
  | Panicked
  | Serving (chainAddr queryAddr dbPath : bytes) (s : Store).

(** A step that the process does not survive. *)
Definition or_exit {A} (step : string) (r : result A) (k : A → started) : started :=
  match r with Ok a => k a | Err e => Failed step e | Panic => Panicked end.

Definition startup (args : list bytes) (UserHomeDir : result bytes) (current : Info) (os_Open : bytes → opened)
    (pebble_New : bytes → result Database) (chain_New query_New : result ()) : started :=
  match flag_Parse defined args [] with
  | Exited code => Usage code
  | Parsed settings =>
      let f := readFlags (defaultDataDir UserHomeDir) settings in
      if fl_showVersion f then Printed current else
      match loadConfig os_Open (fl_dataDir f) with
      | (_, Some e) => Failed "failed to read config file" e
      | (cfg, None) =>
          let '(chainAddr, queryAddr) := resolveAddrs f cfg in
          let dbPath := filepath_Join (fl_dataDir f) (str "db") in
          or_exit "failed to open pebble database" (pebble_New dbPath) (λ kv,
          or_exit "open store" (New kv) (λ s,
          or_exit "failed to create chain server" chain_New (λ _,
          or_exit "failed to create query server" query_New (λ _,
          Serving chainAddr queryAddr dbPath s))))
      end
  end.

End Daemon.
