(* ===== verification/Process.v ===== *)
(** The life of the daemon's process after start-up
    (src/cmd/arkiv-storaged/main.go, from the two servers on): connections are
    accepted and their requests run next to each other, a listener can fail, and
    a signal stops first the chain server and then the query server.

    [Server.Shutdown] is the standard library's: it closes the listener, and
    returns when no connection is in use; a connection that waits for a request
    may be closed.  The queries write nothing, so only the number of their
    connections is kept; the handlers' logs are left out. *)
From S2P Require Export Ingest Daemon.

(** What [main] is doing: waiting for a signal, in one of the two [Shutdown]s,
    returned, or gone through [os.Exit]. *)
Inductive phase := Listening | StoppingChain | StoppingQuery | Returned | Exited1.
#[export] Instance phase_eq_dec : EqDecision phase.
Proof. solve_decision. Defined.

Section Process.
Context {E : Env}.

(** A connection of the chain server: waiting for a request, or the point its
    request has reached. *)
Inductive call :=
  | Reading
  | Committing (stateRoot : Hash) (blocks : list ArkivBlock)
  | Reverting (req : RevertRequest)
  | Reorging (req : ReorgRequest)
  | Answered (r : result StateRootResponse).

Record process := mkProcess {
  p_phase : phase;
  p_store : Store;
  p_calls : list call;
  p_queries : nat;
}.

Context `{HexJson}.

(** The next critical section of a request. *)
Definition call_step (s : Store) (c : call) : option (call * Store) :=
  match c with
  | Committing stateRoot [] => Some (Answered (Ok (mkStateRootResponse stateRoot)), s)
  | Committing stateRoot (b :: blocks) =>
      match ProcessBlock s b with
      | (Ok root, s) => Some (Committing root blocks, s)
      | (Err e, s) => Some (Answered (Err (Wrapf "process block" e)), s)
      | (Panic, s) => Some (Answered Panic, s)
      end
  | Reverting req => let '(r, s) := Chain_Revert s req in Some (Answered r, s)
  | Reorging req => let '(r, s) := Chain_Reorg s req in Some (Answered r, s)
  | Reading | Answered _ => None
  end.

(** A request that was read: one of the methods with its parameters, or one that
    is answered with an error. *)
Inductive request : call → Prop :=
  | request_commit j req : decode_CommitChainRequest j = Ok req → request (Committing zeroHash (cc_Blocks req))
  | request_revert j req : decode_RevertRequest j = Ok req → request (Reverting req)
  | request_reorg j req : decode_ReorgRequest j = Ok req → request (Reorging req)
  | request_bad e : request (Answered (Err e)).

Definition idle (c : call) : Prop := c = Reading ∨ ∃ r, c = Answered r.
Definition running (p : process) : Prop := p_phase p ∉ [Returned; Exited1].

Inductive process_step : process → process → Prop :=
  | accept_chain s cs n : process_step (mkProcess Listening s cs n) (mkProcess Listening s (cs ++ [Reading]) n)
  | read_chain p i c : running p → p_calls p !! i = Some Reading → request c →
      process_step p (mkProcess (p_phase p) (p_store p) (<[i := c]> (p_calls p)) (p_queries p))
  | run_chain p i c c' s : running p → p_calls p !! i = Some c → call_step (p_store p) c = Some (c', s) →
      process_step p (mkProcess (p_phase p) s (<[i := c']> (p_calls p)) (p_queries p))
  | keep_chain s cs n i r : cs !! i = Some (Answered r) →
      process_step (mkProcess Listening s cs n) (mkProcess Listening s (<[i := Reading]> cs) n)
  | close_chain p i c : running p → p_calls p !! i = Some c → idle c →
      process_step p (mkProcess (p_phase p) (p_store p) (delete i (p_calls p)) (p_queries p))
  | accept_query ph s cs n : ph ∈ [Listening; StoppingChain] →
      process_step (mkProcess ph s cs n) (mkProcess ph s cs (S n))
  | close_query ph s cs n : ph ∉ [Returned; Exited1] → process_step (mkProcess ph s cs (S n)) (mkProcess ph s cs n)
  | listener_fails p : p_phase p ∈ [Listening; StoppingChain] →
      process_step p (mkProcess Exited1 (p_store p) (p_calls p) (p_queries p))
  | signalled s cs n : process_step (mkProcess Listening s cs n) (mkProcess StoppingChain s cs n)
  | chain_stopped s n : process_step (mkProcess StoppingChain s [] n) (mkProcess StoppingQuery s [] n)
  | query_stopped s cs : process_step (mkProcess StoppingQuery s cs 0) (mkProcess Returned s cs 0).

(** The process when both servers are up. *)
Definition serving (s : Store) : process := mkProcess Listening s [] 0.

(** ** Requests *)

(** Calls whose blocks were decoded from JSON. *)
Definition from_json (c : call) : Prop :=
  match c with
  | Committing _ bs => ∃ j req, decode_CommitChainRequest j = Ok req ∧ bs ⊆ cc_Blocks req
  | Reverting req => ∃ j, decode_RevertRequest j = Ok req
  | Reorging req => ∃ j, decode_ReorgRequest j = Ok req
  | _ => True
  end.

Lemma request_from_json c : request c → from_json c.
Proof. by intros [j req Hd|j req Hd|j req Hd|e]; [exists j, req|exists j|exists j|]. Qed.

(** A section of a request is a step of the ingest interface. *)
Lemma call_step_ingest s c c' s' : from_json c → call_step s c = Some (c', s') → rtc ingest_step s s' ∧ from_json c'.
Proof.
  destruct c as [|root [|b bs]|req|req|r]; cbn [call_step]; intros Hj Hs; [done|..|done].
  - by injection Hs as <- <-.
  - destruct Hj as (j & req & Hd & Hsub). assert (b ∈ cc_Blocks req) as Hb by (apply Hsub, elem_of_cons; by left).
    destruct (ProcessBlock s b) as [r s1] eqn:Ep.
    assert (rtc ingest_step s s1) as Hi by (apply rtc_once; by eapply ingest_commit).
    destruct r; injection Hs as <- <-; (split; [done|]); try done. exists j, req. split; [done|]. intros x Hx. apply Hsub, elem_of_cons. by right.
  - destruct Hj as (j & Hd). destruct (Chain_Revert s req) as [r s1] eqn:Er. injection Hs as <- <-. split; [|done]. apply rtc_once. by eapply ingest_revert.
  - destruct Hj as (j & Hd). destruct (Chain_Reorg s req) as [r s1] eqn:Er. injection Hs as <- <-. split; [|done]. apply rtc_once. by eapply ingest_reorg.
Qed.

Definition calls_from_json (p : process) : Prop := Forall from_json (p_calls p).

Lemma process_step_ingest p p' : process_step p p' → calls_from_json p →
  rtc ingest_step (p_store p) (p_store p') ∧ calls_from_json p'.
Proof.
  unfold calls_from_json. intros Hs Hj.
  destruct Hs as [| p i c _ _ Hr| p i c c' s _ Hi Hc| | p i c _ _ _| | | | | | ]; cbn [p_calls p_store] in *; try done.
  - split; [done|]. apply Forall_app. split; [done|by repeat constructor].
  - split; [done|]. apply Forall_insert; [done|by apply request_from_json].
  - destruct (call_step_ingest _ _ _ _ (Forall_lookup_1 _ _ _ _ Hj Hi) Hc) as [Hr Hc']. split; [done|]. by apply Forall_insert.
  - split; [done|]. by apply Forall_insert.
  - split; [done|]. by apply Forall_delete.
Qed.

Lemma process_ingest p p' : rtc process_step p p' → calls_from_json p →
  rtc ingest_step (p_store p) (p_store p') ∧ calls_from_json p'.
Proof.
  induction 1 as [|p1 p2 p3 Hs _ IH]; [done|]. intros Hj. destruct (process_step_ingest _ _ Hs Hj) as [H1 Hj2].
  destruct (IH Hj2) as [H2 Hj3]. split; [by etrans|done].
Qed.

(** ** Stopping *)

(** What has stopped in each phase. *)
Definition past_chain (ph : phase) : Prop := ph = StoppingQuery ∨ ph = Returned.
Definition drained (p : process) : Prop :=
  (past_chain (p_phase p) → p_calls p = []) ∧ (p_phase p = Returned → p_queries p = 0%nat).

Lemma process_step_drained p p' : process_step p p' → drained p → drained p'.
Proof.
  unfold drained, past_chain, running. intros Hs [Hc Hq].
  destruct Hs as [|p i c Hr Hi _|p i c c' s Hr Hi _| |p i c Hr Hi _|ph s cs n Hp|ph s cs n Hp| | | | ]; cbn [p_phase p_calls p_queries] in *;
    try (split; [by intros [?|?]|done]); try (split; [intros Hpast; rewrite (Hc Hpast) in *; done|done]).
  - split; [done|]. intros ->. rewrite !elem_of_cons, elem_of_nil in Hp. by destruct Hp as [?|[?|[]]].
  - split; [done|]. intros ->. destruct Hp. apply elem_of_cons. by left.
  - split; [|done]. intros _. apply Hc. by left.
Qed.

Lemma process_drained p p' : rtc process_step p p' → drained p → drained p'.
Proof. induction 1 as [|p1 p2 p3 Hs _ IH]; [done|]. intros Hd. by eapply IH, process_step_drained. Qed.

(** Once the chain server has stopped nothing is written. *)
Lemma process_step_past p p' : process_step p p' → drained p → past_chain (p_phase p) →
  p_store p' = p_store p ∧ past_chain (p_phase p').
Proof.
  unfold past_chain. intros Hs [Hc _] Hp. specialize (Hc Hp).
  destruct Hs as [|p i c Hr Hi _|p i c c' s Hr Hi _| |p i c Hr Hi _| | |p Hf| | | ]; cbn [p_phase p_calls p_store] in *;
    try (rewrite Hc in Hi; done); try done; try (by destruct Hp).
  - rewrite !elem_of_cons, elem_of_nil in Hf. exfalso. destruct Hp as [Hp|Hp]; rewrite Hp in Hf; by destruct Hf as [?|[?|[]]].
  - split; [done|by right].
Qed.

Lemma process_past p p' : rtc process_step p p' → drained p → past_chain (p_phase p) → p_store p' = p_store p.
Proof.
  induction 1 as [|p1 p2 p3 Hs _ IH]; [done|]. intros Hd Hp. destruct (process_step_past _ _ Hs Hd Hp) as [<- Hp2].
  apply IH; [by eapply process_step_drained|done].
Qed.

(** ** The requests that were accepted are carried out *)

(** The store after the rest of a request. *)
Definition finish_call (s : Store) (c : call) : Store :=
  match c with
  | Committing root bs => (commitLoop s root bs).2
  | Reverting req => (Chain_Revert s req).2
  | Reorging req => (Chain_Reorg s req).2
  | Reading | Answered _ => s
  end.

Lemma close_steps ph s c cs n : ph ∉ [Returned; Exited1] → idle c →
  rtc process_step (mkProcess ph s (c :: cs) n) (mkProcess ph s cs n).
Proof. intros Hr Hi. apply rtc_once. by apply (close_chain (mkProcess ph s (c :: cs) n) 0 c). Qed.

Lemma section_then ph s c c' s' cs n p : ph ∉ [Returned; Exited1] → call_step s c = Some (c', s') →
  rtc process_step (mkProcess ph s' (c' :: cs) n) p → rtc process_step (mkProcess ph s (c :: cs) n) p.
Proof. intros Hr Hc. apply rtc_l. by apply (run_chain (mkProcess ph s (c :: cs) n) 0 c). Qed.

Lemma last_section ph s c r s' cs n : ph ∉ [Returned; Exited1] → call_step s c = Some (Answered r, s') →
  rtc process_step (mkProcess ph s (c :: cs) n) (mkProcess ph s' cs n).
Proof. intros Hr Hc. eapply section_then; [done|exact Hc|]. apply close_steps; [done|right; by eexists]. Qed.

Lemma call_finishes ph s c cs n : ph ∉ [Returned; Exited1] →
  rtc process_step (mkProcess ph s (c :: cs) n) (mkProcess ph (finish_call s c) cs n).
Proof.
  intros Hr. destruct c as [|root bs|req|req|r]; cbn [finish_call].
  - apply close_steps; [done|by left].
  - revert s root. induction bs as [|b bs IH]; intros s root; cbn [commitLoop]; [by eapply last_section|].
    destruct (ProcessBlock s b) as [[root'|e|] s1] eqn:Ep.
    + eapply section_then; [done|cbn [call_step]; by rewrite Ep|apply IH].
    + eapply last_section; [done|cbn [call_step]; by rewrite Ep].
    + eapply last_section; [done|cbn [call_step]; by rewrite Ep].
  - destruct (Chain_Revert s req) as [r s1] eqn:Er. eapply last_section; [done|cbn [call_step]; by rewrite Er].
  - destruct (Chain_Reorg s req) as [r s1] eqn:Er. eapply last_section; [done|cbn [call_step]; by rewrite Er].
  - apply close_steps; [done|right; by eexists].
Qed.

Lemma calls_finish ph s cs n : ph ∉ [Returned; Exited1] →
  rtc process_step (mkProcess ph s cs n) (mkProcess ph (foldl finish_call s cs) [] n).
Proof.
  intros Hr. revert s. induction cs as [|c cs IH]; intros s; [done|]. etrans; [by apply call_finishes|apply IH].
Qed.

Lemma queries_finish ph s cs n : ph ∉ [Returned; Exited1] → rtc process_step (mkProcess ph s cs n) (mkProcess ph s cs 0).
Proof. intros Hr. induction n as [|n IH]; [done|]. eapply rtc_l; [by apply close_query|done]. Qed.

Lemma process_stops p : drained p → running p → ∃ s, s = foldl finish_call (p_store p) (p_calls p) ∧
  rtc process_step p (mkProcess Returned s [] 0).
Proof.
  destruct p as [ph s cs n]. unfold drained, running, past_chain. cbn [p_phase p_store p_calls p_queries]. intros [Hc _] Hr.
  eexists. split; [done|].
  assert (∀ s1, rtc process_step (mkProcess StoppingQuery s1 [] n) (mkProcess Returned s1 [] 0)) as Hq.
  { intros s1. etrans; [apply queries_finish|apply rtc_once, query_stopped]. by apply (bool_decide_unpack _). }
  assert (∀ s1 cs1, rtc process_step (mkProcess StoppingChain s1 cs1 n) (mkProcess Returned (foldl finish_call s1 cs1) [] 0)) as Hch.
  { intros s1 cs1. etrans; [apply calls_finish; by apply (bool_decide_unpack _)|]. eapply rtc_l; [apply chain_stopped|apply Hq]. }
  destruct ph; [eapply rtc_l; [apply signalled|apply Hch]|apply Hch| |destruct Hr..].
  - rewrite (Hc (or_introl eq_refl)). apply Hq.
  - apply elem_of_cons. by left.
  - apply elem_of_cons. right. apply elem_of_cons. by left.
Qed.

End Process.
