(* ===== verification/ServerProofs.v ===== *)
(** The pages of the query server: what one page holds, and where the next one
    starts; the attributes a response shows and those the index lists
    (src/query/server.go). *)
From S2P Require Export StoreIndex Server.

(** ** One page *)

Section Page.
Context (fetch : N → result (option EntityData)).

(** The entities found for a list of IDs. *)
Definition found (ids : list N) : list EntityData := omap (λ id, default None (ok_val (fetch id))) ids.

Definition fetches (ids : list N) : Prop := Forall (λ id, ∃ d, fetch id = Ok d) ids.

Lemma found_app l1 l2 : found (l1 ++ l2) = found l1 ++ found l2.
Proof. apply omap_app. Qed.

Lemma found_length l : (length (found l) ≤ length l)%nat.
Proof. induction l as [|x l IH]; simpl; [lia|]. destruct (default None _); simpl; lia. Qed.

Lemma fetchBatch_ok ids data : fetches ids → fetchBatch fetch ids data = Ok (data ++ found ids).
Proof.
  intros H. revert data. induction H as [|x ids [d Hd] H IH]; intros data; cbn [fetchBatch]; [by rewrite app_nil_r|].
  rewrite Hd. bind_step. rewrite IH. unfold found. cbn [omap list_omap]. rewrite Hd. cbn.
  destruct d as [ed|]; cbn; [by rewrite <-app_assoc|done].
Qed.

Lemma last_app_cons {A} (l1 l2 : list A) (d : option A) : l2 ≠ [] →
  match last (l1 ++ l2) with Some x => Some x | None => d end = match last l2 with Some x => Some x | None => d end.
Proof. intros Hne. destruct l2 as [|x l2] using rev_ind; [done|]. by rewrite app_assoc, !last_snoc. Qed.

(** The loop takes a prefix of the IDs, fills the page with what it finds, and
    stops when the page is full or the IDs are used up. *)
Lemma fetchPage_ok fuel maxResults it lastID data :
  (length it ≤ fuel)%nat → (N.of_nat (length data) ≤ maxResults)%N → fetches it →
  ∃ dn rest, it = dn ++ rest ∧
    fetchPage fetch fuel maxResults it lastID data =
      Ok (data ++ found dn, rest, match last dn with Some id => Some id | None => lastID end) ∧
    (N.of_nat (length (data ++ found dn)) ≤ maxResults)%N ∧
    (rest = [] ∨ N.of_nat (length (data ++ found dn)) = maxResults).
Proof.
  revert it lastID data. induction fuel as [|fuel IH]; intros it lastID data Hf Hd H.
  - destruct it as [|x it]; [|simpl in Hf; lia]. exists [], []. cbn. rewrite app_nil_r. auto.
  - cbn [fetchPage]. destruct it as [|x it]; [exists [], []; cbn; rewrite app_nil_r; auto|].
    destruct (N.leb_spec maxResults (N.of_nat (length data))) as [Hle|Hlt].
    { exists [], (x :: it). change (found []) with (@nil EntityData). rewrite app_nil_r. split_and!; [done|done|done|right; lia]. }
    set (bs := N.to_nat (N.min (maxResults - N.of_nat (length data)) 10)).
    assert (1 ≤ bs)%nat as Hbs by (subst bs; lia).
    assert (N.of_nat bs ≤ maxResults - N.of_nat (length data))%N as Hbs' by (subst bs; lia).
    assert (fetches (take bs (x :: it)) ∧ fetches (drop bs (x :: it))) as [Ht Hdr].
    { apply Forall_app. by rewrite take_drop. }
    rewrite (fetchBatch_ok _ _ Ht). bind_step.
    pose proof (found_length (take bs (x :: it))) as Hfl. rewrite length_take in Hfl.
    destruct (IH (drop bs (x :: it)) (match last (take bs (x :: it)) with Some id => Some id | None => lastID end)
      (data ++ found (take bs (x :: it)))) as (dn & rest & Hit & -> & Hlen & Hend); [| |exact Hdr|].
    + rewrite length_drop. simpl in *. lia.
    + rewrite length_app. lia.
    + exists (take bs (x :: it) ++ dn), rest. rewrite found_app, !app_assoc.
      split; [by rewrite <-app_assoc, <-Hit, take_drop|]. split; [|by split].
      do 3 f_equal. destruct dn as [|y dn]; [by rewrite app_nil_r|]. rewrite last_app_cons by done.
      destruct (last (y :: dn)) eqn:E; [done|]. by apply last_None in E.
Qed.

(** Every ID is found: the page is a prefix of the list. *)
Lemma fetchPage_all maxResults it :
  (∀ id, id ∈ it → ∃ d, fetch id = Ok (Some d)) →
  let n := N.to_nat maxResults in
  fetchPage fetch (length it) maxResults it None [] = Ok (found (take n it), drop n it, last (take n it)) ∧
  Forall2 (λ id d, fetch id = Ok (Some d)) (take n it) (found (take n it)).
Proof.
  intros H n. assert (∀ l, (∀ id, id ∈ l → id ∈ it) → Forall2 (λ id d, fetch id = Ok (Some d)) l (found l)) as Hfound.
  { induction l as [|y l IH]; intros Hin; [constructor|]. destruct (H y) as [d Hd]; [apply Hin, elem_of_cons; by left|].
    unfold found in *. cbn [omap list_omap]. rewrite Hd. cbn. constructor; [done|].
    apply IH. intros id Hid. apply Hin, elem_of_cons. by right. }
  split; [|apply Hfound; intros id Hid; rewrite <-(take_drop n it); apply elem_of_app; by left].
  destruct (fetchPage_ok (length it) maxResults it None []) as (dn & rest & Hit & -> & Hlen & Hend); [lia|simpl; lia| |].
  { apply Forall_forall. intros id Hid. destruct (H id Hid) as [d ?]. by eexists. }
  assert (length (found dn) = length dn) as Hdn.
  { symmetry. eapply Forall2_length, Hfound. intros id Hid. rewrite Hit. apply elem_of_app. by left. }
  cbn [app] in *. rewrite Hdn in Hlen, Hend.
  assert (take n it = dn ∧ drop n it = rest) as [-> ->].
  { subst it n. destruct Hend as [->|E]; [rewrite app_nil_r, take_ge, drop_ge by lia; done|].
    rewrite take_app_length', drop_app_length' by lia. done. }
  by destruct (last dn).
Qed.
End Page.

(** ** Queries at the head *)

Lemma getResultsPerPage_bound options : (getResultsPerPage options ≤ 200)%N.
Proof.
  unfold getResultsPerPage, queryResultCountLimit. destruct options as [o|]; [|lia].
  destruct (opt_ResultsPerPage o) as [n|]; [|lia]. destruct (N.ltb_spec 200 n); lia.
Qed.

Section Queries.
Context {E : Env} {EO : EnvOk} {CF : CollisionFree} {HX : Hexutil} {HXO : HexutilOk}.
Variable ParseString : bytes → result TopLevel.

(** A query that parses to a tree whose leaves the index can answer, at a block
    that can be queried. *)
Record answerable (σ : Store) (n : N) (st : AbsState) (queryStr : bytes) (t : TopLevel) : Prop := {
  aw_block : readable σ n st;
  aw_all : tracked (mkAnnotPair (str "$all") (str "true"));
  aw_parse : ParseString queryStr = Ok t;
  aw_tree : TopLevel_ok t = true;
  aw_leaves : TopLevel_every (leaf_ready tracked (scannable n)) t;
}.

(** The block number a response reports. *)
Definition response_block (σ : Store) (n : N) : N := if (n =? 0)%N then headNumber σ else n.

Definition matches (st : AbsState) (t : TopLevel) (x : N) : Prop :=
  ∃ a e, abs_ents st !! a = Some (x, e) ∧ satisfies e t.
Definition below_cursor (cursor : option N) (x : N) : Prop :=
  match cursor with Some c => (x < c)%N | None => True end.

(** The IDs still to be returned, newest first. *)
Definition selected (st : AbsState) (t : TopLevel) (cursor : option N) (ids : list N) : Prop :=
  StronglySorted (λ x y, y < x)%N ids ∧ ∀ x, x ∈ ids ↔ matches st t x ∧ below_cursor cursor x.

(** The response holds the entities of these IDs, in their order. *)
Definition shows (st : AbsState) (inc : IncludeData) (ids : list N) (data : list EntityData) : Prop :=
  Forall2 (λ x d, ∃ a e, abs_ents st !! a = Some (x, e) ∧ d = entityData e inc) ids data.

Lemma fetchEntityData_ok σ n st a inc : state_at σ n st →
  match abs_ents st !! a with
  | Some (_, e) => fetchEntityData σ n a inc = Ok (entityData e inc)
  | None => ∃ err, fetchEntityData σ n a inc = Err err
  end.
Proof.
  intros S. pose proof (GetEntity_ok σ n st a S) as Hg.
  unfold fetchEntityData. cbn [b_GetEntityBytes store_backend]. unfold GetEntityBytes, GetEntity, DecodeEntity in *.
  destruct S as (s & Hs & Sn). rewrite Hs in *. cbn [mbind result_bind] in *.
  pose proof (tr_code _ _ _ _ _ (sn_trie _ _ _ Sn) a) as Hc. unfold code_ok in Hc.
  destruct (abs_ents st !! a) as [[id e]|].
  - destruct (length (GetCode s a) =? 0)%nat; [done|]. bind_step. by rewrite Hg.
  - destruct Hc as [_ ->]. cbn. by eexists.
Qed.

Lemma fetchID_ok σ n st inc a x e : readable σ n st → abs_ents st !! a = Some (x, e) →
  fetchID σ n inc x = Ok (Some (entityData e inc)).
Proof.
  intros R Ha. pose proof (fetchEntityData_ok σ n st a inc (rb_state _ _ _ R)) as Hf. rewrite Ha in Hf.
  unfold fetchID. cbn [b_IDToAddress store_backend]. by rewrite (readable_ID _ _ _ _ _ _ R Ha), Hf.
Qed.

Lemma applyCursor_Contains B c x : bm_Contains (applyCursor B c) x = true ↔ bm_Contains B x = true ∧ below_cursor c x.
Proof.
  destruct c as [c|]; cbn [applyCursor below_cursor]; [|tauto].
  rewrite Contains_And, Contains_AddRange, Contains_New, andb_true_iff, orb_false_r, bool_decide_eq_true.
  split; intros [? ?]; (split; [done|]); lia.
Qed.

(** The page of a list of IDs: the loop looks at a prefix of them. *)
Lemma listed_page fetch it options : (∀ x, x ∈ it → ∃ d, fetch x = Ok d) →
  ∃ taken rest, it = taken ++ rest ∧
    fetchPage fetch (length it) (getResultsPerPage options) it None [] = Ok (found fetch taken, rest, last taken) ∧
    (N.of_nat (length (found fetch taken)) ≤ getResultsPerPage options)%N ∧
    (rest = [] ∨ N.of_nat (length (found fetch taken)) = getResultsPerPage options).
Proof.
  intros Hfetch.
  destruct (fetchPage_ok fetch (length it) (getResultsPerPage options) it None []) as (dn & rest & Hit & Hf & Hend);
    [lia|simpl; lia|by apply Forall_forall|].
  cbn [app] in *. exists dn, rest. split; [done|]. split; [rewrite Hf; by destruct (last dn)|done].
Qed.

(** The page of the IDs that match. *)
Lemma selected_page fetch st t cursor options B : (∀ x, bm_Contains B x = true ↔ matches st t x) →
  (∀ x, live_id st x → ∃ d, fetch x = Ok d) →
  let it := bm_ReverseIterator (applyCursor B cursor) in
  ∃ taken rest, selected st t cursor (taken ++ rest) ∧ (∀ x, x ∈ taken → live_id st x) ∧
    fetchPage fetch (length it) (getResultsPerPage options) it None [] = Ok (found fetch taken, rest, last taken) ∧
    (N.of_nat (length (found fetch taken)) ≤ getResultsPerPage options)%N ∧
    (rest = [] ∨ N.of_nat (length (found fetch taken)) = getResultsPerPage options).
Proof.
  intros HB Hfetch it. assert (selected st t cursor it) as Hsel.
  { split; [apply ReverseIterator_sorted|]. intros x. unfold it. by rewrite ReverseIterator_elem, applyCursor_Contains, (HB x). }
  assert (∀ x, x ∈ it → live_id st x) as Hlive.
  { intros x Hx. apply Hsel in Hx as [(a & e & He & _) _]. by exists a, e. }
  destruct (listed_page fetch it options) as (dn & rest & Hit & Hend); [intros x Hx; by apply Hfetch, Hlive|].
  exists dn, rest. rewrite <-Hit. split; [done|]. split; [|done].
  intros x Hx. apply Hlive. rewrite Hit. apply elem_of_app. by left.
Qed.

Lemma Query_ok σ n st queryStr t options cursor :
  answerable σ n st queryStr t → atBlockOf options = n → getCursor options = Ok cursor →
  ∃ ids data, selected st t cursor ids ∧
    let k := N.to_nat (getResultsPerPage options) in
    shows st (getIncludeData options) (take k ids) data ∧
    Query ParseString σ queryStr options =
      Ok (mkQueryResponse data (response_block σ n) (nextCursor (drop k ids) (last (take k ids)))).
Proof.
  intros [R Hall Hp Ht Hleaves] Hat Hc.
  destruct (query_ok σ n st t R Hall Ht Hleaves) as (ast & B & Hast & HB & Hx).
  set (it := bm_ReverseIterator (applyCursor B cursor)).
  assert (selected st t cursor it) as Hsel.
  { split; [apply ReverseIterator_sorted|]. intros x. unfold it. by rewrite ReverseIterator_elem, applyCursor_Contains, (Hx x). }
  set (fetch := fetchID σ n (getIncludeData options)).
  destruct (fetchPage_all fetch (getResultsPerPage options) it) as [Hf HF].
  { intros id Hid. apply Hsel in Hid as [(a & e & Ha & _) _]. eexists. by eapply fetchID_ok. }
  exists it, (found fetch (take (N.to_nat (getResultsPerPage options)) it)). split; [done|]. split.
  - apply Forall2_same_length_lookup. apply Forall2_same_length_lookup in HF as [Hlen HF]. split; [exact Hlen|].
    intros i x d Hxi Hdi. specialize (HF i x d Hxi Hdi).
    assert (x ∈ it) as Hin.
    { rewrite <-(take_drop (N.to_nat (getResultsPerPage options)) it). apply elem_of_app. left. by eapply list_elem_of_lookup_2. }
    apply Hsel in Hin as [(a & e & Ha & _) _]. exists a, e. split; [done|].
    unfold fetch in HF. rewrite (fetchID_ok _ _ _ _ _ _ _ R Ha) in HF. congruence.
  - unfold Query, respond, Parse. rewrite Hp. wrap_step. rewrite Hast. wrap_step. rewrite Hat.
    cbn [backend_querier store_backend]. rewrite HB. wrap_step. rewrite Hc. bind_step.
    fold it fetch. rewrite Hf. reflexivity.
Qed.

(** ** Following the cursors *)

Lemma descending_NoDup (l : list N) : StronglySorted (λ x y, y < x)%N l → NoDup l.
Proof.
  induction 1 as [|x l Hl IH Hx]; constructor; [|done]. intros Hin. rewrite Forall_forall in Hx. specialize (Hx _ Hin). lia.
Qed.

Lemma selected_unique st t cursor l1 l2 : selected st t cursor l1 → selected st t cursor l2 → l1 = l2.
Proof.
  intros [S1 H1] [S2 H2].
  eapply (StronglySorted_unique_strong (λ x y, y < x)%N); [|exact S1|exact S2|].
  - intros x y _ _ ? ?. lia.
  - apply NoDup_Permutation; [by apply descending_NoDup..|]. intros x. by rewrite H1, H2.
Qed.

Lemma shows_unique st inc ids data data' : abs_wf st → shows st inc ids data → shows st inc ids data' → data = data'.
Proof.
  intros W Hd. revert data'. induction Hd as [|x d ids data (a & e & Ha & ->) _ IH]; intros data' Hd';
    inversion Hd' as [|? d' ? ? (a' & e' & Ha' & ->) Hrest]; subst; [done|].
  pose proof (wf_inj _ W _ _ _ _ _ Ha Ha') as <-. rewrite Ha in Ha'. injection Ha' as <-. f_equal. by apply IH.
Qed.

(** Two stores that both answer a query for the same state give the same
    answer. *)
Lemma Query_same σ σ' n st queryStr t options cursor :
  answerable σ n st queryStr t → answerable σ' n st queryStr t → atBlockOf options = n → getCursor options = Ok cursor →
  response_block σ n = response_block σ' n → Query ParseString σ queryStr options = Query ParseString σ' queryStr options.
Proof.
  intros A A' Hat Hc Hb. destruct (Query_ok _ _ _ _ _ _ _ A Hat Hc) as (ids & data & S & D & ->).
  destruct (Query_ok _ _ _ _ _ _ _ A' Hat Hc) as (ids' & data' & S' & D' & ->).
  pose proof (selected_unique _ _ _ _ _ S' S) as ->. rewrite Hb. do 2 f_equal.
  eapply shows_unique; [|exact D|exact D']. eapply state_at_wf, A.
Qed.

(** What is left after a page is what the cursor of its last ID selects. *)
Lemma selected_next st t cursor n ids id :
  selected st t cursor ids → last (take n ids) = Some id → selected st t (Some id) (drop n ids).
Proof.
  intros [Hs Hids] Hl. apply last_Some in Hl as [l Hl].
  assert (ids = l ++ id :: drop n ids) as Hids'.
  { rewrite <-(take_drop n ids) at 1. by rewrite Hl, <-app_assoc. }
  set (rest := drop n ids) in *. clearbody rest. subst ids. clear Hl.
  apply StronglySorted_app in Hs as (Hlt & _ & Hs).
  apply StronglySorted_cons in Hs as [HF Hs]. split; [exact Hs|]. intros x. split.
  - intros Hx. split; [apply Hids, elem_of_app; right; apply elem_of_cons; by right|]. cbn.
    rewrite Forall_forall in HF. by apply HF.
  - cbn. intros [Hm Hlx]. assert (matches st t id ∧ below_cursor cursor id) as [_ Hb].
    { apply Hids, elem_of_app. right. apply elem_of_cons. by left. }
    assert (x ∈ l ++ id :: rest) as Hin.
    { apply Hids. split; [done|]. destruct cursor; cbn in *; [lia|done]. }
    apply elem_of_app in Hin as [Hin|Hin].
    + specialize (Hlt x id Hin ltac:(apply elem_of_cons; by left)). cbn in Hlt. lia.
    + apply elem_of_cons in Hin as [->|?]; [lia|done].
Qed.

Definition with_cursor (o : option Options) (c : bytes) : option Options :=
  match o with
  | None => Some (mkOptions None None None c)
  | Some o => Some (mkOptions (opt_AtBlock o) (opt_IncludeData o) (opt_ResultsPerPage o) c)
  end.

(** A client that asks for page after page until a response has no cursor. *)
Fixpoint follow (fuel : nat) (σ : Store) (queryStr : bytes) (options : option Options) : result (list EntityData) :=
  match fuel with
  | O => Err (Errorf "out of fuel")
  | S fuel =>
      resp ← Query ParseString σ queryStr options;
      match qr_Cursor resp with
      | None => Ok (qr_Data resp)
      | Some c => more ← follow fuel σ queryStr (with_cursor options c); Ok (qr_Data resp ++ more)
      end
  end.

Lemma matches_u64 σ n st t x : readable σ n st → matches st t x → is_u64 x.
Proof. intros R (a & e & Ha & _). by destruct (wf_id _ (state_at_wf _ _ _ (rb_state _ _ _ R)) _ _ _ Ha) as [_ [? _]]. Qed.

Lemma follow_ok fuel σ n st queryStr t options cursor ids :
  answerable σ n st queryStr t → atBlockOf options = n → getCursor options = Ok cursor →
  getResultsPerPage options ≠ 0%N → selected st t cursor ids → (length ids < fuel)%nat →
  ∃ data, follow fuel σ queryStr options = Ok data ∧ shows st (getIncludeData options) ids data.
Proof.
  intros A. revert options cursor ids. induction fuel as [|fuel IH]; intros options cursor ids Hat Hc Hn Hsel Hf; [lia|].
  destruct (Query_ok _ _ _ _ _ _ _ A Hat Hc) as (ids' & data & Hsel' & Hshow & HQ).
  pose proof (selected_unique _ _ _ _ _ Hsel' Hsel) as ->. cbn [follow]. rewrite HQ. cbn [mbind result_bind qr_Cursor qr_Data].
  set (k := N.to_nat (getResultsPerPage options)) in *. assert (1 ≤ k)%nat as Hn' by (subst k; lia).
  destruct (drop k ids) as [|y rest] eqn:Hd; cbn [nextCursor].
  { exists data. split; [done|]. rewrite <-(take_drop k ids), Hd, app_nil_r. exact Hshow. }
  destruct (last (take k ids)) as [id|] eqn:Hl.
  2:{ apply last_None in Hl. apply (f_equal length) in Hl, Hd. rewrite length_take in Hl. rewrite length_drop in Hd. simpl in *. lia. }
  pose proof (selected_next _ _ _ _ _ _ Hsel Hl) as Hnext. rewrite Hd in Hnext.
  assert (is_u64 id) as Hid.
  { eapply (matches_u64 σ n st t); [apply A|]. apply last_Some in Hl as [l Hl].
    apply (proj2 Hsel id). rewrite <-(take_drop k ids), Hl. apply elem_of_app. left. apply elem_of_app. right. by apply list_elem_of_singleton. }
  destruct (IH (with_cursor options (hexutil_EncodeUint64 id)) (Some id) (y :: rest)) as (more & Hmore & Hshow').
  - by destruct options.
  - pose proof (hexutil_nonempty id) as Hne. pose proof (hexutil_roundtrip id Hid) as Hrt.
    destruct options; cbn; (destruct (hexutil_EncodeUint64 id) eqn:Eid; [done|]); rewrite Hrt; done.
  - by destruct options.
  - exact Hnext.
  - apply (f_equal length) in Hd. rewrite length_drop in Hd. simpl in *. lia.
  - rewrite Hmore. cbn. eexists. split; [done|]. rewrite <-(take_drop k ids), Hd. apply Forall2_app; [exact Hshow|].
    by destruct options.
Qed.

(** No more IDs are selected than there are entities. *)
Lemma selected_size σ n st t cursor ids : readable σ n st → selected st t cursor ids → (length ids ≤ size (abs_ents st))%nat.
Proof.
  intros R [Hs Hids]. transitivity (length (map (λ kv, kv.2.1) (map_to_list (abs_ents st)))); [|by rewrite length_map, length_map_to_list].
  apply submseteq_length, NoDup_submseteq.
  - by apply descending_NoDup.
  - intros x [(a & e & Ha & _) _]%Hids. apply (list_elem_of_fmap_2 (λ kv : Address * (N * Entity), kv.2.1) _ (a, (x, e))).
    by apply elem_of_map_to_list.
Qed.

End Queries.

(** ** Attributes *)

#[export] Instance attr_le_total {T} : Total (@attr_le T).
Proof. intros a b. apply bytes_le_total. Qed.
#[export] Instance attr_le_trans {T} : Transitive (@attr_le T).
Proof. intros a b c. apply bytes_le_trans. Qed.

(** The attributes a response can show, from the fields of the entity: its own,
    and those derived from it. *)
Definition string_attributes `{EthCommon} (e : Entity) : list (QueryAttribute bytes) :=
  ((λ a, mkQueryAttribute (sa_Key a) (sa_Value a)) <$> StringAnnotations e) ++
  [mkQueryAttribute (str "$owner") (Address_Hex (Owner e));
   mkQueryAttribute (str "$creator") (Address_Hex (Creator e));
   mkQueryAttribute (str "$key") (Hash_Hex (Key e))] ++
  match ContentType e with [] => [] | ct => [mkQueryAttribute (str "$contentType") ct] end.

Definition number_attributes (e : Entity) : list (QueryAttribute N) :=
  ((λ a, mkQueryAttribute (na_Key a) (na_Value a)) <$> NumericAnnotations e) ++
  [mkQueryAttribute (str "$expiration") (ExpiresAt e); mkQueryAttribute (str "$createdAtBlock") (CreatedAtBlock e)].

Lemma filter_map_key {A B} (f : A → B) (keep : B → bool) l :
  map f (filter (λ x, keep (f x) = true) l) = filter (λ y, keep y = true) (f <$> l).
Proof.
  induction l as [|x l IH]; [done|]. rewrite fmap_cons, !filter_cons. destruct (decide (keep (f x) = true)); cbn [map]; by rewrite IH.
Qed.

Lemma filter_single {A} (b : A → bool) (x : A) : filter (λ y, b y = true) [x] = if b x then [x] else [].
Proof. rewrite filter_cons, filter_nil. by destruct (b x). Qed.

Lemma filter_cons_if {A} (b : A → bool) (x : A) l :
  filter (λ y, b y = true) (x :: l) = (if b x then [x] else []) ++ filter (λ y, b y = true) l.
Proof. rewrite filter_cons. by destruct (b x). Qed.

(** Filtering by key commutes with the derived attributes. *)
Lemma stringAttrs_filter `{EthCommon} e keep :
  stringAttrs e keep = filter (λ a, keep (qa_Key a) = true) (string_attributes e).
Proof.
  unfold stringAttrs, string_attributes.
  rewrite filter_app, <-(filter_map_key _ (λ a, keep (qa_Key a))). f_equal.
  rewrite filter_app, !(filter_cons_if (λ a, keep (qa_Key a))), filter_nil, app_nil_r, <-!app_assoc. do 3 f_equal.
  destruct (ContentType e) as [|c ct]; [by rewrite andb_false_r|].
  rewrite (filter_single (λ a, keep (qa_Key a))), andb_true_r. done.
Qed.

Lemma numericAttrs_filter e keep :
  numericAttrs e keep = filter (λ a, keep (qa_Key a) = true) (number_attributes e).
Proof.
  unfold numericAttrs, number_attributes.
  rewrite filter_app, <-(filter_map_key _ (λ a, keep (qa_Key a))). f_equal.
  by rewrite !(filter_cons_if (λ a, keep (qa_Key a))), filter_nil, app_nil_r.
Qed.

(** The keys that the inclusion flags keep. *)
Definition kept_by (inc : IncludeData) (key : bytes) : bool :=
  if HasPrefix key (str "$") then inc_SyntheticAttributes inc else inc_Attributes inc.

Lemma keptAnnot_spec inc key :
  kept_by inc key = match keptAnnot inc with Some keep => keep key | None => false end.
Proof.
  unfold kept_by, keptAnnot, anyAnnot, userAnnot, syntheticAnnot.
  destruct (inc_Attributes inc), (inc_SyntheticAttributes inc); cbv beta iota delta [andb]; by destruct (HasPrefix key (str "$")).
Qed.

(** Filtering by the flags is filtering by the predicate they pick. *)
Lemma filter_kept {T} inc (l : list (QueryAttribute T)) : filter (λ a, kept_by inc (qa_Key a) = true) l =
  match keptAnnot inc with Some keep => filter (λ a, keep (qa_Key a) = true) l | None => [] end.
Proof.
  pose proof (keptAnnot_spec inc) as Hk. destruct (keptAnnot inc) as [keep|].
  - apply list_filter_iff. intros a. by rewrite Hk.
  - induction l as [|a l IH]; [done|]. rewrite filter_cons, decide_False; [done|]. by rewrite Hk.
Qed.

(** What a response shows. *)
Lemma shown_strings_ok `{EthCommon} e inc :
  StronglySorted attr_le (ed_StringAttributes (entityData e inc)) ∧
  ed_StringAttributes (entityData e inc) ≡ₚ filter (λ a, kept_by inc (qa_Key a) = true) (string_attributes e).
Proof.
  cbn [entityData ed_StringAttributes].
  rewrite (filter_kept inc (string_attributes e)). destruct (keptAnnot inc) as [keep|].
  - unfold sortedStringAttrs. split; [apply StronglySorted_merge_sort; apply _|].
    by rewrite merge_sort_Permutation, stringAttrs_filter.
  - by split; [constructor|].
Qed.

Lemma shown_numbers_ok `{EthCommon} e inc :
  StronglySorted attr_le (ed_NumericAttributes (entityData e inc)) ∧
  ed_NumericAttributes (entityData e inc) ≡ₚ filter (λ a, kept_by inc (qa_Key a) = true) (number_attributes e).
Proof.
  cbn [entityData ed_NumericAttributes].
  rewrite (filter_kept inc (number_attributes e)). destruct (keptAnnot inc) as [keep|].
  - unfold sortedNumericAttrs. split; [apply StronglySorted_merge_sort; apply _|].
    by rewrite merge_sort_Permutation, numericAttrs_filter.
  - by split; [constructor|].
Qed.

(** ** Shown and indexed attributes *)

Section Listed.
Context {E : Env}.

(** A pair of the index and the attribute of a response it lists: hexadecimal
    values are indexed in lower case, numbers as 8 bytes. *)
Definition lists_string (p : annotPair) (a : QueryAttribute bytes) : Prop :=
  pair_key p = qa_Key a ∧
  (pair_val p = qa_Value a ∨ address_valued (qa_Key a) = true ∧ pair_val p = ToLower (qa_Value a)).
Definition lists_number (p : annotPair) (a : QueryAttribute N) : Prop :=
  p = mkAnnotPair (qa_Key a) (PutUint64 (qa_Value a)).

(** The pairs of the index that no response shows. *)
Definition unreturned (e : Entity) : list annotPair := [
  mkAnnotPair (str "$all") (str "true");
  mkAnnotPair (str "$lastModifiedAtBlock") (PutUint64 (LastModifiedAtBlock e));
  mkAnnotPair (str "$contentType") []].

Lemma lists_lower k v : address_valued k = true → lists_string (mkAnnotPair k (ToLower v)) (mkQueryAttribute k v).
Proof. intros Hk. split; [done|]. by right. Qed.
Lemma lists_same k v : lists_string (mkAnnotPair k v) (mkQueryAttribute k v).
Proof. split; [done|]. by left. Qed.

(** The pair of each derived attribute is in the index. *)
Lemma builtin_elem e i p : builtinAnnotations e !! i = Some p → p ∈ allAnnotations e.
Proof. intros Hi%list_elem_of_lookup_2. apply elem_of_app. by left. Qed.

Lemma string_attributes_listed e a : a ∈ string_attributes e → ∃ p, p ∈ allAnnotations e ∧ lists_string p a.
Proof.
  unfold string_attributes. rewrite !elem_of_app, !elem_of_cons, elem_of_nil.
  intros [(x & -> & Hx)%list_elem_of_fmap|[[->|[->|[->|[] ] ] ]|Hc] ].
  - eexists. split; [|apply lists_same]. apply elem_of_app. right. apply elem_of_app. left. by apply (list_elem_of_fmap_2 (λ a, mkAnnotPair (sa_Key a) (sa_Value a))).
  - eexists. split; [by apply (builtin_elem e 4)|by apply lists_lower].
  - eexists. split; [by apply (builtin_elem e 1)|by apply lists_lower].
  - eexists. split; [by apply (builtin_elem e 5)|by apply lists_lower].
  - destruct (ContentType e) as [|c ct] eqn:Ec; [by apply elem_of_nil in Hc|]. apply list_elem_of_singleton in Hc as ->.
    rewrite <-Ec. eexists. split; [by apply (builtin_elem e 7)|apply lists_same].
Qed.

Lemma number_attributes_listed e a : a ∈ number_attributes e → ∃ p, p ∈ allAnnotations e ∧ lists_number p a.
Proof.
  unfold number_attributes. rewrite !elem_of_app, !elem_of_cons, elem_of_nil.
  intros [(x & -> & Hx)%list_elem_of_fmap|[->|[->|[] ] ] ]; (eexists; split; [|reflexivity]).
  - apply elem_of_app. right. apply elem_of_app. right. by apply (list_elem_of_fmap_2 (λ a, mkAnnotPair (na_Key a) (numericVal (na_Value a)))).
  - by apply (builtin_elem e 6).
  - by apply (builtin_elem e 2).
Qed.

(** Every other pair of the index is that of an attribute. *)
Lemma listed_shown e p : p ∈ allAnnotations e → p ∈ unreturned e ∨
  (∃ a, a ∈ string_attributes e ∧ lists_string p a) ∨ (∃ a, a ∈ number_attributes e ∧ lists_number p a).
Proof.
  assert (∀ a, a ∈ [mkQueryAttribute (str "$owner") (Address_Hex (Owner e)); mkQueryAttribute (str "$creator") (Address_Hex (Creator e));
    mkQueryAttribute (str "$key") (Hash_Hex (Key e))] → a ∈ string_attributes e) as Hd.
  { intros a Ha. apply elem_of_app. right. apply elem_of_app. by left. }
  assert (∀ a, a ∈ [mkQueryAttribute (str "$expiration") (ExpiresAt e); mkQueryAttribute (str "$createdAtBlock") (CreatedAtBlock e)] →
    a ∈ number_attributes e) as Hn.
  { intros a Ha. apply elem_of_app. by right. }
  intros [Hp|[Hp|Hp]%elem_of_app]%elem_of_app.
  - unfold builtinAnnotations in Hp. rewrite !elem_of_cons, elem_of_nil in Hp.
    destruct Hp as [->|[->|[->|[->|[->|[->|[->|[->|[] ] ] ] ] ] ] ] ].
    + left. apply elem_of_cons. by left.
    + right. left. eexists. split; [apply Hd|by apply lists_lower]. apply elem_of_cons. right. apply elem_of_cons. by left.
    + right. right. exists (mkQueryAttribute (str "$createdAtBlock") (CreatedAtBlock e)). split; [apply Hn|reflexivity]. apply elem_of_cons. right. by apply list_elem_of_singleton.
    + left. apply elem_of_cons. right. apply elem_of_cons. by left.
    + right. left. eexists. split; [apply Hd|by apply lists_lower]. apply elem_of_cons. by left.
    + right. left. eexists. split; [apply Hd|by apply lists_lower]. do 2 (apply elem_of_cons; right). by apply list_elem_of_singleton.
    + right. right. exists (mkQueryAttribute (str "$expiration") (ExpiresAt e)). split; [apply Hn|reflexivity]. apply elem_of_cons. by left.
    + destruct (ContentType e) as [|c ct] eqn:Ec; [left; do 2 (apply elem_of_cons; right); by apply list_elem_of_singleton|].
      right. left. exists (mkQueryAttribute (str "$contentType") (c :: ct)). split; [|apply lists_same].
      apply elem_of_app. right. apply elem_of_app. right. rewrite Ec. by apply list_elem_of_singleton.
  - apply list_elem_of_fmap in Hp as (x & -> & Hx). right. left. eexists. split; [|apply lists_same].
    apply elem_of_app. left. by apply (list_elem_of_fmap_2 (λ a, mkQueryAttribute (sa_Key a) (sa_Value a))).
  - apply list_elem_of_fmap in Hp as (x & -> & Hx). right. right. exists (mkQueryAttribute (na_Key x) (na_Value x)). split; [|reflexivity].
    apply elem_of_app. left. by apply (list_elem_of_fmap_2 (λ a, mkQueryAttribute (na_Key a) (na_Value a))).
Qed.
End Listed.
