(* ===== verification/SessionReads.v ===== *)
(** What a session serves: the blocks of its chain by number, and queries at any
    of them, also of states whose IDs a revert has dropped from the caches. *)
From S2P Require Export SessionProofs ServerProofs.

Section SessionReads.
Context {E : Env} {EO : EnvOk} {CF : CollisionFree} {HX : Hexutil} {HXO : HexutilOk}.

(** The links that are blocks: all but the base. *)
Definition ch_blocks (c : Chain) : list Link := removelast (ch_links c).

(** The link a query number names: 0 is the head. *)
Definition link_at (c : Chain) (n : N) (l : Link) : Prop :=
  n = 0%N ∧ l = ch_head c ∨ l ∈ ch_blocks c ∧ n = ln_number l.

Lemma removelast_elem {A} (l : list A) x : x ∈ removelast l → x ∈ l.
Proof.
  induction l as [|y l IH]; [done|]. cbn [removelast]. destruct l as [|z l]; [by intros ?%elem_of_nil|].
  intros [->|Hx]%elem_of_cons; apply elem_of_cons; auto.
Qed.

Lemma linked_blocks g h older l : linked g h older → l ∈ removelast (h :: older) →
  ln_number l ≠ 0%N ∧ g (blockNumberKey (ln_number l)) = Some (array_bytes (ln_hash l)) ∧ is_Some (g (rootKey (ln_hash l))).
Proof.
  revert h. induction older as [|p rest IH]; intros h; [by intros _ ?%elem_of_nil|].
  intros (Hn & _ & Hb & _ & Hr & _ & _ & Hk). change (removelast (h :: p :: rest)) with (h :: removelast (p :: rest)).
  intros [->|Hl]%elem_of_cons; [|by eapply IH]. split_and!; [lia|done|done].
Qed.

Lemma block_state_at σ c l : served σ c → l ∈ ch_blocks c → state_at σ (ln_number l) (ln_state l).
Proof.
  intros S Hl. destruct (linked_blocks _ _ _ _ (sv_linked _ _ S) Hl) as (Hz & Hb & Hr).
  destruct (link_repr _ _ _ S (removelast_elem _ _ Hl)) as (root & [Ha|[Hn _]] & Hs); [|rewrite Hn in Hr; by destruct Hr].
  by eapply state_at_block.
Qed.

Lemma link_state_at σ c n l : served σ c → link_at c n l → state_at σ n (ln_state l).
Proof. intros S [[-> ->]|[Hl ->]]; [by apply state_at_head, S|by eapply block_state_at]. Qed.

Lemma link_at_elem c n l : link_at c n l → l ∈ ch_links c.
Proof. intros [[_ ->]|[Hl _]]; [apply elem_of_cons; by left|by apply removelast_elem]. Qed.

(** IDs resolve exactly as the chain says. *)
Lemma served_IDToAddress σ c id : served σ c → is_u64 id → IDToAddress σ id = ch_cached c !! id.
Proof.
  intros S Hu. unfold IDToAddress. destruct (ch_cached c !! id) as [a|] eqn:Hc.
  - apply (sv_ids _ _ S) in Hc; [|done]. apply kv_Get_lookup in Hc as ->. cbn. rewrite array_length. cbn. by rewrite BytesToAddress_bytes.
  - destruct (store_reader σ (idKey id)) as [v|] eqn:Hg.
    + destruct (dw_id _ (hr_db _ _ (sv_repr _ _ S)) (idKey id) _ (prefix_app_r _ _ _ (reflexivity _)) Hg) as (i & a & Hi & Ek & ->).
      apply (sv_ids _ _ S) in Hg; [congruence|done].
    + destruct (kv_Get_None _ _ Hg) as [e He]. unfold store_reader in He. by rewrite He.
Qed.

Definition resolves (c : Chain) (x : N) : Prop := is_Some (ch_cached c !! x).

Lemma fetchID_session σ c n l inc a x e : served σ c → link_at c n l → abs_ents (ln_state l) !! a = Some (x, e) →
  fetchID σ n inc x = Ok (if decide (resolves c x) then Some (entityData e inc) else None).
Proof.
  intros S Hl Ha. pose proof (link_wf _ _ _ S (link_at_elem _ _ _ Hl)) as W.
  assert (is_u64 x) as Hu by (by destruct (wf_id _ W _ _ _ Ha) as [_ [? _]]).
  unfold fetchID, resolves. cbn [b_IDToAddress store_backend]. rewrite (served_IDToAddress _ _ _ S Hu).
  destruct (ch_cached c !! x) as [b|] eqn:Hc; [|by rewrite decide_False by (by intros [? ?])].
  rewrite decide_True by (by eexists). pose proof (sv_agree _ _ S _ _ _ _ _ (link_at_elem _ _ _ Hl) Ha Hc) as ->.
  pose proof (fetchEntityData_ok σ n _ a inc (link_state_at _ _ _ _ S Hl)) as Hf. rewrite Ha in Hf. by rewrite Hf.
Qed.

#[export] Instance resolves_dec c x : Decision (resolves c x).
Proof. unfold resolves. apply _. Defined.

Lemma found_session σ c n l inc ids : served σ c → link_at c n l → (∀ x, x ∈ ids → live_id (ln_state l) x) →
  shows (ln_state l) inc (filter (resolves c) ids) (found (fetchID σ n inc) ids).
Proof.
  intros S Hl. induction ids as [|x ids IH]; intros Hlive; [constructor|].
  destruct (Hlive x ltac:(apply elem_of_cons; by left)) as (a & e & Ha).
  assert (shows (ln_state l) inc (filter (resolves c) ids) (found (fetchID σ n inc) ids)) as IH'.
  { apply IH. intros y Hy. apply Hlive, elem_of_cons. by right. }
  unfold found in *. cbn [omap list_omap]. rewrite (fetchID_session _ _ _ _ _ _ _ _ S Hl Ha), filter_cons.
  destruct (decide (resolves c x)); cbn; [|done]. constructor; [|done]. by exists a, e.
Qed.

End SessionReads.
