(* ===== verification/Stepwise.v ===== *)
(** Reverts past what the caches cover: the head and the trie are restored, the
    ID mappings are not (src/store/store.go: revertToAncestor, src/store/revert.go). *)
From S2P Require Export SessionReads.

Section Stepwise.
Context {E : Env} {EO : EnvOk} {CF : CollisionFree}.

(** ** A revert without coverage *)

Record reverted_to (σ : Store) (number : N) (anc root : Hash) (st : AbsState) (σ' : Store) : Prop := {
  rt_head : headRoot σ' = root ∧ headHash σ' = anc ∧ headNumber σ' = number;
  rt_state : state_at σ' 0 st;
  rt_absent dk : cache_key dk → store_reader σ (key_bytes dk) = None → store_reader σ' (key_bytes dk) = None;
}.

(** What the batch of a revert is, whatever the caches hold. *)
Lemma revertBatch_run σ st refs oldest anc root st' b n h r :
  head_repr σ st → store_reader σ (parentKey (ref_Hash oldest)) = Some (array_bytes anc) →
  ancestor_repr (store_reader σ) anc root st' → revertBatch σ oldest refs = Ok (b, (n, h, r)) →
  Forall revert_op b ∧ n = (ref_Number oldest - 1)%N ∧ h = anc ∧ r = root.
Proof.
  intros R Hp An. unfold revertBatch. apply kv_Get_lookup in Hp as ->. wrap_step.
  rewrite BytesToHash_bytes, (ancestorRootOf_ok _ _ _ _ An). bind_step.
  destruct (an_repr _ _ _ _ An) as (s & Hs & Sn). rewrite Hs. wrap_step.
  pose proof (repopulatePebbleDB_ok (rawDB σ) s (hr_db _ _ R)) as Hrp.
  destruct (repopulatePebbleDB (rawDB σ) [] s) as [b0|err|]; cbn [wrap mbind result_bind]; [|done..].
  rewrite pred_guard. intros [= <- <- <- <-]. split_and!; [|done..].
  apply Forall_app. split; [by apply deleteBlockIndex_fold, Hrp|]. apply Forall_singleton. by left.
Qed.

Lemma revertToAncestor_any σ st refs oldest anc root st' u σ' :
  head_repr σ st → last refs = Some oldest → store_reader σ (parentKey (ref_Hash oldest)) = Some (array_bytes anc) →
  ancestor_repr (store_reader σ) anc root st' → revertToAncestor σ refs = (Ok u, σ') →
  reverted_to σ (ref_Number oldest - 1) anc root st' σ'.
Proof.
  intros R Hl Hp An. unfold revertToAncestor. rewrite Hl.
  destruct (revertBatch σ oldest refs) as [[b [[n h] r] ]|e|] eqn:Eb; cbn [applyRevert]; [|done..].
  destruct (revertBatch_run _ _ _ _ _ _ _ _ _ _ _ R Hp An Eb) as (Hb & -> & -> & ->).
  destruct (kv_Write (rawDB σ) b) as [d|e|] eqn:Ew; [|done..]. intros [= _ <-]. pose proof (kv_Write_spec _ _ _ Ew) as Hd.
  destruct (an_repr _ _ _ _ An) as (s & Hs & Sn). split; [done|..].
  - destruct (state_New_ext (store_reader σ) (kv_lookup d) root s) as (s' & Hs' & Hsame); [|done|].
    { intros k Hk. rewrite Hd. by apply revert_batch_trie. }
    exists s'. split; [exact Hs'|]. eapply snapshot_same; [exact Hsame|]. eapply snapshot_grows; [|exact Sn].
    exact (grows_trans _ _ _ (revert_batch_grows b _ Hb) (grows_eq _ _ Hd)).
  - intros dk Hc Hn. unfold store_reader. cbn [rawDB]. rewrite Hd.
    destruct (overlay b (kv_lookup (rawDB σ)) (key_bytes dk)) as [v|] eqn:Ev; [|done]. exfalso.
    destruct (revert_batch_value _ _ _ _ Hb Ev) as [Hv|[Hk|(p & _ & Hk)] ]; [unfold store_reader in Hn; congruence|..];
      destruct dk; done || discriminate Hk.
Qed.
(** ** Operations on an entity whose ID is not cached *)

(** The account an operation other than a creation acts on. *)
Definition op_target (op : ArkivOperation) : option Address :=
  match op_Create op with Some _ => None | None =>
  match op_Update op with Some o => Some (keyAddress (update_EntityKey o)) | None =>
  match op_Delete op with Some o => Some (keyAddress (delete_EntityKey o)) | None =>
  match op_Extend op with Some o => Some (keyAddress (extend_EntityKey o)) | None =>
  match op_Transfer op with Some o => Some (keyAddress (transfer_EntityKey o)) | None =>
  match op_Expire op with Some o => Some (keyAddress (expire_EntityKey o)) | None => None
  end end end end end end.

Lemma lookupEntityID_absent cs a n : staging_reader (stagingDB cs) (addrKey a) = None → lookupEntityID cs a ≠ Ok n.
Proof.
  intros Hn. unfold lookupEntityID. destruct (staging_Get (stagingDB cs) (addrKey a)) as [v|e|] eqn:Hg; [|done..].
  apply staging_Get_Some in Hg. congruence.
Qed.

Lemma getEntity_staging cs a e cs' : getEntity cs a = Ok (e, cs') → stagingDB cs' = stagingDB cs.
Proof.
  unfold getEntity. destruct (dirtyEntities cs !! a); [by intros [= _ <-]|].
  destruct (_ =? 0)%nat; [done|]. by intros (x & _ & [= _ <-])%bind_Ok.
Qed.

(** All five operations look the ID up right after they load the entity. *)
Lemma loaded_absent {A} cs a (k : Entity → CacheStore → N → result A) x :
  staging_reader (stagingDB cs) (addrKey a) = None →
  ('(e, cs') ← getEntity cs a; id ← lookupEntityID cs' a; k e cs' id) ≠ Ok x.
Proof.
  intros Hn ([e cs'] & Hg & (id & Hi & _)%bind_Ok)%bind_Ok. apply getEntity_staging in Hg.
  eapply lookupEntityID_absent; [|exact Hi]. by rewrite Hg.
Qed.

Lemma applyOp_absent cs op a cs' : staging_reader (stagingDB cs) (addrKey a) = None → op_target op = Some a →
  applyOp cs op ≠ Ok cs'.
Proof.
  intros Hn. unfold op_target, applyOp. destruct (op_Create op); [done|].
  destruct (op_Update op); [intros [= <-]; by apply (loaded_absent cs)|].
  destruct (op_Delete op); [intros [= <-]; by apply (loaded_absent cs)|].
  destruct (op_Extend op); [intros [= <-]; by apply (loaded_absent cs)|].
  destruct (op_Transfer op); [intros [= <-]; by apply (loaded_absent cs)|].
  destruct (op_Expire op); [intros [= <-]; by apply (loaded_absent cs)|done].
Qed.

(** A block whose first operation acts on such an entity fails. *)
Definition starts_on (b : ArkivBlock) (a : Address) : Prop :=
  ∃ op ops, block_ops b = op :: ops ∧ op_target op = Some a.

Lemma ProcessBlock_absent σ b a root σ' : store_reader σ (addrKey a) = None → starts_on b a →
  ProcessBlock σ b ≠ (Ok root, σ').
Proof.
  intros Hn (op & ops & Hb & Ha). unfold ProcessBlock, processBlock.
  destruct (cs ← openBlock σ b; _) as [cs|e|] eqn:Hr; [|done..]. exfalso.
  apply bind_Ok in Hr as (cs0 & Ho & Hf). rewrite applyTransactions_ops in Hf.
  change (concat (map tx_ops (block_Transactions b))) with (block_ops b) in Hf. rewrite Hb in Hf. cbn [foldM] in Hf.
  apply bind_Ok in Hf as (cs1 & H1 & _). unfold openBlock, newCacheStore in Ho.
  apply bind_Ok in Ho as (cs2 & H2 & [= <-]). apply bind_Ok in H2 as (sdb & _ & [= <-]).
  unfold ApplyOp in H1. destruct (applyOp _ op) as [cs3|e|] eqn:Hop; [|done..].
  eapply applyOp_absent; [|exact Ha|exact Hop]. cbn. by rewrite newStagingDB_reader.
Qed.

(** ** Undoing in one call and in two *)

Lemma abs_undo_undo i j c c1 c2 : abs_undo i c = Some c1 → abs_undo (i + j) c = Some c2 →
  ∃ c2', abs_undo j c1 = Some c2' ∧ ch_head c2' = ch_head c2.
Proof.
  unfold abs_undo. intros H1. rewrite <-drop_drop.
  destruct (drop i (ch_links c)) as [|l rest]; [done|]. injection H1 as <-.
  change (ch_links (mkChain l rest _)) with (l :: rest). destruct (drop j (l :: rest)); [done|].
  intros [= <-]. by eexists.
Qed.

Lemma ancestor_root_eq g g' h r r' st st' : ancestor_repr g h r st → ancestor_repr g' h r' st' →
  g' (rootKey h) = g (rootKey h) → r' = r.
Proof.
  intros [[H1|[H1 ->] ] _] [[H2|[H2 ->] ] _] Hg; rewrite Hg in H2; [|congruence..|done].
  rewrite H1 in H2. injection H2 as H2. by apply array_bytes_inj in H2.
Qed.

(** The outcome of undoing blocks, as far as the database goes. *)
Lemma undo_post σ c k c' h σ' : served σ c → can_undo k c → abs_undo k c = Some c' →
  RevertBlocks σ (undo_refs k c) = (Ok h, σ') →
  served σ' c' ∧ ∃ root, ancestor_repr (store_reader σ) (ln_hash (ch_head c')) root (ch_state c') ∧
    revert_post σ (undo_refs k c) (ln_number (ch_head c')) (ln_hash (ch_head c')) root (ch_state c') σ'.
Proof.
  intros S (Hk & c0 & Hu0 & C) Hu Hr. rewrite Hu in Hu0. injection Hu0 as <-.
  destruct (undo_target _ _ _ _ S Hk Hu) as (o & root & Hlast & Hp & Hn & _ & An & _).
  rewrite (RevertBlocks_last _ _ _ Hlast) in Hr. pose proof (undo_served _ _ _ _ S Hk Hu C) as S'.
  assert (abs_wf (ch_state c')) as W by (destruct (an_repr _ _ _ _ An) as (s & _ & Sn); apply Sn).
  pose proof (revertToAncestor_ok _ _ _ _ _ _ _ (sv_repr _ _ S) Hlast Hp An (served_cover _ _ _ S W C)) as V.
  destruct (revertToAncestor _ _) as [[[]|e|] σ1]; [|done..]. injection Hr as _ <-. split; [done|]. exists root.
  split; [done|]. by replace (ln_number (ch_head c')) with (ref_Number o - 1)%N by lia.
Qed.

(** Undoing blocks beyond coverage. *)
Lemma undo_any σ c k c' h σ' : served σ c → k ≠ O → abs_undo k c = Some c' →
  RevertBlocks σ (undo_refs k c) = (Ok h, σ') →
  ∃ root, ancestor_repr (store_reader σ) (ln_hash (ch_head c')) root (ch_state c') ∧
    reverted_to σ (ln_number (ch_head c')) (ln_hash (ch_head c')) root (ch_state c') σ'.
Proof.
  intros S Hk Hu Hr. destruct (undo_target _ _ _ _ S Hk Hu) as (o & root & Hlast & Hp & Hn & _ & An & _).
  rewrite (RevertBlocks_last _ _ _ Hlast) in Hr. destruct (revertToAncestor _ _) as [[u|e|] σ1] eqn:Ev; [|done..].
  injection Hr as _ <-. exists root. split; [done|].
  pose proof (revertToAncestor_any _ _ _ _ _ _ _ _ _ (sv_repr _ _ S) Hlast Hp An Ev) as H.
  by replace (ln_number (ch_head c')) with (ref_Number o - 1)%N by lia.
Qed.

(** What is left are links of the chain. *)
Lemma undo_elem k c c' l : abs_undo k c = Some c' → l ∈ ch_links c' → l ∈ ch_links c.
Proof. intros [-> _]%abs_undo_split Hl. apply elem_of_app. by right. Qed.

Lemma link_at_head c : link_at c 0 (ch_head c).
Proof. by left. Qed.

Lemma IDToAddress_absent σ x : store_reader σ (idKey x) = None → IDToAddress σ x = None.
Proof. intros Hn. unfold IDToAddress. destruct (kv_Get_None _ _ Hn) as [e ->]. done. Qed.

Lemma served_resolves σ c a x e : served σ c → abs_ents (ch_state c) !! a = Some (x, e) → IDToAddress σ x = Some a.
Proof.
  intros S Ha. assert (is_u64 x) as Hx by (by destruct (wf_id _ (served_wf _ _ S) _ _ _ Ha) as [_ [? _] ]).
  rewrite (served_IDToAddress _ _ _ S Hx). exact (served_covered _ _ S _ _ _ Ha).
Qed.
End Stepwise.
