(* ===== verification/Race.v ===== *)
(** A query that races commits (src/query/server.go: Query).  The handler makes
    one backend call after another and holds no lock across them, so the store
    may have moved on between the evaluation and the fetch of an entity.  The
    calls of one query are answered here by the stores of their moments. *)
From S2P Require Export ServerProofs ReorgProofs.

(** The stores that answer the calls of one query: one for the head number, one
    for the evaluation, and one for each call of [IDToAddress] and
    [GetEntityBytes] (an ID is looked up once, and so is its address). *)
Record Moments `{E : Env} := mkMoments {
  at_head : Store;
  at_eval : Store;
  at_id : N → Store;
  at_get : Address → Store;
}.
Arguments mkMoments {_} _ _ _ _.

#[export] Instance moments_backend `{E : Env} : Backend Moments := {
  backend_querier := {|
    q_ReadAnnotBitmap m := ReadAnnotBitmap (at_eval m);
    q_AllEntities m := AllEntities (at_eval m);
    q_IterateNumeric m := IterateNumericAnnotBitmaps (at_eval m);
    q_IterateString m := IterateStringAnnotBitmaps (at_eval m);
    q_IteratePrefix m := IteratePrefixAnnotBitmaps (at_eval m);
    q_IterateGlob m := IterateGlobAnnotBitmaps (at_eval m) |};
  b_HeadNumber m := HeadNumber (at_head m);
  b_IDToAddress m id := IDToAddress (at_id m id) id;
  b_GetEntityBytes m n a := GetEntityBytes (at_get m a) n a;
}.

Section Race.
Context {E : Env} {EO : EnvOk} {CF : CollisionFree} {HX : Hexutil} {HXO : HexutilOk}.

(** The stores, with their states, that commits lead to. *)
Inductive advanced (σ : Store) (st : AbsState) : Store → AbsState → Prop :=
  | advanced_here : advanced σ st σ st
  | advanced_block σ1 st1 block st2 root σ2 : advanced σ st σ1 st1 →
      block_valid st1 block → block_hashed σ1 block → abs_block st1 block = Some st2 →
      ProcessBlock σ1 block = (Ok root, σ2) → advanced σ st σ2 st2.

(** Commits keep the ID mappings of the entities that were live, deleted since
    or not: IDs are not given out twice. *)
Lemma advanced_ids σ st σ' st' : head_repr σ st → advanced σ st σ' st' →
  head_repr σ' st' ∧ (abs_count st ≤ abs_count st')%N ∧
  ∀ a id e, abs_ents st !! a = Some (id, e) → store_reader σ' (idKey id) = Some (array_bytes a).
Proof.
  intros R. induction 1 as [|σ1 st1 b st2 root σ2 _ (R1 & Hle & Hid) V H Ha Hp].
  - split; [done|]. split; [lia|]. intros a id e He. destruct R as [_ (s & _ & _ & P)]. by eapply pb_id.
  - pose proof (processBlock_ok _ _ _ R1 V H) as B. unfold ProcessBlock in Hp. rewrite Ha, Hp in B.
    split; [apply B|]. unfold abs_block in Ha. pose proof (abs_ops_count _ _ _ _ Ha) as Hle'. split; [lia|].
    intros a id e He. change (idKey id) with (key_bytes (KID id)). rewrite (block_other _ _ _ _ _ _ _ B).
    + by eapply Hid.
    + intros Hk%block_key_cases. destruct (wf_id _ (head_repr_wf _ _ R) _ _ _ He) as [? [Hu _]]. specialize (Hk Hu). lia.
Qed.

Lemma advanced_IDToAddress σ st σ' st' a id e : head_repr σ st → advanced σ st σ' st' →
  abs_ents st !! a = Some (id, e) → IDToAddress σ' id = Some a.
Proof.
  intros R A He. destruct (advanced_ids _ _ _ _ R A) as (_ & _ & Hid). unfold IDToAddress.
  apply Hid in He. apply kv_Get_lookup in He as ->. cbn. rewrite array_length. cbn. by rewrite BytesToAddress_bytes.
Qed.

(** The address of an ID. *)
Definition owns (st : AbsState) (x : N) (a : Address) : Prop := ∃ e, abs_ents st !! a = Some (x, e).

(** What the query finds for IDs that had an address at the evaluation: the
    entity that the state of the fetch holds at that address, if it still holds
    one. *)
Inductive refetched (owned : N → Address → Prop) (now : Address → AbsState) (inc : IncludeData) : list N → list EntityData → Prop :=
  | refetched_nil : refetched owned now inc [] []
  | refetched_gone x a ids data : owned x a → abs_ents (now a) !! a = None →
      refetched owned now inc ids data → refetched owned now inc (x :: ids) data
  | refetched_live x a y e' ids data : owned x a → abs_ents (now a) !! a = Some (y, e') →
      refetched owned now inc ids data → refetched owned now inc (x :: ids) (entityData e' inc :: data).

(** The moments of a query whose calls come after its evaluation. *)
Record racing (m : Moments) (st : AbsState) (now : Address → AbsState) : Prop := {
  rc_eval : head_repr (at_eval m) st;
  rc_id x : ∃ st', advanced (at_eval m) st (at_id m x) st';
  rc_get a : advanced (at_eval m) st (at_get m a) (now a);
}.

Lemma fetchID_race m st now inc a x : racing m st now → owns st x a →
  fetchID m 0 inc x = Ok ((λ ye, entityData ye.2 inc) <$> abs_ents (now a) !! a).
Proof.
  intros [R Hid Hget] [e He]. destruct (Hid x) as [st' A]. unfold fetchID. cbn [b_IDToAddress moments_backend].
  rewrite (advanced_IDToAddress _ _ _ _ _ _ _ R A He).
  destruct (advanced_ids _ _ _ _ R (Hget a)) as [R' _].
  pose proof (fetchEntityData_ok _ _ _ a inc (state_at_head _ _ R')) as Hf.
  change (fetchEntityData m 0 a inc) with (fetchEntityData (at_get m a) 0 a inc).
  destruct (abs_ents (now a) !! a) as [[y e']|]; [by rewrite Hf|]. destruct Hf as [err ->]. done.
Qed.

Lemma found_race (fetch : N → result (option EntityData)) owned now inc ids :
  (∀ x a, owned x a → fetch x = Ok ((λ ye, entityData ye.2 inc) <$> abs_ents (now a) !! a)) →
  (∀ x, x ∈ ids → ∃ a, owned x a) → refetched owned now inc ids (found fetch ids).
Proof.
  intros Hf. induction ids as [|x ids IH]; intros Hl; [constructor|].
  destruct (Hl x ltac:(apply elem_of_cons; by left)) as (a & He).
  assert (refetched owned now inc ids (found fetch ids)) as IH'.
  { apply IH. intros y Hy. apply Hl, elem_of_cons. by right. }
  unfold found in *. cbn [omap list_omap]. rewrite (Hf _ _ He).
  destruct (abs_ents (now a) !! a) as [[y e']|] eqn:En; cbn.
  - by eapply refetched_live.
  - by eapply refetched_gone.
Qed.

(** The evaluation is the one of its store. *)
Lemma moments_index_ok m n st : readable (at_eval m) n st → tracked (mkAnnotPair (str "$all") (str "true")) →
  IndexOk m n tracked (scannable n) (store_has st).
Proof. intros R Ht. destruct (store_index_ok _ _ _ R Ht). by split. Qed.

End Race.
