(* ===== verification/RaceEval.v ===== *)
(** Evaluation while blocks are committed (src/query/evaluate.go).  The source
    locks the store for one index read at a time, so every read of a query may
    find another head.  The evaluation is written once more here, with each read
    at some store of a set, the stores that are current while it runs; what it
    can return is a set of outcomes. *)
From S2P Require Export Race.

(** ** Sets of outcomes *)

Definition outcomes (A : Type) : Type := result A → Prop.
#[export] Instance outcomes_ret : MRet outcomes := λ A a r, r = Ok a.
#[export] Instance outcomes_bind : MBind outcomes := λ A B k m r,
  (∃ a, m (Ok a) ∧ k a r) ∨ (∃ e, m (Err e) ∧ r = Err e) ∨ (m Panic ∧ r = Panic).
Definition lift {A} (m : result A) : outcomes A := λ r, r = m.

Fixpoint ofold {A S} (f : S → A → outcomes S) (s : S) (l : list A) : outcomes S :=
  match l with
  | [] => mret s
  | x :: l => s' ← f s x; ofold f s' l
  end.

(** All outcomes are values with a property, and there is one. *)
Definition yields {A} (m : outcomes A) (P : A → Prop) : Prop :=
  (∃ a, m (Ok a)) ∧ ∀ r, m r → ∃ a, r = Ok a ∧ P a.

Lemma yields_ret {A} (a : A) (P : A → Prop) : P a → yields (mret a) P.
Proof. intros HP. split; [by exists a|]. intros r ->. by exists a. Qed.

Lemma yields_lift {A} (m : result A) a (P : A → Prop) : m = Ok a → P a → yields (lift m) P.
Proof. intros -> HP. split; [by exists a|]. intros r ->. by exists a. Qed.

Lemma yields_bind {A B} (m : outcomes A) (k : A → outcomes B) P Q :
  yields m P → (∀ a, P a → yields (k a) Q) → yields (a ← m; k a) Q.
Proof.
  intros [[a Ha] Hm] Hk. split.
  - destruct (Hm _ Ha) as (a' & [= <-] & HP). destruct (Hk _ HP) as [[b Hb] _]. exists b. left. by exists a.
  - intros r [(a' & Ha' & Hr)|[(e & He & _)|[Hp _] ] ].
    + destruct (Hm _ Ha') as (a2 & [= <-] & HP). by apply (Hk _ HP).
    + by destruct (Hm _ He) as (? & ? & _).
    + by destruct (Hm _ Hp) as (? & ? & _).
Qed.

Lemma yields_ofold {A S} (P : list A → S → Prop) (f : S → A → outcomes S) s l :
  P [] s → (∀ done x rest s, l = done ++ x :: rest → P done s → yields (f s x) (P (done ++ [x]))) →
  yields (ofold f s l) (P l).
Proof.
  intros H0 Hstep. enough (∀ done rest s, l = done ++ rest → P done s → yields (ofold f s rest) (P l)) as H by by apply (H []).
  clear s H0. intros done rest. revert done. induction rest as [|x rest IH]; intros done s Hl HP; cbn [ofold].
  - apply yields_ret. by rewrite Hl, app_nil_r.
  - eapply yields_bind; [by eapply Hstep|]. intros s' HP'. apply (IH (done ++ [x])); [by rewrite <-app_assoc|done].
Qed.

(** One outcome only. *)
Definition only {A} (m : outcomes A) (r : result A) : Prop := ∀ r', m r' ↔ r' = r.

Lemma only_bind {A B} (m : outcomes A) (k : A → outcomes B) r (k' : A → result B) :
  only m r → (∀ a, only (k a) (k' a)) → only (a ← m; k a) (a ← r; k' a).
Proof.
  intros Hm Hk r'. split.
  - intros [(a & Ha%Hm & Hr)|[(e & He%Hm & ->)|[Hp%Hm ->] ] ]; subst; [|done..]. by apply Hk.
  - intros ->. destruct r as [a|e|]; [left; exists a; split; [by apply Hm|by apply Hk]|right; left; exists e|right; right];
      (split; [by apply Hm|done]).
Qed.

Lemma only_ofold {A S} (f : S → A → outcomes S) (f' : S → A → result S) s l :
  (∀ s x, only (f s x) (f' s x)) → only (ofold f s l) (foldM f' s l).
Proof. intros Hf. revert s. induction l as [|x l IH]; intros s; [done|]. cbn [ofold foldM]. by apply only_bind. Qed.

(** ** Evaluation *)

Section Racing.
Context {E : Env}.
Variable current : Store → Prop.
Variable n : N.

(** A read at a store that is current when it happens. *)
Definition at_some {A} (f : Store → result A) : outcomes A := λ r, ∃ σ, current σ ∧ f σ = r.

Definition race_subtractIf (isNot : bool) (bm : Bitmap) : outcomes Bitmap :=
  if isNot then all ← at_some (λ σ, q_AllEntities σ n); mret (bm_AndNot all bm) else mret bm.

Definition race_Equality (e : Equality) : outcomes Bitmap :=
  v ← lift (annotVal (eq_Value e));
  bm ← at_some (λ σ, q_ReadAnnotBitmap σ n (eq_Var e) v);
  race_subtractIf (eq_IsNot e) bm.

Definition race_GlobExpr (e : GlobExpr) : outcomes Bitmap :=
  bm ← at_some (λ σ, Ok match isPrefixGlob (glob_Value e) with
                        | Some prefix => q_IteratePrefix σ (glob_Var e) prefix
                        | None => q_IterateGlob σ (glob_Var e) (glob_Value e)
                        end);
  race_subtractIf (glob_IsNot e) bm.

Definition race_unionOf (var : bytes) (vals : list bytes) : outcomes Bitmap :=
  ofold (λ union val, bm ← at_some (λ σ, q_ReadAnnotBitmap σ n var val); mret (bm_Or union bm)) roaring_New vals.

Definition race_Inclusion (e : Inclusion) : outcomes Bitmap :=
  union ← race_unionOf (in_Var e) (inclusionVals (in_Values e));
  race_subtractIf (in_IsNot e) union.

(** The comparisons read the index at most once. *)
Definition race_Term (t : ASTTerm) : outcomes Bitmap :=
  let 'mkASTTerm assign incl lt le gt ge glob := t in
  match assign with Some e => race_Equality e | None =>
  match incl with Some e => race_Inclusion e | None =>
  match lt with Some e => at_some (LessThan_Evaluate e) | None =>
  match le with Some e => at_some (LessOrEqualThan_Evaluate e) | None =>
  match gt with Some e => at_some (GreaterThan_Evaluate e) | None =>
  match ge with Some e => at_some (GreaterOrEqualThan_Evaluate e) | None =>
  match glob with Some e => race_GlobExpr e | None =>
    lift (Err (Errorf "unknown AST term"))
  end end end end end end end.

Definition race_And_step (res : option Bitmap) (t : ASTTerm) : outcomes (option Bitmap) :=
  bm ← race_Term t;
  mret (Some (match res with None => bm | Some r => bm_And r bm end)).

Definition race_And (e : ASTAnd) : outcomes Bitmap :=
  res ← ofold race_And_step None (a_Terms e);
  mret (default roaring_New res).

Definition race_Or (e : ASTOr) : outcomes Bitmap :=
  ofold (λ res t, bm ← race_And t; mret (bm_Or res bm)) roaring_New (o_Terms e).

Definition race_Evaluate (t : AST) : outcomes Bitmap :=
  match ast_Expr t with
  | None => at_some (λ σ, q_AllEntities σ n)
  | Some e => race_Or (x_Or e)
  end.
End Racing.

(** Without commits it is the evaluation of the source. *)
Section Still.
Context {E : Env} (σ : Store) (n : N).
Abbreviation still := (λ σ', σ' = σ).

Lemma only_at {A} (f : Store → result A) : only (at_some still f) (f σ).
Proof. intros r. split; [by intros (? & -> & <-)|]. intros ->. by exists σ. Qed.
Lemma only_ret {A} (a : A) : only (mret a) (Ok a).
Proof. done. Qed.

Lemma subtractIf_still b bm : only (race_subtractIf still n b bm) (subtractIf b σ n bm).
Proof. destruct b; [|done]. apply only_bind; [apply only_at|done]. Qed.

Lemma Term_still t : only (race_Term still n t) (ASTTerm_Evaluate t σ n).
Proof.
  destruct t as [a i lt le gt ge g]. unfold race_Term, ASTTerm_Evaluate.
  destruct a as [e|].
  { apply only_bind; [done|]. intros v. apply only_bind; [apply only_at|]. intros bm. apply subtractIf_still. }
  destruct i as [e|].
  { apply only_bind; [|intros bm; apply subtractIf_still]. apply only_ofold. intros u v. apply only_bind; [apply only_at|done]. }
  destruct lt as [e|]; [apply only_at|]. destruct le as [e|]; [apply only_at|].
  destruct gt as [e|]; [apply only_at|]. destruct ge as [e|]; [apply only_at|]. destruct g as [e|]; [|done].
  intros r. unfold race_GlobExpr, GlobExpr_Evaluate. etrans; [apply only_bind; [apply only_at|]; intros bm; apply subtractIf_still|]. done.
Qed.

Lemma Evaluate_still t : only (race_Evaluate still n t) (AST_Evaluate t σ n).
Proof.
  unfold race_Evaluate, AST_Evaluate. destruct (ast_Expr t) as [e|]; [|apply only_at]. apply only_ofold. intros res c.
  apply only_bind; [|done]. apply only_bind; [|done]. apply only_ofold. intros r u. apply only_bind; [apply Term_still|done].
Qed.
End Still.

(** ** What it selects *)

Section Interleaved.
Context {E : Env} {EO : EnvOk} {CF : CollisionFree}.
Variable n : N.
Variable during : Store → AbsState → Prop.

(** The stores that are current during the evaluation, with their states. *)
Definition current (σ : Store) : Prop := ∃ st, during σ st.
Hypothesis some_moment : ∃ σ, current σ.
Hypothesis index : ∀ σ st, during σ st → IndexOk σ n tracked (scannable n) (store_has st).

(** Live with the same annotations in every state; live in some state. *)
Definition steady (x : N) (l : list annotPair) : Prop := ∀ σ st, during σ st → store_has st x l.
Definition seen (x : N) : Prop := ∃ σ st, during σ st ∧ live_id st x.

(** A bitmap that is right about the steady entities, and holds nothing that was
    never live. *)
Definition right (f : list annotPair → bool) (B : Bitmap) : Prop :=
  (∀ x l, steady x l → bm_Contains B x = true ↔ f l = true) ∧ (∀ x, bm_Contains B x = true → seen x).

Lemma right_ext f g B : (∀ l, f l = g l) → right f B → right g B.
Proof. intros Hfg [H1 H2]. split; [|done]. intros x l Hx. rewrite <-Hfg. by apply H1. Qed.

Lemma right_selects σ st f B : during σ st → selects (store_has st) B f → right f B.
Proof.
  intros Hd HB. pose proof (index _ _ Hd) as HI. split.
  - intros x l Hx. rewrite (HB x). specialize (Hx _ _ Hd). split; [|intros Hf; by exists l].
    intros (l' & Hl' & Hf). by rewrite (ix_fun _ _ _ Hx Hl').
  - intros x (l & (a & e & Ha & _) & _)%HB. exists σ, st. split; [done|]. by exists a, e.
Qed.

Lemma right_New f : (∀ l, f l = false) → right f roaring_New.
Proof.
  intros Hf. split; [|intros x Hx; by rewrite Contains_New in Hx]. intros x l _. by rewrite Contains_New, Hf.
Qed.

Lemma right_Or f g A B : right f A → right g B → right (λ l, f l || g l) (bm_Or A B).
Proof.
  intros [A1 A2] [B1 B2]. split.
  - intros x l Hx. by rewrite Contains_Or, !orb_true_iff, (A1 _ _ Hx), (B1 _ _ Hx).
  - intros x. rewrite Contains_Or, orb_true_iff. intros [H|H]; auto.
Qed.

Lemma right_And f g A B : right f A → right g B → right (λ l, f l && g l) (bm_And A B).
Proof.
  intros [A1 A2] [B1 B2]. split.
  - intros x l Hx. by rewrite Contains_And, !andb_true_iff, (A1 _ _ Hx), (B1 _ _ Hx).
  - intros x. rewrite Contains_And, andb_true_iff. intros [H _]. auto.
Qed.

Lemma right_AndNot f g A B : right f A → right g B → right (λ l, f l && negb (g l)) (bm_AndNot A B).
Proof.
  intros [A1 A2] [B1 B2]. split.
  - intros x l Hx. rewrite Contains_AndNot, !andb_true_iff, !negb_true_iff, <-!not_true_iff_false. by rewrite (A1 _ _ Hx), (B1 _ _ Hx).
  - intros x. rewrite Contains_AndNot, andb_true_iff. intros [H _]. auto.
Qed.

(** One read. *)
Lemma read_right (f : Store → result Bitmap) g :
  (∀ σ st, during σ st → ∃ B, f σ = Ok B ∧ selects (store_has st) B g) → yields (at_some current f) (right g).
Proof.
  intros H. split.
  - destruct some_moment as (σ & st & Hd). destruct (H _ _ Hd) as (B & HB & _). exists B, σ. split; [by exists st|done].
  - intros r (σ & (st & Hd) & <-). destruct (H _ _ Hd) as (B & HB & HS). exists B. split; [done|]. by eapply right_selects.
Qed.

Lemma all_right : yields (at_some current (λ σ, q_AllEntities σ n)) (right (λ _, true)).
Proof.
  apply read_right. intros σ st Hd. destruct (ix_all (IndexOk := index _ _ Hd)) as (B & HB & Hx). exists B. split; [done|].
  intros x. rewrite Hx. split; intros (l & Hl); exists l; tauto.
Qed.

Lemma subtract_right b f B : right f B → yields (race_subtractIf current n b B) (right (λ l, xorb b (f l))).
Proof.
  intros HB. destruct b; [|apply yields_ret; eapply right_ext; [|exact HB]; intros l; by destruct (f l)].
  eapply yields_bind; [apply all_right|]. intros A HA. apply yields_ret.
  eapply right_ext; [|by eapply right_AndNot]. intros l. done.
Qed.

Lemma pair_right k v : tracked (mkAnnotPair k v) →
  yields (at_some current (λ σ, q_ReadAnnotBitmap σ n k v)) (right (λ l, bool_decide (mkAnnotPair k v ∈ l))).
Proof. intros Ht. apply read_right. intros σ st Hd. pose proof (index _ _ Hd). by apply (selects_read σ n tracked (scannable n)). Qed.

Lemma union_right k vals : Forall (λ v, tracked (mkAnnotPair k v)) vals →
  yields (race_unionOf current n k vals) (right (λ l, existsb (λ v, bool_decide (mkAnnotPair k v ∈ l)) vals)).
Proof.
  intros Hv. apply (yields_ofold (λ done, right (λ l, existsb (λ v, bool_decide (mkAnnotPair k v ∈ l)) done))).
  - by apply right_New.
  - intros done v rest B -> HB. apply Forall_app in Hv as [_ [Hv _]%Forall_cons].
    eapply yields_bind; [by apply pair_right|]. intros C HC. apply yields_ret.
    eapply right_ext; [|by eapply right_Or]. intros l. rewrite existsb_app. cbn. by rewrite orb_false_r.
Qed.

Lemma Term_right t : term_ok tracked (scannable n) t → yields (race_Term current n t) (right (λ l, term_sem l t)).
Proof.
  destruct t as [a i lt le gt ge g]. unfold term_ok, term_sem, race_Term. cbn [t_Assign t_Inclusion t_LessThan
    t_LessOrEqualThan t_GreaterThan t_GreaterOrEqualThan t_Glob].
  destruct a as [e|].
  { intros (v & Hv & Ht). eapply yields_bind; [apply (yields_lift _ v (λ w, w = v)); done|]. intros w ->. rewrite Hv.
    eapply yields_bind; [by apply pair_right|]. intros B HB. by apply subtract_right. }
  destruct i as [e|].
  { intros Hv. eapply yields_bind; [by apply union_right|]. intros B HB. by apply subtract_right. }
  destruct lt as [e|]; [intros Hs; apply read_right; intros σ st Hd; pose proof (index _ _ Hd); by apply (LessThan_ok σ n tracked (scannable n))|].
  destruct le as [e|]; [intros Hs; apply read_right; intros σ st Hd; pose proof (index _ _ Hd); by apply (LessOrEqualThan_ok σ n tracked (scannable n))|].
  destruct gt as [e|]; [intros Hs; apply read_right; intros σ st Hd; pose proof (index _ _ Hd); by apply (GreaterThan_ok σ n tracked (scannable n))|].
  destruct ge as [e|]; [intros Hs; apply read_right; intros σ st Hd; pose proof (index _ _ Hd); by apply (GreaterOrEqualThan_ok σ n tracked (scannable n))|].
  destruct g as [e|]; [|done]. intros Hs. eapply yields_bind; [|intros B HB; by apply subtract_right].
  apply read_right. intros σ st Hd. pose proof (index _ _ Hd).
  exact (GlobExpr_ok σ n tracked (scannable n) (store_has st) (mkGlobExpr (glob_Var e) false (glob_Value e)) Hs).
Qed.

Lemma And_right c : a_Terms c ≠ [] → Forall (term_ok tracked (scannable n)) (a_Terms c) →
  yields (race_And current n c) (right (λ l, forallb (term_sem l) (a_Terms c))).
Proof.
  intros Hne Hok. eapply yields_bind.
  - apply (yields_ofold (λ done res, match res with
      | None => done = []
      | Some B => right (λ l, forallb (term_sem l) done) B end)); [done|].
    intros done t rest res Et HP. rewrite Et in Hok. apply Forall_app in Hok as [_ [Ht _]%Forall_cons].
    eapply yields_bind; [by apply Term_right|]. intros B HB. apply yields_ret. destruct res as [A|].
    + eapply right_ext; [|by apply right_And]. intros l. rewrite forallb_app. cbn. by rewrite andb_true_r.
    + subst done. eapply right_ext; [|exact HB]. intros l. cbn. by rewrite andb_true_r.
  - intros [B|] HB; [by apply yields_ret|done].
Qed.

Lemma Evaluate_right t : AST_ok tracked (scannable n) t → yields (race_Evaluate current n t) (right (λ l, sem_AST (term_sem l) true t)).
Proof.
  unfold AST_ok, race_Evaluate, sem_AST. destruct (ast_Expr t) as [[[cs]]|]; [|intros _; apply all_right].
  intros Hok. unfold race_Or, sem_dnf. cbn [x_Or o_Terms] in *.
  apply (yields_ofold (λ done, right (λ l, existsb (λ c, forallb (term_sem l) (a_Terms c)) done))); [by apply right_New|].
  intros done c rest B -> HB. apply Forall_app in Hok as [_ [[Hne Hc] _]%Forall_cons].
  eapply yields_bind; [by apply And_right|]. intros C HC. apply yields_ret.
  eapply right_ext; [|by eapply right_Or]. intros l. rewrite existsb_app. cbn. by rewrite orb_false_r.
Qed.
End Interleaved.

(** ** Whole queries *)

Definition owrap {A} (msg : string) (m : outcomes A) : outcomes A := λ r, ∃ r', m r' ∧ r = wrap msg r'.

Lemma yields_owrap {A} msg (m : outcomes A) P : yields m P → yields (owrap msg m) P.
Proof.
  intros [[a Ha] Hm]. split; [exists a, (Ok a); by split|]. intros r (r' & Hr & ->). destruct (Hm _ Hr) as (b & -> & HP). by exists b.
Qed.

Section RaceQuery.
Context {E : Env} {EO : EnvOk} {CF : CollisionFree} {HX : Hexutil} {HXO : HexutilOk}.
Variable ParseString : bytes → result TopLevel.

(** [Query] of the server, evaluated at the stores of a set and answered at the
    moments of [m]. *)
Definition race_Query (current : Store → Prop) (m : Moments) (queryStr : bytes) (options : option Options) : outcomes QueryResponse :=
  ast ← lift (wrap "failed to parse query" (Parse ParseString queryStr));
  let atBlockNumber := atBlockOf options in
  let responseBlockNumber := if (atBlockNumber =? 0)%N then b_HeadNumber m else atBlockNumber in
  ids ← owrap "failed to evaluate query" (race_Evaluate current atBlockNumber ast);
  lift (respond m options responseBlockNumber ids).

(** With one store for the evaluation it is [Query]. *)
Lemma Query_still m queryStr options :
  only (race_Query (λ σ, σ = at_eval m) m queryStr options) (Query ParseString m queryStr options).
Proof.
  apply only_bind; [done|]. intros ast. apply only_bind; [|done]. intros r. unfold owrap. split.
  - intros (r' & Hr%Evaluate_still & ->). by subst r'.
  - intros ->. eexists. split; [by apply Evaluate_still|done].
Qed.

(** The stores of a query whose reads come before its fetches, on a line of
    commits. *)
Record interleaved (during : Store → AbsState → Prop) (m : Moments) (now : Address → AbsState) : Prop := {
  il_some : ∃ σ, current during σ;
  il_head σ st : during σ st → head_repr σ st;
  il_iter σ st : during σ st → ∀ p s, (kv_NewIterator (rawDB σ) p s).2 = None;
  il_id σ st x : during σ st → ∃ st', advanced σ st (at_id m x) st';
  il_get σ st a : during σ st → advanced σ st (at_get m a) (now a);
}.

(** An address that had the ID in some state. *)
Definition owned_during (during : Store → AbsState → Prop) (x : N) (a : Address) : Prop :=
  ∃ σ st, during σ st ∧ owns st x a.

(** The IDs of a page: newest first and below the cursor; right about the
    entities whose annotations did not change, and all live at some moment. *)
Record selected_during (during : Store → AbsState → Prop) (t : TopLevel) (cursor : option N) (ids : list N) : Prop := {
  sd_sorted : StronglySorted (λ x y, y < x)%N ids;
  sd_steady x l : steady during x l → x ∈ ids ↔ sem_top (pair_atoms l) true t = true ∧ below_cursor cursor x;
  sd_seen x : x ∈ ids → seen during x ∧ below_cursor cursor x;
}.

Lemma fetchID_interleaved during m now inc x a : interleaved during m now → owned_during during x a →
  fetchID m 0 inc x = Ok ((λ ye, entityData ye.2 inc) <$> abs_ents (now a) !! a).
Proof.
  intros [_ Hh _ Hid Hget] (σ & st & Hd & Ho).
  change (fetchID m 0 inc x) with (fetchID (mkMoments (at_head m) σ (at_id m) (at_get m)) 0 inc x).
  eapply fetchID_race; [|exact Ho]. split; cbn; [by apply Hh|intros y; by apply Hid|intros b; by apply Hget].
Qed.

Lemma seen_owned during x : seen during x → ∃ a, owned_during during x a.
Proof. intros (σ & st & Hd & a & e & Ha). exists a, σ, st. split; [done|by exists e]. Qed.

Lemma during_index during m now : interleaved during m now → tracked (mkAnnotPair (str "$all") (str "true")) →
  ∀ σ st, during σ st → IndexOk σ 0 tracked (scannable 0) (store_has st).
Proof.
  intros I Hall σ st Hd. pose proof (il_head _ _ _ I _ _ Hd) as R. apply state_index_ok; [by apply state_at_head|done| |done].
  by eapply il_iter.
Qed.

(** The answer of such a query. *)
Definition answered (during : Store → AbsState → Prop) (m : Moments) (now : Address → AbsState) (t : TopLevel)
    (options : option Options) (cursor : option N) (resp : QueryResponse) : Prop :=
  ∃ taken rest data, selected_during during t cursor (taken ++ rest) ∧
    refetched (owned_during during) now (getIncludeData options) taken data ∧
    (N.of_nat (length data) ≤ getResultsPerPage options)%N ∧
    (rest = [] ∨ N.of_nat (length data) = getResultsPerPage options) ∧
    resp = mkQueryResponse data (headNumber (at_head m)) (nextCursor rest (last taken)).

Lemma respond_interleaved during m now t ast options cursor B :
  interleaved during m now → atBlockOf options = 0%N → getCursor options = Ok cursor →
  (∀ l, sem_AST (term_sem l) true ast = sem_top (pair_atoms l) true t) →
  right during (λ l, sem_AST (term_sem l) true ast) B →
  ∃ resp, respond m options (headNumber (at_head m)) B = Ok resp ∧ answered during m now t options cursor resp.
Proof.
  intros I Hat Hc Hsem [B1 B2]. set (it := bm_ReverseIterator (applyCursor B cursor)).
  assert (∀ x, x ∈ it ↔ bm_Contains B x = true ∧ below_cursor cursor x) as Hit.
  { intros x. unfold it. by rewrite ReverseIterator_elem, applyCursor_Contains. }
  assert (∀ x, x ∈ it → ∃ a, owned_during during x a) as Hown.
  { intros x [Hx%B2 _]%Hit. by apply seen_owned. }
  destruct (listed_page (fetchID m 0 (getIncludeData options)) it options) as (taken & rest & Hsplit & Hf & Hle & Hend).
  { intros x [a Ha]%Hown. eexists. by eapply fetchID_interleaved. }
  eexists. split.
  - unfold respond. rewrite Hc. bind_step. rewrite Hat. fold it. rewrite Hf. reflexivity.
  - exists taken, rest, (found (fetchID m 0 (getIncludeData options)) taken). split; [|split; [|done] ].
    + rewrite <-Hsplit. split.
      * apply ReverseIterator_sorted.
      * intros x l Hx. by rewrite Hit, (B1 x l Hx), Hsem.
      * intros x [Hx Hb]%Hit. split; [by apply B2|done].
    + apply found_race; [intros x a; by apply fetchID_interleaved|].
      intros x Hx. apply Hown. rewrite Hsplit. apply elem_of_app. by left.
Qed.

Lemma Query_interleaved_ok during m now queryStr t options cursor :
  interleaved during m now → tracked (mkAnnotPair (str "$all") (str "true")) →
  ParseString queryStr = Ok t → TopLevel_ok t = true → TopLevel_every (leaf_ready tracked (scannable 0)) t →
  atBlockOf options = 0%N → getCursor options = Ok cursor →
  yields (race_Query (current during) m queryStr options) (answered during m now t options cursor).
Proof.
  intros I Hall Hp Ht Hl Hat Hc. destruct (TopLevel_Normalize_Ok t Ht) as (ast & Hn).
  pose proof (λ l, TopLevel_Normalize_pairs t ast l Ht Hn) as Hsem.
  eapply (yields_bind _ _ (λ a, a = ast)).
  { eapply yields_lift; [|done]. unfold Parse. rewrite Hp. bind_step. by rewrite Hn. }
  intros ? ->. cbv zeta. rewrite Hat. eapply yields_bind.
  { apply yields_owrap, Evaluate_right; [apply I|by eapply during_index|by eapply AST_ready]. }
  intros B HB. destruct (respond_interleaved during m now t ast options cursor B I Hat Hc Hsem HB) as (resp & Hr & HA).
  by eapply yields_lift.
Qed.
End RaceQuery.
