(* ===== verification/CodecTheorems.v ===== *)
(** The properties of the codecs: the key space, the head record, numbers as
    sortable strings, and the conversion of wire attributes. *)
From S2P Require Export BlockProofs.

(** ** Helpers *)

Lemma lt_compare a b : (a < b)%N ↔ (a ?= b)%N = Lt.
Proof. symmetry. apply N.compare_lt_iff. Qed.

Lemma BytesToHash_id `{E : Env} `{!EnvOk} b : length b = 32%nat → array_bytes (BytesToHash b) = b.
Proof. exact (BytesToHash_crop [] b). Qed.

(** ** Claims *)

(** Claim C33. The key space is unambiguous: two entries with separator-free
    annotation keys and 64-bit numbers share a database key only if they are of
    the same kind and have the same components. *)
Theorem key_space_injective k1 k2 : key_wf k1 → key_wf k2 → key_bytes k1 = key_bytes k2 → k1 = k2.
Proof. apply key_bytes_inj_aux. Qed.

(** Claim C34. The 72-byte head record and the triple of number, hash and root
    are in one-to-one correspondence: decoding inverts encoding, encoding
    inverts decoding, and a shorter record panics. *)
Theorem head_record_roundtrip `{E : Env} `{!EnvOk} :
  (∀ number hash root, is_u64 number → decodeHead (encodeHead number hash root) = Ok (number, hash, root)) ∧
  (∀ b, length b = 72%nat → ∃ number hash root, decodeHead b = Ok (number, hash, root) ∧ encodeHead number hash root = b) ∧
  (∀ b, (length b < 72)%nat → decodeHead b = Panic).
Proof.
  split; [apply decodeHead_encodeHead|]. split.
  - intros b Hb. unfold decodeHead. rewrite Hb. cbn [Nat.ltb Nat.leb].
    assert (length (take 8 b) = 8%nat) as H8 by (rewrite length_take; lia).
    assert (length (take 32 (drop 8 b)) = 32%nat) as H32 by (rewrite length_take, length_drop; lia).
    assert (length (take 32 (drop 40 b)) = 32%nat) as H72 by (rewrite length_take, length_drop; lia).
    pose proof (Uint64_app (take 8 b) [] H8) as Hu. rewrite app_nil_r in Hu. rewrite Hu. bind_step.
    do 3 eexists. split; [done|]. unfold encodeHead.
    rewrite PutUint64_be_decode by done. rewrite !BytesToHash_id by done.
    rewrite (take_ge (drop 40 b)) by (rewrite length_drop; lia).
    replace (drop 40 b) with (drop 32 (drop 8 b)) by (by rewrite drop_drop). by rewrite take_drop, take_drop.
  - intros b Hb. unfold decodeHead. destruct (Nat.ltb_spec (length b) 72); [done|lia].
Qed.

(** Claim C35. Numeric values and block numbers are stored as eight big-endian
    bytes that decode to the number, and their lexicographic order is the
    numeric order, which is what the range scans rely on. *)
Theorem numericVal_sortable v w : is_u64 v → is_u64 w →
  decodeUint64 (numericVal v) = Ok v ∧ (bytes_lt (numericVal v) (numericVal w) ↔ (v < w)%N) ∧
  (∀ key, bytes_lt (annotKey key (numericVal v)) (annotKey key (numericVal w)) ↔ (v < w)%N).
Proof.
  intros Hv Hw. assert (bytes_lt (numericVal v) (numericVal w) ↔ (v < w)%N) as Hlt.
  { unfold bytes_lt, numericVal. rewrite bytes_compare_be by (by rewrite !PutUint64_length).
    by rewrite !be_decode_PutUint64, lt_compare. }
  split; [|split; [exact Hlt|]].
  - unfold decodeUint64, numericVal. rewrite <-(app_nil_r (PutUint64 v)). by apply Uint64_PutUint64.
  - intros key. unfold annotKey. rewrite bytes_lt_app, bytes_lt_app. by rewrite (bytes_lt_app [x00] (numericVal v) (numericVal w)).
Qed.

(** A numeric attribute is its bytes read as a big-endian number
    modulo 2^64, whatever their length: the shifts never lose a bit that the
    result should have. *)
Theorem attrUint64_spec b : attrUint64 b = (be_decode b mod 2 ^ 64)%N.
Proof. apply attrUint64_mod. Qed.

(** The attributes of an operation become the entity's annotations in
    order: strings and entity keys the string ones, unsigned integers the
    numeric ones; attributes of any other type are dropped, and no other field
    changes. *)
Theorem applyAttributes_spec `{Env} e attrs :
  applyAttributes e attrs =
  mkEntity (Payload e) (Owner e) (Creator e) (ExpiresAt e) (CreatedAtBlock e) (LastModifiedAtBlock e)
    (TransactionIndexInBlock e) (OperationIndexInTransaction e) (ContentType e) (Key e)
    (StringAnnotations e ++ omap attr_string attrs) (NumericAnnotations e ++ omap attr_number attrs).
Proof. apply applyAttributes_annotations. Qed.

(** Allocating an entity ID increments the counter in the trie and
    returns its new value; at the last 64-bit value the counter wraps to zero
    and IDs start again. *)
Theorem incrementEntityCount_spec `{Env} `{!EnvOk} s :
  let '(id, s') := incrementEntityCount s in
  id = ((readEntityCount s + 1) mod 2 ^ 64)%N ∧ readEntityCount s' = id ∧
  (readEntityCount s = MaxUint64 → id = 0%N) ∧
  (∀ a k, (a, k) ≠ (systemAddress, entityCountSlot) → GetState s' a k = GetState s a k).
Proof.
  cbn [incrementEntityCount]. split; [done|]. split.
  - unfold readEntityCount. rewrite GetState_SetState, decide_True by done.
    rewrite array_copy_exact by lengths.
    rewrite drop_app_length' by done. apply be_decode_PutUint64, u64_bound.
  - split; [by intros ->|]. intros a k Hne. rewrite GetState_SetState, decide_False; [done|].
    intros [<- <-]. by apply Hne.
Qed.
