(* ===== verification/GrammarTheorems.v ===== *)
(** What the struct tags of the query language guarantee (src/query/language.go):
    a token sequence has one tree, the trees are the well-formed ones, and every
    such tree is written by some query. *)
From S2P Require Import GrammarTrees.

(** Claim C16. Two parse trees that the tags admit for the same sequence of
    lexer tokens are equal, as long as no token quotes a closing parenthesis:
    the meaning of a query does not depend on the order in which the parser
    tries the alternatives.  The literals of the tags match tokens of any type,
    so a quoted parenthesis could also close a list of values. *)
Theorem grammar_unambiguous (numberValue : bytes → option N) (ts : list token) (t t' : TopLevel) :
  Forall clean ts → TopLevel_tokens numberValue ts t → TopLevel_tokens numberValue ts t' → t = t'.
Proof. intros Hc H H'. by eapply TopLevel_determined. Qed.

(** Claim C17. The trees that the tags admit for some sequence of lexer tokens are
    exactly the well-formed ones, when the number parser yields 64-bit numbers
    and reads each of them from some digits: a parser of the tags can return
    nothing that the normaliser and the evaluator do not expect. *)
Theorem grammar_trees (numberValue : bytes → option N) (numberText : N → bytes) (t : TopLevel) :
  (∀ v n, numberValue v = Some n → fits_u64 n = true) →
  (∀ n, fits_u64 n = true → is_number (numberText n) = true ∧ numberValue (numberText n) = Some n) →
  TopLevel_wf t = true ↔ ∃ ts, Forall (λ u, token_ok u = true) ts ∧ TopLevel_tokens numberValue ts t.
Proof.
  intros Hfit Hread. split.
  - intros Hwf. destruct (TopLevel_printed_ok numberValue numberText Hread t Hwf) as [Ht Hok]. by eexists.
  - intros (ts & Hok & Ht). by eapply TopLevel_admitted.
Qed.

(** Claim C18. Writing a well-formed tree whose texts are no closing parentheses
    as tokens, and reading the tokens by the tags, gives the tree back, and no
    other. *)
Theorem grammar_roundtrip (numberValue : bytes → option N) (numberText : N → bytes) (t t' : TopLevel) :
  (∀ n, fits_u64 n = true → is_number (numberText n) = true ∧ numberValue (numberText n) = Some n) →
  TopLevel_all plain t = true →
  TopLevel_tokens numberValue (TopLevel_print numberText t) t' ↔ t' = t.
Proof.
  intros Hread Hp. destruct (TopLevel_printed_clean numberValue numberText Hread t Hp) as [Ht Hc]. split.
  - intros H. by eapply TopLevel_determined.
  - by intros ->.
Qed.
