(* ===== verification/QueryTheorems.v ===== *)
(** The properties of the read path: exact reads and scans, the meaning of
    queries from the parse tree to the bitmap. *)
From S2P Require Export StoreIndex.

Section QueryTheorems.
Context {E : Env} {EO : EnvOk} {CF : CollisionFree}.

(** Claim C30. A point read of the bitmap index, at the head or at a historical
    block, returns exactly the IDs of the entities that had the annotation pair
    in the state of that block. *)
Theorem ReadAnnotBitmap_exact σ n st p :
  state_at σ n st → tracked p →
  ∃ B, ReadAnnotBitmap σ n (pair_key p) (pair_val p) = Ok B ∧
    ∀ x, bm_Contains B x = true ↔ ∃ a e, abs_ents st !! a = Some (x, e) ∧ p ∈ allAnnotations e.
Proof. apply ReadAnnotBitmap_ok. Qed.

(** The [$all] bitmap of a block is exactly the set of IDs live in its
    state, and its cardinality the number of live entities. *)
Theorem AllEntities_exact σ n st :
  state_at σ n st → tracked (mkAnnotPair (str "$all") (str "true")) →
  ∃ B, AllEntities σ n = Ok B ∧ (∀ x, bm_Contains B x = true ↔ live_id st x) ∧
    bm_GetCardinality B = N.of_nat (size (abs_ents st)).
Proof.
  intros S Ht. destruct (AllEntities_ok _ _ _ S Ht) as (B & HB & Hx). exists B. split; [done|]. split; [done|].
  rewrite Cardinality_spec. f_equal. destruct S as (s & _ & Sn).
  apply (card_live st); [apply Sn|apply ReverseIterator_NoDup|]. intros x. by rewrite ReverseIterator_elem.
Qed.

(** Reading an entity at the head or at a historical block returns the
    entity of that state, and an error when the address had none; live IDs map
    to their addresses at the head. *)
Theorem GetEntity_exact σ n st a :
  state_at σ n st →
  match abs_ents st !! a with
  | Some (id, e) => GetEntity σ n a = Ok e ∧ (head_repr σ st → IDToAddress σ id = Some a)
  | None => ∃ err, GetEntity σ n a = Err err
  end.
Proof.
  intros S. pose proof (GetEntity_ok _ _ _ a S) as H. destruct (abs_ents st !! a) as [[id e]|] eqn:Ha; [|done].
  split; [done|]. intros R. by eapply IDToAddress_ok.
Qed.

(** Claim C26. A numeric range scan at the head returns exactly the IDs of the
    entities with a numeric value in the closed range, for every pair of
    bounds. *)
Theorem IterateNumeric_exact σ st key lo hi x :
  head_repr σ st → x00 ∉ key → is_u64 lo → (∀ p s, (kv_NewIterator (rawDB σ) p s).2 = None) →
  bm_Contains (IterateNumericAnnotBitmaps σ key lo hi) x = true ↔
  ∃ v, is_u64 v ∧ (lo ≤ v ≤ hi)%N ∧ indexed st (mkAnnotPair key (numericVal v)) x.
Proof. apply IterateNumeric_ok. Qed.

(** Claim C27. A string range scan at the head returns exactly the IDs of the
    entities with a non-empty value between the bounds, inclusive or exclusive
    on either side, in lexicographic order. *)
Theorem IterateString_exact σ st key lo loIncl hi hiIncl x :
  head_repr σ st → x00 ∉ key → (∀ p s, (kv_NewIterator (rawDB σ) p s).2 = None) →
  bm_Contains (IterateStringAnnotBitmaps σ key lo loIncl hi hiIncl) x = true ↔
  ∃ v, v ≠ [] ∧ above lo loIncl v ∧ below hi hiIncl v ∧ indexed st (mkAnnotPair key v) x.
Proof. apply IterateString_ok. Qed.

(** Claim C28. The prefix scan that serves a ["prefix*"] pattern returns the same
    IDs as the full pattern scan it replaces: those with a non-empty value that
    matches the pattern. *)
Theorem prefix_scan_is_glob_scan σ st key pattern p x :
  head_repr σ st → x00 ∉ key → (∀ p s, (kv_NewIterator (rawDB σ) p s).2 = None) →
  isPrefixGlob pattern = Some p →
  bm_Contains (IteratePrefixAnnotBitmaps σ key p) x = bm_Contains (IterateGlobAnnotBitmaps σ key pattern) x ∧
  (bm_Contains (IterateGlobAnnotBitmaps σ key pattern) x = true ↔
   ∃ v, v ≠ [] ∧ globMatch pattern v = true ∧ indexed st (mkAnnotPair key v) x).
Proof.
  intros R Hk Herr Hp. split.
  - apply eq_true_iff_eq. rewrite (IteratePrefix_ok _ st), (IterateGlob_ok _ st) by done.
    by setoid_rewrite (isPrefixGlob_glob pattern p _ Hp).
  - rewrite (IterateGlob_ok _ st) by done. by setoid_rewrite globMatch_glob.
Qed.

(** Claim C40. The pattern ["*"] matches the empty value, but the pattern scan
    skips entries with an empty value: an entity whose only value for a key is
    empty is not found by [key ~ "*"]. *)
Theorem glob_scan_skips_empty σ st key x :
  head_repr σ st → x00 ∉ key → (∀ p s, (kv_NewIterator (rawDB σ) p s).2 = None) →
  indexed st (mkAnnotPair key []) x → (∀ v, indexed st (mkAnnotPair key v) x → v = []) →
  globMatch [star] [] = true ∧ bm_Contains (IterateGlobAnnotBitmaps σ key [star]) x = false.
Proof.
  intros R Hk Herr Hx Hv. split; [done|]. apply not_true_iff_false. rewrite (IterateGlob_ok _ st) by done.
  intros (v & Hne & _ & Hi). by apply Hne, Hv.
Qed.

End QueryTheorems.

(** Claim C15. Normalisation terminates within its fuel and does not panic on any
    parse tree the grammar admits whose address-valued comparisons are with
    strings, and the disjunctive normal form means what the query means, under
    every interpretation of the atomic comparisons.  The meaning of the query is
    that of [Meaning]: a negation swaps conjunctions and disjunctions, complements
    equalities, inclusions and patterns, and asks for a value on the other side of
    a comparison; literals of [$owner], [$creator] and [$key] are in lower case.
    The terms of the normal form take their literals and comparisons as they
    are. *)
Theorem Normalize_correct `{GoRuntime} (t : TopLevel) :
  TopLevel_ok t = true →
  ∃ ast, TopLevel_Normalize t = Ok ast ∧ ∀ A all, sem_AST (term_means A) all ast = sem_top A all t.
Proof.
  intros Ht. destruct (TopLevel_Normalize_Ok t Ht) as [ast Hast]. exists ast. split; [done|].
  intros A all. destruct (TopLevel_Normalize_ok A all t Ht) as (ast' & Hast' & Hsem). congruence.
Qed.

(** Claim C39. A comparison of [$owner], [$key] or [$creator] with a number is a
    tree of the grammar, and normalising it dereferences a nil string. *)
Theorem Normalize_number_panics `{GoRuntime} v k b :
  v ∈ [OwnerAttributeKey; KeyAttributeKey; CreatorAttributeKey] → is_u64 k →
  let e := mkExpression (mkOrExpression (mkAndExpression (assign_expr (mkEquality v b (mkValue None (Some k)))) []) []) in
  TopLevel_wf (mkTopLevel (Some e)) = true ∧ TopLevel_Normalize (mkTopLevel (Some e)) = Panic.
Proof.
  intros Hv Hk e. split; [|rewrite !elem_of_cons, elem_of_nil in Hv; by destruct Hv as [->|[->|[->|[] ] ] ] ].
  assert (any_var v = true) as Ha by (rewrite !elem_of_cons, elem_of_nil in Hv; by destruct Hv as [->|[->|[->|[] ] ] ]).
  unfold TopLevel_wf, TopLevel_all, e, assign_expr. cbn. rewrite Ha, andb_true_l, !andb_true_r. by apply N.ltb_lt.
Qed.

(** Claim C14. Evaluation of a normal form against any index that keeps the
    promises of the interface succeeds and returns exactly the IDs of the
    entities whose annotation pairs satisfy the query: unions, intersections,
    complements within the live entities, point lookups, ranges and patterns. *)
Theorem Evaluate_correct {HR : Roaring} {RO : RoaringOk} {Q} `{!StoreQuerier Q} (q : Q) n dom scanned has (t : AST) :
  IndexOk q n dom scanned has → AST_ok dom scanned t →
  ∃ B, AST_Evaluate t q n = Ok B ∧
    ∀ x, bm_Contains B x = true ↔ ∃ l, has x l ∧ sem_AST (term_sem l) true t = true.
Proof. intros HI Ht. exact (AST_Evaluate_ok q n dom scanned has t Ht). Qed.

(** Claim C3. A query means what it says: from the parse tree through
    normalisation and evaluation, the resulting bitmap holds exactly the IDs of
    the entities, live in the state of the block the query is for, that satisfy
    the expression.  [satisfies] reads the parse tree itself, with the attributes
    of the entity listed from its fields, and not through the normaliser, the
    index or the evaluator.  Equality and inclusion are exact at every block that
    can be read, ranges and patterns at the head. *)
Theorem query_correct {E : Env} {EO : EnvOk} {CF : CollisionFree} σ n st t :
  readable σ n st → tracked (mkAnnotPair (str "$all") (str "true")) →
  TopLevel_ok t = true → TopLevel_every (leaf_ready tracked (scannable n)) t →
  ∃ ast B, TopLevel_Normalize t = Ok ast ∧ AST_Evaluate ast σ n = Ok B ∧
    ∀ x, bm_Contains B x = true ↔
      ∃ a e, abs_ents st !! a = Some (x, e) ∧ satisfies e t.
Proof. apply query_ok. Qed.
