(* ===== verification/ServerTheorems.v ===== *)
(** The properties of the query server: the page a query returns, the pages a
    client collects, queries that race commits, and the projection of
    entities. *)
From S2P Require Export RaceEval.

Section ServerTheorems.
Context {E : Env} {EO : EnvOk} {CF : CollisionFree} {HX : Hexutil} {HXO : HexutilOk}.


(** Claim C20. A client that follows the cursors of a query with a page size
    above zero gets every matching entity of its block exactly once, newest
    first, within as many requests as there are entities and one more. *)
Theorem Query_pages ParseString σ st queryStr t options fuel :
  answerable ParseString σ (atBlockOf options) st queryStr t → getCursor options = Ok None →
  getResultsPerPage options ≠ 0%N → (size (abs_ents st) < fuel)%nat →
  ∃ ids data, follow ParseString fuel σ queryStr options = Ok data ∧ shows st (getIncludeData options) ids data ∧
    NoDup ids ∧ StronglySorted (λ x y, y < x)%N ids ∧ ∀ x, x ∈ ids ↔ matches st t x.
Proof.
  intros A Hc Hn Hf. destruct (Query_ok _ _ _ _ _ _ _ _ A eq_refl Hc) as (ids & _ & Hsel & _).
  pose proof (selected_size _ _ _ _ _ _ (aw_block _ _ _ _ _ _ A) Hsel) as Hsz.
  destruct (follow_ok _ fuel _ _ _ _ _ _ _ _ A eq_refl Hc Hn Hsel) as (data & Hd & Hshow); [lia|].
  exists ids, data. split; [done|]. split; [done|]. split; [by eapply descending_NoDup, Hsel|]. split; [apply Hsel|].
  intros x. rewrite (proj2 Hsel x). cbn. tauto.
Qed.

(** Claim C21. History is stable: the answer to an equality query at an earlier
    block does not change when another block is committed, even one that
    deletes or rewrites the entities it returns: it is the same response, page,
    cursor and block number included.  The new block has a number and a hash of
    its own and creates no address that was live at the earlier one. *)
Theorem historical_query_stable ParseString σ sth stn queryStr t options cursor block st' root σ' :
  let n := atBlockOf options in
  answerable ParseString σ n stn queryStr t → getCursor options = Ok cursor → is_u64 n → n ≠ 0%N →
  caches_cover (store_reader σ) stn → (abs_count stn ≤ abs_count sth)%N →
  head_repr σ sth → block_valid sth block → block_hashed σ block → is_u64 (header_Number (block_Header block)) →
  n ≠ header_Number (block_Header block) → (∀ a, creates block a → abs_ents stn !! a = None) →
  (∀ hb, store_reader σ (blockNumberKey n) = Some hb → BytesToHash hb ≠ header_Hash (block_Header block)) →
  abs_block sth block = Some st' → ProcessBlock σ block = (Ok root, σ') →
  (∀ p s, (kv_NewIterator (rawDB σ') p s).2 = None) →
  Query ParseString σ' queryStr options = Query ParseString σ queryStr options.
Proof.
  intros n A Hc Hu Hz C Hle R V H Hnum Hne Hcr Hhash Ha Hp Hit. pose proof (processBlock_ok _ _ _ R V H) as B. rewrite Ha in B.
  unfold ProcessBlock in Hp. rewrite Hp in B. destruct A as [Rd Hall Hparse Ht Hl].
  assert (readable σ' n stn) as Rd'.
  { apply readable_cached; [done| | |done].
    - eapply state_at_older; [exact B|done..|apply Rd].
    - eapply caches_cover_block; [exact B|by eapply state_at_wf, Rd|done|done|done]. }
  apply (Query_same ParseString σ' σ n stn queryStr t options cursor); [by split|by split|done|done|].
  unfold response_block. by destruct (N.eqb_spec n 0).
Qed.

(** A query that races commits, with any number of blocks committed
    between its evaluation and each of its fetches: the IDs are those that match
    in the evaluated state, newest first; each is answered by the entity that the
    state of its fetch holds at the address of the ID, and left out when that
    state holds none.  The query neither fails nor panics, the page is filled
    from the older IDs when some are left out, and the cursor resumes after the
    last ID looked at, so that no ID is lost between pages. *)
Theorem Query_race ParseString m st now queryStr t options cursor :
  answerable ParseString (at_eval m) 0 st queryStr t → racing m st now →
  atBlockOf options = 0%N → getCursor options = Ok cursor →
  ∃ taken rest data, selected st t cursor (taken ++ rest) ∧
    refetched (owns st) now (getIncludeData options) taken data ∧
    (N.of_nat (length data) ≤ getResultsPerPage options)%N ∧
    (rest = [] ∨ N.of_nat (length data) = getResultsPerPage options) ∧
    Query ParseString m queryStr options =
      Ok (mkQueryResponse data (headNumber (at_head m)) (nextCursor rest (last taken))).
Proof.
  intros [R Hall Hp Ht Hl] Hm Hat Hc.
  destruct (index_query_ok m 0 st t (moments_index_ok m 0 st R Hall) Ht Hl) as (ast & B & Hast & HB & Hx).
  destruct (selected_page (fetchID m 0 (getIncludeData options)) st t cursor options B Hx) as (dn & rest & Hsel & Hlive & Hf & Hle & Hend).
  { intros x (a & e & He). eexists. eapply fetchID_race; [done|by exists e]. }
  eexists dn, rest, _. do 4 (split; [first [done|apply found_race; [intros x a; by apply fetchID_race|intros x (a & e & He)%Hlive; by exists a, e] ]|]). unfold Query, respond, Parse. rewrite Hp. wrap_step. rewrite Hast. wrap_step.
  rewrite Hat. rewrite HB. wrap_step. rewrite Hc. bind_step. rewrite Hf. reflexivity.
Qed.

(** Claim C22. A query of any number of leaves that races commits.  Every index
    read of its evaluation, and after them every fetch, finds the store of its own
    moment, on one line of commits.  Whatever the moments, the query answers, and
    never fails or panics: an entity whose annotations do not change meanwhile is
    selected exactly when it matches; no ID is returned that was never live; every
    selected ID shows the entity that its address holds when it is fetched, and is
    left out when it holds none; the page is filled from older IDs, and the cursor
    loses none.  If the store stands still during the evaluation this is
    [Query]. *)
Theorem Query_interleaved ParseString during m now queryStr t options cursor :
  interleaved during m now → tracked (mkAnnotPair (str "$all") (str "true")) →
  ParseString queryStr = Ok t → TopLevel_ok t = true → TopLevel_every (leaf_ready tracked (scannable 0)) t →
  atBlockOf options = 0%N → getCursor options = Ok cursor →
  yields (race_Query ParseString (current during) m queryStr options) (answered during m now t options cursor) ∧
  only (race_Query ParseString (λ σ, σ = at_eval m) m queryStr options) (Query ParseString m queryStr options).
Proof.
  intros Hm Hall Hp Ht Hl Hat Hc. split; [by apply Query_interleaved_ok|apply Query_still].
Qed.

(** [arkiv_getEntityCount] answers with the number of live entities. *)
Theorem GetEntityCount_exact σ st :
  head_repr σ st → tracked (mkAnnotPair (str "$all") (str "true")) →
  GetEntityCount σ = Ok (N.of_nat (size (abs_ents st))).
Proof.
  intros R Ht. destruct (AllEntities_ok _ _ _ (state_at_head _ _ R) Ht) as (B & HB & Hx).
  unfold GetEntityCount. cbn [q_AllEntities backend_querier store_backend store_querier]. rewrite HB. bind_step.
  rewrite Cardinality_spec. do 2 f_equal. apply (card_live st); [by eapply head_repr_wf|apply ReverseIterator_NoDup|].
  intros x. by rewrite ReverseIterator_elem, (Hx x).
Qed.

(** [arkiv_getEntityByAddress] answers with the projection of the
    entity the requested block's state holds at the address, and an error when
    it holds none. *)
Theorem GetEntityByAddress_exact σ st a options :
  state_at σ (atBlockOf options) st →
  match abs_ents st !! a with
  | Some (_, e) => GetEntityByAddress σ a options = Ok (entityData e (getIncludeData options))
  | None => ∃ err, GetEntityByAddress σ a options = Err err
  end.
Proof. apply fetchEntityData_ok. Qed.

End ServerTheorems.

(** Claim C37. The attributes of a response are sorted by key and are, each as
    often as the entity has it, its own attributes and those derived from its
    fields (the owner, the creator and the key in checksummed hexadecimal, the
    content type unless it is empty, the expiration and the creation block),
    restricted to the keys the two inclusion flags keep: [Attributes] for keys
    that do not start with a dollar sign, [SyntheticAttributes] for those that do.
    Every attribute shown is listed by the bitmap index; of the index, a response
    leaves out [$all], [$lastModifiedAtBlock] and an empty content type, and
    nothing else that the flags keep. *)
Theorem entityData_attributes {E : Env} e inc :
  let d := entityData e inc in
  (StronglySorted attr_le (ed_StringAttributes d) ∧
   ed_StringAttributes d ≡ₚ filter (λ a, kept_by inc (qa_Key a) = true) (string_attributes e)) ∧
  (StronglySorted attr_le (ed_NumericAttributes d) ∧
   ed_NumericAttributes d ≡ₚ filter (λ a, kept_by inc (qa_Key a) = true) (number_attributes e)) ∧
  (∀ a, a ∈ ed_StringAttributes d → ∃ p, p ∈ allAnnotations e ∧ lists_string p a) ∧
  (∀ a, a ∈ ed_NumericAttributes d → ∃ p, p ∈ allAnnotations e ∧ lists_number p a) ∧
  ∀ p, p ∈ allAnnotations e → kept_by inc (pair_key p) = true → p ∈ unreturned e ∨
    (∃ a, a ∈ ed_StringAttributes d ∧ lists_string p a) ∨ (∃ a, a ∈ ed_NumericAttributes d ∧ lists_number p a).
Proof.
  cbv zeta.
  destruct (shown_strings_ok e inc) as [Hs Hsp], (shown_numbers_ok e inc) as [Hn Hnp].
  split; [by split|]. split; [by split|]. split; [|split].
  - intros a. rewrite Hsp. intros [_ Ha]%list_elem_of_filter. by apply string_attributes_listed.
  - intros a. rewrite Hnp. intros [_ Ha]%list_elem_of_filter. by apply number_attributes_listed.
  - intros p Hp Hk. destruct (listed_shown e p Hp) as [?|[(a & Ha & Hl)|(a & Ha & Hl)] ]; [by left|..]; right; [left|right];
      exists a; (split; [|done]).
    + rewrite Hsp. apply list_elem_of_filter. split; [|done]. destruct Hl as [<- _]. exact Hk.
    + rewrite Hnp. apply list_elem_of_filter. split; [|done]. rewrite Hl in Hk. exact Hk.
Qed.

(** The page size is the requested one when it is at most 200, and 200
    when it is larger or absent. *)
Theorem getResultsPerPage_spec options :
  getResultsPerPage options = match options with Some o => N.min 200 (default 200 (opt_ResultsPerPage o)) | None => 200 end%N.
Proof.
  destruct options as [o|]; [|done]. unfold getResultsPerPage, queryResultCountLimit. destruct (opt_ResultsPerPage o) as [n|]; [|done].
  cbn. destruct (N.ltb_spec 200 n); lia.
Qed.
