(* ===== verification/StoreTheorems.v ===== *)
(** The properties of the ingest path: operations, blocks, reverts and reorgs. *)
From S2P Require Export Atomicity QueryProofs.

Section StoreTheorems.
Context {E : Env} {EO : EnvOk} {CF : CollisionFree}.

(** Claim C13. Each operation refines its abstract counterpart: on a cache store
    that represents a state it either succeeds, and the new cache store
    represents the new state with the bitmap of every annotation pair exact, or
    it returns an error, and does so exactly when the abstract operation fails
    (entity not found, empty operation).  The new state holds the entity that
    [Effects] promises field by field; an update keeps the owner, the creator, the
    expiration and the place of creation.  It never panics, and it touches
    neither the real database nor any key but those of a created entity. *)
Theorem applyOp_refines cs st op :
  cs_repr cs st → op_valid (blockNumber cs) st op →
  match abs_op (blockNumber cs) st op with
  | Some st' => ∃ cs', applyOp cs op = Ok cs' ∧ cs_repr cs' st' ∧ cs_frame (op_touched st op) cs cs'
  | None => ∃ err, applyOp cs op = Err err
  end.
Proof. apply applyOp_ok. Qed.

(** Claim C1. Processing a block refines the abstract block: it fails exactly
    when one of its operations must fail or the environment does, leaving the
    store as it was; otherwise the new head represents the abstract state after
    the block (entities, ID mappings and the bitmap of every pair), the block
    index points to it, and every root that opened before still opens to the
    same state. *)
Theorem processBlock_refines σ st block :
  head_repr σ st → block_valid st block → block_hashed σ block →
  match abs_block st block with
  | Some st' =>
      match ProcessBlock σ block with
      | (Ok root, σ') => block_post σ block st st' root σ'
      | (Err _, σ') => σ' = σ ∧ io_failure (rawDB σ) st'
      | (Panic, _) => False
      end
  | None => ∃ err, ProcessBlock σ block = (Err err, σ)
  end.
Proof. apply processBlock_ok. Qed.

(** Claim C12. Whatever the block, the database and the environment, a block that
    is not committed (an error at any point, or a panic) leaves the store
    exactly as it was: all writes stay in the staging layer until the flush. *)
Theorem processBlock_atomic σ block r σ' :
  ProcessBlock σ block = (r, σ') → (∃ root, r = Ok root ∧ headRoot σ' = root) ∨ σ' = σ.
Proof.
  intros H. pose proof H as H'. apply processBlock_keeps in H' as [[root ->]|]; [left|by right].
  exists root. split; [done|]. by eapply processBlock_root.
Qed.

(** Claim C31. After a block is committed, a query at the head or at the block's
    own number reads the new state, and a query at any earlier block reads what
    it read before. *)
Theorem block_history σ st block st' root σ' n stn :
  head_repr σ st → block_valid st block → block_hashed σ block → is_u64 (header_Number (block_Header block)) →
  header_Number (block_Header block) ≠ 0%N →
  abs_block st block = Some st' → ProcessBlock σ block = (Ok root, σ') →
  state_at σ' 0 st' ∧ state_at σ' (header_Number (block_Header block)) st' ∧
  (is_u64 n → n ≠ 0%N → n ≠ header_Number (block_Header block) →
   (∀ hb, store_reader σ (blockNumberKey n) = Some hb → BytesToHash hb ≠ header_Hash (block_Header block)) →
   state_at σ n stn → state_at σ' n stn).
Proof.
  intros R V H Hn Hz Ha Hp. pose proof (processBlock_ok _ _ _ R V H) as B. rewrite Ha in B.
  unfold ProcessBlock in Hp. rewrite Hp in B. split; [by apply state_at_head, B|]. split.
  - eapply state_at_own; [exact B|done].
  - intros. by eapply state_at_older.
Qed.

(** Claim C7. A revert of the newest blocks brings the head back to the state
    of the parent of the oldest one: its entities, ID mappings and the index
    pointers of every pair, the head record and root of the parent; the index
    entries of the reverted blocks and the mappings of the IDs that are dead
    there are gone, and blobs and roots are kept.  The hypotheses: the parent's
    root stands for its state, and the ID mappings of the entities live there
    are still cached. *)
Theorem RevertBlocks_restores σ st refs oldest anc root st0 :
  head_repr σ st → last refs = Some oldest →
  store_reader σ (parentKey (ref_Hash oldest)) = Some (array_bytes anc) →
  ancestor_repr (store_reader σ) anc root st0 → caches_cover (store_reader σ) st0 →
  match RevertBlocks σ refs with
  | (Ok r, σ') => r = root ∧ revert_post σ refs (ref_Number oldest - 1) anc root st0 σ'
  | (Err _, σ') => σ' = σ ∧ revert_failure (rawDB σ)
  | (Panic, _) => False
  end.
Proof.
  intros R Hl Hp An C. pose proof (revertToAncestor_ok _ _ _ _ _ _ _ R Hl Hp An C) as H.
  rewrite (RevertBlocks_last _ _ _ Hl). destruct (revertToAncestor _ _) as [[[]|e|] σ']; cbn; [|done..].
  split; [|done]. by destruct (rv_head _ _ _ _ _ _ _ H) as [-> _].
Qed.

(** Claim C6. A reorg ends, when it succeeds, in the state of the new blocks
    run from the ancestor of the reverted ones.  When it fails the store still
    represents a state, but not always the old one: a failing new block leaves
    the ancestor with the new blocks before it. *)
Theorem Reorg_refines σ st refs oldest anc root st0 blocks :
  head_repr σ st → last refs = Some oldest →
  store_reader σ (parentKey (ref_Hash oldest)) = Some (array_bytes anc) →
  ancestor_repr (store_reader σ) anc root st0 → caches_cover (store_reader σ) st0 →
  (∀ σ1, revertToAncestor σ refs = (Ok tt, σ1) → blocks_valid σ1 st0 blocks) →
  match Reorg σ refs blocks with
  | (Ok r, σ') => ∃ st', abs_blocks st0 blocks = Some st' ∧ head_repr σ' st' ∧ r = headRoot σ'
  | (Err _, σ') => σ' = σ ∨
      ∃ done rest st', blocks = done ++ rest ∧ rest ≠ [] ∧ abs_blocks st0 done = Some st' ∧ head_repr σ' st'
  | (Panic, _) => False
  end.
Proof. apply Reorg_ok. Qed.

(** [arkiv_commitChain] processes its blocks one by one and commits
    each: on success the head is the state of all of them and the answer is its
    root (the zero hash for no block); on an error the blocks before the failing
    one stay committed. *)
Theorem CommitChain_refines σ st req :
  head_repr σ st → blocks_valid σ st (cc_Blocks req) →
  match CommitChain σ req with
  | (Ok r, σ') => ∃ st', abs_blocks st (cc_Blocks req) = Some st' ∧ head_repr σ' st' ∧
      StateRoot r = (match cc_Blocks req with [] => zeroHash | _ => headRoot σ' end)
  | (Err _, σ') => ∃ done rest st', cc_Blocks req = done ++ rest ∧ rest ≠ [] ∧
      abs_blocks st done = Some st' ∧ head_repr σ' st'
  | (Panic, _) => False
  end.
Proof.
  intros R V. pose proof (processBlocks_ok _ _ _ R V) as H. unfold CommitChain.
  pose proof (commitLoop_processBlocks σ zeroHash (cc_Blocks req)) as Hl.
  destruct (processBlocks σ (cc_Blocks req)) as [[[]|e|] σ']; [rewrite Hl|destruct Hl as [e' ->]|]; cbn; [|done..].
  destruct H as (st' & ? & ?). by exists st'.
Qed.

End StoreTheorems.
