(* ===== verification/HistoryTheorems.v ===== *)
(** The properties of histories: a run of blocks undone, and undone to be
    replaced by another. *)
From S2P Require Export StoreTheorems HistoryProofs.

Section HistoryTheorems.
Context {E : Env} {EO : EnvOk} {CF : CollisionFree}.

(** Claim C8. Undoing a whole run restores the store it started from: after any
    number of linked blocks, reverting all of them in one call brings back the
    root, the hash and the state of the start (entities, IDs and the bitmap of
    every pair), and no block of the run can be found by its hash any more; or
    the revert fails and changes nothing.  The blocks have hashes of their own
    and create no address that is live at the start. *)
Theorem history_revert σ st b blocks σ' :
  run_from σ st b blocks → processBlocks σ (b :: blocks) = (Ok tt, σ') →
  match RevertBlocks σ' (run_refs (b :: blocks)) with
  | (Ok r, σ2) => r = headRoot σ ∧ headHash σ2 = headHash σ ∧ headRoot σ2 = headRoot σ ∧
      headNumber σ2 = (header_Number (block_Header b) - 1)%N ∧ head_repr σ2 st ∧
      ∀ b', b' ∈ b :: blocks → store_reader σ2 (rootKey (block_hash b')) = None
  | (Err _, σ2) => σ2 = σ' ∧ revert_failure (rawDB σ')
  | (Panic, _) => False
  end.
Proof.
  intros Hrf Hrun. destruct (run_reverts _ _ _ _ _ Hrf Hrun) as (st' & _ & R & Hl & Hp & An & C).
  pose proof (revertToAncestor_ok _ _ _ _ _ _ _ R Hl Hp An C) as H.
  rewrite (RevertBlocks_last _ _ _ Hl). destruct (revertToAncestor _ _) as [[[]|e|] σ2]; cbn; [|done..].
  destruct (rv_head _ _ _ _ _ _ _ H) as (-> & -> & ->). split_and!; try done; [apply H|].
  intros b' Hb. apply (rv_refs _ _ _ _ _ _ _ H). by apply run_refs_keys.
Qed.

(** Replacing a whole run: after any number of linked blocks, a reorg
    that reverts all of them and processes others ends, when it succeeds, in
    the state of the other blocks run from the start of the first run, whatever
    the first run did.  When it fails, the store is as before or represents the
    start with the new blocks before the failing one. *)
Theorem history_reorg σ st b blocks σ' new :
  run_from σ st b blocks → processBlocks σ (b :: blocks) = (Ok tt, σ') →
  (∀ σ1, revertToAncestor σ' (run_refs (b :: blocks)) = (Ok tt, σ1) → blocks_valid σ1 st new) →
  match Reorg σ' (run_refs (b :: blocks)) new with
  | (Ok r, σ2) => ∃ st2, abs_blocks st new = Some st2 ∧ head_repr σ2 st2 ∧ r = headRoot σ2
  | (Err _, σ2) => σ2 = σ' ∨
      ∃ done rest st2, new = done ++ rest ∧ rest ≠ [] ∧ abs_blocks st done = Some st2 ∧ head_repr σ2 st2
  | (Panic, _) => False
  end.
Proof.
  intros Hrf Hrun Hv. destruct (run_reverts _ _ _ _ _ Hrf Hrun) as (st' & _ & R & Hl & Hp & An & C).
  exact (Reorg_ok _ _ _ _ _ _ _ _ R Hl Hp An C Hv).
Qed.

(** Claim C11. Ingest makes progress: when the environment answers the calls the
    commits make (it encodes entities, commits states and tries and accepts
    batches) and every operation has its entity, [arkiv_commitChain] answers,
    for any number of blocks, with the root of the head; the head is the state
    of all the blocks, and every entity live in it can be read, by its address
    and by its ID. *)
Theorem CommitChain_progress σ st req st' :
  head_repr σ st → blocks_valid σ st (cc_Blocks req) → responsive_run σ (cc_Blocks req) →
  abs_blocks st (cc_Blocks req) = Some st' →
  ∃ r σ', CommitChain σ req = (Ok r, σ') ∧ head_repr σ' st' ∧
    (cc_Blocks req ≠ [] → StateRoot r = headRoot σ') ∧
    ∀ a id e, abs_ents st' !! a = Some (id, e) → GetEntity σ' 0 a = Ok e ∧ IDToAddress σ' id = Some a.
Proof.
  intros R V U Ha. destruct (processBlocks_progress _ _ _ _ R V U Ha) as (σ' & Hp & R').
  pose proof (commitLoop_processBlocks σ zeroHash (cc_Blocks req)) as Hl. rewrite Hp in Hl. unfold CommitChain. rewrite Hl.
  eexists _, σ'. split; [reflexivity|]. split; [done|]. split; [by destruct (cc_Blocks req)|].
  intros a id e He. pose proof (GetEntity_ok _ _ _ a (state_at_head _ _ R')) as Hg. rewrite He in Hg.
  split; [done|]. by eapply IDToAddress_ok.
Qed.

End HistoryTheorems.
