(* ===== verification/SessionTheorems.v ===== *)
(** The service as a whole: what a store serves after any session, any sequence
    of commits, reverts, failures and restarts on an empty database, that the
    handlers' longer calls are sessions too, and what a revert beyond the cached
    IDs loses. *)
From S2P Require Export Stepwise Race.

Section SessionTheorems.
Context {E : Env} {EO : EnvOk} {CF : CollisionFree} {HX : Hexutil} {HXO : HexutilOk}.

(** Claim C2. After any session the store serves its chain.  The head is the
    newest link; every block of the chain reads the state it was committed with,
    whatever was committed, undone and committed again since; opening the
    database gives the same store; and an ID resolves exactly when the chain has
    it cached: commits cache the IDs they give out, and a revert drops those that
    are dead in its target. *)
Theorem session_serves number hash σ c : session number hash σ c →
  head_repr σ (ch_state c) ∧ New (rawDB σ) = Ok σ ∧
  (ch_older c ≠ [] → HeadHash σ = ln_hash (ch_head c) ∧ HeadNumber σ = ln_number (ch_head c)) ∧
  (∀ l, l ∈ ch_blocks c → state_at σ (ln_number l) (ln_state l)) ∧
  (∀ id, is_u64 id → IDToAddress σ id = ch_cached c !! id).
Proof.
  intros S%session_served. split; [apply S|]. split; [apply S|]. split; [apply S|].
  split; [intros l; by apply block_state_at|]. intros id. by apply served_IDToAddress.
Qed.

(** Claim C4. A query at any block of the chain, after any session, answers from
    the state the block was committed with: the IDs are those that match there,
    newest first, and each is shown with its entity of that state.  IDs whose
    cache entries a revert has dropped are left out of the page, which is then
    filled from the older ones; the cursor resumes after the last ID looked
    at. *)
Theorem session_query ParseString number hash σ c l queryStr t options cursor :
  session number hash σ c → link_at c (atBlockOf options) l →
  (∀ p s, (kv_NewIterator (rawDB σ) p s).2 = None) → tracked (mkAnnotPair (str "$all") (str "true")) →
  ParseString queryStr = Ok t → TopLevel_ok t = true →
  TopLevel_every (leaf_ready tracked (scannable (atBlockOf options))) t → getCursor options = Ok cursor →
  ∃ taken rest data, selected (ln_state l) t cursor (taken ++ rest) ∧
    shows (ln_state l) (getIncludeData options) (filter (resolves c) taken) data ∧
    (N.of_nat (length data) ≤ getResultsPerPage options)%N ∧
    (rest = [] ∨ N.of_nat (length data) = getResultsPerPage options) ∧
    Query ParseString σ queryStr options =
      Ok (mkQueryResponse data (response_block σ (atBlockOf options)) (nextCursor rest (last taken))).
Proof.
  set (n := atBlockOf options). intros S%session_served Hl Herr Hall Hp Ht Hleaves Hc.
  assert (IndexOk σ n tracked (scannable n) (store_has (ln_state l))) as HI.
  { apply state_index_ok; [by eapply link_state_at| |done|done]. intros Hz.
    destruct Hl as [[_ ->]|[Hb Hn]]; [apply S|]. destruct (linked_blocks _ _ _ _ (sv_linked _ _ S) Hb) as [Hnz _]. congruence. }
  destruct (index_query_ok σ n (ln_state l) t HI Ht Hleaves) as (ast & B & Hast & HB & Hx).
  destruct (selected_page (fetchID σ n (getIncludeData options)) (ln_state l) t cursor options B Hx) as (dn & rest & Hsel & Hlive & Hf & Hle & Hend).
  { intros x (a & e & He). eexists. by eapply fetchID_session. }
  eexists dn, rest, _. do 4 (split; [first [done|by apply found_session]|]).
  unfold Query, respond, Parse. rewrite Hp. wrap_step. rewrite Hast. wrap_step. fold n.
  cbn [backend_querier store_backend]. rewrite HB. wrap_step. rewrite Hc. bind_step. by rewrite Hf.
Qed.

(** Claim C5. [arkiv_commitChain] and [arkiv_reorg] are sessions themselves:
    whatever their outcome, the store goes on serving a chain.  When they
    succeed it is the chain with all the new blocks; when a block fails it is the
    chain with the blocks before it; a reorg that fails to revert leaves the
    chain alone.  Neither panics. *)
Theorem session_requests number hash σ c :
  session number hash σ c →
  (∀ req r σ', run_fits σ c (cc_Blocks req) → CommitChain σ req = (r, σ') →
    ∃ c', session number hash σ' c' ∧
      match r with
      | Ok res => abs_commits c (cc_Blocks req) = Some c' ∧ (cc_Blocks req ≠ [] → StateRoot res = headRoot σ')
      | Err _ => ∃ done rest, cc_Blocks req = done ++ rest ∧ rest ≠ [] ∧ abs_commits c done = Some c'
      | Panic => False
      end) ∧
  (∀ k c1 blocks r σ', can_undo k c → abs_undo k c = Some c1 →
    (∀ σ1, revertToAncestor σ (undo_refs k c) = (Ok tt, σ1) → run_fits σ1 c1 blocks) →
    Chain_Reorg σ (mkReorgRequest (undo_refs k c) blocks) = (r, σ') →
    ∃ c', session number hash σ' c' ∧
      match r with
      | Ok res => abs_commits c1 blocks = Some c' ∧ StateRoot res = headRoot σ'
      | Err _ => σ' = σ ∧ c' = c ∨ ∃ done rest, blocks = done ++ rest ∧ rest ≠ [] ∧ abs_commits c1 done = Some c'
      | Panic => False
      end).
Proof.
  intros Hs. split.
  - intros req r σ' F Hr. unfold CommitChain in Hr. pose proof (commitLoop_processBlocks σ zeroHash (cc_Blocks req)) as Hl.
    destruct (processBlocks σ (cc_Blocks req)) as [r1 σ1] eqn:Ep.
    destruct (processBlocks_session _ _ _ _ _ _ _ Hs F Ep) as (c' & Hs' & Ho).
    destruct r1 as [[]|e|]; [|destruct Hl as [e' Hl]|done]; rewrite Hl in Hr; injection Hr as <- <-; exists c'; (split; [done|]); [|done].
    split; [done|]. cbn. by destruct (cc_Blocks req).
  - intros k c1 blocks r σ' Hk Hu F Hr. unfold Chain_Reorg, Reorg in Hr. cbn [ro_RevertedBlocks ro_NewBlocks] in Hr.
    destruct (undo_refs k c) as [|r0 refs] eqn:Erefs.
    { destruct Hk as [Hk _]. apply map_eq_nil in Erefs. by destruct k. }
    rewrite <-Erefs in *. destruct (revertToAncestor σ (undo_refs k c)) as [r1 σ1] eqn:Er.
    pose proof (revertToAncestor_session _ _ _ _ _ _ _ _ Hs Hk Hu Er) as H1.
    destruct r1 as [[]|e|]; [|injection Hr as <- <-; subst σ1; exists c; split; [done|by left]|done].
    destruct (processBlocks σ1 blocks) as [r2 σ2] eqn:Ep.
    destruct (processBlocks_session _ _ _ _ _ _ _ H1 (F _ eq_refl) Ep) as (c' & Hs' & Ho).
    destruct r2 as [[]|e|]; cbn in Hr; injection Hr as <- <-; exists c'; (split; [done|]); [by split|by right|done].
Qed.

(** Claim C38. The ID mappings after a revert depend on the steps taken to it.
    Let an entity be live in the state a revert of [i + j] blocks restores, and
    dead in the state [i] blocks back.  Undone in one call, the blocks leave a
    store that serves the entity.  Undone in two calls they leave the same head,
    the same root and the same entities in the trie; but the first call, which
    takes the entity for one that was never created, drops its mappings, and the
    second does not restore them: the ID does not resolve, queries skip the
    entity, and every block that starts with an operation on it fails. *)
Theorem stepwise_revert_loses_ids number hash σ c i j c1 c2 a x e ha σa h1 σ1 h2 σ2 :
  session number hash σ c → can_undo i c → abs_undo i c = Some c1 →
  j ≠ O → abs_undo (i + j) c = Some c2 → covered (ch_cached c) (ch_state c2) →
  abs_ents (ch_state c2) !! a = Some (x, e) → ¬ live_id (ch_state c1) x →
  RevertBlocks σ (undo_refs (i + j) c) = (Ok ha, σa) →
  RevertBlocks σ (undo_refs i c) = (Ok h1, σ1) → RevertBlocks σ1 (undo_refs j c1) = (Ok h2, σ2) →
  (headRoot σ2 = headRoot σa ∧ headHash σ2 = headHash σa ∧ headNumber σ2 = headNumber σa) ∧
  (head_repr σa (ch_state c2) ∧ IDToAddress σa x = Some a ∧ ∀ inc, fetchID σa 0 inc x = Ok (Some (entityData e inc))) ∧
  (state_at σ2 0 (ch_state c2) ∧ GetEntity σ2 0 a = Ok e) ∧
  (IDToAddress σ2 x = None ∧ ∀ inc, fetchID σ2 0 inc x = Ok None) ∧
  ∀ b root σ', starts_on b a → ProcessBlock σ2 b ≠ (Ok root, σ').
Proof.
  intros S%session_served U1 Hu1 Hj Hu C Ha Hdead Ra R1 R2.
  assert (can_undo (i + j) c) as U by (split; [lia|by exists c2]).
  destruct (undo_post _ _ _ _ _ _ S U Hu Ra) as (Sa & ra & Ana & Va).
  destruct (undo_post _ _ _ _ _ _ S U1 Hu1 R1) as (S1 & r1 & _ & V1).
  destruct (abs_undo_undo _ _ _ _ _ Hu1 Hu) as (c2' & Hu2 & Hh).
  destruct (undo_any _ _ _ _ _ _ S1 Hj Hu2 R2) as (r2 & An2 & [Hhead Hst Habs]).
  unfold ch_state in An2, Hst. rewrite Hh in An2, Hhead, Hst. fold (ch_state c2) in *.
  assert (store_reader σ1 (rootKey (ln_hash (ch_head c2))) = store_reader σ (rootKey (ln_hash (ch_head c2)))) as Hk.
  { refine (proj1 (undo_index _ _ _ _ _ _ _ _ _ _ S Hu1 V1 _)). rewrite <-Hh. eapply undo_elem; [exact Hu2|]. apply elem_of_cons. by left. }
  pose proof (ancestor_root_eq _ _ _ _ _ _ _ Ana An2 Hk) as ->.
  assert (is_u64 x) as Hx by (by destruct (wf_id _ (served_wf _ _ Sa) _ _ _ Ha) as [_ [? _] ]).
  pose proof (C _ _ _ Ha) as Hc. pose proof (proj2 (sv_ids _ _ S x a Hx) Hc) as Hg.
  destruct (rv_dead _ _ _ _ _ _ _ V1 x a (served_tracked _ _ _ _ S Hc) Hdead Hg) as [Hid Had].
  assert (IDToAddress σ2 x = None) as HN.
  { apply IDToAddress_absent. exact (Habs (KID x) I Hid). }
  split; [|split; [|split; [|split] ] ].
  - destruct Hhead as (-> & -> & ->). by destruct (rv_head _ _ _ _ _ _ _ Va) as (-> & -> & ->).
  - split; [apply Sa|]. split; [exact (served_resolves _ _ _ _ _ Sa Ha)|]. intros inc.
    rewrite (fetchID_session _ _ _ _ inc _ _ _ Sa (link_at_head c2) Ha), decide_True; [done|].
    exists a. exact (served_covered _ _ Sa _ _ _ Ha).
  - split; [exact Hst|]. pose proof (GetEntity_ok _ _ _ a Hst) as Hge. by rewrite Ha in Hge.
  - split; [exact HN|]. intros inc. unfold fetchID. cbn [b_IDToAddress store_backend]. by rewrite HN.
  - intros b root σ'. apply ProcessBlock_absent. exact (Habs (KAddr a) I Had).
Qed.

End SessionTheorems.
