(* ===== verification/DaemonTheorems.v ===== *)
(** The properties of the daemon around the store: restarts, configuration and
    build metadata. *)
From S2P Require Export Process.

(** ** Settings *)

Lemma setting_snoc l s name :
  setting (l ++ [s]) name = if decide (s.1 = name) then Some s.2 else setting l name.
Proof.
  unfold setting. rewrite filter_app. cbn [filter list_filter]. destruct (decide (s.1 = name)).
  - by rewrite last_snoc.
  - by rewrite app_nil_r.
Qed.

Lemma setting_fresh l name : name ∉ l.*1 → setting l name = None.
Proof.
  induction l as [|s l IH] using rev_ind; [done|]. rewrite fmap_app, not_elem_of_app. intros [Hl Hs].
  rewrite setting_snoc. rewrite decide_False; [by apply IH|]. intros <-. apply Hs. by apply elem_of_cons; left.
Qed.

(** The value of an address flag: the command line, else a non-empty entry of
    the file, else the default. *)
Definition resolved (settings : list (bytes * bytes)) (name fromFile dflt : bytes) : bytes :=
  match setting settings name with
  | Some v => v
  | None => if decide (fromFile = []) then dflt else fromFile
  end.

Section DaemonTheorems.
Context {E : Env} {EO : EnvOk} `{HexJson} `{!HexJsonOk}.
Variable filepath_Join : bytes → bytes → bytes.
Variable yaml_Decode : bytes → config → config * option error.

Lemma override_resolved dir settings name cur fromFile dflt : cur = flag_String settings name dflt →
  override (readFlags dir settings) name cur fromFile = resolved settings name fromFile dflt.
Proof.
  intros ->. unfold override, resolved, readFlags, flag_String, flag_Visit. cbn [fl_explicit].
  destruct (setting settings name) as [v|]; [by rewrite bool_decide_true|].
  rewrite (bool_decide_false (is_Some None)) by (by intros [? ?]). cbn. destruct (decide (fromFile = [])) as [->|Hn]; [done|].
  by rewrite bool_decide_true.
Qed.

(** Claim C9. A restart resumes where the process stopped.  Let a daemon serve
    the store of a database, with any requests next to each other (JSON values of
    any shape, successes, errors and panics, block by block), and let it be
    stopped anywhere, by a signal, by a failing listener or in the middle of a
    request: then a daemon started on the database it leaves serves exactly the
    store that was in memory (head number, hash and root), whenever its flags
    parse, its configuration loads and its servers can be made.  It listens on the
    addresses of the command line, else of the file, else the defaults. *)
Theorem restart_resumes raw σ0 p args home current os_Open pebble_New settings cfg :
  New raw = Ok σ0 → rtc process_step (serving σ0) p →
  flag_Parse defined args [] = Parsed settings → flag_Bool settings (str "version") false = false →
  let dir := flag_String settings (str "data-dir") (defaultDataDir filepath_Join home) in
  loadConfig filepath_Join yaml_Decode os_Open dir = (cfg, None) →
  pebble_New (filepath_Join dir (str "db")) = Ok (rawDB (p_store p)) →
  startup filepath_Join yaml_Decode args home current os_Open pebble_New (Ok tt) (Ok tt) =
    Serving (resolved settings (str "chain-addr") (cfg_ChainAddr cfg) defaultChainAddr)
            (resolved settings (str "query-addr") (cfg_QueryAddr cfg) defaultQueryAddr)
            (filepath_Join dir (str "db")) (p_store p).
Proof.
  intros Hn Hs Hp Hv dir Hc Hd. unfold startup. rewrite Hp.
  change (fl_showVersion (readFlags (defaultDataDir filepath_Join home) settings)) with (flag_Bool settings (str "version") false).
  change (fl_dataDir (readFlags (defaultDataDir filepath_Join home) settings)) with dir.
  rewrite Hv, Hc. unfold resolveAddrs. cbv zeta. rewrite Hd. cbn [or_exit].
  destruct (process_ingest _ _ Hs (List.Forall_nil _)) as [Hi _].
  rewrite (ingest_persisted _ _ Hi (New_persisted _ _ Hn)). cbn [or_exit]. f_equal; by apply override_resolved.
Qed.

(** Claim C10. Shutting down loses nothing that was accepted.  When the chain
    server has stopped every one of its requests is finished, and the store never
    changes again, so the queries still running read the final state; when [main]
    returns no query is left either.  From every point of its life but an exit
    the process can return, after carrying out what is left of each request that
    it has read, [commitChain] calls to their last block. *)
Theorem shutdown_drains σ0 p :
  rtc process_step (serving σ0) p →
  (past_chain (p_phase p) → p_calls p = [] ∧ ∀ p', rtc process_step p p' → p_store p' = p_store p) ∧
  (p_phase p = Returned → p_queries p = 0%nat) ∧
  (running p → ∃ p', rtc process_step p p' ∧ p_phase p' = Returned ∧
    p_store p' = foldl finish_call (p_store p) (p_calls p)).
Proof.
  intros Hs%process_drained; [|by split]. split; [|split].
  - intros Hp. split; [by apply Hs|]. intros p' Hp'. by eapply process_past.
  - apply Hs.
  - intros Hr. destruct (process_stops _ Hs Hr) as (s & -> & Hstop). by eexists.
Qed.

End DaemonTheorems.

(** ** Build metadata *)

Section VersionTheorems.
Context `{GoRuntime}.

Definition or_unknown (cur : bytes) (o : option bytes) : bytes := if decide (cur = unknown) then default unknown o else cur.
Definition modified_of (l : list (bytes * bytes)) : option bool := setting l (str "vcs.modified") ≫= parseBool.

(** The loop over settings with distinct keys. *)
Lemma applySettings_spec i l : NoDup l.*1 → foldl applySetting i l =
  mkInfo (info_Tag i) (or_unknown (info_Commit i) (setting l (str "vcs.revision"))) (info_CommitShort i)
    (match info_Dirty i with None => modified_of l | d => d end)
    (or_unknown (info_BuildTime i) (setting l (str "vcs.time"))) (info_GoVersion i) (info_ModuleVersion i)
    (default (info_VCSRevision i) (setting l (str "vcs.revision"))) (default (info_VCSTime i) (setting l (str "vcs.time")))
    (match modified_of l with None => info_VCSModified i | m => m end).
Proof.
  assert (∀ c, or_unknown c None = c) as Hu by (intros c; unfold or_unknown; by destruct (decide (c = unknown)) as [->|]).
  induction l as [|[k v] l IH] using rev_ind; intros Hd.
  { cbn. rewrite !Hu. by destruct i as [? ? ? []]. }
  rewrite fmap_app in Hd. apply NoDup_app in Hd as (Hl & Hk & _). rewrite foldl_app, (IH Hl). cbn [foldl].
  assert (∀ name, k = name → setting l name = None) as Hf.
  { intros name ->. apply setting_fresh. intros Hin. apply (Hk _ Hin). by apply elem_of_cons; left. }
  unfold modified_of. rewrite !setting_snoc. cbn [fst snd]. unfold applySetting.
  assert (str "vcs.revision" ≠ str "vcs.time" ∧ str "vcs.revision" ≠ str "vcs.modified" ∧ str "vcs.time" ≠ str "vcs.modified") as (N1 & N2 & N3)
    by (split_and!; apply (bool_decide_unpack _); vm_compute; exact I).
  destruct (decide (k = str "vcs.revision")) as [->|H1].
  { rewrite (decide_False (P := str "vcs.revision" = str "vcs.time")), (decide_False (P := str "vcs.revision" = str "vcs.modified")) by done.
    rewrite (Hf _ eq_refl). cbn [info_Commit info_Tag info_CommitShort info_Dirty info_BuildTime info_GoVersion info_ModuleVersion info_VCSTime info_VCSModified default from_option].
    by rewrite Hu. }
  destruct (decide (k = str "vcs.time")) as [->|H2].
  { rewrite (decide_False (P := str "vcs.time" = str "vcs.modified")) by done.
    rewrite (Hf _ eq_refl). cbn [info_Commit info_Tag info_CommitShort info_Dirty info_BuildTime info_GoVersion info_ModuleVersion info_VCSRevision info_VCSModified default from_option].
    by rewrite Hu. }
  destruct (decide (k = str "vcs.modified")) as [->|H3]; [|done].
  rewrite (Hf _ eq_refl). cbn [mbind option_bind]. destruct (parseBool v); [|done].
  cbn [info_Commit info_Tag info_CommitShort info_Dirty info_BuildTime info_GoVersion info_ModuleVersion info_VCSRevision info_VCSTime info_VCSModified].
  by destruct (info_Dirty i).
Qed.

Definition short (c : bytes) : bytes := if decide (clean c = unknown) then [] else take 12 (clean c).

Definition released (v : bytes) : Prop := v ≠ [] ∧ v ≠ str "(devel)".

#[export] Instance released_dec v : Decision (released v).
Proof. unfold released. apply _. Defined.

Lemma applyModule_spec v i : applyModule v i =
  mkInfo (or_unknown (info_Tag i) (if decide (released v) then Some v else None)) (info_Commit i) (info_CommitShort i)
    (info_Dirty i) (info_BuildTime i) (info_GoVersion i) (if decide (released v) then v else info_ModuleVersion i)
    (info_VCSRevision i) (info_VCSTime i) (info_VCSModified i).
Proof.
  unfold applyModule, released, or_unknown. destruct (decide (v = [] ∨ v = str "(devel)")) as [Hv|Hv].
  - rewrite !(decide_False (P := v ≠ [] ∧ v ≠ str "(devel)")) by (intros [? ?]; tauto). destruct i as [t]. cbn. by destruct (decide (t = unknown)) as [->|].
  - by rewrite !(decide_True (P := v ≠ [] ∧ v ≠ str "(devel)")) by tauto.
Qed.

Lemma shortCommit_spec c : (let s := shortCommit c in if decide (s = unknown) then [] else s) = short c.
Proof.
  unfold short, shortCommit. cbv zeta. destruct (decide (clean c = unknown)) as [_|Hc]; [by rewrite decide_True|].
  destruct (Nat.leb_spec (length (clean c)) 12); [by rewrite decide_False, take_ge|].
  rewrite decide_False; [done|]. intros Hs. apply (f_equal length) in Hs. rewrite length_take in Hs.
  change (length unknown) with 7%nat in Hs. lia.
Qed.

(** Claim C36. Where the build metadata come from: every field set by the linker
    wins; the tag falls back to a released module version, the commit and build
    time to the embedded revision and time, the dirty flag to the embedded one,
    which needs a recognised spelling; without any of them the tag and the
    commit say unknown and the other fields are left out.  The short commit is
    the first 12 bytes of the commit. *)
Theorem Current_precedence ld go b :
  NoDup (bi_Settings b).*1 →
  let i := Current ld go (Some b) in
  info_Tag i = or_unknown (clean (Tag ld)) (if decide (released (bi_MainVersion b)) then Some (bi_MainVersion b) else None) ∧
  info_Commit i = or_unknown (clean (Commit_ ld)) (setting (bi_Settings b) (str "vcs.revision")) ∧
  info_CommitShort i = short (info_Commit i) ∧
  info_Dirty i = (match parseBool (Dirty ld) with None => modified_of (bi_Settings b) | d => d end) ∧
  info_BuildTime i = (let t := or_unknown (clean (BuildTime ld)) (setting (bi_Settings b) (str "vcs.time")) in
                      if decide (t = unknown) then [] else t) ∧
  info_VCSModified i = modified_of (bi_Settings b).
Proof.
  intros Hd. unfold Current. cbv zeta.
  rewrite applySettings_spec, applyModule_spec by done.
  cbn [info_Tag info_Commit info_CommitShort info_Dirty info_BuildTime info_GoVersion info_ModuleVersion info_VCSRevision info_VCSTime info_VCSModified].
  split_and!; try done; [apply shortCommit_spec|by destruct (modified_of _)].
Qed.

End VersionTheorems.
