(* ===== verification/WireTheorems.v ===== *)
(** The properties of the wire format: what a request decodes to, and that the
    wire changes nothing about what a request does. *)
From S2P Require Export WireProofs.

Section WireTheorems.
Context {E : Env} `{HexJson} `{!HexJsonOk}.

(** Claim C23. A request that crosses the wire does what it would have done: for
    requests whose numbers fit their types and whose strings are UTF-8, however
    empty slices are written, encoding succeeds, decoding gives a request back,
    and each of the three methods then has the same outcome and leaves the same
    store as on the request that was sent (a create loses the two fields without
    a wire form, and block processing fills them in anyway). *)
Theorem wire_requests_roundtrip nilSlice :
  (∀ req, Forall block_wf (cc_Blocks req) →
     ∃ j req', encode_CommitChainRequest nilSlice req = Ok j ∧ decode_CommitChainRequest j = Ok req' ∧
       ∀ σ, CommitChain σ req' = CommitChain σ req) ∧
  (∀ req, Forall (λ r, is_u64 (ref_Number r)) (rv_Blocks req) →
     ∃ j, encode_RevertRequest nilSlice req = Ok j ∧ decode_RevertRequest j = Ok req) ∧
  (∀ req, Forall (λ r, is_u64 (ref_Number r)) (ro_RevertedBlocks req) → Forall block_wf (ro_NewBlocks req) →
     ∃ j req', encode_ReorgRequest nilSlice req = Ok j ∧ decode_ReorgRequest j = Ok req' ∧
       ∀ σ, Chain_Reorg σ req' = Chain_Reorg σ req).
Proof.
  split_and!.
  - intros req Hb. destruct (CommitChainRequest_roundtrip nilSlice _ Hb) as (j & He & Hd).
    eexists _, _. split; [exact He|]. split; [exact Hd|]. intros σ. apply CommitChain_wire.
  - intros req Hr. by apply RevertRequest_roundtrip.
  - intros req Hr Hb. destruct (ReorgRequest_roundtrip nilSlice _ Hr Hb) as (j & He & Hd).
    eexists _, _. split; [exact He|]. split; [exact Hd|]. intros σ. apply Reorg_wire.
Qed.

(** Claim C24. Decoding is typed: whatever the JSON value, a request that decodes
    has its block and reference numbers in 64 bits and its indices in 32, every
    operation has a pointer set, so none is the empty operation, and every
    operation that is set has its numbers in range and, for a create, the zero
    sender and index that block processing overwrites. *)
Theorem decoded_requests_typed j :
  (∀ req, decode_CommitChainRequest j = Ok req → Forall block_typed (cc_Blocks req)) ∧
  (∀ req, decode_RevertRequest j = Ok req → Forall (λ r, is_u64 (ref_Number r)) (rv_Blocks req)) ∧
  (∀ req, decode_ReorgRequest j = Ok req →
     Forall (λ r, is_u64 (ref_Number r)) (ro_RevertedBlocks req) ∧ Forall block_typed (ro_NewBlocks req)).
Proof.
  split_and!; intros req Hd.
  - unfold decode_CommitChainRequest in Hd. run_Ok Hd. by eapply decoded_blocks.
  - unfold decode_RevertRequest in Hd. run_Ok Hd. by eapply decoded_refs.
  - unfold decode_ReorgRequest in Hd. run_Ok Hd. split; [by eapply decoded_refs|by eapply decoded_blocks].
Qed.

(** Claim C25. Unmarshalling an operation into a fresh value sets exactly the
    pointer its type tag names and no other; a value with any other tag, or with
    none, is an error. *)
Theorem UnmarshalJSON_one_pointer data :
  (∀ o, UnmarshalJSON zero_operation data = Ok o → ∃ typ, decode_type data = Ok typ ∧ typ ∈ operation_tags ∧
     op_pointers o = map (λ t, bool_decide (typ = t)) operation_tags ∧ operation_ranged o) ∧
  (∀ typ, decode_type data = Ok typ → typ ∉ operation_tags → ∃ e, UnmarshalJSON zero_operation data = Err e).
Proof.
  split.
  - intros o (typ & Ht & Hin & Hp & Hr)%UnmarshalJSON_ok. exists typ. split; [done|]. split; [done|].
    split; [by rewrite Hp|]. apply Hr, zero_operation_ranged.
  - intros typ Ht Hn. by eapply UnmarshalJSON_unknown.
Qed.

End WireTheorems.
