(* ===== verification/Demo.v ===== *)
(** A concrete run on the environment of [Instances]: two blocks on an empty
    database, the abstract states they lead to, and the facts about them that
    the witnesses of the theorems use. *)
From S2P Require Export ReorgProofs QueryProofs Instances.

Module Demo.

Definition key_of (b : byte) : Hash := array_copy 32 (replicate 32 b).
Definition addr_of (b : byte) : Address := array_copy 20 (replicate 20 b).

Definition create_op (k : Hash) (owner : Address) (attrs : list Attribute) : CreateOp :=
  mkCreateOp 0 k zeroAddress 0 owner 100 zeroHash zeroHash (str "payload") (str "text/plain") attrs.
Definition op_create (o : CreateOp) : ArkivOperation := mkArkivOperation (Some o) None None None None None.
Definition op_extend (o : ExtendOp) : ArkivOperation := mkArkivOperation None None None (Some o) None None.
Definition op_delete (o : DeleteOp) : ArkivOperation := mkArkivOperation None None (Some o) None None None.

Definition alice : Address := addr_of x0a.
Definition bob : Address := addr_of x0b.
Definition k1 : Hash := key_of x01.
Definition k2 : Hash := key_of x02.

Definition attrs1 : list Attribute :=
  [mkAttribute (str "string") (str "name") (str "alice" ++ [x00]); mkAttribute (str "uint") (str "age") [x07];
   mkAttribute (str "string") (str "tag") []].
Definition attrs2 : list Attribute := [mkAttribute (str "string") (str "name") (str "bob")].

Definition mk_block (n : N) (h parent : Hash) (ops : list ArkivOperation) : ArkivBlock :=
  mkArkivBlock (mkArkivBlockHeader n h parent zeroHash) [mkArkivTransaction zeroHash 0 alice ops].

Definition hash1 : Hash := key_of xa1.
Definition hash2 : Hash := key_of xa2.

(** Block 1 creates two entities, block 2 extends one and deletes the other. *)
Definition block1 : ArkivBlock :=
  mk_block 1 hash1 zeroHash [op_create (create_op k1 alice attrs1); op_create (create_op k2 bob attrs2)].
Definition block2 : ArkivBlock :=
  mk_block 2 hash2 hash1 [op_extend (mkExtendOp 0 k1 alice 200 zeroHash zeroHash);
                          op_delete (mkDeleteOp 1 k2 bob zeroHash zeroHash)].
Definition ref2 : ArkivBlockRef := mkArkivBlockRef 2 hash2.

Definition empty_store : Store := mkStore (ToyDB ∅ false) EmptyRootHash zeroHash 0.
Definition store1 : Store := (processBlock empty_store block1).2.
Definition store2 : Store := (processBlock store1 block2).2.

Definition st1 : AbsState := default abs_empty (abs_block abs_empty block1).
Definition st2 : AbsState := default abs_empty (abs_block st1 block2).

(** The strings the run hashes: slot names, ID names, and bitmaps. *)
Definition entity_names (st : AbsState) : list bytes :=
  concat (map (λ x, slot_name <$> allAnnotations x.2.2) (map_to_list (abs_ents st))).
Definition run_blobs (σ : Store) (b : ArkivBlock) : list bytes :=
  match runBlock σ b with
  | Ok cs => omap (λ pB, ok_val (bm_MarshalBinary pB.2)) (map_to_list (dirtyBitmaps cs))
  | _ => []
  end.
Definition strings : list bytes :=
  Eval vm_compute in remove_dups (entity_names st1 ++ entity_names st2 ++ [id_name 1; id_name 2] ++
    run_blobs empty_store block1 ++ run_blobs store1 block2).

Lemma strings_ok : collision_free_on (str "entity_count" :: strings) = true.
Proof. vm_compute. reflexivity. Qed.

#[export] Instance cf : CollisionFree := toy_cf strings strings_ok.
#[export] Instance hashed_dec (x : bytes) : Decision (hashed x) := decide (x ∈ str "entity_count" :: strings).

Lemma run_blobs_hashed σ b : Forall hashed (run_blobs σ b) → block_hashed σ b.
Proof.
  intros H cs Hcs p B d Hp Hd. unfold run_blobs in H. rewrite Hcs, Forall_forall in H. apply H.
  apply list_elem_of_omap. exists (p, B). split; [by apply elem_of_map_to_list|].
  apply ok_val_Some. exact Hd.
Qed.

Definition is_Ok {A} (r : result A) : bool := match r with Ok _ => true | _ => false end.

(** A block that runs and is valid leaves the store and the state it computes. *)
Lemma demo_step σ st b : head_repr σ st → bool_decide (block_valid st b) = true →
  bool_decide (Forall hashed (run_blobs σ b)) = true → is_Ok (processBlock σ b).1 = true →
  let σ' := (processBlock σ b).2 in let st' := default abs_empty (abs_block st b) in
  abs_block st b = Some st' ∧ processBlock σ b = (Ok (headRoot σ'), σ') ∧ block_post σ b st st' (headRoot σ') σ'.
Proof.
  intros R V%bool_decide_eq_true H%bool_decide_eq_true%run_blobs_hashed Hok σ' st'.
  pose proof (processBlock_ok σ st b R V H) as Hp. unfold σ', st'. destruct (abs_block st b) as [st1|].
  - destruct (processBlock σ b) as [[root|e|] σ1]; simpl in *; [|done..].
    by destruct (bk_head _ _ _ _ _ _ Hp) as [-> _].
  - destruct Hp as [err Hp]. by rewrite Hp in Hok.
Qed.

Lemma head0 : head_repr empty_store abs_empty.
Proof. by apply head_repr_empty. Qed.

Lemma valid1 : bool_decide (block_valid abs_empty block1) = true.
Proof. vm_compute. reflexivity. Qed.
Lemma blobs1 : bool_decide (Forall hashed (run_blobs empty_store block1)) = true.
Proof. vm_compute. reflexivity. Qed.
Lemma run1 : is_Ok (processBlock empty_store block1).1 = true.
Proof. vm_compute. reflexivity. Qed.
Lemma step1 : abs_block abs_empty block1 = Some st1 ∧ processBlock empty_store block1 = (Ok (headRoot store1), store1) ∧
  block_post empty_store block1 abs_empty st1 (headRoot store1) store1.
Proof. exact (demo_step _ _ _ head0 valid1 blobs1 run1). Qed.
Lemma head1 : head_repr store1 st1.
Proof. exact (bk_repr _ _ _ _ _ _ (proj2 (proj2 step1))). Qed.

Lemma valid2 : bool_decide (block_valid st1 block2) = true.
Proof. vm_compute. reflexivity. Qed.
Lemma blobs2 : bool_decide (Forall hashed (run_blobs store1 block2)) = true.
Proof. vm_compute. reflexivity. Qed.
Lemma run2 : is_Ok (processBlock store1 block2).1 = true.
Proof. vm_compute. reflexivity. Qed.
Lemma step2 : abs_block st1 block2 = Some st2 ∧ processBlock store1 block2 = (Ok (headRoot store2), store2) ∧
  block_post store1 block2 st1 st2 (headRoot store2) store2.
Proof. exact (demo_step _ _ _ head1 valid2 blobs2 run2). Qed.
Lemma head2 : head_repr store2 st2.
Proof. exact (bk_repr _ _ _ _ _ _ (proj2 (proj2 step2))). Qed.

(** The computed states: only [vm_compute] looks inside. *)
#[global] Opaque store1 store2 st1 st2.

(** ** The parent of block 2 *)

(** The ID mappings of the store after block 1, read off its database. *)
Definition id_entries (σ : Store) : list (bytes * bytes) :=
  filter (λ kv, HasPrefix kv.1 prefixID = true) (map_to_list (td_map (rawDB σ))).
Definition expected_ids : list (bytes * bytes) :=
  [(idKey 1, array_bytes (keyAddress k1)); (idKey 2, array_bytes (keyAddress k2))].

Lemma ids1 : bool_decide (Forall (λ kv, kv ∈ expected_ids) (id_entries store1)) = true.
Proof. vm_compute. reflexivity. Qed.
Lemma live1 : bool_decide (Forall (λ x, (idKey x.2.1, array_bytes x.1) ∈ expected_ids) (map_to_list (abs_ents st1))) = true.
Proof. vm_compute. reflexivity. Qed.

Lemma expected_ids_inj i j a : is_u64 i → is_u64 j → (idKey i, a) ∈ expected_ids → (idKey j, a) ∈ expected_ids → i = j.
Proof.
  intros Hi Hj H1 H2. unfold expected_ids in *. rewrite !elem_of_cons, elem_of_nil in H1, H2.
  destruct H1 as [E1|[E1|[] ] ], H2 as [E2|[E2|[] ] ]; apply pair_equal_spec in E1 as [E1 A1], E2 as [E2 A2];
    try (rewrite A1 in A2; vm_compute in A2; discriminate A2);
    apply idKey_inj in E1, E2; congruence || done.
Qed.

Lemma no_alias1 : no_alias (store_reader store1) st1.
Proof.
  intros a id e i Ha Hi Hg. pose proof ids1 as H1. pose proof live1 as H2.
  apply bool_decide_eq_true in H1, H2. rewrite Forall_forall in H1. rewrite Forall_forall in H2.
  assert (is_u64 id) as Hid. { destruct (hr_state _ _ head1) as (s & _ & Sn & _). by destruct (wf_id _ (sn_wf _ _ _ Sn) _ _ _ Ha) as [_ [? _]]. }
  apply (expected_ids_inj i id (array_bytes a)); [done..| |].
  - apply (H1 (idKey i, array_bytes a)). apply list_elem_of_filter. split; [apply HasPrefix_spec; by eexists|].
    apply elem_of_map_to_list. by rewrite <-toy_lookup.
  - apply (H2 (a, (id, e))). by apply elem_of_map_to_list.
Qed.

Lemma parent1 : headHash store1 = hash1 ∧ headHash store1 ≠ hash2.
Proof. destruct (bk_head _ _ _ _ _ _ (proj2 (proj2 step1))) as (_ & -> & _). split; [done|]. intros E. apply (f_equal array_bytes) in E. vm_compute in E. discriminate E. Qed.

Lemma ancestor1 : ancestor_repr (store_reader store1) (headHash store1) (headRoot store1) st1.
Proof.
  split; [left; apply (bk_root _ _ _ _ _ _ (proj2 (proj2 step1)))|].
  destruct (hr_state _ _ head1) as (s & Hs & Sn & _). exists s. exact (conj Hs Sn).
Qed.

Definition creates_of (b : ArkivBlock) : list Address :=
  omap (λ op, (λ o, keyAddress (create_EntityKey o)) <$> op_Create op) (block_ops b).
Lemma creates_elem b a : creates b a → a ∈ creates_of b.
Proof. intros (op & o & Hop & Ho & ->). apply list_elem_of_omap. exists op. by rewrite Ho. Qed.
Lemma fresh2 a : creates block2 a → abs_ents st1 !! a = None.
Proof. intros Ha%creates_elem. by apply elem_of_nil in Ha. Qed.

(** Block 2 reverted: the ancestor and its caches, as block 2 left them. *)
Lemma parent2 : store_reader store2 (parentKey (ref_Hash ref2)) = Some (array_bytes (headHash store1)).
Proof.
  pose proof (bk_parent _ _ _ _ _ _ (proj2 (proj2 step2))) as H.
  destruct (bk_head _ _ _ _ _ _ (proj2 (proj2 step2))) as (_ & Hh & _). rewrite Hh in H.
  rewrite (proj1 parent1). exact H.
Qed.
Lemma ancestor2 : ancestor_repr (store_reader store2) (headHash store1) (headRoot store1) st1.
Proof. eapply ancestor_repr_block; [apply step2|apply parent1|apply ancestor1]. Qed.
Lemma caches2 : caches_cover (store_reader store2) st1.
Proof.
  destruct (hr_state _ _ head1) as (s & _ & Sn & _).
  eapply caches_cover_block; [apply step2|apply Sn|done|apply fresh2|].
  by apply caches_cover_head, no_alias1; apply head1.
Qed.

(** The two blocks as a chain, and block 2 again after its own revert. *)
Lemma Valid1 : block_valid abs_empty block1.
Proof. exact (proj1 (bool_decide_eq_true _) valid1). Qed.
Lemma Valid2 : block_valid st1 block2.
Proof. exact (proj1 (bool_decide_eq_true _) valid2). Qed.
Lemma Hashed1 : block_hashed empty_store block1.
Proof. apply run_blobs_hashed. exact (proj1 (bool_decide_eq_true _) blobs1). Qed.
Lemma Hashed2 : block_hashed store1 block2.
Proof. apply run_blobs_hashed. exact (proj1 (bool_decide_eq_true _) blobs2). Qed.

Lemma chain_valid : blocks_valid empty_store abs_empty [block1; block2].
Proof.
  destruct step1 as (Ha1 & Hp1 & _). destruct step2 as (Ha2 & Hp2 & _).
  eapply blocks_valid_cons; [exact Valid1|exact Hashed1|exact Hp1|exact Ha1|].
  eapply blocks_valid_cons; [exact Valid2|exact Hashed2|exact Hp2|exact Ha2|exact I].
Qed.

Definition reverted : Store := (revertToAncestor store2 [ref2]).2.
Lemma blobs3 : bool_decide (Forall hashed (run_blobs reverted block2)) = true.
Proof. vm_compute. reflexivity. Qed.
Lemma reorg_valid σ1 : revertToAncestor store2 [ref2] = (Ok tt, σ1) → blocks_valid σ1 st1 [block2].
Proof.
  intros Hr. assert (σ1 = reverted) as -> by (unfold reverted; rewrite Hr; reflexivity).
  split; [exact Valid2|]. split; [|intros; exact I].
  apply run_blobs_hashed. exact (proj1 (bool_decide_eq_true _) blobs3).
Qed.

(** A block whose second operation must fail. *)
Definition bad_block : ArkivBlock :=
  mk_block 2 hash2 hash1 [op_delete (mkDeleteOp 0 k1 alice zeroHash zeroHash); op_delete (mkDeleteOp 1 k1 alice zeroHash zeroHash)].

End Demo.
