(* ===== verification/StoreWitnesses.v ===== *)
(** The properties of the ingest path at concrete inputs: the two blocks of
    [Demo] and their reverts. *)
From S2P Require Import StoreTheorems Demo.
Import Demo.

Definition extend_op : ArkivOperation := op_extend (mkExtendOp 0 k1 alice 200 zeroHash zeroHash).
Lemma extend_valid : bool_decide (op_valid 2 st1 extend_op) = true.
Proof. vm_compute. reflexivity. Qed.
Lemma extend_runs : bool_decide (is_Some (abs_op 2 st1 extend_op)) = true.
Proof. vm_compute. reflexivity. Qed.

Lemma applyOp_refines_witness : ∃ cs st' cs', openBlock store1 block2 = Ok cs ∧
  abs_op 2 st1 extend_op = Some st' ∧ applyOp cs extend_op = Ok cs' ∧ cs_repr cs' st'.
Proof.
  destruct (openBlock_ok store1 st1 block2 head1) as (cs & Ho & R & _ & _ & Hn & _).
  change (header_Number (block_Header block2)) with 2%N in Hn.
  pose proof (applyOp_refines cs st1 extend_op R) as H. rewrite Hn in H.
  specialize (H (proj1 (bool_decide_eq_true _) extend_valid)).
  destruct (proj1 (bool_decide_eq_true _) extend_runs) as [st' Hs]. rewrite Hs in H.
  destruct H as (cs' & Ha & R' & _). exact (ex_intro _ cs (ex_intro _ st' (ex_intro _ cs' (conj Ho (conj Hs (conj Ha R')))))).
Defined.

Lemma processBlock_refines_witness : ProcessBlock store1 block2 = (Ok (headRoot store2), store2) ∧ head_repr store2 st2.
Proof.
  destruct step2 as (Ha & Hp & _). split; [exact Hp|].
  pose proof (processBlock_refines store1 st1 block2 head1 Valid2 Hashed2) as H. unfold ProcessBlock in H.
  rewrite Ha, Hp in H. exact (bk_repr _ _ _ _ _ _ H).
Defined.

Lemma bad_block_fails : is_Ok (ProcessBlock store1 bad_block).1 = false.
Proof. vm_compute. reflexivity. Qed.

Lemma processBlock_atomic_witness : is_Ok (ProcessBlock store1 bad_block).1 = false ∧ (ProcessBlock store1 bad_block).2 = store1.
Proof.
  pose proof bad_block_fails as Hf. split; [exact Hf|].
  destruct (processBlock_atomic store1 bad_block _ _ (surjective_pairing _)) as [(root & E & _)|E]; [|exact E].
  rewrite E in Hf. discriminate Hf.
Defined.

Lemma hash_at_1 : bool_decide (BytesToHash (default [] (store_reader store1 (blockNumberKey 1))) = hash2) = false.
Proof. vm_compute. reflexivity. Qed.

Lemma block_history_witness : state_at store2 0 st2 ∧ state_at store2 2 st2 ∧ state_at store2 1 st1.
Proof.
  destruct step1 as (_ & _ & B1), step2 as (Ha & Hp & _).
  assert (state_at store1 1 st1) as S1 by (refine (state_at_own _ block1 _ _ _ _ B1 _); discriminate).
  destruct (block_history store1 st1 block2 st2 (headRoot store2) store2 1 st1 head1 Valid2 Hashed2 eq_refl) as (H1 & H2 & H3);
    [discriminate|exact Ha|exact Hp|]. split; [exact H1|]. split; [exact H2|]. apply H3; [reflexivity|discriminate|discriminate| |exact S1].
  intros hb Hhb E. pose proof hash_at_1 as Hd. rewrite Hhb in Hd. exact (proj1 (bool_decide_eq_false _) Hd E).
Defined.

Lemma revert_runs : is_Ok (RevertBlocks store2 [ref2]).1 = true.
Proof. vm_compute. reflexivity. Qed.

Lemma RevertBlocks_restores_witness :
  (RevertBlocks store2 [ref2]).1 = Ok (headRoot store1) ∧ head_repr (RevertBlocks store2 [ref2]).2 st1.
Proof.
  pose proof (RevertBlocks_restores store2 st2 [ref2] ref2 _ _ st1 head2 eq_refl parent2 ancestor2 caches2) as H.
  pose proof revert_runs as Hr. destruct (RevertBlocks store2 [ref2]) as [[r|e|] σ']; cbn [fst snd] in *; [|discriminate Hr..].
  destruct H as [-> H]. split; [reflexivity|]. exact (rv_repr _ _ _ _ _ _ _ H).
Defined.

Lemma reorg_runs : is_Ok (Reorg store2 [ref2] [block2]).1 = true.
Proof. vm_compute. reflexivity. Qed.

Lemma Reorg_refines_witness : ∃ σ' st', Reorg store2 [ref2] [block2] = (Ok (headRoot σ'), σ') ∧
  abs_blocks st1 [block2] = Some st' ∧ head_repr σ' st'.
Proof.
  pose proof (Reorg_refines store2 st2 [ref2] ref2 _ _ st1 [block2] head2 eq_refl parent2 ancestor2 caches2 reorg_valid) as H.
  pose proof reorg_runs as Hr. destruct (Reorg store2 [ref2] [block2]) as [[r|e|] σ']; cbn [fst] in Hr; [|discriminate Hr..].
  destruct H as (st' & Ha & R & ->). exact (ex_intro _ σ' (ex_intro _ st' (conj eq_refl (conj Ha R)))).
Defined.

Definition chain_request : CommitChainRequest := mkCommitChainRequest [block1; block2].
Lemma chain_runs : is_Ok (CommitChain empty_store chain_request).1 = true.
Proof. vm_compute. reflexivity. Qed.

Lemma CommitChain_refines_witness : ∃ r σ' st', CommitChain empty_store chain_request = (Ok r, σ') ∧
  abs_blocks abs_empty [block1; block2] = Some st' ∧ head_repr σ' st' ∧ StateRoot r = headRoot σ'.
Proof.
  pose proof (CommitChain_refines empty_store abs_empty chain_request head0 chain_valid) as H.
  pose proof chain_runs as Hr. destruct (CommitChain empty_store chain_request) as [[r|e|] σ']; cbn [fst] in Hr; [|discriminate Hr..].
  destruct H as (st' & H). exact (ex_intro _ r (ex_intro _ σ' (ex_intro _ st' (conj eq_refl H)))).
Defined.
