(* ===== verification/HistoryWitnesses.v ===== *)
(** The properties of histories at the run of [Demo]: both blocks undone, and
    undone to process the first one again. *)
From S2P Require Import HistoryTheorems Demo.
Import Demo.

Definition both_refs : list ArkivBlockRef := run_refs [block1; block2].

Lemma run0 : run_from empty_store abs_empty block1 [block2].
Proof.
  assert (block_hash block1 ≠ zeroHash) as H1 by (intros E; apply (f_equal array_bytes) in E; vm_compute in E; discriminate E).
  assert (block_hash block2 ≠ zeroHash) as H2 by (intros E; apply (f_equal array_bytes) in E; vm_compute in E; discriminate E).
  assert (block_hash block2 ≠ block_hash block1) as H3 by (intros E; apply (f_equal array_bytes) in E; vm_compute in E; discriminate E).
  split.
  - exact head0.
  - split; [right; split; reflexivity|]. destruct (hr_state _ _ head0) as (s & Hs & Sn & _). exists s. exact (conj Hs Sn).
  - intros a id e i Ha. change ((∅ : gmap Address (N * Entity)) !! a = Some (id, e)) in Ha. by rewrite lookup_empty in Ha.
  - exact chain_valid.
  - reflexivity.
  - constructor; [exact H1|]. constructor; [exact H2|constructor].
  - constructor; [exact H3|constructor].
  - apply Forall_forall. intros b0 _ a _. exact (lookup_empty (M := gmap Address) a).
Qed.

Lemma run0_runs : processBlocks empty_store [block1; block2] = (Ok tt, store2).
Proof.
  destruct step1 as (_ & Hp1 & _), step2 as (_ & Hp2 & _). cbn [processBlocks]. rewrite Hp1. rewrite Hp2. reflexivity.
Qed.

Lemma history_runs : is_Ok (RevertBlocks store2 both_refs).1 = true.
Proof. vm_compute. reflexivity. Qed.

Lemma history_revert_witness :
  (RevertBlocks store2 both_refs).1 = Ok EmptyRootHash ∧ head_repr (RevertBlocks store2 both_refs).2 abs_empty.
Proof.
  pose proof (history_revert empty_store abs_empty block1 [block2] store2 run0 run0_runs) as H.
  change (run_refs [block1; block2]) with both_refs in H. pose proof history_runs as Hr.
  destruct (RevertBlocks store2 both_refs) as [[r|e|] σ']; cbn [fst snd] in *; [|discriminate Hr..].
  destruct H as (-> & _ & _ & _ & R & _). split; [reflexivity|exact R].
Defined.

Definition rewound : Store := (revertToAncestor store2 both_refs).2.
Lemma rewound_blobs : bool_decide (Forall hashed (run_blobs rewound block1)) = true.
Proof. vm_compute. reflexivity. Qed.
Lemma rewound_valid σ1 : revertToAncestor store2 both_refs = (Ok tt, σ1) → blocks_valid σ1 abs_empty [block1].
Proof.
  intros Hr. assert (σ1 = rewound) as -> by (unfold rewound; rewrite Hr; reflexivity).
  split; [exact Valid1|]. split; [|intros; exact I].
  apply run_blobs_hashed. exact (proj1 (bool_decide_eq_true _) rewound_blobs).
Qed.

Lemma replay_runs : is_Ok (Reorg store2 both_refs [block1]).1 = true.
Proof. vm_compute. reflexivity. Qed.

Lemma history_reorg_witness : ∃ σ2, Reorg store2 both_refs [block1] = (Ok (headRoot σ2), σ2) ∧ head_repr σ2 st1.
Proof.
  pose proof (history_reorg empty_store abs_empty block1 [block2] store2 [block1] run0 run0_runs rewound_valid) as H.
  change (run_refs [block1; block2]) with both_refs in H. pose proof replay_runs as Hr.
  destruct (Reorg store2 both_refs [block1]) as [[r|e|] σ']; cbn [fst] in Hr; [|discriminate Hr..].
  destruct H as (st' & Ha & R & ->). destruct step1 as (Ha1 & _ & _). cbn [abs_blocks] in Ha. rewrite Ha1 in Ha.
  injection Ha as <-. exact (ex_intro _ σ' (conj eq_refl R)).
Defined.

(** The toy environment answers whenever its commit finds no collision. *)
Definition commits (σ : Store) (b : ArkivBlock) : bool :=
  match (cs ← runBlock σ b; c1 ← flushEntities cs; flushBitmaps c1) with
  | Ok c2 =>
      match state_Commit (stateDB c2) (trieDB c2) (blockNumber c2) true false with
      | Ok (root, tdb, _) => is_Ok (triedb_Commit tdb root false)
      | _ => false
      end
  | _ => false
  end.

Lemma commits_responsive σ b : commits σ b = true → td_full (rawDB σ) = false → responsive σ b.
Proof.
  intros Hc Hf. split.
  - intros e. by exists (ser e).
  - intros cs c1 c2 E1 E2 E3. unfold commits in Hc. rewrite E1 in Hc. cbn [mbind result_bind] in Hc. rewrite E2 in Hc.
    cbn [mbind result_bind] in Hc. rewrite E3 in Hc. destruct (state_Commit _ _ _ _ _) as [[[root tdb] codes]| |]; [|discriminate Hc..].
    destruct (triedb_Commit tdb root false) as [nodes| |] eqn:En; [|discriminate Hc..]. exists root, tdb, codes, nodes; exact (conj eq_refl En).
  - intros ops. change (∃ d, (if td_full (rawDB σ) then Err (Errorf "write failed") else
      Ok (ToyDB (foldl apply_op (td_map (rawDB σ)) ops) false)) = Ok d). rewrite Hf. by eexists.
Qed.

Lemma commits1 : commits empty_store block1 = true.
Proof. vm_compute. reflexivity. Qed.
Lemma commits2 : commits store1 block2 = true.
Proof. vm_compute. reflexivity. Qed.
Lemma open1 : td_full (rawDB store1) = false.
Proof. vm_compute. reflexivity. Qed.

Lemma chain_responsive : responsive_run empty_store [block1; block2].
Proof.
  destruct step1 as (_ & Hp1 & _). split; [exact (commits_responsive _ _ commits1 eq_refl)|].
  intros root σ' Hp. pose proof (f_equal snd (eq_trans (eq_sym Hp1) Hp)) as Hs. cbn [snd] in Hs. destruct Hs.
  split; [exact (commits_responsive _ _ commits2 open1)|]. intros ? ? _. exact I.
Qed.

Definition both_blocks : CommitChainRequest := mkCommitChainRequest [block1; block2].

Lemma CommitChain_progress_witness : ∃ r σ', CommitChain empty_store both_blocks = (Ok r, σ') ∧ head_repr σ' st2.
Proof.
  destruct step1 as (Ha1 & _ & _), step2 as (Ha2 & _ & _).
  assert (abs_blocks abs_empty (cc_Blocks both_blocks) = Some st2) as Ha.
  { cbn [cc_Blocks both_blocks abs_blocks]. rewrite Ha1. cbn [mbind option_bind]. rewrite Ha2. reflexivity. }
  destruct (CommitChain_progress empty_store abs_empty both_blocks st2 head0 chain_valid chain_responsive Ha)
    as (r & σ' & Hc & R & _). exact (ex_intro _ r (ex_intro _ σ' (conj Hc R))).
Defined.
