(* ===== verification/WireWitnesses.v ===== *)
(** A concrete codec for the hexadecimal values of the wire, and the properties
    of [WireTheorems] at the requests of [Demo]. *)
From S2P Require Import WireTheorems Demo.
Import Demo.

(** ** Hexadecimal texts *)

Definition hexits (b : bytes) : bytes := flat_map (λ c, [nibble (byte_val c / 16); nibble (byte_val c mod 16)]) b.

Definition unnibble (c : byte) : option N :=
  let n := byte_val c in
  if ((48 <=? n) && (n <=? 57))%N then Some (n - 48)%N else
  if ((65 <=? n) && (n <=? 70))%N then Some (n - 55)%N else None.

Fixpoint unhexits (s : bytes) : option bytes :=
  match s with
  | [] => Some []
  | hi :: lo :: s => h ← unnibble hi; l ← unnibble lo; b ← unhexits s; Some (byte_of (h * 16 + l) :: b)
  | _ => None
  end.

Lemma unnibble_byte (c : byte) :
  unnibble (nibble (byte_val c / 16)) = Some (byte_val c / 16)%N ∧
  unnibble (nibble (byte_val c mod 16)) = Some (byte_val c mod 16)%N ∧
  byte_of (byte_val c / 16 * 16 + byte_val c mod 16) = c.
Proof. destruct c; vm_compute; split_and!; reflexivity. Qed.

Lemma unhexits_hexits b : unhexits (hexits b) = Some b.
Proof.
  induction b as [|c b IH]; [done|]. unfold hexits in *. cbn [flat_map app unhexits].
  destruct (unnibble_byte c) as (-> & -> & Hc). cbn [mbind option_bind]. rewrite IH. cbn [mbind option_bind]. by rewrite Hc.
Qed.

Definition ascii (s : bytes) : Prop := Forall (λ c, in_range 0 127 c = true) s.

Lemma nibble_ascii (c : byte) : in_range 0 127 (nibble (byte_val c / 16)) = true ∧ in_range 0 127 (nibble (byte_val c mod 16)) = true.
Proof. destruct c; vm_compute; split; reflexivity. Qed.
Lemma hexits_ascii b : ascii (hexits b).
Proof.
  induction b as [|c b IH]; [constructor|]. destruct (nibble_ascii c). by repeat constructor.
Qed.

Lemma utf8_ascii s : ascii s → utf8 s.
Proof.
  unfold utf8, utf8_coerce. induction 1 as [|c s Hc Hs IH]; [done|]. cbn [length utf8_coerce_fuel].
  assert (rune_len (c :: s) = 1%nat) as -> by (cbn; by rewrite Hc). change (c :: utf8_coerce_fuel (length s) s = c :: s). by rewrite IH.
Qed.

Definition from_hexits {A} (f : bytes → option A) (j : json) : result A :=
  match j with
  | JStr s => match unhexits s ≫= f with Some a => Ok a | None => Err (Errorf "hex") end
  | _ => Err (Errorf "hex")
  end.
Definition array_of (n : nat) (b : bytes) : option (array n) := if (length b =? n)%nat then Some (array_copy n b) else None.
Definition number_of (b : bytes) : option N := if (length b =? 8)%nat then Some (be_decode b) else None.

Lemma from_hexits_encode {A} (f : bytes → option A) b a : f b = Some a → from_hexits f (encode_string (hexits b)) = Ok a.
Proof.
  intros Hf. unfold from_hexits, encode_string. rewrite (utf8_ascii _ (hexits_ascii b)), unhexits_hexits. cbn [mbind option_bind]. by rewrite Hf.
Qed.
Lemma array_of_bytes {n} (a : array n) : array_of n a = Some a.
Proof. unfold array_of. by rewrite array_length, Nat.eqb_refl, array_copy_bytes. Qed.

#[export] Instance toy_hex : HexJson := {
  hash_MarshalText h := hexits h;
  hash_UnmarshalJSON := from_hexits (array_of HashLength);
  address_MarshalText a := hexits a;
  address_UnmarshalJSON := from_hexits (array_of AddressLength);
  bytes_MarshalText b := hexits b;
  bytes_UnmarshalJSON := from_hexits Some;
  uint64_MarshalText n := hexits (PutUint64 n);
  uint64_UnmarshalJSON := from_hexits number_of;
}.

#[export] Instance toy_hex_ok : HexJsonOk.
Proof.
  split.
  - intros h. apply from_hexits_encode, array_of_bytes.
  - intros a. apply from_hexits_encode, array_of_bytes.
  - intros b. by apply from_hexits_encode.
  - intros n Hn. apply from_hexits_encode. unfold number_of. by rewrite PutUint64_length, Nat.eqb_refl, be_decode_PutUint64.
  - intros j n. change (from_hexits number_of j = Ok n → is_u64 n). unfold from_hexits. destruct j; try done.
    destruct (unhexits s) as [b|]; cbn [mbind option_bind]; [|done]. unfold number_of.
    destruct (Nat.eqb_spec (length b) 8) as [Hl|]; [|done]. intros [= <-]. by apply be_decode_u64.
Qed.

(** ** Witnesses *)

Definition transfer_op : ArkivOperation :=
  mkArkivOperation None None None None (Some (mkTransferOp 0 k1 bob zeroHash zeroHash)) None.
Definition update_op : ArkivOperation :=
  mkArkivOperation None (Some (mkUpdateOp 1 k1 alice zeroHash zeroHash (str "new") (str "text/html") attrs2)) None None None None.
Definition expire_op : ArkivOperation :=
  mkArkivOperation None None None None None (Some (mkExpireOp 2 k1 alice zeroHash zeroHash)).
Definition wire_block3 : ArkivBlock := mk_block 3 (key_of xa3) hash2 [transfer_op; update_op; expire_op].

Lemma attribute_wf_dec a : Decision (Attribute_wf a).
Proof. unfold Attribute_wf, utf8. apply _. Defined.
#[export] Instance operation_wf_dec o : Decision (operation_wf o).
Proof.
  pose proof attribute_wf_dec. destruct o as [[c|] [u|] [d|] [x|] [t|] [e|] ]; simpl;
    unfold CreateOp_wf, UpdateOp_wf, utf8, is_u64; apply _.
Defined.
#[export] Instance block_wf_dec b : Decision (block_wf b).
Proof. unfold block_wf, transaction_wf, is_u64. apply _. Defined.

Definition wire_blocks : list ArkivBlock := [block1; block2; wire_block3].
Lemma wire_blocks_wf : Forall block_wf wire_blocks.
Proof. apply (bool_decide_unpack _). vm_compute. exact I. Qed.

Definition wire_reorg : ReorgRequest := mkReorgRequest [ref2] [block2].
Lemma wire_refs_wf : Forall (λ r, is_u64 (ref_Number r)) [ref2].
Proof. constructor; [reflexivity|constructor]. Qed.
Lemma wire_reorg_wf : Forall block_wf [block2].
Proof. apply (bool_decide_unpack _). vm_compute. exact I. Qed.

Lemma wire_requests_roundtrip_witness :
  (∃ j req', encode_CommitChainRequest true (mkCommitChainRequest wire_blocks) = Ok j ∧ decode_CommitChainRequest j = Ok req') ∧
  (∃ j req', encode_ReorgRequest false wire_reorg = Ok j ∧ decode_ReorgRequest j = Ok req' ∧
     Chain_Reorg store2 req' = Chain_Reorg store2 wire_reorg).
Proof.
  destruct (wire_requests_roundtrip true) as (H1 & _ & _), (wire_requests_roundtrip false) as (_ & _ & H3). split.
  - destruct (H1 (mkCommitChainRequest wire_blocks) wire_blocks_wf) as (j & req' & He & Hd & _).
    exact (ex_intro _ j (ex_intro _ req' (conj He Hd))).
  - destruct (H3 wire_reorg wire_refs_wf wire_reorg_wf) as (j & req' & He & Hd & Hs).
    exact (ex_intro _ j (ex_intro _ req' (conj He (conj Hd (Hs store2))))).
Defined.

(** A request as it may arrive: a member in another case, an unknown one, the
    operation's tag last. *)
Definition loose_request : json :=
  JObj [(str "BLOCKS", JArr [JObj [(str "header", JObj [(str "number", encode_uint64 7)]); (str "extra", JBool true);
    (str "transactions", JArr [JObj [(str "operations", JArr [
      JObj [(str "opIndex", JNum (str "4")); (str "owner", encode_address alice); (str "type", JStr (str "expire"))] ])] ])] ])].
Definition loose_blocks : list ArkivBlock :=
  [mkArkivBlock (mkArkivBlockHeader 7 zeroHash zeroHash zeroHash)
    [mkArkivTransaction zeroHash 0 zeroAddress
      [mkArkivOperation None None None None None (Some (mkExpireOp 4 zeroHash alice zeroHash zeroHash))] ] ].
Lemma loose_decodes : decode_CommitChainRequest loose_request = Ok (mkCommitChainRequest loose_blocks).
Proof. vm_compute. reflexivity. Qed.

Lemma decoded_requests_typed_witness : Forall block_typed loose_blocks.
Proof. exact (proj1 (decoded_requests_typed loose_request) (mkCommitChainRequest loose_blocks) loose_decodes). Defined.

Definition update_json : json := JObj [(str "type", JStr (str "update")); (str "payload", encode_bytes (str "x"))].
Definition unknown_json : json := JObj [(str "type", JStr (str "changeOwner"))].
Definition update_value : ArkivOperation :=
  mkArkivOperation None (Some (mkUpdateOp 0 zeroHash zeroAddress zeroHash zeroHash (str "x") [] [])) None None None None.
Lemma update_unmarshals : UnmarshalJSON zero_operation update_json = Ok update_value.
Proof. vm_compute. reflexivity. Qed.

Lemma UnmarshalJSON_one_pointer_witness :
  (∃ typ, decode_type update_json = Ok typ ∧ op_pointers update_value = map (λ t, bool_decide (typ = t)) operation_tags) ∧
  ∃ e, UnmarshalJSON zero_operation unknown_json = Err e.
Proof.
  split.
  - destruct (proj1 (UnmarshalJSON_one_pointer update_json) update_value update_unmarshals) as (typ & Ht & _ & Hp & _).
    exact (ex_intro _ typ (conj Ht Hp)).
  - apply (proj2 (UnmarshalJSON_one_pointer unknown_json) (str "changeOwner")); [vm_compute; reflexivity|].
    apply (bool_decide_unpack _). vm_compute. exact I.
Defined.
