(* ===== verification/DaemonWitnesses.v ===== *)
(** The properties of the daemon at a concrete start: two blocks ingested from
    JSON, and a restart with flags and a configuration file. *)
From S2P Require Import DaemonTheorems WireWitnesses Demo.
Import Demo.

Definition join (a b : bytes) : bytes := a ++ str "/" ++ b.
(** A decoder that takes the text for the query address. *)
Definition decode_yaml (content : bytes) (cfg : config) : config * option error := (mkConfig (cfg_ChainAddr cfg) content, None).

Definition chain_req : CommitChainRequest := mkCommitChainRequest [block1; block2].
Definition received : call := Committing zeroHash (map wire_block (cc_Blocks chain_req)).
Definition midway : process := mkProcess Listening empty_store [received] 1.
Definition ingested : Store := foldl finish_call (p_store midway) (p_calls midway).

(** A request is read while a query is running. *)
Lemma midway_run : rtc process_step (serving empty_store) midway.
Proof.
  assert (Forall block_wf (cc_Blocks chain_req)) as Hw by (apply (bool_decide_unpack _); vm_compute; exact I).
  destruct (CommitChainRequest_roundtrip true chain_req Hw) as (j & _ & Hd).
  eapply rtc_l; [apply accept_chain|]. eapply rtc_l; [apply accept_query; by apply elem_of_cons; left|].
  apply rtc_once. apply (read_chain (mkProcess Listening empty_store [Reading] 1) 0 received); [|done|by apply (request_commit j (mkCommitChainRequest (map wire_block (cc_Blocks chain_req))))].
  by apply (bool_decide_unpack _).
Qed.

(** The signal arrives before its first block, and [main] returns. *)
Definition stopped : process := mkProcess Returned ingested [] 0.
Lemma midway_running : running midway.
Proof. by apply (bool_decide_unpack _). Qed.
Lemma stopped_run : rtc process_step (serving empty_store) stopped.
Proof.
  destruct (process_stops midway) as (s & Hs & Hstop); [|exact midway_running|].
  - apply (process_drained _ _ midway_run). by split.
  - unfold stopped, ingested. rewrite <-Hs. etrans; [exact midway_run|exact Hstop].
Qed.

Lemma shutdown_drains_witness : ∃ p', rtc process_step midway p' ∧ p_phase p' = Returned ∧ p_store p' = ingested.
Proof. exact (proj2 (proj2 (shutdown_drains empty_store midway midway_run)) midway_running). Defined.

Definition command_line : list bytes :=
  [str "--data-dir"; str "/data"; str "-chain-addr=0.0.0.0:1"; str "-version=false"; str "rest"; str "-version"].
Definition command_settings : list (bytes * bytes) :=
  [(str "data-dir", str "/data"); (str "chain-addr", str "0.0.0.0:1"); (str "version", str "false")].
Lemma command_parses : flag_Parse defined command_line [] = Parsed command_settings.
Proof. vm_compute. reflexivity. Qed.

Definition files (path : bytes) : opened :=
  if decide (path = str "/data/config.yaml") then Opened (str "0.0.0.0:9") None else NotExist.
Definition databases (path : bytes) : result Database :=
  if decide (path = str "/data/db") then Ok (rawDB (p_store stopped)) else Err (Errorf "no such directory").

Definition info : Info := Current (mkLdFlags (str "v1") unknown unknown unknown) (str "go1.26") None.

Lemma no_version : flag_Bool command_settings (str "version") false = false.
Proof. vm_compute. reflexivity. Qed.
Lemma config_loads :
  loadConfig join decode_yaml files (flag_String command_settings (str "data-dir") (defaultDataDir join (Ok (str "/root")))) =
  (mkConfig [] (str "0.0.0.0:9"), None).
Proof. vm_compute. reflexivity. Qed.
Lemma database_opens :
  databases (join (flag_String command_settings (str "data-dir") (defaultDataDir join (Ok (str "/root")))) (str "db")) = Ok (rawDB (p_store stopped)).
Proof.
  unfold databases. rewrite decide_True; [reflexivity|]. vm_compute. reflexivity.
Qed.

Lemma restart_resumes_witness :
  startup join decode_yaml command_line (Ok (str "/root")) info files databases (Ok tt) (Ok tt) =
  Serving (str "0.0.0.0:1") (str "0.0.0.0:9") (str "/data/db") (p_store stopped).
Proof.
  exact (restart_resumes join decode_yaml (rawDB empty_store) empty_store stopped command_line (Ok (str "/root")) info files databases
    command_settings (mkConfig [] (str "0.0.0.0:9")) eq_refl stopped_run command_parses no_version config_loads database_opens).
Defined.

Definition build : BuildInfo := mkBuildInfo (str "(devel)")
  [(str "vcs", str "git"); (str "vcs.revision", str "0123456789abcdef"); (str "vcs.modified", str "true")].
Lemma build_keys : NoDup (bi_Settings build).*1.
Proof. apply (bool_decide_unpack _). vm_compute. exact I. Qed.

Lemma Current_precedence_witness :
  let i := Current (mkLdFlags (str " v1 ") unknown (str "clean") []) (str "go1.26") (Some build) in
  info_Tag i = str "v1" ∧ info_CommitShort i = str "0123456789ab" ∧ info_Dirty i = Some false ∧ info_VCSModified i = Some true.
Proof.
  cbv zeta. destruct (Current_precedence (mkLdFlags (str " v1 ") unknown (str "clean") []) (str "go1.26") build build_keys)
    as (-> & Hc & -> & -> & _ & ->). rewrite Hc. vm_compute. repeat split.
Defined.
