(* ===== verification/GrammarWitnesses.v ===== *)
(** The grammar of queries at concrete token sequences, with a decimal reading
    of the number tokens. *)
From S2P Require Import GrammarTrees GrammarTheorems GoJson.

(** ** Decimal numbers *)
Definition decimal_value (v : bytes) : option N :=
  match parse_decimal v with Some n => if fits_u64 n then Some n else None | None => None end.

Lemma decimal_fits v n : decimal_value v = Some n → fits_u64 n = true.
Proof. unfold decimal_value. destruct (parse_decimal v) as [m|]; [|done]. destruct (fits_u64 m) eqn:Hm; [|done]. by intros [= <-]. Qed.

Lemma decimal_digits (d : Decimal.uint) : forallb is_digit (str (NilEmpty.string_of_uint d)) = true.
Proof. induction d; [done|..]; cbn [NilEmpty.string_of_uint]; exact IHd. Qed.

Lemma decimal_reads n : fits_u64 n = true → is_number (decimal_lit n) = true ∧ decimal_value (decimal_lit n) = Some n.
Proof.
  intros Hn. split; [|by unfold decimal_value; rewrite parse_decimal_lit, Hn].
  pose proof (decimal_digits (N.to_uint n)) as Hd. unfold is_number, decimal_lit. destruct (str _) as [|c s] eqn:Hs; [|exact Hd].
  exfalso. pose proof (parse_decimal_lit n) as H. unfold decimal_lit in H. by rewrite Hs in H.
Qed.

(** ** [!(age >= 18 || name ~ "al*") && $owner IN ("0x01" "x")] *)
Definition demo_query : TopLevel :=
  mkTopLevel (Some (mkExpression (mkOrExpression (mkAndExpression
    (paren_expr (mkParen true (mkExpression (mkOrExpression
      (mkAndExpression (ge_expr (mkGreaterOrEqualThan (str "age") (mkValue None (Some 18%N)))) [])
      [mkOrRHS (mkAndExpression (glob_expr (mkGlobExpr (str "name") false (str "al*"))) [])]))))
    [mkAndRHS (inclusion_expr (mkInclusion (str "$owner") false (mkValues [str "0x01"; str "x"] [])))]) []))).
Definition demo_tokens : list token := TopLevel_print decimal_lit demo_query.

Lemma grammar_unambiguous_witness : Forall clean demo_tokens ∧ TopLevel_tokens decimal_value demo_tokens demo_query ∧
  ∀ t', TopLevel_tokens decimal_value demo_tokens t' → demo_query = t'.
Proof.
  destruct (TopLevel_printed_clean decimal_value decimal_lit decimal_reads demo_query eq_refl) as [Ht Hc].
  split; [exact Hc|split; [exact Ht|exact (λ t' Ht', grammar_unambiguous decimal_value demo_tokens demo_query t' Hc Ht Ht')]].
Defined.

Lemma grammar_trees_witness : TopLevel_wf demo_query = true ↔
  ∃ ts, Forall (λ u, token_ok u = true) ts ∧ TopLevel_tokens decimal_value ts demo_query.
Proof. exact (grammar_trees decimal_value decimal_lit demo_query decimal_fits decimal_reads). Defined.

Lemma grammar_roundtrip_witness : TopLevel_all plain demo_query = true ∧
  ∀ t', TopLevel_tokens decimal_value demo_tokens t' ↔ t' = demo_query.
Proof.
  split; [reflexivity|]. exact (λ t', grammar_roundtrip decimal_value decimal_lit demo_query t' decimal_reads eq_refl).
Defined.

(** ** A quoted parenthesis *)

(** [(a IN ("x" ")") and b IN ("y" ")")]: the first list ends at its quoted
    parenthesis or at the next one, and so does the second. *)
Definition twice : list token :=
  [sym LParen; word (str "a"); word (str "IN"); sym LParen; quoted (str "x"); quoted (str ")"); sym RParen;
   word (str "and"); word (str "b"); word (str "IN"); sym LParen; quoted (str "y"); quoted (str ")"); sym RParen].
Definition strings_in (v : String.string) (l : list bytes) : EqualExpr := inclusion_expr (mkInclusion (str v) false (mkValues l [])).
Definition group (e : EqualExpr) (r : list AndRHS) : OrExpression := mkOrExpression (mkAndExpression e r) [].
Definition twice_1 : TopLevel :=
  mkTopLevel (Some (mkExpression (group (paren_expr (mkParen false (mkExpression (group (strings_in "a" [str "x"]) []))))
    [mkAndRHS (strings_in "b" [str "y"; str ")"])]))).
Definition twice_2 : TopLevel :=
  mkTopLevel (Some (mkExpression (group (paren_expr (mkParen false (mkExpression (group (strings_in "a" [str "x"; str ")"])
    [mkAndRHS (strings_in "b" [str "y"])])))) []))).

Lemma strings_in_tokens (v : String.string) ts c : ts ≠ [] → Forall (λ t, tk_type t ∈ text_types) ts → tk_value c = str ")" →
  leaf_tokens decimal_value (word (str v) :: word (str "IN") :: sym LParen :: ts ++ [c]) (strings_in v (map tk_value ts)).
Proof.
  intros Hne Hts Hc. apply (leaf_inclusion _ (word (str v)) [] false (word (str "IN"))); [|constructor|..|by constructor];
    cbn; unfold var_types, IN_words; in_list.
Qed.

Lemma one_and ts x tss y : EqualExpr_tokens decimal_value ts x → EqualExpr_tokens decimal_value tss y →
  OrExpression_tokens decimal_value (ts ++ word (str "and") :: tss) (group x [mkAndRHS y]).
Proof.
  intros Hx Hy. rewrite <-(app_nil_r (ts ++ _)). constructor; [|constructor]. constructor; [done|].
  rewrite <-(app_nil_r tss). constructor; [|done|constructor]. right. cbn. unfold AND_words. in_list.
Qed.
Lemma one_operand ts x : EqualExpr_tokens decimal_value ts x → OrExpression_tokens decimal_value ts (group x []).
Proof. intros Hx. rewrite <-(app_nil_r ts). constructor; [|constructor]. rewrite <-(app_nil_r ts). constructor; [done|constructor]. Qed.

(** With quoted parentheses the tags are ambiguous. *)
Lemma quoted_paren_ambiguous : Forall (λ t, token_ok t = true) twice ∧
  TopLevel_tokens decimal_value twice twice_1 ∧ TopLevel_tokens decimal_value twice twice_2 ∧ twice_1 ≠ twice_2.
Proof.
  assert (∀ l, Forall (λ t, tk_type t ∈ text_types) (map quoted l)) as Hq.
  { intros l. apply Forall_map, Forall_true. intros x. cbn. unfold text_types. in_list. }
  split; [by repeat constructor|]. split_and!; [..|done]; constructor.
  - apply (one_and [_; _; _; _; _; _; _] _ [_; _; _; _; _; _]).
    + apply (equal_paren _ [] false (sym LParen) [_; _; _; _; _] _ (sym RParen)); [constructor|done|apply one_operand|done].
      constructor. by apply (strings_in_tokens "a" (map quoted [str "x"]) (quoted (str ")"))).
    + constructor. by apply (strings_in_tokens "b" (map quoted [str "y"; str ")"]) (sym RParen)).
  - apply one_operand, (equal_paren _ [] false (sym LParen) [_; _; _; _; _; _; _; _; _; _; _; _] _ (sym RParen)); [constructor|done| |done].
    apply (one_and [_; _; _; _; _; _] _ [_; _; _; _; _]).
    + constructor. by apply (strings_in_tokens "a" (map quoted [str "x"; str ")"]) (sym RParen)).
    + constructor. by apply (strings_in_tokens "b" (map quoted [str "y"]) (quoted (str ")"))).
Qed.
