(* ===== verification/QueryWitnesses.v ===== *)
(** The properties of the read path at concrete inputs: the store of [Demo]
    after its two blocks. *)
From S2P Require Import QueryTheorems Demo.
Import Demo.

Lemma demo_iter (p s : bytes) : (kv_NewIterator (rawDB store2) p s).2 = None.
Proof. reflexivity. Qed.

Definition name_alice : annotPair := mkAnnotPair (str "name") (str "alice").
Lemma name_tracked : bool_decide (tracked name_alice) = true.
Proof. vm_compute. reflexivity. Qed.
Lemma all_tracked : bool_decide (tracked (mkAnnotPair (str "$all") (str "true"))) = true.
Proof. vm_compute. reflexivity. Qed.

Lemma ReadAnnotBitmap_exact_witness : ∃ B, ReadAnnotBitmap store2 0 (str "name") (str "alice") = Ok B ∧
  ∀ x, bm_Contains B x = true ↔ ∃ a e, abs_ents st2 !! a = Some (x, e) ∧ name_alice ∈ allAnnotations e.
Proof. exact (ReadAnnotBitmap_exact store2 0 st2 name_alice (state_at_head _ _ head2) (proj1 (bool_decide_eq_true _) name_tracked)). Defined.

Lemma AllEntities_exact_witness : ∃ B, AllEntities store2 0 = Ok B ∧ (∀ x, bm_Contains B x = true ↔ live_id st2 x) ∧
  bm_GetCardinality B = N.of_nat (size (abs_ents st2)).
Proof. exact (AllEntities_exact store2 0 st2 (state_at_head _ _ head2) (proj1 (bool_decide_eq_true _) all_tracked)). Defined.

Lemma live_k1 : bool_decide (is_Some (abs_ents st2 !! keyAddress k1)) = true.
Proof. vm_compute. reflexivity. Qed.

Lemma GetEntity_exact_witness : ∃ id e, abs_ents st2 !! keyAddress k1 = Some (id, e) ∧
  GetEntity store2 0 (keyAddress k1) = Ok e ∧ IDToAddress store2 id = Some (keyAddress k1).
Proof.
  pose proof (GetEntity_exact store2 0 st2 (keyAddress k1) (state_at_head _ _ head2)) as H.
  destruct (proj1 (bool_decide_eq_true _) live_k1) as [[id e] Ha]. rewrite Ha in H. destruct H as [H1 H2].
  exact (ex_intro _ id (ex_intro _ e (conj Ha (conj H1 (H2 head2))))).
Defined.

Lemma age_key : x00 ∉ str "age".
Proof. by apply (bool_decide_unpack _). Qed.
Lemma name_key : x00 ∉ str "name".
Proof. by apply (bool_decide_unpack _). Qed.
Lemma tag_key : x00 ∉ str "tag".
Proof. by apply (bool_decide_unpack _). Qed.

Lemma IterateNumeric_exact_witness : bm_Contains (IterateNumericAnnotBitmaps store2 (str "age") 5 9) 1 = true ↔
  ∃ v, is_u64 v ∧ (5 ≤ v ≤ 9)%N ∧ indexed st2 (mkAnnotPair (str "age") (numericVal v)) 1.
Proof. exact (IterateNumeric_exact store2 st2 (str "age") 5 9 1%N head2 age_key eq_refl demo_iter). Defined.

Lemma IterateString_exact_witness :
  bm_Contains (IterateStringAnnotBitmaps store2 (str "name") (Some (str "alice")) true (Some (str "bob")) false) 1 = true ↔
  ∃ v, v ≠ [] ∧ above (Some (str "alice")) true v ∧ below (Some (str "bob")) false v ∧ indexed st2 (mkAnnotPair (str "name") v) 1.
Proof. exact (IterateString_exact store2 st2 (str "name") _ _ _ _ 1%N head2 name_key demo_iter). Defined.

Lemma prefix_scan_is_glob_scan_witness :
  bm_Contains (IteratePrefixAnnotBitmaps store2 (str "name") (str "al")) 1 =
    bm_Contains (IterateGlobAnnotBitmaps store2 (str "name") (str "al*")) 1 ∧
  (bm_Contains (IterateGlobAnnotBitmaps store2 (str "name") (str "al*")) 1 = true ↔
   ∃ v, v ≠ [] ∧ globMatch (str "al*") v = true ∧ indexed st2 (mkAnnotPair (str "name") v) 1).
Proof. exact (prefix_scan_is_glob_scan store2 st2 (str "name") (str "al*") (str "al") 1%N head2 name_key demo_iter eq_refl). Defined.

(** The values of a key for an ID, read off the abstract state. *)
Definition vals_of (st : AbsState) (key : bytes) (x : N) : list bytes :=
  concat (map (λ y, if (y.2.1 =? x)%N then omap (λ p, if decide (pair_key p = key) then Some (pair_val p) else None) (allAnnotations y.2.2) else [])
    (map_to_list (abs_ents st))).
Lemma vals_of_ok st key x v : indexed st (mkAnnotPair key v) x → v ∈ vals_of st key x.
Proof.
  intros (a & e & Ha & Hp). unfold vals_of. apply list_elem_of_In, in_concat.
  eexists. split; [apply list_elem_of_In, list_elem_of_fmap_2, elem_of_map_to_list, Ha|]. cbn [fst snd].
  rewrite N.eqb_refl. apply list_elem_of_In, list_elem_of_omap. eexists. split; [exact Hp|]. by rewrite decide_True.
Qed.
Lemma vals_of_ok' st key x v : v ∈ vals_of st key x → indexed st (mkAnnotPair key v) x.
Proof.
  unfold vals_of. intros (l & Hl & Hv)%list_elem_of_In%in_concat. apply list_elem_of_In in Hl, Hv.
  apply list_elem_of_fmap in Hl as ([a [id e]] & -> & Ha%elem_of_map_to_list). cbn [fst snd] in Hv.
  destruct (N.eqb_spec id x) as [->|]; [|by apply elem_of_nil in Hv].
  apply list_elem_of_omap in Hv as ([k w] & Hp & Hd). exists a, e. split; [exact Ha|]. cbn [pair_key pair_val] in Hd.
  case_decide; [|done]. by simplify_eq.
Qed.
Lemma tag_vals : bool_decide (vals_of st2 (str "tag") 1 = [[]]) = true.
Proof. vm_compute. reflexivity. Qed.

Lemma glob_scan_skips_empty_witness :
  globMatch [star] [] = true ∧ bm_Contains (IterateGlobAnnotBitmaps store2 (str "tag") [star]) 1 = false.
Proof.
  pose proof (proj1 (bool_decide_eq_true _) tag_vals) as Hv.
  apply (glob_scan_skips_empty store2 st2 (str "tag") 1 head2 tag_key demo_iter).
  - apply vals_of_ok'. rewrite Hv. apply elem_of_cons. left. reflexivity.
  - intros v Hi%vals_of_ok. rewrite Hv in Hi. by apply list_elem_of_singleton in Hi.
Defined.

(** ** Queries *)

Definition conj2 (x y : EqualExpr) : AndExpression := mkAndExpression x [mkAndRHS y].
Definition only (c : AndExpression) : Expression := mkExpression (mkOrExpression c []).

(** [name = "alice" && !(age < 5 || tag = "name")]. *)
Definition demo_query : TopLevel := mkTopLevel (Some (only (conj2
  (assign_expr (mkEquality (str "name") false (text (str "alice"))))
  (paren_expr (mkParen true (mkExpression (mkOrExpression
    (mkAndExpression (lt_expr (mkLessThan (str "age") (number 5))) [])
    [mkOrRHS (mkAndExpression (assign_expr (mkEquality (str "tag") false (text (str "name")))) [])]))))))).

Lemma Normalize_correct_witness : ∃ ast, TopLevel_Normalize demo_query = Ok ast ∧
  ∀ A all, sem_AST (term_means A) all ast = sem_top A all demo_query.
Proof. exact (Normalize_correct demo_query eq_refl). Defined.

Lemma Normalize_number_panics_witness :
  let e := only (mkAndExpression (assign_expr (mkEquality OwnerAttributeKey false (number 5))) []) in
  TopLevel_wf (mkTopLevel (Some e)) = true ∧ TopLevel_Normalize (mkTopLevel (Some e)) = Panic.
Proof.
  apply (Normalize_number_panics OwnerAttributeKey 5 false); [apply elem_of_cons; left; reflexivity|reflexivity].
Defined.

(** [name = "alice" && age >= 5], in normal form. *)
Definition demo_top : TopLevel := mkTopLevel (Some (only (conj2
  (assign_expr (mkEquality (str "name") false (text (str "alice"))))
  (ge_expr (mkGreaterOrEqualThan (str "age") (number 5)))))).
Definition demo_ast : AST := mkAST (Some (mkASTExpr (mkASTOr [mkASTAnd [
  mkASTTerm (Some (mkEquality (str "name") false (text (str "alice")))) None None None None None None;
  mkASTTerm None None None None None (Some (mkGreaterOrEqualThan (str "age") (number 5))) None]]))).

Lemma demo_ast_ok : AST_ok tracked (scannable 0) demo_ast.
Proof.
  apply Forall_singleton. split; [discriminate|]. apply Forall_cons. split.
  - exists (str "alice"). split; [reflexivity|]. exact (proj1 (bool_decide_eq_true _) name_tracked).
  - apply Forall_singleton. split; [split; [reflexivity|exact age_key]|reflexivity].
Qed.

Lemma readable2 : readable store2 0 st2.
Proof. exact (readable_head store2 st2 head2 demo_iter). Qed.

Lemma Evaluate_correct_witness : ∃ B, AST_Evaluate demo_ast store2 0 = Ok B ∧
  ∀ x, bm_Contains B x = true ↔ ∃ l, store_has st2 x l ∧ sem_AST (term_sem l) true demo_ast = true.
Proof.
  exact (Evaluate_correct store2 0 tracked (scannable 0) (store_has st2) demo_ast
    (store_index_ok store2 0 st2 readable2 (proj1 (bool_decide_eq_true _) all_tracked)) demo_ast_ok).
Defined.

Definition name_leaf : EqualExpr := assign_expr (mkEquality (str "name") false (text (str "alice"))).
Lemma name_ready n : leaf_ready tracked (scannable n) name_leaf.
Proof.
  intros t [= <-]. exists (str "alice"). split; [reflexivity|]. exact (proj1 (bool_decide_eq_true _) name_tracked).
Qed.
Lemma age_ready : leaf_ready tracked (scannable 0) (ge_expr (mkGreaterOrEqualThan (str "age") (number 5))).
Proof. intros t [= <-]. split; [split; [reflexivity|exact age_key]|reflexivity]. Qed.
Lemma demo_ready : TopLevel_every (leaf_ready tracked (scannable 0)) demo_top.
Proof. exact (conj (conj (name_ready 0) (conj age_ready I)) I). Qed.

Lemma query_correct_witness : ∃ ast B, TopLevel_Normalize demo_top = Ok ast ∧ AST_Evaluate ast store2 0 = Ok B ∧
  ∀ x, bm_Contains B x = true ↔
    ∃ a e, abs_ents st2 !! a = Some (x, e) ∧ satisfies e demo_top.
Proof.
  exact (query_correct store2 0 st2 demo_top readable2 (proj1 (bool_decide_eq_true _) all_tracked) eq_refl demo_ready).
Defined.
