(* ===== verification/ServerWitnesses.v ===== *)
(** The properties of the query server and of the codecs at concrete inputs. *)
From S2P Require Import ServerTheorems CodecTheorems QueryWitnesses Demo.
Import Demo.

(** A codec of cursors: a marker byte and the number. *)
#[export] Instance toy_hexutil : Hexutil := {
  hexutil_EncodeUint64 n := x78 :: PutUint64 n;
  hexutil_DecodeUint64 b := match b with [] => Err (Errorf "empty hex string") | _ :: b => Uint64 b end;
}.
#[export] Instance toy_hexutil_ok : HexutilOk.
Proof. split; [|done]. intros n Hn. cbn [hexutil_DecodeUint64 hexutil_EncodeUint64 toy_hexutil]. rewrite <-(app_nil_r (PutUint64 n)). by apply Uint64_PutUint64. Qed.

(** A parser that knows one query. *)
Definition demo_parse (s : bytes) : result TopLevel := Ok demo_top.

Lemma demo_answerable : answerable demo_parse store2 0 st2 (str "q") demo_top.
Proof.
  split; [exact readable2|exact (proj1 (bool_decide_eq_true _) all_tracked)|reflexivity|reflexivity|exact demo_ready].
Qed.

Definition one_per_page : option Options := Some (mkOptions None None (Some 1%N) []).


Lemma few_entities : (size (abs_ents st2) <? 5)%nat = true.
Proof. vm_compute. reflexivity. Qed.

Lemma Query_pages_witness : ∃ ids data, follow demo_parse 5 store2 (str "q") one_per_page = Ok data ∧
  shows st2 (getIncludeData one_per_page) ids data ∧
  NoDup ids ∧ StronglySorted (λ x y, y < x)%N ids ∧ ∀ x, x ∈ ids ↔ matches st2 demo_top x.
Proof.
  refine (Query_pages demo_parse store2 st2 (str "q") demo_top one_per_page 5 demo_answerable eq_refl _ _).
  - discriminate.
  - apply Nat.ltb_lt. exact few_entities.
Defined.

(** The name query at block 1, before and after block 2. *)
Definition point_top : TopLevel := mkTopLevel (Some (only (mkAndExpression name_leaf []))).
Definition point_parse (s : bytes) : result TopLevel := Ok point_top.
Definition at_one : option Options := Some (mkOptions (Some 1%N) None None []).

Lemma demo_iter1 (p s : bytes) : (kv_NewIterator (rawDB store1) p s).2 = None.
Proof. reflexivity. Qed.
Lemma caches1 : caches_cover (store_reader store1) st1.
Proof. exact (caches_cover_head store1 st1 head1 no_alias1). Qed.
Lemma state1 : state_at store1 1 st1.
Proof. destruct step1 as (_ & _ & B1). refine (state_at_own _ block1 _ _ _ _ B1 _). discriminate. Qed.
Lemma point_answerable : answerable point_parse store1 1 st1 (str "q") point_top.
Proof.
  assert (1%N ≠ 0%N) as Hz by discriminate.
  split; [exact (readable_cached store1 1 st1 Hz state1 caches1 demo_iter1)|exact (proj1 (bool_decide_eq_true _) all_tracked)|reflexivity|reflexivity|].
  exact (conj (conj (name_ready 1) I) I).
Qed.
Lemma hash_at_block1 hb : store_reader store1 (blockNumberKey 1) = Some hb → BytesToHash hb ≠ hash2.
Proof.
  intros Hhb E. assert (bool_decide (BytesToHash (default [] (store_reader store1 (blockNumberKey 1))) = hash2) = false) as Hd by (vm_compute; reflexivity).
  rewrite Hhb in Hd. exact (proj1 (bool_decide_eq_false _) Hd E).
Qed.

Lemma historical_query_stable_witness : Query point_parse store2 (str "q") at_one = Query point_parse store1 (str "q") at_one.
Proof.
  destruct step2 as (Ha & Hp & _). assert (1%N ≠ 0%N) as Hz by discriminate.
  assert (1%N ≠ header_Number (block_Header block2)) as Hn by discriminate.
  exact (historical_query_stable point_parse store1 st1 st1 (str "q") point_top at_one None block2 st2 (headRoot store2) store2
    point_answerable eq_refl eq_refl Hz caches1 (N.le_refl _) head1 Valid2 Hashed2 eq_refl Hn fresh2 hash_at_block1 Ha Hp demo_iter).
Defined.

(** A query evaluated after block 1, whose entities are fetched after block 2. *)
Definition race_moments : Moments := mkMoments store1 store1 (λ _, store2) (λ _, store2).
Lemma race_advanced : advanced store1 st1 store2 st2.
Proof.
  destruct step2 as (Ha & Hp & _).
  exact (advanced_block _ _ _ _ _ _ _ _ (advanced_here _ _) Valid2 Hashed2 Ha Hp).
Qed.
Lemma race_racing : racing race_moments st1 (λ _, st2).
Proof. split; [exact head1|exact (λ _, ex_intro _ st2 race_advanced)|exact (λ _, race_advanced)]. Qed.
Lemma race_answerable : answerable demo_parse store1 0 st1 (str "q") demo_top.
Proof.
  split; [exact (readable_head _ _ head1 demo_iter1)|exact (proj1 (bool_decide_eq_true _) all_tracked)|reflexivity|reflexivity|exact demo_ready].
Qed.

Lemma Query_race_witness : ∃ taken rest data, selected st1 demo_top None (taken ++ rest) ∧
  refetched (owns st1) (λ _, st2) defaultIncludeData taken data ∧ (N.of_nat (length data) ≤ 200)%N ∧
  (rest = [] ∨ N.of_nat (length data) = 200%N) ∧
  Query demo_parse race_moments (str "q") None =
    Ok (mkQueryResponse data (headNumber store1) (nextCursor rest (last taken))).
Proof. exact (Query_race demo_parse race_moments st1 (λ _, st2) (str "q") demo_top None None race_answerable race_racing eq_refl eq_refl). Defined.

(** The block lands between two reads of the evaluation. *)
Definition while_committing (σ : Store) (st : AbsState) : Prop := σ = store1 ∧ st = st1 ∨ σ = store2 ∧ st = st2.
Lemma demo_interleaved : interleaved while_committing race_moments (λ _, st2).
Proof.
  split.
  - exact (ex_intro _ store1 (ex_intro _ st1 (or_introl (conj eq_refl eq_refl)))).
  - intros σ st [[-> ->]|[-> ->]]; [exact head1|exact head2].
  - intros σ st [[-> ->]|[-> ->]]; [exact demo_iter1|exact demo_iter].
  - intros σ st x [[-> ->]|[-> ->]]; exists st2; [exact race_advanced|exact (advanced_here _ _)].
  - intros σ st a [[-> ->]|[-> ->]]; [exact race_advanced|exact (advanced_here _ _)].
Qed.

Lemma Query_interleaved_witness :
  yields (race_Query demo_parse (current while_committing) race_moments (str "q") None)
    (answered while_committing race_moments (λ _, st2) demo_top None None) ∧
  RaceEval.only (race_Query demo_parse (λ σ, σ = at_eval race_moments) race_moments (str "q") None) (Query demo_parse race_moments (str "q") None).
Proof.
  exact (Query_interleaved demo_parse while_committing race_moments (λ _, st2) (str "q") demo_top None None demo_interleaved
    (proj1 (bool_decide_eq_true _) all_tracked) eq_refl eq_refl demo_ready eq_refl eq_refl).
Defined.

Lemma GetEntityCount_exact_witness : GetEntityCount store2 = Ok (N.of_nat (size (abs_ents st2))).
Proof. exact (GetEntityCount_exact store2 st2 head2 (proj1 (bool_decide_eq_true _) all_tracked)). Defined.

Lemma GetEntityByAddress_exact_witness : ∃ id e, abs_ents st2 !! keyAddress k1 = Some (id, e) ∧
  GetEntityByAddress store2 (keyAddress k1) None = Ok (entityData e defaultIncludeData).
Proof.
  pose proof (GetEntityByAddress_exact store2 st2 (keyAddress k1) None (state_at_head _ _ head2)) as H.
  destruct (proj1 (bool_decide_eq_true _) live_k1) as [[id e] Ha]. rewrite Ha in H.
  exact (ex_intro _ id (ex_intro _ e (conj Ha H))).
Defined.

(** ** Codecs *)

Lemma key_space_injective_witness : key_bytes (KAnnot (str "age") (numericVal 7)) = key_bytes (KAnnot (str "age") (numericVal 7)) ∧
  KAnnot (str "age") (numericVal 7) = KAnnot (str "age") (numericVal 7).
Proof. split; [reflexivity|]. exact (key_space_injective (KAnnot (str "age") (numericVal 7)) (KAnnot (str "age") (numericVal 7)) age_key age_key eq_refl). Defined.

Lemma head_record_roundtrip_witness : decodeHead (encodeHead 7 hash1 hash2) = Ok (7%N, hash1, hash2).
Proof. exact (proj1 head_record_roundtrip 7%N hash1 hash2 eq_refl). Defined.

Lemma numericVal_sortable_witness : decodeUint64 (numericVal 255) = Ok 255%N ∧ bytes_lt (numericVal 255) (numericVal 256).
Proof.
  destruct (numericVal_sortable 255 256 eq_refl eq_refl) as (H1 & H2 & _). split; [exact H1|]. apply H2. reflexivity.
Defined.

Lemma incrementEntityCount_spec_witness : ∃ s : @StateDB (@env_state toy_env), (incrementEntityCount s).1 = 1%N ∧ readEntityCount (incrementEntityCount s).2 = 1%N.
Proof.
  destruct (@state_New_empty (@env_state toy_env) _ (λ _, None)) as (s & _ & Ha). exists s.
  assert (readEntityCount s = 0%N) as H0 by (unfold readEntityCount; by rewrite (proj2 (proj2 (proj2 (Ha systemAddress))))).
  pose proof (@incrementEntityCount_spec toy_env _ s) as H. rewrite H0 in H. destruct (incrementEntityCount s) as [id s'].
  destruct H as (-> & H & _). split; [reflexivity|exact H].
Defined.
