(* ===== verification/SessionWitnesses.v ===== *)
(** The properties of sessions at the run of [Demo]: its two blocks committed,
    the second one undone and committed again, and a third one after which two
    are undone in one call and in two. *)
From S2P Require Import SessionTheorems ServerWitnesses QueryWitnesses Demo.
Import Demo.

Definition base : Chain := ch_base 0 zeroHash.
Definition chain1 : Chain := mkChain (mkLink 1 hash1 st1) (ch_links base) (ops_ids 0 (block_ops block1) ∪ ∅).
Definition chain2 : Chain := mkChain (mkLink 2 hash2 st2) (ch_links chain1)
  (ops_ids (abs_count st1) (block_ops block2) ∪ ch_cached chain1).

Lemma commit1 : abs_commit base block1 = Some chain1.
Proof. destruct step1 as (Ha & _). unfold abs_commit. change (ch_state base) with abs_empty. rewrite Ha. reflexivity. Qed.
Lemma commit2 : abs_commit chain1 block2 = Some chain2.
Proof. destruct step2 as (Ha & _). unfold abs_commit. change (ch_state chain1) with st1. rewrite Ha. reflexivity. Qed.

Lemma keys1 : NoDup (ops_creates (block_ops block1)).
Proof. by apply (bool_decide_unpack _). Qed.
Lemma hash1_new : block_hash block1 ∉ map ln_hash (ch_links base).
Proof. by apply (bool_decide_unpack _). Qed.
Lemma hash2_new : hash2 ∉ [hash1; zeroHash].
Proof. by apply (bool_decide_unpack _). Qed.

Lemma fits1 : block_fits empty_store base block1.
Proof.
  split; [reflexivity|reflexivity|reflexivity|exact hash1_new|exact Valid1|exact Hashed1|exact keys1|].
  intros a id _. discriminate.
Qed.
(** Block 2 creates nothing, so it fits any cache. *)
Lemma fits2 (σ : Store (E:=toy_env)) cached : block_hashed σ block2 → block_fits σ (mkChain (mkLink 1 hash1 st1) (ch_links base) cached) block2.
Proof.
  intros H. split; [reflexivity|reflexivity|reflexivity|exact hash2_new|exact Valid2|exact H|constructor|].
  intros a id Ha. by apply elem_of_nil in Ha.
Qed.

Lemma empty_lookup k : kv_lookup (rawDB empty_store) k = None.
Proof. unfold empty_store. cbn [rawDB]. rewrite toy_lookup. reflexivity. Qed.
Lemma empty_open : New (rawDB empty_store) = Ok empty_store.
Proof. reflexivity. Qed.

Lemma session1 : session 0 zeroHash store1 chain1.
Proof.
  destruct step1 as (_ & Hp & _).
  pose proof (session_commit _ _ _ _ _ _ _ (session_open 0 zeroHash _ _ empty_lookup empty_open) fits1 Hp) as Hs.
  change (ch_base 0 zeroHash) with base in Hs. rewrite commit1 in Hs. exact Hs.
Qed.
Lemma session2 : session 0 zeroHash store2 chain2.
Proof.
  destruct step2 as (_ & Hp & _). pose proof (session_commit _ _ _ _ _ _ _ session1 (fits2 store1 _ Hashed2) Hp) as Hs.
  change (mkChain _ _ _) with chain1 in Hs. rewrite commit2 in Hs. exact Hs.
Qed.

Lemma session_serves_witness : head_repr store2 st2 ∧ New (rawDB store2) = Ok store2 ∧
  state_at store2 1 st1 ∧ IDToAddress store2 2 = ch_cached chain2 !! 2%N.
Proof.
  destruct (session_serves 0 zeroHash store2 chain2 session2) as (H1 & H2 & _ & H4 & H5).
  split; [exact H1|]. split; [exact H2|]. split; [|exact (H5 2%N eq_refl)].
  refine (H4 (mkLink 1 hash1 st1) _). right. left.
Defined.

(** ** A query after an undo *)

Definition chain1' : Chain := mkChain (mkLink 1 hash1 st1) (ch_links base)
  (ch_cached (default base (abs_undo 1 chain2))).
Lemma undo2 : abs_undo 1 chain2 = Some chain1'.
Proof. reflexivity. Qed.
Lemma covered1 : bool_decide (covered (ch_cached chain2) st1) = true.
Proof. vm_compute. reflexivity. Qed.
Lemma can_undo2 : can_undo 1 chain2.
Proof. split; [discriminate|]. exists chain1'. exact (conj undo2 (proj1 (bool_decide_eq_true _) covered1)). Qed.

Lemma reverts : is_Ok (revertToAncestor store2 (undo_refs 1 chain2)).1 = true.
Proof. vm_compute. reflexivity. Qed.
Lemma reverted_run : revertToAncestor store2 (undo_refs 1 chain2) = (Ok tt, reverted).
Proof.
  pose proof reverts as H. change (undo_refs 1 chain2) with [ref2] in *. unfold reverted.
  destruct (revertToAncestor store2 [ref2]) as [[[]|e|] σ']; [reflexivity|discriminate H..].
Qed.
Lemma session_reverted : session 0 zeroHash reverted chain1'.
Proof. exact (revertToAncestor_session _ _ _ _ _ _ (Ok tt) _ session2 can_undo2 undo2 reverted_run). Qed.
Lemma reverted_iter (p s : bytes) : (kv_NewIterator (rawDB reverted) p s).2 = None.
Proof. reflexivity. Qed.

Lemma session_query_witness : ∃ taken rest data, selected st1 point_top None (taken ++ rest) ∧
  shows st1 defaultIncludeData (filter (resolves chain1') taken) data ∧ (N.of_nat (length data) ≤ 200)%N ∧
  (rest = [] ∨ N.of_nat (length data) = 200%N) ∧
  Query point_parse reverted (str "q") at_one = Ok (mkQueryResponse data 1 (nextCursor rest (last taken))).
Proof.
  assert (link_at chain1' 1 (mkLink 1 hash1 st1)) as Hl by (right; split; [left|reflexivity]).
  exact (session_query point_parse 0 zeroHash reverted chain1' (mkLink 1 hash1 st1) (str "q") point_top at_one None
    session_reverted Hl reverted_iter (proj1 (bool_decide_eq_true _) all_tracked) eq_refl eq_refl
    (conj (conj (name_ready 1) I) I) eq_refl).
Defined.

(** ** Block 2 undone and committed again *)

Lemma fits_again σ1 : revertToAncestor store2 (undo_refs 1 chain2) = (Ok tt, σ1) → run_fits σ1 chain1' [block2].
Proof.
  change (undo_refs 1 chain2) with [ref2]. intros Hr. assert (σ1 = reverted) as -> by (unfold reverted; rewrite Hr; reflexivity).
  split; [|intros; exact I].
  exact (fits2 reverted _ (run_blobs_hashed _ _ (proj1 (bool_decide_eq_true _) blobs3))).
Qed.
Lemma fits_both : run_fits empty_store base [block1; block2].
Proof.
  destruct step1 as (_ & Hp & _). split; [exact fits1|]. intros root σ' c' Hp' Hc. rewrite commit1 in Hc.
  assert (chain1 = c') as <- by exact (f_equal (default base) Hc).
  assert (store1 = σ') as <- by exact (f_equal snd (eq_trans (eq_sym Hp) Hp')). split; [exact (fits2 store1 _ Hashed2)|intros; exact I].
Qed.

Definition again : ReorgRequest := mkReorgRequest (undo_refs 1 chain2) [block2].
Definition both : CommitChainRequest := mkCommitChainRequest [block1; block2].
Lemma again_runs : is_Ok (Chain_Reorg store2 again).1 = true.
Proof. vm_compute. reflexivity. Qed.
Lemma both_run : is_Ok (CommitChain empty_store both).1 = true.
Proof. vm_compute. reflexivity. Qed.

Lemma session_requests_witness :
  (∃ c', session 0 zeroHash (Chain_Reorg store2 again).2 c' ∧ abs_commits chain1' [block2] = Some c') ∧
  (∃ c', session 0 zeroHash (CommitChain empty_store both).2 c' ∧ abs_commits base [block1; block2] = Some c').
Proof.
  split.
  - destruct (session_requests 0 zeroHash store2 chain2 session2) as [_ H].
    destruct (H 1%nat chain1' [block2] _ _ can_undo2 undo2 fits_again (surjective_pairing (Chain_Reorg store2 again))) as (c' & Hs & Ho).
    exists c'. split; [exact Hs|]. pose proof again_runs as Hr. destruct (Chain_Reorg store2 again).1; [exact (proj1 Ho)|discriminate Hr..].
  - destruct (session_requests 0 zeroHash empty_store base (session_open 0 zeroHash _ _ empty_lookup empty_open)) as [H _].
    destruct (H both _ _ fits_both (surjective_pairing (CommitChain empty_store both))) as (c' & Hs & Ho).
    exists c'. split; [exact Hs|]. pose proof both_run as Hr. destruct (CommitChain empty_store both).1; [exact (proj1 Ho)|discriminate Hr..].
Defined.

(** ** Two blocks undone in one call and in two

    Block 2 deletes an entity of block 1, and block 3 is empty. *)

Definition hash3 : Hash := key_of xa3.
Definition block3 : ArkivBlock := mk_block 3 hash3 hash2 [].
Definition store3 : Store (E:=toy_env) := (ProcessBlock store2 block3).2.
Definition chain3 : Chain := mkChain (mkLink 3 hash3 st2) (ch_links chain2)
  (ops_ids (abs_count st2) (block_ops block3) ∪ ch_cached chain2).

Lemma commit3 : abs_commit chain2 block3 = Some chain3.
Proof. reflexivity. Qed.
Lemma hash3_new : hash3 ∉ [hash2; hash1; zeroHash].
Proof. by apply (bool_decide_unpack _). Qed.
Lemma blobs_block3 : bool_decide (Forall hashed (run_blobs store2 block3)) = true.
Proof. vm_compute. reflexivity. Qed.
Lemma fits3 : block_fits store2 chain2 block3.
Proof.
  split; [reflexivity|reflexivity|reflexivity|exact hash3_new|exact I| |constructor|].
  - apply run_blobs_hashed. exact (proj1 (bool_decide_eq_true _) blobs_block3).
  - intros a id Ha. by apply elem_of_nil in Ha.
Qed.

Lemma run3_ok : is_Ok (ProcessBlock store2 block3).1 = true.
Proof. vm_compute. reflexivity. Qed.
Lemma session3 : session 0 zeroHash store3 chain3.
Proof.
  pose proof (session_commit _ _ _ _ _ _ _ session2 fits3 (surjective_pairing (ProcessBlock store2 block3))) as Hs.
  rewrite commit3 in Hs. pose proof run3_ok as Hr. destruct (ProcessBlock store2 block3).1; [exact Hs|discriminate Hr..].
Qed.

(** The chains one and two blocks back. *)
Definition back1 : Chain := mkChain (mkLink 2 hash2 st2) (ch_links chain1) (ch_cached (default base (abs_undo 1 chain3))).
Definition back2 : Chain := mkChain (mkLink 1 hash1 st1) (ch_links base) (ch_cached (default base (abs_undo 2 chain3))).
Lemma undo_back1 : abs_undo 1 chain3 = Some back1.
Proof. reflexivity. Qed.
Lemma undo_back2 : abs_undo (1 + 1) chain3 = Some back2.
Proof. reflexivity. Qed.
Lemma covered_back : bool_decide (covered (ch_cached chain3) st2 ∧ covered (ch_cached chain3) st1) = true.
Proof. vm_compute. reflexivity. Qed.

Definition once : result Hash * Store (E:=toy_env) := RevertBlocks store3 (undo_refs (1 + 1) chain3).
Definition first : result Hash * Store (E:=toy_env) := RevertBlocks store3 (undo_refs 1 chain3).
Definition second : result Hash * Store (E:=toy_env) := RevertBlocks first.2 (undo_refs 1 back1).
Lemma reverts_run : is_Ok once.1 && is_Ok first.1 && is_Ok second.1 = true.
Proof. vm_compute. reflexivity. Qed.
Lemma run_Ok_pair (s : result Hash * Store (E:=toy_env)) : is_Ok s.1 = true → ∃ h, s = (Ok h, s.2).
Proof. destruct s as [[h|e|] σ]; [by exists h|done..]. Qed.

Lemma lost_live : bool_decide (fst <$> (abs_ents st1 !! keyAddress k2) = Some 2%N) = true.
Proof. vm_compute. reflexivity. Qed.
Lemma lost_dead : bool_decide (abs_ids st2 !! 2%N = None) = true.
Proof. vm_compute. reflexivity. Qed.

(** A block that deletes the entity. *)
Definition delete_block : ArkivBlock := mk_block 2 hash2 hash1 [op_delete (mkDeleteOp 0 k2 bob zeroHash zeroHash)].
Lemma delete_starts : starts_on delete_block (keyAddress k2).
Proof. eexists _, _. split; reflexivity. Qed.

(** It can be committed after the revert in one call. *)
Example delete_after_once : is_Ok (ProcessBlock once.2 delete_block).1 = true.
Proof. vm_compute. reflexivity. Qed.

Lemma stepwise_revert_loses_ids_witness :
  headRoot second.2 = headRoot once.2 ∧ IDToAddress once.2 2 = Some (keyAddress k2) ∧ IDToAddress second.2 2 = None ∧
  (∃ e, GetEntity second.2 0 (keyAddress k2) = Ok e) ∧ ∀ root σ', ProcessBlock second.2 delete_block ≠ (Ok root, σ').
Proof.
  destruct (proj1 (bool_decide_eq_true _) covered_back) as [C1 C2].
  pose proof reverts_run as [[Ho Hf]%andb_true_iff Hs]%andb_true_iff.
  destruct (run_Ok_pair _ Ho) as [ha Ha]. destruct (run_Ok_pair _ Hf) as [h1 H1]. destruct (run_Ok_pair _ Hs) as [h2 H2].
  pose proof (proj1 (bool_decide_eq_true _) lost_live) as Hl. pose proof (proj1 (bool_decide_eq_true _) lost_dead) as Hd.
  destruct (abs_ents st1 !! keyAddress k2) as [[x e]|] eqn:He; [|discriminate Hl]. cbn in Hl. injection Hl as ->.
  assert (¬ live_id st2 2) as Hdead by (rewrite <-abs_ids_live, Hd; by intros [? ?]).
  assert (can_undo 1 chain3) as U by (split; [discriminate|exists back1; exact (conj undo_back1 C1)]).
  destruct (stepwise_revert_loses_ids 0 zeroHash store3 chain3 1 1 back1 back2 (keyAddress k2) 2 e ha once.2 h1 first.2 h2 second.2
    session3 U undo_back1 ltac:(discriminate) undo_back2 C2 He Hdead Ha H1 H2) as ((Hr & _) & (_ & Hi & _) & (_ & Hg) & (Hn & _) & Hb).
  split; [exact Hr|]. split; [exact Hi|]. split; [exact Hn|]. split; [exists e; exact Hg|].
  intros root σ'. exact (Hb delete_block root σ' delete_starts).
Defined.
