(* ===== verification/Findings.v ===== *)
(** A run whose outcome a comment of the source rules out: an operation with two
    pointers set (src/types/types.go: UnmarshalJSON). *)
From S2P Require Import WireTheorems WireWitnesses Demo.
Import Demo.

(** A transaction object that repeats its operations: the second list is decoded
    over the first. *)
Definition op_json (tag : bytes) : json :=
  JObj [(str "type", JStr tag); (str "entityKey", encode_hash k1); (str "owner", encode_address alice)].
Definition repeated_json : json :=
  JObj [(str "operations", JArr [op_json (str "delete")]); (str "operations", JArr [op_json (str "extend")])].

(** The comment of the type says that exactly one pointer is set after
    unmarshalling.  When a transaction object repeats its operations, an
    operation gets a second pointer, and the first one in dispatch order runs:
    here the deletion of the list that was replaced. *)
Theorem repeated_operations_set_two :
  match decode_ArkivTransaction zero_transaction repeated_json with
  | Ok tx =>
      match tx_Operations tx with
      | [o] => op_pointers o = [false; false; true; true; false; false]
      | _ => False
      end
  | _ => False
  end.
Proof. vm_compute. reflexivity. Qed.
